(* ===== verification/_CoqProject ===== *)
-Q . S2P
Prelude.v
Num.v
GoTime.v
GoText.v
Json.v
JsonStruct.v
Model.v
PowerMap.v
Candidates.v
MathExp.v
EqualDispatcher.v
SmartDispatcher.v
SmartDelivery.v
LPDispatcher.v
SegmentedDispatcher.v
Fallback.v
FallbackDelivery.v
FallbackFloat.v
VehicleStatus.v
DispatchLog.v
Tuner.v
EventBus.v
BusDelivery.v
Monitoring.v
MqttClient.v
MqttSetup.v
Manager.v
ManagerFacts.v
Prediction.v
Concurrent.v
ManagerRun.v
Collectors.v
Discovery.v
Scheduler.v
Export.v
JsonTime.v
JsonExport.v
LogCodec.v
Simulator.v
Fleet.v
Eco.v
Kpi.v
Config.v
Rte.v
Telemetry.v
TelemetryRun.v
Wire.v
WireDiscovery.v
WireRte.v
Sinks.v
Prom.v
Scenarios.v
Influx.v
PromServer.v
Loggers.v
Service.v
Commands.v
RteServer.v
Process.v
Api.v
LogFiles.v
Witnesses.v
SystemWitnesses.v
TestUtil.v
RunWitnesses.v
WireWitnesses.v
