(* ===== verification/Prelude.v ===== *)
(** * V2G dispatch: a verification library

    The program dispatches the power a grid operator asks for (a flexibility
    signal) to a fleet of electric vehicles that can feed energy back.  A signal
    comes from a connector ([rte/]) or a generator; the dispatch manager
    ([core/dispatch/manager.go]) discovers the fleet over MQTT, filters it, lets a
    dispatcher assign powers, sends one order per vehicle in parallel, waits for
    acknowledgments, reallocates the power of vehicles that failed, and records
    what happened: in the metrics sinks, the event bus, the dispatch log, the
    vehicle status store and the history the tuner learns from.  Beside it stand
    a day-ahead scheduler, a telemetry manager, ecological KPIs and a vehicle
    simulator.

    ** Conventions

    - Arithmetic.  The code computes with [float64].  Definitions are generic in
      the class [Num] of [Num.v], with two instances: binary64 as specified by
      IEEE 754 ([spec_float]) and exact rationals.  A theorem for every arithmetic
      (or every one with the order laws [NumOrder], which binary64 has) holds of
      the code as it runs, NaNs included; a theorem over the rationals describes
      what the algorithm computes without rounding.  [math.Exp] is the class
      [MathExp] with Go's portable algorithm as its binary64 instance.
    - Integers, times.  [GoTime.v]: 64-bit integers with their wrap-around,
      [time.Duration] in nanoseconds, [time.Time] as nanoseconds since year 1 with
      a zone offset, [Sub] saturating.
    - Maps.  [map\[string\]float64] is a [gmap] ([PowerMap.v]).  Every [range] over a
      map takes its order from the class [MapRange]; theorems quantify over it.
    - Errors.  [option] and sums; a panic or exhausted fuel is [None], and the
      termination theorems show how much fuel is enough.
    - Concurrency.  Goroutines of a dispatch finish in an order given by the
      environment; the event bus and the MQTT client have step relations whose
      reachable states are all interleavings.
    - Outside code (the simplex solver of gonum, the broker, SQL, koanf,
      Prometheus) is a parameter; what is assumed of it is a named hypothesis
      ([solver_complete], [env_fair], [RegistererLaws], [Rotation]), and the files
      of witnesses instantiate it.  So is the text of a float ([FloatTextLaws]).

    ** Files

    - [Prelude], [Num], [GoTime], [PowerMap], [MathExp]: the foundations above,
      the hint database [v2g] and the tactics [bool_simpl], [num_Q], [q_case].
    - [Model]: [core/model] (signals, vehicles, effective capacity).
    - [Candidates]: [filter.go], [context.go], [helpers.go]: the vehicles that may
      be used and the power each has, limited by its energy above the floor.
    - [EqualDispatcher]: [dispatcher.go].  It terminates in every arithmetic and
      delivers the request or the fleet's power; negative requests ignore
      [MaxPower].
    - [SmartDispatcher], [SmartDelivery]: [smart_dispatcher.go].  Rounds are bounded
      by [MaxRounds], which is also the fuel; assignments respect every limit and
      the request, and the shortfall shrinks geometrically or everybody is full.
    - [LPDispatcher]: [lp_dispatcher.go].  Clamping, the infeasibility test, and
      safety of the greedy replacement.
    - [SegmentedDispatcher]: [segmented_dispatcher.go].  Independent of the order of
      maps; each segment is as safe as the dispatcher it uses.
    - [Fallback], [FallbackDelivery], [FallbackFloat]: [balanced_fallback.go] and
      [probabilistic_fallback.go].  The two agree; a result restores the power or
      saturates the survivors; the exact condition under which the loop stops,
      and a binary64 input on which it never does.
    - [VehicleStatus], [DispatchLog], [LogFiles]: [core/vehiclestatus],
      [core/dispatch/logging]: what the stores return for what was put in.
      [LogFiles] adds the files and the database with their failures, the
      interface of the log stores as a class with a contract that the endpoint is
      proved against, restarts, and what a rotation does to the answers.
    - [Tuner]: [ack_tuner.go]: bounds and direction of the tuned weight, and the
      data of a dispatch result.
    - [EventBus], [BusDelivery]: [internal/eventbus]: no interleaving panics;
      delivery; closing; a subscriber that keeps receiving gets what was buffered.
    - [Monitoring]: [core/monitoring], [infra/monitoring]: what reaches Sentry.
    - [MqttClient], [MqttSetup], [Discovery]: [infra/mqtt]: retries, acknowledgments in
      every interleaving, the options of the connections, discovery of the fleet,
      the mock publisher.
    - [Manager], [ManagerFacts], [ManagerRun]: [manager.go]: the whole handler as a
      function of the state and the environment; which orders are sent, what is
      recorded, when the fallback runs, and independence of the goroutines'
      order.  [ManagerRun] states what the manager relies on from a dispatcher as
      the class [DispatchContract], proves the safety of every run from
      construction on against it, and shows that all four dispatchers keep it.
    - [Collectors]: [core/dispatch/metrics.go] and the places that change the
      collectors: they are a function of the results of the dispatches.
    - [Concurrent]: calls of the handler from several goroutines, cut at their
      accesses to the shared state: with the service's stateless parts each call
      returns what it would alone; a shared fallback breaks this.
    - [Prediction]: [core/prediction]: the mock engine, and what a prediction changes.
    - [Scheduler], [Export], [JsonExport]: [core/scheduler]: plans meet the target or report a lack of
      capacity.  The fuel of [distribute] is the number of vehicles, which is
      proved to be enough.
      [Export] adds the scheduler's files: its configuration, and the plan as CSV
      ([pkg/export]), which reads back unchanged; [JsonExport] the plan as JSON.
    - [Simulator], [Fleet]: [simulator/]: the battery conserves energy, a simulated
      vehicle stays within its limits, defects of its publishing and connecting;
      from the command line to a fleet whose vehicles keep those limits.
    - [Eco]: [core/metrics/eco], [infra/metrics/eco.go], [jobs/ecokpi]: daily totals,
      and the backfill rebuilds what the live sink recorded.
    - [Kpi]: [infra/kpi/sqlite.go]: the database of the KPIs refines their
      in-memory store, over restarts too; both keep the contract [EcoContract].
    - [Api]: [api/]: what the REST handlers answer, against the stores and against
      the contract of the KPI stores.
    - [GoText], [Config], [Rte], [RteServer]: strings as Go's library treats them,
      [config/], [rte/]: what [Load] guarantees, the signal endpoint with its
      counters, the generator and its loop.
    - [Json], [JsonStruct]: the part of [encoding/json] the program uses: UTF-8, the
      text of a value, a reader with its grammar, the fields of a struct.  What is
      written reads back, and the reader's fuel (twice the length and one) is
      shown to be enough.
    - [Wire], [WireDiscovery], [WireRte]: the messages between the dispatcher, the
      simulated vehicles and the grid operator, byte for byte: an order is
      acknowledged, a state recorded, a fleet discovered, a signal handled.
    - [JsonTime], [LogCodec]: timestamps in JSON; the bytes of the log file, which
      refine the lines of [DispatchLog].
    - [Telemetry], [TelemetryRun]: [infra/telemetry]: recorded states, a poll, and
      the manager as a state machine whose runs are sequences of polls over the
      stream of responses, in every interleaving.
    - [Sinks], [Prom], [Influx], [PromServer], [Loggers]: [infra/metrics],
      [infra/logger]: forwarding to several sinks, the event collector, the
      counters of Prometheus (every order is counted twice), the points of
      InfluxDB, the life of the metrics server, the loggers.
    - [Service], [Commands]: [app/], [cmd/]: the service from its configuration to any
      sequence of inputs, and the other commands.  [service_safe] composes the
      configuration, discovery, manager, dispatcher, endpoint and generator.
    - [Process]: the registrations of all parts in the registry of the process, as a
      small monad over the class [Registerer] with the documented laws: one
      service starts without a panic, a second one only without telemetry.
    - [Scenarios]: [qa/scenarios]: the acceptance scenarios of the repository, which
      the model passes on binary64.
    - [TestUtil]: [test/util]: the polling loops of the integration tests, and that
      a broker started for a test leaves nothing behind.
    - [Witnesses], [SystemWitnesses], [RunWitnesses], [WireWitnesses]: concrete
      inputs for every theorem with hypotheses.

    ** Bounds and fuel

    Loops whose termination is not structural take fuel and return [None] without
    it.  [EqualDispatch] runs with the number of vehicles; [SmartDispatch] with
    [MaxRounds]; [SegmentedDispatch] with 10, the default [MaxRounds] of the
    dispatchers it creates; [GeneratePlan] with the number of vehicles: each is
    proved sufficient.  [allocatePower] has no sufficient fuel in general, which
    [allocatePower_stops] makes precise.  The scenarios run a [SmartDispatcher]
    without a limit on its rounds, which ends when its shares underflow; 1200
    rounds are enough for them.

    ** Not modelled

    What the log says; the SQL engine beyond the statements the stores use; timers
    and serving HTTP beyond the handlers and the life of the servers; the bytes
    of the answers of the REST handlers (their values are modelled), how a float is
    printed and how a timestamp is read; the libraries (Paho, koanf, Prometheus,
    InfluxDB, Sentry, lumberjack, zerolog, cobra, Docker), which are arguments. *)

From stdpp Require Import base gmap strings list fin_maps sorting.
From Stdlib Require Import ZArith QArith Lqa Lia.

#[local] Open Scope Z_scope.

(** ** Go maps *)

(** Go leaves the iteration order of [range m] over a map unspecified.  Every
    loop of the code over a map takes its order from an instance of this class,
    so a theorem that quantifies over the instance holds for every order the
    runtime may pick. *)
Class MapRange := {
  range_map : ∀ {K} `{Countable K} {A}, gmap K A → list (K * A);
  range_map_perm : ∀ {K} `{Countable K} {A} (m : gmap K A),
    range_map m ≡ₚ map_to_list m
}.

(** The order in which stdpp enumerates a map is one admissible order: the one
    used to evaluate the model on concrete inputs. *)
#[export] Instance range_default : MapRange :=
  {| range_map := fun K _ _ A m => map_to_list m;
     range_map_perm := fun K _ _ A m => Permutation_refl _ |}.

(** Inserting entries with distinct keys one by one. *)
Lemma foldl_insert_union `{Countable K} {A} (l : list (K * A)) (acc : gmap K A) :
  NoDup l.*1 → foldl (fun acc '(k, x) => <[k := x]> acc) acc l = list_to_map l ∪ acc.
Proof.
  revert acc. induction l as [|[k x] l IH]; intros acc Hnd; cbn; [by rewrite (left_id_L ∅ (∪))|].
  apply NoDup_cons in Hnd as [Hk Hnd]. rewrite IH by done.
  rewrite <- insert_union_r, insert_union_l; [done|]. by apply not_elem_of_list_to_map_1.
Qed.

Section range.
Context `{Countable K} {A : Type} `{!MapRange}.
Implicit Types m : gmap K A.

Lemma elem_of_range m k x : (k, x) ∈ range_map m ↔ m !! k = Some x.
Proof. rewrite range_map_perm. apply elem_of_map_to_list. Qed.

Lemma range_fst_NoDup m : NoDup (range_map m).*1.
Proof. rewrite range_map_perm. apply NoDup_fst_map_to_list. Qed.

Lemma elem_of_range_fst m k : k ∈ (range_map m).*1 ↔ is_Some (m !! k).
Proof.
  rewrite list_elem_of_fmap. split.
  - intros ([k' x] & -> & Hin%elem_of_range). by exists x.
  - intros [x Hx]. exists (k, x). by rewrite elem_of_range.
Qed.

Lemma range_empty : range_map (∅ : gmap K A) = [].
Proof. apply Permutation_nil. by rewrite range_map_perm, map_to_list_empty. Qed.

Lemma length_range m : length (range_map m) = size m.
Proof. rewrite range_map_perm. apply length_map_to_list. Qed.

(** Copying the entries of [m] into a map, in any order, overrides it. *)
Lemma range_merge m (acc : gmap K A) :
  foldl (fun acc '(k, x) => <[k := x]> acc) acc (range_map m) = m ∪ acc.
Proof.
  rewrite foldl_insert_union by apply range_fst_NoDup. f_equal.
  rewrite <- (list_to_map_to_list m) at 2.
  apply list_to_map_proper; [apply range_fst_NoDup|apply range_map_perm].
Qed.

Lemma range_copy m : foldl (fun acc '(k, x) => <[k := x]> acc) ∅ (range_map m) = m.
Proof. by rewrite range_merge, (right_id_L ∅ (∪)). Qed.
End range.

(** Facts that close the side conditions of the components' proofs. *)
Create HintDb v2g.
#[export] Hint Resolve range_fst_NoDup range_map_perm elem_of_range : v2g.

(** ** Generic list lemmas *)

Lemma length_filter_le {A} (P : A → Prop) `{∀ x, Decision (P x)} (l : list A) :
  (length (filter P l) ≤ length l)%nat.
Proof. apply length_filter. Qed.

Lemma sublist_incl {A} (l k : list A) x : sublist l k → x ∈ l → x ∈ k.
Proof. intros Hs Hx. eapply elem_of_submseteq; [done|]. by apply sublist_submseteq. Qed.

Lemma fmap_sublist_mono {A B} (f : A → B) (l k : list A) :
  sublist l k → sublist (f <$> l) (f <$> k).
Proof. induction 1; cbn; by constructor. Qed.

Lemma NoDup_fmap_sublist {A B} (f : A → B) (l k : list A) :
  sublist l k → NoDup (f <$> k) → NoDup (f <$> l).
Proof.
  induction 1 as [|x l k Hs IH|x l k Hs IH]; cbn; rewrite ?NoDup_cons; intros Hnd.
  - done.
  - destruct Hnd as [Hx Hnd]. split; [|by apply IH].
    contradict Hx. rewrite list_elem_of_fmap in *.
    destruct Hx as (y & -> & Hy). exists y. split; [done|].
    eapply elem_of_submseteq; [done|]. by apply sublist_submseteq.
  - apply IH. by destruct Hnd.
Qed.

Lemma NoDup_fmap_in_inj {A B} (f : A → B) (l : list A) x y :
  NoDup (f <$> l) → x ∈ l → y ∈ l → f x = f y → x = y.
Proof.
  induction l as [|z l IH]; cbn; rewrite ?NoDup_cons; intros Hnd Hx Hy Hf.
  { by apply not_elem_of_nil in Hx. }
  destruct Hnd as [Hz Hnd].
  rewrite list_elem_of_fmap in Hz.
  apply elem_of_cons in Hx as [->|Hx], Hy as [->|Hy]; try done.
  - contradict Hz. by exists y.
  - contradict Hz. by exists x.
  - by apply IH.
Qed.

(** Loops that append the elements satisfying a boolean test. *)
Lemma elem_of_List_filter {A} (f : A → bool) (l : list A) x :
  x ∈ List.filter f l ↔ x ∈ l ∧ f x = true.
Proof. by rewrite !list_elem_of_In, filter_In. Qed.

Lemma List_filter_sublist {A} (f : A → bool) (l : list A) : sublist (List.filter f l) l.
Proof. induction l as [|x l IH]; cbn; [done|]. destruct (f x); by constructor. Qed.

Lemma List_filter_all {A} (f : A → bool) (l : list A) : (∀ x, f x = true) → List.filter f l = l.
Proof. intros Hf. induction l as [|x l IH]; [done|]. cbn. by rewrite Hf, IH. Qed.

Lemma List_filter_perm {A} (f : A → bool) (l k : list A) :
  l ≡ₚ k → List.filter f l ≡ₚ List.filter f k.
Proof.
  induction 1 as [|x l k Hp IH|x y l|l1 l2 l3 _ IH1 _ IH2]; cbn.
  - done.
  - destruct (f x); [by constructor|done].
  - destruct (f x), (f y); try done. constructor.
  - by etrans.
Qed.

(** ** Sorting by a key *)

(** [sort.Slice] with [key(i) < key(j)], for a total order [R] of the keys. *)
Definition sort_key {A K} (R : relation K) `{!RelDecision R} (key : A → K) (l : list A) : list A :=
  merge_sort (fun x y => R (key x) (key y)) (H := fun x y => decide_rel R (key x) (key y)) l.

Section sort_key.
Context {A K : Type} (R : relation K) `{!RelDecision R, !Total R, !Transitive R, !AntiSymm (=) R}.
Context (key : A → K).
Implicit Types l : list A.

#[local] Instance key_total : Total (fun x y : A => R (key x) (key y)).
Proof. intros x y. apply (total R). Qed.

#[local] Instance key_trans : Transitive (fun x y : A => R (key x) (key y)).
Proof. intros x y z. apply (transitivity (R := R)). Qed.

Lemma sort_key_perm l : sort_key R key l ≡ₚ l.
Proof. apply merge_sort_Permutation. Qed.

Lemma sort_key_sorted l : StronglySorted (fun x y => R (key x) (key y)) (sort_key R key l).
Proof. apply Sorted_StronglySorted; [apply _|]. apply Sorted_merge_sort. apply _. Qed.

(** With distinct keys the result only depends on the elements. *)
Lemma sort_key_unique l k : NoDup (key <$> l) → l ≡ₚ k → sort_key R key l = sort_key R key k.
Proof.
  intros Hnd Hp. eapply StronglySorted_unique_strong; [|apply sort_key_sorted..|].
  - intros x y. rewrite !sort_key_perm, <- Hp. intros Hx Hy Hxy Hyx.
    eapply (NoDup_fmap_in_inj key l); [done..|]. by apply (anti_symm R).
  - by rewrite !sort_key_perm.
Qed.
End sort_key.

(** Lists sorted by keys. *)
Lemma StronglySorted_fmap_mono {A B} (f : A → B) (R : relation A) (S : relation B) (l : list A) :
  (∀ x y, R x y → S (f x) (f y)) → StronglySorted R l → StronglySorted S (f <$> l).
Proof.
  intros Hf. induction 1 as [|x l Hl IH Hx]; [constructor|]. rewrite fmap_cons.
  constructor; [done|]. apply Forall_fmap, Forall_forall. rewrite Forall_forall in Hx. cbn. auto.
Qed.

Lemma Forall2_fmap_eq {A B C} (f : A → C) (g : B → C) (P : A → B → Prop) (l : list A) (k : list B) :
  f <$> l = g <$> k → (∀ x y, x ∈ l → y ∈ k → f x = g y → P x y) → Forall2 P l k.
Proof.
  revert k. induction l as [|x l IH]; intros [|y k] Heq HP; try done.
  rewrite !fmap_cons in Heq. injection Heq as Hxy Heq. constructor.
  - apply HP; [by left|by left|done].
  - apply IH; [done|]. intros x' y' Hx Hy. apply HP; by right.
Qed.

(** Go's bytewise order of strings. *)
Abbreviation sort_by key := (sort_key String.le key).

(** Boolean hypotheses produced by the translated guards. *)
Ltac bool_simpl :=
  repeat match goal with
  | H : _ && _ = true |- _ => apply andb_true_iff in H as [? ?]
  | H : _ || _ = false |- _ => apply orb_false_iff in H as [? ?]
  | H : negb _ = true |- _ => apply negb_true_iff in H
  | H : negb _ = false |- _ => apply negb_false_iff in H
  end.

(** Inversion of an equation between pairs or constructors. *)
Ltac invert H := inversion H; subst; clear H.
