(* ===== verification/Num.v ===== *)
(** * Numbers: Go's [float64] behind an interface

    The dispatch code computes with [float64].  Every definition of this
    library that does so is generic in an arithmetic [F] with an instance of
    [Num]; two instances are used:

    - [Num_B64]: IEEE-754 binary64 with rounding to nearest even, on the
      Standard Library's executable [spec_float].  This is what the compiled
      program computes (no fused multiply-add), NaN and infinities included.
    - [Num_Q]: exact rational arithmetic, the idealisation in which sums and
      shares are conserved.

    Theorems about control flow hold for every [Num]; theorems about bounds
    that only rest on comparisons are stated over [NumOrder], which both
    instances satisfy; conservation laws are stated at [Num_Q]. *)

From S2P Require Import Prelude.
From stdpp Require Import base gmap strings list.
From Stdlib Require Import ZArith QArith Qabs Qminmax Lqa Lia Floats.SpecFloat.

#[local] Open Scope Z_scope.

(** ** The interface *)

(** The operations of [float64] the code uses.  [nltb], [nleb] and [neqb] are
    Go's [<], [<=] and [==], all false on a NaN operand; [nmax] and [nmin] are
    [math.Max] and [math.Min]; [nofZ] is the conversion [float64(i)] and
    [nlit n d] the constant [n/d] of the source. *)
Class Num (F : Type) := {
  nadd : F → F → F;
  nsub : F → F → F;
  nmul : F → F → F;
  ndiv : F → F → F;
  nopp : F → F;
  nabs : F → F;
  nltb : F → F → bool;
  nleb : F → F → bool;
  neqb : F → F → bool;
  nmax : F → F → F;
  nmin : F → F → F;
  nofZ : Z → F;
  nlit : Z → positive → F
}.

Declare Scope num_scope.
Delimit Scope num_scope with num.

Notation "x + y" := (nadd x y) : num_scope.
Notation "x - y" := (nsub x y) : num_scope.
Notation "x * y" := (nmul x y) : num_scope.
Notation "x / y" := (ndiv x y) : num_scope.
Notation "- x" := (nopp x) : num_scope.
Notation "x <? y" := (nltb x y) : num_scope.
Notation "x <=? y" := (nleb x y) : num_scope.
Notation "x =? y" := (neqb x y) : num_scope.
Notation "x >? y" := (nltb y x) (only parsing) : num_scope.
Notation "x >=? y" := (nleb y x) (only parsing) : num_scope.
Notation "n // d" := (nlit n%Z d%positive) (at level 40, no associativity) : num_scope.

(** The Go zero value of [float64] and the constant 1. *)
Definition n0 {F} `{Num F} : F := nlit 0 1.
Definition n1 {F} `{Num F} : F := nlit 1 1.

(** [math.IsNaN]: the only value that differs from itself. *)
Definition is_nan {F} `{Num F} (x : F) : bool := negb (neqb x x).

(** ** Order laws shared by both arithmetics *)

(** The positive constants of the source that bounds rest on. *)
Definition src_literals : list (Z * positive) :=
  [(1, 1%positive); (2, 1%positive); (3, 10%positive); (6, 10%positive);
   (5, 10%positive); (1, 10%positive); (2, 10%positive); (4, 10%positive);
   (5, 100%positive); (9, 10%positive); (15, 100%positive);
   (1, 1000%positive); (1, 1000000%positive)].

Class NumOrder (F : Type) `{Num F} := {
  nltb_irrefl (x : F) : nltb x x = false;
  nltb_nleb (x y : F) : nltb x y = true → nleb x y = true;
  nleb_nltb (x y : F) : nleb x y = true → nltb y x = false;
  nleb_trans (x y z : F) : nleb x y = true → nleb y z = true → nleb x z = true;
  nltb_nleb_trans (x y z : F) : nltb x y = true → nleb y z = true → nltb x z = true;
  nleb_nltb_trans (x y z : F) : nleb x y = true → nltb y z = true → nltb x z = true;
  nltb_total (x y : F) :
    is_nan x = false → is_nan y = false → nltb x y = false → nleb y x = true;
  nleb_not_nan (x y : F) : nleb x y = true → is_nan x = false ∧ is_nan y = false;
  nlit_pos n d : (n, d) ∈ src_literals → nltb (n0 : F) (nlit n d) = true
}.

Section order.
Context `{NumOrder F}.
Implicit Types x y z : F.

Lemma nltb_trans x y z : nltb x y = true → nltb y z = true → nltb x z = true.
Proof. intros Hxy Hyz. eapply nltb_nleb_trans; [done|]. by apply nltb_nleb. Qed.

Lemma nltb_asym x y : nltb x y = true → nltb y x = false.
Proof. intros Hxy. by apply nleb_nltb, nltb_nleb. Qed.

Lemma nleb_refl x : is_nan x = false → nleb x x = true.
Proof. intros Hx. apply nltb_total; auto using nltb_irrefl. Qed.

Lemma n0_lt_n1 : nltb (n0 : F) n1 = true.
Proof. apply nlit_pos. left. Qed.

Lemma n0_not_nan : is_nan (n0 : F) = false.
Proof. by destruct (nleb_not_nan _ _ (nltb_nleb _ _ n0_lt_n1)). Qed.

Lemma n1_not_nan : is_nan (n1 : F) = false.
Proof. by destruct (nleb_not_nan _ _ (nltb_nleb _ _ n0_lt_n1)). Qed.

(** The [if x < lo { x = lo }; if x > hi { x = hi }] idiom of the code. *)
Definition clamp (lo hi x : F) : F :=
  let x := if nltb x lo then lo else x in
  if nltb hi x then hi else x.

Lemma clamp_bounds lo hi x :
  nltb hi lo = false →
  nltb (clamp lo hi x) lo = false ∧ nltb hi (clamp lo hi x) = false.
Proof.
  intros Hord. unfold clamp.
  destruct (nltb x lo) eqn:Hlo; [rewrite Hord, nltb_irrefl; done|].
  destruct (nltb hi x) eqn:Hhi; [rewrite Hord, nltb_irrefl; done|done].
Qed.
End order.

#[export] Hint Resolve nltb_irrefl nltb_asym n0_lt_n1 : v2g.

(** ** Exact rationals *)

#[global] Arguments Qplus : simpl never.
#[global] Arguments Qminus : simpl never.
#[global] Arguments Qmult : simpl never.
#[global] Arguments Qdiv : simpl never.
#[global] Arguments Qopp : simpl never.
#[global] Arguments Qabs : simpl never.
#[global] Arguments Qle_bool : simpl never.
#[global] Arguments Qeq_bool : simpl never.

Definition Qltb (x y : Q) : bool := negb (Qle_bool y x).

#[global] Arguments Qltb : simpl never.

#[export] Instance Num_Q : Num Q := {|
  nadd := Qplus; nsub := Qminus; nmul := Qmult; ndiv := Qdiv;
  nopp := Qopp; nabs := Qabs;
  nltb := Qltb; nleb := Qle_bool; neqb := Qeq_bool;
  nmax := Qmax; nmin := Qmin;
  nofZ := inject_Z; nlit := Qmake
|}.

Lemma Qltb_spec (x y : Q) : reflect (x < y)%Q (Qltb x y).
Proof.
  unfold Qltb. destruct (Qle_bool y x) eqn:Hle; cbn; constructor.
  - apply Qle_bool_iff in Hle. lra.
  - apply not_true_iff_false in Hle. rewrite Qle_bool_iff in Hle. lra.
Qed.

Lemma Qleb_spec (x y : Q) : reflect (x <= y)%Q (Qle_bool x y).
Proof. apply iff_reflect. symmetry. apply Qle_bool_iff. Qed.

Lemma Qeqb_spec (x y : Q) : reflect (x == y)%Q (Qeq_bool x y).
Proof. apply iff_reflect. symmetry. apply Qeq_bool_iff. Qed.

(** [num_Q] exposes the rational operations behind the interface; [q_bool]
    turns boolean comparisons in the context into propositions; [q_case]
    splits on the comparisons the goal branches on. *)
Ltac num_Q :=
  unfold n0, n1, is_nan in *;
  cbn [nadd nsub nmul ndiv nopp nabs nltb nleb neqb nmax nmin nofZ nlit Num_Q] in *.

Ltac q_bool :=
  repeat match goal with
  | H : Qltb ?x ?y = true |- _ => destruct (Qltb_spec x y); [clear H|discriminate H]
  | H : Qltb ?x ?y = false |- _ => destruct (Qltb_spec x y); [discriminate H|clear H]
  | H : Qle_bool ?x ?y = true |- _ => destruct (Qleb_spec x y); [clear H|discriminate H]
  | H : Qle_bool ?x ?y = false |- _ => destruct (Qleb_spec x y); [discriminate H|clear H]
  | H : Qeq_bool ?x ?y = true |- _ => destruct (Qeqb_spec x y); [clear H|discriminate H]
  | H : Qeq_bool ?x ?y = false |- _ => destruct (Qeqb_spec x y); [discriminate H|clear H]
  end.

Ltac q_case :=
  match goal with
  | |- context [Qltb ?x ?y] => destruct (Qltb_spec x y)
  | |- context [Qle_bool ?x ?y] => destruct (Qleb_spec x y)
  | |- context [Qeq_bool ?x ?y] => destruct (Qeqb_spec x y)
  end.

#[export] Instance NumOrder_Q : NumOrder Q.
Proof.
  split; intros; num_Q; bool_simpl; rewrite ?Qeq_bool_refl; try done.
  - q_case; [lra|done].
  - q_bool. apply Qle_bool_iff. lra.
  - q_bool. q_case; [lra|done].
  - q_bool. apply Qle_bool_iff. lra.
  - q_bool. q_case; [done|lra].
  - q_bool. q_case; [done|lra].
  - q_bool. apply Qle_bool_iff. lra.
  - match goal with H : _ ∈ src_literals |- _ => rename H into Hin end.
    unfold src_literals in Hin.
    repeat (apply elem_of_cons in Hin as [[= -> ->]|Hin]; [done|]).
    by apply not_elem_of_nil in Hin.
Qed.

(** ** IEEE-754 binary64 *)

Definition prec64 : Z := 53.
Definition emax64 : Z := 1024.

(** [math.Max] and [math.Min] with their special cases. *)
Definition b64_is_inf (s : bool) (x : spec_float) : bool :=
  match x with S754_infinity s' => Bool.eqb s s' | _ => false end.

Definition b64_is_nan (x : spec_float) : bool :=
  match x with S754_nan => true | _ => false end.

Definition b64_signbit (x : spec_float) : bool :=
  match x with
  | S754_zero s | S754_infinity s | S754_finite s _ _ => s
  | S754_nan => false
  end.

Definition b64_is_zero (x : spec_float) : bool :=
  match x with S754_zero _ => true | _ => false end.

Definition b64_max (x y : spec_float) : spec_float :=
  if b64_is_inf false x || b64_is_inf false y then S754_infinity false
  else if b64_is_nan x || b64_is_nan y then S754_nan
  else if b64_is_zero x && b64_is_zero y then (if b64_signbit x then y else x)
  else if SFltb y x then x else y.

Definition b64_min (x y : spec_float) : spec_float :=
  if b64_is_inf true x || b64_is_inf true y then S754_infinity true
  else if b64_is_nan x || b64_is_nan y then S754_nan
  else if b64_is_zero x && b64_is_zero y then (if b64_signbit x then x else y)
  else if SFltb x y then x else y.

(** Correctly rounded conversion of an integer.  A decimal constant of the
    source is the correctly rounded quotient of two exactly represented
    integers, which is the correctly rounded constant. *)
Definition b64_of_Z (z : Z) : spec_float := binary_normalize prec64 emax64 z 0 false.

#[export] Instance Num_B64 : Num spec_float := {|
  nadd := SFadd prec64 emax64; nsub := SFsub prec64 emax64;
  nmul := SFmul prec64 emax64; ndiv := SFdiv prec64 emax64;
  nopp := SFopp; nabs := SFabs;
  nltb := SFltb; nleb := SFleb; neqb := SFeqb;
  nmax := b64_max; nmin := b64_min;
  nofZ := b64_of_Z;
  nlit := fun n d => SFdiv prec64 emax64 (b64_of_Z n) (b64_of_Z (Z.pos d))
|}.

(** Comparison of two numbers that are not NaN is lexicographic in this key:
    the class (by sign), then the signed exponent, then the signed mantissa. *)
Definition b64_key (x : spec_float) : Z * Z * Z :=
  match x with
  | S754_nan => (3, 0, 0)
  | S754_infinity s => (if s then -2 else 2, 0, 0)
  | S754_zero _ => (0, 0, 0)
  | S754_finite s m e =>
    if s then (-1, - e, - Z.pos m) else (1, e, Z.pos m)
  end.

Definition lex3 (a b : Z * Z * Z) : comparison :=
  match fst (fst a) ?= fst (fst b) with
  | Eq => match snd (fst a) ?= snd (fst b) with
          | Eq => snd a ?= snd b
          | c => c
          end
  | c => c
  end.

Lemma SFcompare_key (x y : spec_float) :
  SFcompare x y =
  if b64_is_nan x || b64_is_nan y then None else Some (lex3 (b64_key x) (b64_key y)).
Proof.
  destruct x as [[]|[]| |[] m e], y as [[]|[]| |[] m' e']; cbn; try done;
    unfold lex3; cbn.
  - rewrite !Z.compare_opp, (Z.compare_antisym e' e).
    destruct (e' ?= e); cbn; try done.
    by rewrite (Pos.compare_antisym m m').
Qed.

Definition lex3_lt (a b : Z * Z * Z) : Prop :=
  fst (fst a) < fst (fst b) ∨
  fst (fst a) = fst (fst b) ∧
    (snd (fst a) < snd (fst b) ∨ snd (fst a) = snd (fst b) ∧ snd a < snd b).

Lemma lex3_spec (a b : Z * Z * Z) : CompareSpec (a = b) (lex3_lt a b) (lex3_lt b a) (lex3 a b).
Proof.
  destruct a as [[a1 a2] a3], b as [[b1 b2] b3]. unfold lex3, lex3_lt. cbn.
  destruct (Z.compare_spec a1 b1); [|constructor; lia..].
  destruct (Z.compare_spec a2 b2); [|constructor; lia..].
  destruct (Z.compare_spec a3 b3); constructor; subst; auto; lia.
Qed.

Lemma SFltb_iff (x y : spec_float) :
  SFltb x y = true ↔
  b64_is_nan x = false ∧ b64_is_nan y = false ∧ lex3_lt (b64_key x) (b64_key y).
Proof.
  unfold SFltb. rewrite SFcompare_key.
  destruct (b64_is_nan x), (b64_is_nan y); cbn; [naive_solver..|].
  destruct (lex3_spec (b64_key x) (b64_key y)) as [Heq|Hlt|Hlt]; [rewrite Heq in *|..];
    unfold lex3_lt in *; split; intuition (lia || done).
Qed.

Lemma SFleb_iff (x y : spec_float) :
  SFleb x y = true ↔
  b64_is_nan x = false ∧ b64_is_nan y = false ∧
    (b64_key x = b64_key y ∨ lex3_lt (b64_key x) (b64_key y)).
Proof.
  unfold SFleb. rewrite SFcompare_key.
  destruct (b64_is_nan x), (b64_is_nan y); cbn; [naive_solver..|].
  destruct (lex3_spec (b64_key x) (b64_key y)) as [Heq|Hlt|Hlt]; [tauto|tauto|].
  split; [done|]. unfold lex3_lt in *. intros (_ & _ & [Heq|?]); [rewrite Heq in *|]; lia.
Qed.

Lemma is_nan_B64 (x : spec_float) : is_nan x = b64_is_nan x.
Proof.
  unfold is_nan. cbn. unfold SFeqb. rewrite SFcompare_key.
  destruct (b64_is_nan x); [done|]. cbn.
  destruct (lex3_spec (b64_key x) (b64_key x)); [done|..]; unfold lex3_lt in *; lia.
Qed.

Lemma lex3_total (a b : Z * Z * Z) : lex3_lt a b ∨ b = a ∨ lex3_lt b a.
Proof. destruct (lex3_spec a b); auto. Qed.

#[export] Instance NumOrder_B64 : NumOrder spec_float.
Proof.
  split; intros *; rewrite ?is_nan_B64; cbn [nltb nleb Num_B64];
    rewrite <- ?not_true_iff_false, ?SFltb_iff, ?SFleb_iff.
  - unfold lex3_lt. lia.
  - tauto.
  - intros (_ & _ & [Heq|?]) (_ & _ & ?); [rewrite Heq in *|]; unfold lex3_lt in *; lia.
  - intros (? & ? & [Heq|?]) (? & ? & [Heq'|?]); [rewrite Heq, Heq'; auto|..];
      (split_and!; [done..|]); right; try (rewrite Heq || rewrite <- Heq'; done).
    unfold lex3_lt in *; lia.
  - intros (? & ? & ?) (? & ? & [Heq'|?]); (split_and!; [done..|]);
      [by rewrite <- Heq'|unfold lex3_lt in *; lia].
  - intros (? & ? & [Heq|?]) (? & ? & ?); (split_and!; [done..|]);
      [by rewrite Heq|unfold lex3_lt in *; lia].
  - rewrite !not_true_iff_false. intros -> -> Hlt.
    destruct (lex3_total (b64_key x) (b64_key y)) as [?|[?|?]]; tauto.
  - rewrite !not_true_iff_false. tauto.
  - intros Hin. apply SFltb_iff. unfold src_literals in Hin.
    repeat (apply elem_of_cons in Hin as [[= -> ->]|Hin]; [vm_compute; done|]).
    by apply not_elem_of_nil in Hin.
Qed.
