(* ===== verification/GoTime.v ===== *)
(** * Go's [int64] durations and [time.Time]

    [time.Duration] is an [int64] number of nanoseconds and is kept at that
    width: products and sums that the code forms wrap around.  [time.Time] is an
    instant (nanoseconds since the zero time, 1 January of year 1 UTC) together
    with the zone offset that [Year], [Month] and [Day] read it in. *)

From S2P Require Import Prelude Num.
From stdpp Require Import base gmap strings list.
From Stdlib Require Import ZArith QArith Lqa Lia.

#[local] Open Scope Z_scope.

(** ** Machine integers *)

Definition min_int64 : Z := - 2 ^ 63.
Definition max_int64 : Z := 2 ^ 63 - 1.

(** Two's complement wrap-around of a 64-bit signed result. *)
Definition wrap64 (z : Z) : Z := (z + 2 ^ 63) mod 2 ^ 64 - 2 ^ 63.

Definition int64 (z : Z) : Prop := min_int64 <= z <= max_int64.

#[export] Instance int64_dec z : Decision (int64 z).
Proof. unfold int64. apply _. Defined.

Lemma wrap64_int64 z : int64 (wrap64 z).
Proof.
  unfold int64, wrap64, min_int64, max_int64.
  pose proof (Z.mod_pos_bound (z + 2 ^ 63) (2 ^ 64) ltac:(lia)). lia.
Qed.

Lemma wrap64_id z : int64 z → wrap64 z = z.
Proof.
  unfold int64, wrap64, min_int64, max_int64. intros Hz.
  rewrite Z.mod_small; lia.
Qed.

(** ** Durations *)

Abbreviation Duration := Z (only parsing).

Definition Nanosecond : Duration := 1.
Definition Millisecond : Duration := 1000000.
Definition Second : Duration := 1000 * Millisecond.
Definition Minute : Duration := 60 * Second.
Definition Hour : Duration := 60 * Minute.

(** [Duration.Hours]: [float64(d / Hour) + float64(d % Hour) / (60*60*1e9)]. *)
Definition Hours {F} `{Num F} (d : Duration) : F :=
  (nofZ (Z.quot d Hour) + nofZ (Z.rem d Hour) / nlit 3600000000000 1)%num.

(** [Duration.Seconds]: [float64(d / Second) + float64(d % Second) / 1e9]. *)
Definition Seconds {F} `{Num F} (d : Duration) : F :=
  (nofZ (Z.quot d Second) + nofZ (Z.rem d Second) / nlit 1000000000 1)%num.

(** [Duration.Minutes]: [float64(d / Minute) + float64(d % Minute) / (60*1e9)]. *)
Definition Minutes {F} `{Num F} (d : Duration) : F :=
  (nofZ (Z.quot d Minute) + nofZ (Z.rem d Minute) / nlit 60000000000 1)%num.

(** Over exact arithmetic the conversions are the quotients they stand for. *)
Lemma Hours_Q (d : Duration) : (Hours d == inject_Z d / inject_Z Hour)%Q.
Proof.
  unfold Hours. num_Q.
  rewrite (Z.quot_rem' d Hour) at 3. rewrite inject_Z_plus, inject_Z_mult.
  change (3600000000000 # 1)%Q with (inject_Z Hour). field. done.
Qed.

Lemma Hours_Q_pos (d : Duration) : 0 < d → (0 < Hours d)%Q.
Proof.
  intros Hd. rewrite Hours_Q. apply Qlt_shift_div_l; [done|].
  rewrite Qmult_0_l. change 0%Q with (inject_Z 0). by rewrite <- Zlt_Qlt.
Qed.

(** ** Instants *)

Record Time := MkTime { t_ns : Z; t_zone : Z }.

#[export] Instance Time_eq_dec : EqDecision Time.
Proof. solve_decision. Defined.

#[export] Instance Time_countable : Countable Time.
Proof.
  refine (inj_countable' (fun t => (t_ns t, t_zone t)) (fun p => MkTime p.1 p.2) _).
  by intros [].
Defined.

Definition time_zero : Time := MkTime 0 0.

Definition IsZero (t : Time) : bool := t_ns t =? 0.
Definition Before (t u : Time) : bool := t_ns t <? t_ns u.
Definition After (t u : Time) : bool := t_ns u <? t_ns t.
Definition TimeEqual (t u : Time) : bool := t_ns t =? t_ns u.

Definition Add (t : Time) (d : Duration) : Time := MkTime (t_ns t + d) (t_zone t).

(** Seconds since 1970; [t_ns] counts from the zero [Time], in the year 1. *)
Definition Unix (t : Time) : Z := t_ns t / Second - 62135596800.

(** [Time.Sub] saturates at the range of [Duration]. *)
Definition Sub (t u : Time) : Duration :=
  let d := t_ns t - t_ns u in
  if d <? min_int64 then min_int64 else if max_int64 <? d then max_int64 else d.

Lemma Sub_int64 t u : int64 (Sub t u).
Proof.
  unfold Sub, int64. repeat case_match; unfold min_int64, max_int64 in *; lia.
Qed.

Lemma Sub_Add t d : int64 d → Sub (Add t d) t = d.
Proof.
  unfold int64, Sub, Add. cbn. intros Hd.
  replace (t_ns t + d - t_ns t) with d by lia.
  repeat case_match; lia.
Qed.

Definition ns_per_day : Z := 24 * Hour.

(** [time.Date(t.Year(), t.Month(), t.Day(), 0, 0, 0, 0, time.UTC)]: the civil
    day of [t] in its own zone, as midnight UTC. *)
Definition midnight_utc (t : Time) : Time :=
  MkTime ((t_ns t + t_zone t * Second) / ns_per_day * ns_per_day) 0.

Lemma midnight_utc_idemp t : midnight_utc (midnight_utc t) = midnight_utc t.
Proof.
  unfold midnight_utc. cbn [t_ns t_zone]. rewrite Z.mul_0_l, Z.add_0_r.
  by rewrite Z.div_mul.
Qed.

Lemma midnight_utc_le t : t_zone t = 0 →
  t_ns (midnight_utc t) <= t_ns t < t_ns (midnight_utc t) + ns_per_day.
Proof.
  intros Hz. unfold midnight_utc. cbn [t_ns]. rewrite Hz, Z.mul_0_l, Z.add_0_r.
  pose proof (Z.mul_div_le (t_ns t) ns_per_day ltac:(done)).
  pose proof (Z.mul_succ_div_gt (t_ns t) ns_per_day ltac:(done)).
  lia.
Qed.
