(* ===== verification/GoText.v ===== *)
(** * Text: the string functions of Go's library

    What the program uses of [strings], [fmt] and [time] on strings: trimming,
    splitting at slashes, lower case, printing of numbers and dates, and the
    scanning of a decimal number.  Strings are bytes; the functions agree with
    Go's on ASCII, which is all the program's own strings contain. *)

From S2P Require Import Prelude Num GoTime.
From stdpp Require Import base gmap strings list pretty.
From Stdlib Require Import ZArith Ascii Lia.

#[local] Open Scope Z_scope.

(** [strings.ToLower] on ASCII. *)
Definition lower_ascii (a : Ascii.ascii) : Ascii.ascii :=
  let n := Ascii.nat_of_ascii a in
  if (65 <=? n)%nat && (n <=? 90)%nat then Ascii.ascii_of_nat (n + 32) else a.

Fixpoint ToLower (s : string) : string :=
  match s with
  | EmptyString => EmptyString
  | String a s => String (lower_ascii a) (ToLower s)
  end.

(** [strings.TrimSuffix(s, "/")]. *)
Fixpoint TrimSlash (s : string) : string :=
  match s with
  | EmptyString => EmptyString
  | String a EmptyString => if bool_decide (a = "/"%char) then EmptyString else s
  | String a rest => String a (TrimSlash rest)
  end.

(** [strings.TrimSuffix]. *)
Definition TrimSuffix (s suf : string) : string :=
  let n := (String.length s - String.length suf)%nat in
  if bool_decide (String.length suf ≤ String.length s)%nat &&
     bool_decide (String.substring n (String.length suf) s = suf)
  then String.substring 0 n s else s.

(** [strings.TrimPrefix]. *)
Definition TrimPrefix (s pre : string) : string :=
  let fix strip (p s : string) : option string :=
    match p, s with
    | EmptyString, _ => Some s
    | String a p, String b s => if bool_decide (a = b) then strip p s else None
    | String _ _, EmptyString => None
    end in
  default s (strip pre s).

(** [strings.Split(s, "/")]. *)
Fixpoint SplitSlash (s : string) : list string :=
  match s with
  | EmptyString => [""]
  | String a s =>
    if bool_decide (a = "/"%char) then "" :: SplitSlash s else
    match SplitSlash s with
    | [] => [String a ""]
    | part :: parts => String a part :: parts
    end
  end.

(** [filepath.Ext]: from the last dot of the last element of a path. *)
Fixpoint Ext_go (candidate s : string) : string :=
  match s with
  | EmptyString => candidate
  | String a rest =>
    if bool_decide (a = "/"%char) then Ext_go "" rest
    else if bool_decide (a = "."%char) then Ext_go s rest
    else Ext_go candidate rest
  end.

Definition Ext (path : string) : string := Ext_go "" path.

(** ** Dates and numbers *)

(** Year, month and day of a civil day counted from 1 January of year 1, in the
    proleptic Gregorian calendar: cycles of 400 years that start in March. *)
Definition civil (days : Z) : Z * Z * Z :=
  let z := days + 306 in
  let era := z / 146097 in
  let doe := z - era * 146097 in
  let yoe := (doe - doe / 1460 + doe / 36524 - doe / 146096) / 365 in
  let doy := doe - (365 * yoe + yoe / 4 - yoe / 100) in
  let mp := (5 * doy + 2) / 153 in
  let m := if mp <? 10 then mp + 3 else mp - 9 in
  ((yoe + era * 400) + (if m <=? 2 then 1 else 0), m, doy - (153 * mp + 2) / 5 + 1).

(** [appendInt]: a number padded with zeros, behind its sign. *)
Definition pad (width : nat) (n : Z) : string :=
  let digits := pretty (Z.abs_N n) in
  (if n <? 0 then "-" else "") +:+
  String.concat "" (replicate (width - String.length digits) "0") +:+ digits.

(** [t.Format("2006-01-02")], in the zone of [t]. *)
Definition FormatDate (t : Time) : string :=
  let '(y, m, d) := civil ((t_ns t + t_zone t * Second) / ns_per_day) in
  pad 4 y +:+ "-" +:+ pad 2 m +:+ "-" +:+ pad 2 d.

(** [time.Parse(time.RFC3339, s)]; [None] is an error, with the zero time. *)
Abbreviation TimeParser := (string → option Time).

(** Dates around a leap day and at the zero time. *)
Example FormatDate_examples :
  FormatDate <$> [time_zero; MkTime (738944 * ns_per_day) 0; MkTime (738945 * ns_per_day) (-3600)] =
  ["0001-01-01"; "2024-02-29"; "2024-02-29"].
Proof. vm_compute. reflexivity. Qed.

(** ** Decimal numbers *)

Definition digit (a : ascii) : option N :=
  let n := N_of_ascii a in
  if ((48 <=? n) && (n <=? 57))%N then Some (n - 48)%N else None.

(** The value of the leading digits, after [acc]. *)
Fixpoint digits_value (acc : N) (s : string) : N :=
  match s with
  | EmptyString => acc
  | String a s =>
    match digit a with
    | Some d => digits_value (10 * acc + d) s
    | None => acc
    end
  end.

(** The blanks [fmt] skips; a newline is an error instead. *)
Definition is_blank (a : ascii) : bool :=
  bool_decide (N_of_ascii a ∈ [9; 11; 12; 13; 32]%N).

Fixpoint skip_blanks (s : string) : string :=
  match s with
  | EmptyString => EmptyString
  | String a rest => if is_blank a then skip_blanks rest else s
  end.

Definition starts_with_digit (s : string) : bool :=
  match s with String a _ => bool_decide (is_Some (digit a)) | EmptyString => false end.

(** [fmt.Sscanf(s, "%d", &n)]: what follows the number is ignored; [None] is an
    error, which a number outside of 64 bits is too. *)
Definition Sscanf_d (s : string) : option Z :=
  let s := skip_blanks s in
  let '(sign, s) :=
    match s with
    | String a rest =>
      if bool_decide (a = "-"%char) then (-1, rest)
      else if bool_decide (a = "+"%char) then (1, rest) else (1, s)
    | EmptyString => (1, s)
    end in
  if starts_with_digit s then
    let n := sign * Z.of_N (digits_value 0 s) in
    if bool_decide (int64 n) then Some n else None
  else None.

(** ** Facts *)

Lemma string_cons_app a (s t : string) : String a s +:+ t = String a (s +:+ t).
Proof. done. Qed.

Lemma string_app_nil (s : string) : s +:+ "" = s.
Proof. induction s as [|a s IH]; [done|]. by rewrite string_cons_app, IH. Qed.

Lemma string_snoc (cur s : string) a : (cur +:+ String a "") +:+ s = cur +:+ String a s.
Proof. induction cur as [|b cur IH]; [done|]. by rewrite !string_cons_app, IH. Qed.

Lemma string_app_assoc (a b c : string) : (a +:+ b) +:+ c = a +:+ (b +:+ c).
Proof. induction a as [|x a IH]; [done|]. by rewrite !string_cons_app, IH. Qed.

Lemma digit_pretty_N_char (x : N) : (x < 10)%N → digit (pretty_N_char x) = Some x.
Proof.
  intros Hx. assert (x ∈ [0;1;2;3;4;5;6;7;8;9]%N) as Hin.
  { rewrite !elem_of_cons. lia. }
  repeat (apply elem_of_cons in Hin as [->|Hin]; [done|]). by apply elem_of_nil in Hin.
Qed.

Lemma digits_value_pretty_go (x : N) s : digits_value 0 (pretty_N_go x s) = digits_value x s.
Proof.
  revert s. induction (N.lt_wf_0 x) as [x _ IH]. intros s.
  destruct (decide (x = 0%N)) as [->|Hx]; [by rewrite pretty_N_go_0|].
  rewrite pretty_N_go_step by lia. rewrite IH by (apply N.div_lt; lia).
  cbn [digits_value]. rewrite digit_pretty_N_char by (apply N.mod_lt; lia).
  f_equal. pose proof (N.div_mod' x 10). lia.
Qed.

(** Printing a number and reading its digits. *)
Lemma digits_value_pretty (x : N) : digits_value 0 (pretty x) = x.
Proof.
  unfold pretty, pretty_N. case_decide as Hx; [by subst|]. by rewrite digits_value_pretty_go.
Qed.

Lemma digits_value_zeros k s :
  digits_value 0 (String.concat "" (replicate k "0") +:+ s) = digits_value 0 s.
Proof.
  induction k as [|k IH]; [done|]. rewrite <- IH. by destruct k.
Qed.

Lemma digits_value_pad width (n : Z) : 0 <= n → digits_value 0 (pad width n) = Z.to_N n.
Proof.
  intros Hn. unfold pad. destruct (Z.ltb_spec n 0); [lia|].
  change ("" +:+ ?s) with s. rewrite digits_value_zeros, digits_value_pretty. lia.
Qed.

Lemma pad_inj width n m : 0 <= n → 0 <= m → pad width n = pad width m → n = m.
Proof.
  intros Hn Hm Heq%(f_equal (digits_value 0)). rewrite !digits_value_pad in Heq by done. lia.
Qed.

Definition no_slash (s : string) : Prop := "/"%char ∉ String.list_ascii_of_string s.

#[export] Instance no_slash_dec s : Decision (no_slash s).
Proof. unfold no_slash. apply _. Defined.

Lemma SplitSlash_segment id rest :
  no_slash id → SplitSlash (id +:+ String "/" rest) = id :: SplitSlash rest.
Proof.
  unfold no_slash. induction id as [|a id IH]; intros Hn; [done|]. cbn in Hn.
  change (String a id +:+ String "/" rest) with (String a (id +:+ String "/" rest)).
  cbn [SplitSlash]. rewrite IH by set_solver. rewrite bool_decide_eq_false_2 by set_solver. done.
Qed.
