(* ===== verification/Json.v ===== *)
(** * JSON on the wire

    The part of [encoding/json] the program uses: the compact text
    [json.Marshal] and [json.Encoder] give, with the escapes of strings (HTML
    characters, control characters, U+2028, U+2029 and bytes that are not
    UTF-8), and what [json.Unmarshal] reads: the grammar of RFC 8259, the limit
    on nesting and the rules for the fields of a struct.  A number is kept as
    its text; how a float is printed and read is the interface [FloatText].

    A text is a list of runes, as [utf8.DecodeRune] splits it.  The reader
    takes the number of runes as its fuel, which is enough: [Parse_fuel].  The
    main result is [Parse_render]: what is written reads back, with the bytes
    that are not UTF-8 replaced by U+FFFD. *)

From S2P Require Import Prelude GoText.
From stdpp Require Import base gmap strings list pretty.
From Stdlib Require Import ZArith Ascii Lia Wf_nat.

#[local] Open Scope N_scope.

(** ** UTF-8 *)

(** A character of one to four bytes, or a byte that starts none. *)
Inductive rune :=
| R1 (a : ascii)
| R2 (a b : ascii)
| R3 (a b c : ascii)
| R4 (a b c d : ascii)
| RBad (a : ascii).

#[global] Instance rune_eq_dec : EqDecision rune.
Proof. solve_decision. Defined.

Abbreviation code := N_of_ascii.

(** The number of bytes after a leading byte, and the range of the first. *)
Definition lead (n : N) : option (nat * N * N) :=
  if n <? 194 then None                          (* 0xC2 *)
  else if n <=? 223 then Some (1%nat, 128, 191)
  else if n =? 224 then Some (2%nat, 160, 191)   (* 0xE0 *)
  else if n =? 237 then Some (2%nat, 128, 159)   (* 0xED: no surrogates *)
  else if n <=? 239 then Some (2%nat, 128, 191)
  else if n =? 240 then Some (3%nat, 144, 191)   (* 0xF0 *)
  else if n <=? 243 then Some (3%nat, 128, 191)
  else if n =? 244 then Some (3%nat, 128, 143)   (* 0xF4: up to U+10FFFF *)
  else None.

Definition continuation (a : ascii) : bool := (128 <=? code a) && (code a <=? 191).

(** [b] may follow the leading byte [a] of a character of [k + 1] bytes. *)
Definition second_ok (k : nat) (a b : ascii) : bool :=
  match lead (code a) with
  | Some (k', lo, hi) => bool_decide (k = k') && (lo <=? code b) && (code b <=? hi)
  | None => false
  end.

Definition valid_rune (r : rune) : bool :=
  match r with
  | R1 a => code a <? 128
  | R2 a b => second_ok 1 a b
  | R3 a b c => second_ok 2 a b && continuation c
  | R4 a b c d => second_ok 3 a b && continuation c && continuation d
  | RBad _ => false
  end.

(** Repeated [utf8.DecodeRuneInString]: an invalid byte is a rune of size 1. *)
Fixpoint runes (s : string) : list rune :=
  match s with
  | EmptyString => []
  | String a s1 =>
    if valid_rune (R1 a) then R1 a :: runes s1 else
    match s1 with
    | EmptyString => RBad a :: runes s1
    | String b s2 =>
      if valid_rune (R2 a b) then R2 a b :: runes s2 else
      match s2 with
      | EmptyString => RBad a :: runes s1
      | String c s3 =>
        if valid_rune (R3 a b c) then R3 a b c :: runes s3 else
        match s3 with
        | EmptyString => RBad a :: runes s1
        | String d s4 =>
          if valid_rune (R4 a b c d) then R4 a b c d :: runes s4 else RBad a :: runes s1
        end
      end
    end
  end.

Definition rune_bytes (r : rune) : string :=
  match r with
  | R1 a | RBad a => String a ""
  | R2 a b => String a (String b "")
  | R3 a b c => String a (String b (String c ""))
  | R4 a b c d => String a (String b (String c (String d "")))
  end.

Definition flat (l : list rune) : string := foldr (fun r s => rune_bytes r +:+ s) "" l.

(** [unicode.ReplacementChar], U+FFFD. *)
Definition replacement : rune := R3 "239" "191" "189".

Definition coerce (r : rune) : rune := match r with RBad _ => replacement | r => r end.

(** The string with every invalid byte replaced. *)
Definition to_valid (s : string) : string := flat (coerce <$> runes s).

Definition valid_utf8 (s : string) : Prop := Forall (fun r => valid_rune r = true) (runes s).

#[global] Instance valid_utf8_dec s : Decision (valid_utf8 s) := _.

(** [utf8.EncodeRune] of a code point that is not a surrogate. *)
Definition encode_rune (u : N) : rune :=
  let tail n := ascii_of_N (128 + n mod 64) in
  if u <? 128 then R1 (ascii_of_N u)
  else if u <? 2048 then R2 (ascii_of_N (192 + u / 64)) (tail u)
  else if u <? 65536 then R3 (ascii_of_N (224 + u / 4096)) (tail (u / 64)) (tail u)
  else R4 (ascii_of_N (240 + u / 262144)) (tail (u / 4096)) (tail (u / 64)) (tail u).

(** *** Splitting and joining *)

Lemma lead_range n k lo hi : lead n = Some (k, lo, hi) → 194 <= n.
Proof. unfold lead. destruct (N.ltb_spec n 194); [done|lia]. Qed.

(** The leading byte determines the length. *)
Lemma second_ok_inv k a b : second_ok k a b = true → 128 <= code a ∧ ∀ k' b', second_ok k' a b' = true → k' = k.
Proof.
  unfold second_ok. destruct (lead (code a)) as [[[k0 lo] hi]|] eqn:Hl; [|done].
  rewrite !andb_true_iff, bool_decide_eq_true. intros [[-> _] _]. apply lead_range in Hl.
  split; [lia|]. intros k' b'. rewrite !andb_true_iff, bool_decide_eq_true. tauto.
Qed.

Lemma second_ok_ne k k' a b b' : second_ok k a b = true → k ≠ k' → second_ok k' a b' = false.
Proof.
  intros H Hne. destruct (second_ok k' a b') eqn:H'; [|done].
  apply second_ok_inv in H as [_ H]. by apply H in H'.
Qed.

(** Bytes of a valid character split off as that character. *)
Lemma runes_valid r s : valid_rune r = true → runes (rune_bytes r +:+ s) = r :: runes s.
Proof.
  destruct r as [a|a b|a b c|a b c d|a]; cbn [rune_bytes valid_rune]; intros Hv; [..|done];
    rewrite !string_cons_app; change ("" +:+ s) with s; cbn [runes valid_rune].
  - by rewrite Hv.
  - pose proof (second_ok_inv _ _ _ Hv) as [H1 _].
    by rewrite (proj2 (N.ltb_ge _ _)), Hv by done.
  - apply andb_true_iff in Hv as [H2 H3]. pose proof (second_ok_inv _ _ _ H2) as [H1 _].
    by rewrite (proj2 (N.ltb_ge _ _)), (second_ok_ne 2 1 a b b), H2, H3 by done.
  - apply andb_true_iff in Hv as [[H2 H3]%andb_true_iff H4]. pose proof (second_ok_inv _ _ _ H2) as [H1 _].
    by rewrite (proj2 (N.ltb_ge _ _)), (second_ok_ne 3 1 a b b), (second_ok_ne 3 2 a b b), H2, H3, H4 by done.
Qed.

Lemma runes_flat l s :
  Forall (fun r => valid_rune r = true) l → runes (flat l +:+ s) = l ++ runes s.
Proof.
  induction 1 as [|r l Hr _ IH]; [done|]. cbn [flat foldr]. fold (flat l).
  by rewrite string_app_assoc, runes_valid, IH.
Qed.

Lemma runes_flat_all l : Forall (fun r => valid_rune r = true) l → runes (flat l) = l.
Proof. intros Hl. rewrite <- (string_app_nil (flat l)), runes_flat by done. by rewrite app_nil_r. Qed.

(** What [runes] may hold. *)
Definition scanned (r : rune) : Prop := valid_rune r = true ∨ ∃ a, r = RBad a ∧ 128 <= code a.

(** Induction along the splitting of a string. *)
Lemma runes_ind (P : string → list rune → Prop) :
  P "" [] →
  (∀ r s, scanned r → P s (runes s) → P (rune_bytes r +:+ s) (r :: runes s)) →
  ∀ s, P s (runes s).
Proof.
  intros H0 Hs s. induction s as [s IH] using (induction_ltof1 _ String.length). unfold ltof in IH.
  assert (∀ r t, rune_bytes r +:+ t = s → scanned r → P s (r :: runes t)) as Hstep.
  { intros r t <- Hr. apply Hs; [done|]. apply IH. destruct r; cbn [rune_bytes];
      rewrite !string_cons_app; change ("" +:+ t) with t; cbn; lia. }
  destruct s as [|a s1]; [done|]. cbn [runes]. destruct (valid_rune (R1 a)) eqn:H1.
  { apply (Hstep (R1 a) s1); [done|by left]. }
  assert (P (String a s1) (RBad a :: runes s1)) as Hbad.
  { apply Hstep; [done|]. right. exists a. split; [done|]. cbn in H1. by apply N.ltb_ge in H1. }
  destruct s1 as [|b s2]; [done|]. destruct (valid_rune (R2 a b)) eqn:H2.
  { apply (Hstep (R2 a b) s2); [done|by left]. }
  destruct s2 as [|c s3]; [done|]. destruct (valid_rune (R3 a b c)) eqn:H3.
  { apply (Hstep (R3 a b c) s3); [done|by left]. }
  destruct s3 as [|d s4]; [done|]. destruct (valid_rune (R4 a b c d)) eqn:H4; [|done].
  apply (Hstep (R4 a b c d) s4); [done|by left].
Qed.

Lemma flat_runes s : flat (runes s) = s.
Proof. apply (runes_ind (fun s l => flat l = s)); [done|]. intros r t _ IH. cbn. by f_equal. Qed.

Lemma runes_scanned s : Forall scanned (runes s).
Proof. apply (runes_ind (fun _ l => Forall scanned l)); [constructor|]. intros. by constructor. Qed.

Lemma coerce_valid r : scanned r → valid_rune (coerce r) = true.
Proof. intros [Hr|(a & -> & _)]; [by destruct r|done]. Qed.

Lemma coerce_runes_valid s : Forall (fun r => valid_rune r = true) (coerce <$> runes s).
Proof. apply Forall_fmap. eapply Forall_impl; [apply runes_scanned|]. apply coerce_valid. Qed.

(** Valid text is left alone, and every text becomes valid. *)
Lemma to_valid_id s : valid_utf8 s → to_valid s = s.
Proof.
  unfold valid_utf8, to_valid. intros Hs. rewrite <- (flat_runes s) at 2. f_equal.
  induction Hs as [|r l Hr _ IH]; [done|]. rewrite fmap_cons, IH. f_equal. by destruct r.
Qed.

Lemma runes_to_valid s : runes (to_valid s) = coerce <$> runes s.
Proof. apply runes_flat_all, coerce_runes_valid. Qed.

Lemma to_valid_utf8 s : valid_utf8 (to_valid s).
Proof. unfold valid_utf8. rewrite runes_to_valid. apply coerce_runes_valid. Qed.

(** ASCII text is valid. *)
Definition is_ascii (s : string) : Prop := Forall (fun a => code a < 128) (String.list_ascii_of_string s).

Lemma runes_ascii s : is_ascii s → runes s = R1 <$> String.list_ascii_of_string s.
Proof.
  unfold is_ascii. induction s as [|a s IH]; [done|]. cbn. intros [Ha Hs]%Forall_cons.
  rewrite (proj2 (N.ltb_lt _ _)) by done. f_equal. by apply IH.
Qed.

(** ** Values *)

#[local] Unset Elimination Schemes.

(** A value; a number is its text.  A string also says whether its text is
    without escapes, since a decoder of its own (that of [time.Time]) gets the
    text as it stands. *)
Inductive json :=
| JNull
| JBool (b : bool)
| JNum (text : string)
| JStr (s : string) (plain : bool)
| JArr (l : list json)
| JObj (members : list (string * json)).

#[local] Set Elimination Schemes.

Section json_ind.
Context (P : json → Prop).
Context (Hnull : P JNull) (Hbool : ∀ b, P (JBool b)) (Hnum : ∀ t, P (JNum t)) (Hstr : ∀ s b, P (JStr s b)).
Context (Harr : ∀ l, Forall P l → P (JArr l)) (Hobj : ∀ l, Forall (P ∘ snd) l → P (JObj l)).

(** Induction that reaches inside arrays and objects. *)
Fixpoint json_nested_ind (j : json) : P j :=
  match j with
  | JNull => Hnull
  | JBool b => Hbool b
  | JNum t => Hnum t
  | JStr s b => Hstr s b
  | JArr l =>
    Harr l ((fix go (l : list json) : Forall P l :=
      match l with
      | [] => Forall_nil_2 _
      | j :: l => Forall_cons_2 _ _ _ (json_nested_ind j) (go l)
      end) l)
  | JObj l =>
    Hobj l ((fix go (l : list (string * json)) : Forall (P ∘ snd) l :=
      match l with
      | [] => Forall_nil_2 _
      | kj :: l => Forall_cons_2 (P ∘ snd) _ _ (json_nested_ind kj.2) (go l)
      end) l)
  end.
End json_ind.

(** Arrays and objects inside each other. *)
Fixpoint depth (j : json) : nat :=
  match j with
  | JArr l => S (list_max (depth <$> l))
  | JObj l => S (list_max ((fun kj => depth kj.2) <$> l))
  | _ => 0
  end.

Definition maxNestingDepth : nat := Nat.pow 10 4.

(** *** Numbers *)

(** The states of the scanner inside a number. *)
Inductive num_state := NStart | NNeg | NZero | NInt | NDot | NFrac | NExp | NSign | NExpInt.

#[global] Instance num_state_eq_dec : EqDecision num_state.
Proof. solve_decision. Defined.

Definition is_digit (a : ascii) : bool := (48 <=? code a) && (code a <=? 57).

Definition num_step (st : num_state) (a : ascii) : option num_state :=
  let fraction := if bool_decide (a = "."%char) then Some NDot
                  else if bool_decide (a ∈ ["e"; "E"]%char) then Some NExp else None in
  match st with
  | NStart =>
    if bool_decide (a = "-"%char) then Some NNeg
    else if bool_decide (a = "0"%char) then Some NZero else if is_digit a then Some NInt else None
  | NNeg => if bool_decide (a = "0"%char) then Some NZero else if is_digit a then Some NInt else None
  | NZero => fraction
  | NInt => if is_digit a then Some NInt else fraction
  | NDot => if is_digit a then Some NFrac else None
  | NFrac =>
    if is_digit a then Some NFrac else if bool_decide (a ∈ ["e"; "E"]%char) then Some NExp else None
  | NExp =>
    if bool_decide (a ∈ ["+"; "-"]%char) then Some NSign else if is_digit a then Some NExpInt else None
  | NSign => if is_digit a then Some NExpInt else None
  | NExpInt => if is_digit a then Some NExpInt else None
  end.

Fixpoint num_run (st : num_state) (s : string) : bool :=
  match s with
  | EmptyString => bool_decide (st ∈ [NZero; NInt; NFrac; NExpInt])
  | String a s => match num_step st a with Some st => num_run st s | None => false end
  end.

Definition valid_number (s : string) : bool := num_run NStart s.

(** The characters a number may hold. *)
Definition number_char (a : ascii) : bool := is_digit a || bool_decide (a ∈ ["+"; "-"; "."; "e"; "E"]%char).

(** *** Strings *)

Definition dquote : ascii := "034".
Definition backslash : ascii := "092".

Definition hex_char (n : N) : ascii := ascii_of_N (if n <? 10 then 48 + n else 87 + n).

Definition u_escape (u : N) : list rune :=
  R1 backslash :: R1 "u" ::
  ((fun n => R1 (hex_char n)) <$> [u / 4096; (u / 256) mod 16; (u / 16) mod 16; u mod 16]).

(** The characters of [htmlSafeSet]. *)
Definition htmlSafe (a : ascii) : bool :=
  (32 <=? code a) && (code a <? 128) && negb (bool_decide (a ∈ [dquote; backslash; "<"; ">"; "&"]%char)).

(** The letter of a two-character escape. *)
Definition short_escape (a : ascii) : option ascii :=
  if bool_decide (a = dquote) then Some dquote
  else if bool_decide (a = backslash) then Some backslash
  else if bool_decide (a = "008"%char) then Some "b"%char
  else if bool_decide (a = "012"%char) then Some "f"%char
  else if bool_decide (a = "010"%char) then Some "n"%char
  else if bool_decide (a = "013"%char) then Some "r"%char
  else if bool_decide (a = "009"%char) then Some "t"%char
  else None.

(** What [appendString] writes for a rune. *)
Definition escape_rune (r : rune) : list rune :=
  match r with
  | R1 a =>
    if htmlSafe a then [r] else
    match short_escape a with
    | Some b => [R1 backslash; R1 b]
    | None => u_escape (code a)
    end
  | RBad _ => u_escape 65533
  | R3 a b c =>
    if bool_decide (r = encode_rune 8232) then u_escape 8232
    else if bool_decide (r = encode_rune 8233) then u_escape 8233 else [r]
  | _ => [r]
  end.

Definition quoted (s : string) : list rune :=
  R1 dquote :: (runes s ≫= escape_rune) ++ [R1 dquote].

Definition no_escape (l : list rune) : bool := forallb (fun r => negb (bool_decide (r = R1 backslash))) l.

(** Whether a string is written without escapes. *)
Definition plain_text (s : string) : bool := no_escape (runes s ≫= escape_rune).

(** *** The text of a value *)

Definition ascii_runes (s : string) : list rune := R1 <$> String.list_ascii_of_string s.

Fixpoint join (sep : rune) (l : list (list rune)) : list rune :=
  match l with
  | [] => []
  | [x] => x
  | x :: l => x ++ sep :: join sep l
  end.

Fixpoint render (j : json) : list rune :=
  match j with
  | JNull => ascii_runes "null"
  | JBool true => ascii_runes "true"
  | JBool false => ascii_runes "false"
  | JNum t => ascii_runes t
  | JStr s _ => quoted s
  | JArr l => R1 "[" :: join (R1 ",") (render <$> l) ++ [R1 "]"]
  | JObj l => R1 "{" :: join (R1 ",") ((fun kj => quoted kj.1 ++ R1 ":" :: render kj.2) <$> l) ++ [R1 "}"]
  end.

(** [json.Marshal] of a value, and the encoder's line. *)
Definition json_text (j : json) : string := flat (render j).

(** ** Reading *)

Definition hex_value (a : ascii) : option N :=
  let n := code a in
  if is_digit a then Some (n - 48)
  else if (97 <=? n) && (n <=? 102) then Some (n - 87)
  else if (65 <=? n) && (n <=? 70) then Some (n - 55)
  else None.

Definition hex4 (a b c d : ascii) : option N :=
  a ← hex_value a; b ← hex_value b; c ← hex_value c; d ← hex_value d;
  Some (4096 * a + 256 * b + 16 * c + d).

Definition surrogate (u : N) : bool := (55296 <=? u) && (u <? 57344).

(** [utf16.DecodeRune] of two escapes, when it is not the replacement. *)
Definition surrogate_pair (u v : N) : option N :=
  if (55296 <=? u) && (u <? 56320) && (56320 <=? v) && (v <? 57344)
  then Some (65536 + (u - 55296) * 1024 + (v - 56320)) else None.

(** The second escape of a pair. *)
Definition low_escape (u : N) (a b c d e f : ascii) : option N :=
  if bool_decide (a = backslash) && bool_decide (b = "u"%char)
  then v ← hex4 c d e f; surrogate_pair u v else None.

Definition unescape (a : ascii) : option ascii :=
  if bool_decide (a = dquote) then Some dquote
  else if bool_decide (a = backslash) then Some backslash
  else if bool_decide (a = "/"%char) then Some "/"%char
  else if bool_decide (a = "b"%char) then Some "008"%char
  else if bool_decide (a = "f"%char) then Some "012"%char
  else if bool_decide (a = "n"%char) then Some "010"%char
  else if bool_decide (a = "r"%char) then Some "013"%char
  else if bool_decide (a = "t"%char) then Some "009"%char
  else None.

Definition push (r : rune) (o : option (list rune * list rune)) : option (list rune * list rune) :=
  '(rs, rest) ← o; Some (r :: rs, rest).

(** The characters up to the closing quote and what follows it; [None] is a
    syntax error. *)
Fixpoint read_string (l : list rune) : option (list rune * list rune) :=
  match l with
  | [] => None
  | R1 a :: l1 =>
    if bool_decide (a = dquote) then Some ([], l1)
    else if bool_decide (a = backslash) then
      match l1 with
      | R1 b :: l2 =>
        match unescape b with
        | Some c => push (R1 c) (read_string l2)
        | None =>
          if bool_decide (b = "u"%char) then
            match l2 with
            | R1 h1 :: R1 h2 :: R1 h3 :: R1 h4 :: l3 =>
              match hex4 h1 h2 h3 h4 with
              | None => None
              | Some u =>
                if surrogate u then
                  match l3 with
                  | R1 c1 :: R1 c2 :: R1 c3 :: R1 c4 :: R1 c5 :: R1 c6 :: l4 =>
                    match low_escape u c1 c2 c3 c4 c5 c6 with
                    | Some v => push (encode_rune v) (read_string l4)
                    | None => push replacement (read_string l3)
                    end
                  | _ => push replacement (read_string l3)
                  end
                else push (encode_rune u) (read_string l3)
              end
            | _ => None
            end
          else None
        end
      | _ => None
      end
    else if code a <? 32 then None
    else push (R1 a) (read_string l1)
  | r :: l1 => push (coerce r) (read_string l1)
  end.

Definition is_ws (r : rune) : bool :=
  match r with R1 a => bool_decide (a ∈ [" "; "009"; "010"; "013"]%char) | _ => false end.

Fixpoint skip_ws (l : list rune) : list rune :=
  match l with
  | r :: l' => if is_ws r then skip_ws l' else l
  | [] => []
  end.

(** The longest prefix of characters of a number. *)
Fixpoint span_number (l : list rune) : string * list rune :=
  match l with
  | R1 a :: l' =>
    if number_char a then let '(t, rest) := span_number l' in (String a t, rest) else ("", l)
  | _ => ("", l)
  end.

Definition read_number (l : list rune) : option (json * list rune) :=
  let '(t, rest) := span_number l in if valid_number t then Some (JNum t, rest) else None.

(** [word] and then the rest. *)
Fixpoint expect (word : string) (l : list rune) : option (list rune) :=
  match word with
  | EmptyString => Some l
  | String a word =>
    match l with
    | R1 b :: l => if bool_decide (a = b) then expect word l else None
    | _ => None
    end
  end.

(** One value and what follows it; [None] is a syntax error, or no fuel. *)
Fixpoint read_value (fuel : nat) (l : list rune) : option (json * list rune) :=
  match fuel with
  | O => None
  | S fuel =>
    match skip_ws l with
    | R1 a :: l1 =>
      if bool_decide (a = dquote) then
        '(rs, rest) ← read_string l1; Some (JStr (flat rs) (no_escape (take (length l1 - length rest) l1)), rest)
      else if bool_decide (a = "["%char) then
        match expect "]" (skip_ws l1) with
        | Some rest => Some (JArr [], rest)
        | None => '(js, rest) ← read_elements fuel l1; Some (JArr js, rest)
        end
      else if bool_decide (a = "{"%char) then
        match expect "}" (skip_ws l1) with
        | Some rest => Some (JObj [], rest)
        | None => '(ms, rest) ← read_members fuel l1; Some (JObj ms, rest)
        end
      else if bool_decide (a = "n"%char) then rest ← expect "ull" l1; Some (JNull, rest)
      else if bool_decide (a = "t"%char) then rest ← expect "rue" l1; Some (JBool true, rest)
      else if bool_decide (a = "f"%char) then rest ← expect "alse" l1; Some (JBool false, rest)
      else read_number (R1 a :: l1)
    | _ => None
    end
  end
with read_elements (fuel : nat) (l : list rune) : option (list json * list rune) :=
  match fuel with
  | O => None
  | S fuel =>
    '(j, l1) ← read_value fuel l;
    match skip_ws l1 with
    | R1 a :: l2 =>
      if bool_decide (a = ","%char) then '(js, rest) ← read_elements fuel l2; Some (j :: js, rest)
      else if bool_decide (a = "]"%char) then Some ([j], l2) else None
    | _ => None
    end
  end
with read_members (fuel : nat) (l : list rune) : option (list (string * json) * list rune) :=
  match fuel with
  | O => None
  | S fuel =>
    l0 ← expect (String dquote "") (skip_ws l);
    '(k, l1) ← read_string l0;
    l2 ← expect ":" (skip_ws l1);
    '(j, l3) ← read_value fuel l2;
    match skip_ws l3 with
    | R1 a :: l4 =>
      if bool_decide (a = ","%char) then
        '(ms, rest) ← read_members fuel l4; Some ((flat k, j) :: ms, rest)
      else if bool_decide (a = "}"%char) then Some ([(flat k, j)], l4) else None
    | _ => None
    end
  end.

(** Each call of the reader takes one step of fuel before it consumes a
    character, or the character after. *)
Definition read_fuel (l : list rune) : nat := S (2 * length l).

(** What [json.Unmarshal] accepts: one value, nothing after it but white
    space, nested at most [maxNestingDepth] deep. *)
Definition Parse (s : string) : option json :=
  let l := runes s in
  '(j, rest) ← read_value (read_fuel l) l;
  if bool_decide (skip_ws rest = []) && Nat.leb (depth j) maxNestingDepth then Some j else None.

(** What a [json.Decoder] reads: the first value of a stream.  An array or an
    object ends with its bracket; any other value has to be followed by white
    space or by the end. *)
Definition DecodeFirst (s : string) : option json :=
  let l := runes s in
  '(j, rest) ← read_value (read_fuel l) l;
  let closed := match j, rest with
                | (JArr _ | JObj _), _ | _, [] => true
                | _, r :: _ => is_ws r
                end in
  if closed && Nat.leb (depth j) maxNestingDepth then Some j else None.

(** ** Termination of the reader *)

Lemma skip_ws_length l : (length (skip_ws l) ≤ length l)%nat.
Proof. induction l as [|r l IH]; [done|]. cbn. destruct (is_ws r); cbn; lia. Qed.

Lemma expect_length word l rest : expect word l = Some rest → length l = (String.length word + length rest)%nat.
Proof.
  revert l. induction word as [|a word IH]; intros l H; cbn in H; [by injection H as <-|].
  destruct l as [|[b| | | |] l]; try done. case_bool_decide; [|done]. apply IH in H. cbn. lia.
Qed.

Lemma push_Some r o rs rest :
  push r o = Some (rs, rest) → ∃ rs', o = Some (rs', rest) ∧ rs = r :: rs'.
Proof. unfold push. destruct o as [[rs' rest']|]; [|done]. cbn. intros [= <- <-]. by exists rs'. Qed.

Lemma read_string_length l rs rest : read_string l = Some (rs, rest) → (length rest < length l)%nat.
Proof.
  revert rs rest. induction l as [l IH] using (induction_ltof1 _ (@length rune)). unfold ltof in IH.
  assert (∀ r l' rs rest, (length l' < length l)%nat →
    push r (read_string l') = Some (rs, rest) → (length rest < length l)%nat) as Hpush.
  { intros r l' rs rest Hl (rs' & H & _)%push_Some. apply IH in H; lia. }
  intros rs rest. destruct l as [|[a| | | |] l1]; [done|..]; cbn [read_string] in *;
    try (apply Hpush; cbn; lia).
  case_bool_decide; [intros [= _ <-]; cbn; lia|]. case_bool_decide; [|destruct (_ <? _); [done|apply Hpush; cbn; lia]].
  destruct l1 as [|[b| | | |] l2]; try done. destruct (unescape b); [apply Hpush; cbn; lia|].
  case_bool_decide; [|done].
  destruct l2 as [|[h1| | | |] [|[h2| | | |] [|[h3| | | |] [|[h4| | | |] l3]]]]; try done.
  destruct (hex4 h1 h2 h3 h4) as [u|]; [|done]. destruct (surrogate u); [|apply Hpush; cbn; lia].
  destruct l3 as [|[c1| | | |] [|[c2| | | |] [|[c3| | | |] [|[c4| | | |] [|[c5| | | |] [|[c6| | | |] l4]]]]]];
    try (apply Hpush; cbn; lia).
  destruct (low_escape u c1 c2 c3 c4 c5 c6); apply Hpush; cbn; lia.
Qed.

Lemma span_number_length l t rest : span_number l = (t, rest) → length l = (String.length t + length rest)%nat.
Proof.
  revert t rest. induction l as [|r l IH]; intros t rest H; cbn in H; [by injection H as <- <-|].
  destruct r as [a| | | |]; try (by injection H as <- <-).
  destruct (number_char a); [|by injection H as <- <-].
  destruct (span_number l) as [t' rest']. injection H as <- <-. cbn. by rewrite (IH t' rest').
Qed.

Lemma read_number_length l j rest : read_number l = Some (j, rest) → (length rest < length l)%nat.
Proof.
  unfold read_number. destruct (span_number l) as [t rest'] eqn:H. apply span_number_length in H.
  destruct t; [done|]. destruct (valid_number _); [|done]. intros [= _ <-]. cbn in H. lia.
Qed.

(** The next character after white space, with what it leaves. *)
Lemma skip_ws_cons l r l1 : skip_ws l = r :: l1 → (length l1 < length l)%nat.
Proof. intros H. pose proof (skip_ws_length l) as Hl. rewrite H in Hl. cbn in Hl. lia. Qed.

Lemma bind_Some_inv {A B} (o : option A) (f : A → option B) b :
  o ≫= f = Some b → ∃ a, o = Some a ∧ f a = Some b.
Proof. destruct o as [a|]; [|done]. intros H. by exists a. Qed.

(** Splits a successful chain of reads. *)
Ltac reads :=
  repeat match goal with
  | H : _ ≫= _ = Some _ |- _ => apply bind_Some_inv in H as (? & ? & H)
  | H : (let '(_, _) := ?x in _) = Some _ |- _ => destruct x
  | H : Some _ = Some _ |- _ => injection H as <- <-
  | H : None = Some _ |- _ => discriminate H
  | H : read_string _ = Some _ |- _ => apply read_string_length in H
  | H : expect _ _ = Some _ |- _ => apply expect_length in H
  end.

Definition shrinks {A} (read : list rune → option (A * list rune)) : Prop :=
  ∀ l x rest, read l = Some (x, rest) → (length rest < length l)%nat.

Lemma read_value_shrinks_step fuel :
  shrinks (read_elements fuel) → shrinks (read_members fuel) → shrinks (read_value (S fuel)).
Proof.
  intros He Hm l j rest H. cbn [read_value] in H.
  destruct (skip_ws l) as [|[a| | | |] l1] eqn:Hl; try done. apply skip_ws_cons in Hl.
  pose proof (skip_ws_length l1) as Hl1.
  case_bool_decide; [reads; cbn in *; lia|].
  case_bool_decide.
  { destruct (expect _ _) eqn:Hx; reads; [cbn in *; lia|].
    match goal with H : read_elements _ _ = _ |- _ => apply He in H end. lia. }
  case_bool_decide.
  { destruct (expect _ _) eqn:Hx; reads; [cbn in *; lia|].
    match goal with H : read_members _ _ = _ |- _ => apply Hm in H end. lia. }
  do 3 (case_bool_decide; [reads; cbn in *; lia|]). apply read_number_length in H. cbn in H. lia.
Qed.

(** The case on the character that follows, in [H]. *)
Ltac next_char H :=
  match type of H with
  | context [match skip_ws ?l with _ => _ end] =>
    let Hl := fresh "Hl" in
    destruct (skip_ws l) as [|[?| | | |] ?] eqn:Hl; try discriminate H; apply skip_ws_cons in Hl
  end.

Lemma read_shrinks fuel :
  shrinks (read_value fuel) ∧ shrinks (read_elements fuel) ∧ shrinks (read_members fuel).
Proof.
  induction fuel as [|fuel (IHv & IHe & IHm)]; [split_and!; by intros l x rest|].
  split_and!; [by apply read_value_shrinks_step|..]; intros l x rest H; cbn [read_elements read_members] in H.
  - reads. next_char H.
    match goal with H : read_value _ _ = _ |- _ => apply IHv in H end.
    case_bool_decide; [|case_bool_decide; reads; lia]. reads.
    match goal with H : read_elements _ _ = _ |- _ => apply IHe in H end. lia.
  - reads. next_char H.
    match goal with H : read_value _ _ = _ |- _ => apply IHv in H end.
    pose proof (skip_ws_length l). cbn [String.length] in *.
    match goal with H : length (skip_ws ?l1) = _ |- _ => pose proof (skip_ws_length l1) end.
    case_bool_decide; [|case_bool_decide; reads; lia]. reads.
    match goal with H : read_members _ _ = _ |- _ => apply IHm in H end. lia.
Qed.

Lemma bind_ext {A B} (o : option A) (f g : A → option B) :
  (∀ a, o = Some a → f a = g a) → o ≫= f = o ≫= g.
Proof. destruct o; cbn; auto. Qed.

(** With enough fuel, more of it changes nothing. *)
Lemma read_enough f1 f2 l :
  ((2 * length l ≤ f1)%nat → (2 * length l ≤ f2)%nat → read_value f1 l = read_value f2 l) ∧
  ((2 * length l < f1)%nat → (2 * length l < f2)%nat → read_elements f1 l = read_elements f2 l) ∧
  ((2 * length l < f1)%nat → (2 * length l < f2)%nat → read_members f1 l = read_members f2 l).
Proof.
  revert f2 l. induction f1 as [|f1 IH]; intros f2 l.
  { split_and!; intros; [|lia..]. destruct l; [|cbn in *; lia]. by destruct f2. }
  split_and!; intros H1 H2.
  - destruct f2 as [|f2]; [destruct l; [done|cbn in *; lia]|]. cbn [read_value].
    destruct (skip_ws l) as [|[a| | | |] l1] eqn:Hl; try done. apply skip_ws_cons in Hl.
    case_bool_decide; [done|]. destruct (IH f2 l1) as (_ & He & Hm).
    rewrite He, Hm by lia. done.
  - destruct f2 as [|f2]; [lia|]. cbn [read_elements]. rewrite (proj1 (IH f2 l)) by lia.
    apply bind_ext. intros [j l1] Hv. apply read_shrinks in Hv.
    destruct (skip_ws l1) as [|[a| | | |] l2] eqn:Hl; try done. apply skip_ws_cons in Hl.
    case_bool_decide; [|done]. by rewrite (proj1 (proj2 (IH f2 l2))) by lia.
  - destruct f2 as [|f2]; [lia|]. cbn [read_members]. pose proof (skip_ws_length l).
    apply bind_ext. intros l0 Hl0%expect_length. cbn [String.length] in Hl0.
    apply bind_ext. intros [k l1] Hk%read_string_length. pose proof (skip_ws_length l1).
    apply bind_ext. intros l2 Hl2%expect_length. cbn [String.length] in Hl2.
    rewrite (proj1 (IH f2 l2)) by lia.
    apply bind_ext. intros [j l3] Hv. apply read_shrinks in Hv.
    destruct (skip_ws l3) as [|[a| | | |] l4] eqn:Hl; try done. apply skip_ws_cons in Hl.
    case_bool_decide; [|done]. by rewrite (proj2 (proj2 (IH f2 l4))) by lia.
Qed.

(** The reader never stops for want of fuel. *)
Lemma Parse_fuel l fuel : (read_fuel l ≤ fuel)%nat → read_value fuel l = read_value (read_fuel l) l.
Proof. unfold read_fuel. intros H. apply read_enough; lia. Qed.

(** ** Strings read back *)

(** An escaped character reads as the character, one that is invalid as
    U+FFFD. *)
Lemma read_escape_rune r l :
  scanned r → read_string (escape_rune r ++ l) = push (coerce r) (read_string l).
Proof.
  intros [Hr|(a & -> & _)]; [|done]. destruct r as [a|a b|a b c|a b c d|a]; [|done| |done|done].
  - destruct a as [[] [] [] [] [] [] [] []]; first [discriminate Hr|reflexivity].
  - cbn [escape_rune]. case_bool_decide as H1; [by rewrite H1|]. case_bool_decide as H2; [by rewrite H2|].
    done.
Qed.

Lemma read_escaped rs l :
  Forall scanned rs →
  read_string ((rs ≫= escape_rune) ++ R1 dquote :: l) = Some (coerce <$> rs, l).
Proof.
  induction 1 as [|r rs Hr _ IH]; [done|]. rewrite bind_cons, <- app_assoc, read_escape_rune, IH by done.
  done.
Qed.

Lemma read_quoted s l :
  read_string ((runes s ≫= escape_rune) ++ R1 dquote :: l) = Some (coerce <$> runes s, l).
Proof. apply read_escaped, runes_scanned. Qed.

(** The text that is read back is the text that was written. *)
Lemma quoted_plain s l :
  let t := (runes s ≫= escape_rune) ++ R1 dquote :: l in
  no_escape (take (length t - length l) t) = plain_text s.
Proof.
  cbn zeta. rewrite (cons_middle (R1 dquote)), app_assoc, length_app.
  replace (_ + length l - length l)%nat with (length ((runes s ≫= escape_rune) ++ [R1 dquote])) by lia.
  rewrite take_app_length. unfold no_escape. rewrite forallb_app. cbn [forallb].
  by rewrite bool_decide_eq_false_2, andb_true_r by done.
Qed.

(** ** Numbers read back *)

(** What follows a value is not part of a number. *)
Definition ends_value (l : list rune) : Prop :=
  match l with R1 a :: _ => number_char a = false | _ => True end.

Lemma is_digit_number a : is_digit a = true → number_char a = true.
Proof. unfold number_char. by intros ->. Qed.

Lemma num_step_char st a st' : num_step st a = Some st' → number_char a = true.
Proof.
  unfold num_step, number_char. intros H. destruct (is_digit a) eqn:Hd; [done|]. cbn [orb].
  apply bool_decide_eq_true.
  destruct st; repeat case_bool_decide; subst; 
    first [done|discriminate Hd|rewrite !elem_of_cons in *; tauto].
Qed.

Lemma span_number_text st t l :
  num_run st t = true → ends_value l → span_number (ascii_runes t ++ l) = (t, l).
Proof.
  revert st. induction t as [|a t IH]; intros st Hr Hl.
  - destruct l as [|[a| | | |] l]; try done. cbn in Hl |- *. by rewrite Hl.
  - cbn [num_run] in Hr. destruct (num_step st a) as [st'|] eqn:Hs; [|done].
    apply num_step_char in Hs. cbn. fold (ascii_runes t). rewrite Hs. by rewrite (IH st').
Qed.

(** The first character of a number. *)
Lemma valid_number_head t :
  valid_number t = true → ∃ a t', t = String a t' ∧ (a = "-"%char ∨ is_digit a = true).
Proof.
  destruct t as [|a t]; [done|]. unfold valid_number. cbn [num_run]. intros H. exists a, t. split; [done|].
  destruct a as [[] [] [] [] [] [] [] []]; first [discriminate H|by left|by right].
Qed.

(** The text of an integer is a number. *)
Lemma num_run_digits st s :
  st ∈ [NInt; NFrac; NExpInt] →
  Forall (fun a => is_digit a = true) (String.list_ascii_of_string s) → num_run st s = true.
Proof.
  intros Hst. induction s as [|a s IH]; cbn; intros Hs.
  - apply bool_decide_eq_true. rewrite !elem_of_cons in *. tauto.
  - apply Forall_cons in Hs as [Ha Hs].
    assert (num_step st a = Some st) as ->; [|by apply IH].
    rewrite !elem_of_cons, elem_of_nil in Hst.
    destruct Hst as [->|[->|[->|[]]]]; cbn; by rewrite Ha.
Qed.

(** ** Values read back *)

(** The numbers of a value are numbers. *)
Fixpoint numbers_ok (j : json) : Prop :=
  match j with
  | JNum t => valid_number t = true
  | JArr l => fold_right (fun j P => numbers_ok j ∧ P) True l
  | JObj l => fold_right (fun kj P => numbers_ok kj.2 ∧ P) True l
  | _ => True
  end.

Fixpoint sanitize (j : json) : json :=
  match j with
  | JStr s _ => JStr (to_valid s) (plain_text s)
  | JArr l => JArr (sanitize <$> l)
  | JObj l => JObj ((fun kj => (to_valid kj.1, sanitize kj.2)) <$> l)
  | j => j
  end.

Lemma numbers_ok_arr l : numbers_ok (JArr l) ↔ Forall numbers_ok l.
Proof. cbn. induction l as [|j l IH]; cbn; [done|]. by rewrite Forall_cons, IH. Qed.

Lemma numbers_ok_obj l : numbers_ok (JObj l) ↔ Forall (fun kj => numbers_ok kj.2) l.
Proof. cbn. induction l as [|j l IH]; cbn; [done|]. by rewrite Forall_cons, IH. Qed.

(** A value starts with none of the characters that end or separate. *)
Lemma render_head j :
  numbers_ok j → ∃ a l, render j = R1 a :: l ∧ is_ws (R1 a) = false ∧ a ≠ "]"%char.
Proof.
  destruct j as [|[]|t|s pl|l|l]; intros Hj; try (by eexists _, _).
  cbn in Hj. destruct (valid_number_head t Hj) as (a & t' & -> & Ha). eexists a, _. split; [done|].
  destruct Ha as [->|Ha]; [done|]. unfold is_ws. rewrite bool_decide_eq_false_2.
  - split; [done|]. by intros ->.
  - intros Hin. repeat (apply elem_of_cons in Hin as [->|Hin]; [done|]). by apply elem_of_nil in Hin.
Qed.

Lemma read_number_text a t l fuel :
  valid_number (String a t) = true → ends_value l →
  read_value (S fuel) (ascii_runes (String a t) ++ l) = Some (JNum (String a t), l).
Proof.
  intros Hv Hl. destruct (valid_number_head _ Hv) as (b & t' & [= <- <-] & Ha).
  assert (read_value (S fuel) (ascii_runes (String a t) ++ l) = read_number (ascii_runes (String a t) ++ l)) as ->.
  { cbn. destruct Ha as [->|Ha]; [done|].
    destruct a as [[] [] [] [] [] [] [] []]; first [discriminate Ha|reflexivity]. }
  unfold read_number. by rewrite (span_number_text NStart), Hv.
Qed.

Lemma skip_ws_char r l : is_ws r = false → skip_ws (r :: l) = r :: l.
Proof. intros H. cbn. by rewrite H. Qed.

Lemma expect_char a l : expect (String a "") (R1 a :: l) = Some l.
Proof. cbn. by rewrite bool_decide_eq_true_2. Qed.

(** [read_value] gives the value back, whatever follows. *)
Definition reads_back (j : json) : Prop :=
  numbers_ok j → ∀ fuel l, (2 * length (render j) ≤ fuel)%nat → ends_value l →
  read_value fuel (render j ++ l) = Some (sanitize j, l).

Lemma join_cons sep x y l : join sep (x :: y :: l) = x ++ sep :: join sep (y :: l).
Proof. done. Qed.

Lemma read_elements_back js fuel l :
  Forall reads_back js → Forall numbers_ok js → js ≠ [] →
  (2 * length (join (R1 ",") (render <$> js)) < fuel)%nat →
  read_elements fuel (join (R1 ",") (render <$> js) ++ R1 "]" :: l) = Some (sanitize <$> js, l).
Proof.
  intros Hjs. revert fuel. induction Hjs as [|j [|j' js] Hj _ IH]; intros fuel Hok Hne Hf; [done|..];
    apply Forall_cons in Hok as [Hokj Hok]; (destruct fuel as [|fuel]; [lia|]).
  - cbn [fmap list_fmap join] in *. cbn [read_elements]. by rewrite Hj by (done || lia).
  - rewrite !fmap_cons, join_cons, <- app_assoc in *. cbn [read_elements]. rewrite length_app in Hf. cbn [length] in Hf.
    rewrite Hj by (done || lia). cbn [mbind option_bind]. rewrite <- app_comm_cons.
    rewrite skip_ws_char, bool_decide_eq_true_2 by done. by rewrite IH by (done || lia).
Qed.

Definition render_member (kj : string * json) : list rune := quoted kj.1 ++ R1 ":" :: render kj.2.

Definition sanitize_member (kj : string * json) : string * json := (to_valid kj.1, sanitize kj.2).

Lemma read_member_back k j fuel l :
  reads_back j → numbers_ok j → (2 * length (render j) ≤ fuel)%nat → ends_value l →
  read_members (S fuel) (render_member (k, j) ++ l) =
    match skip_ws l with
    | R1 a :: l4 =>
      if bool_decide (a = ","%char) then
        '(ms, rest) ← read_members fuel l4; Some (sanitize_member (k, j) :: ms, rest)
      else if bool_decide (a = "}"%char) then Some ([sanitize_member (k, j)], l4) else None
    | _ => None
    end.
Proof.
  intros Hj Hok Hf Hl. unfold render_member, quoted. cbn [fst snd read_members].
  rewrite <- !app_assoc. cbn [app]. rewrite skip_ws_char, expect_char by done. cbn [mbind option_bind].
  rewrite <- app_assoc. cbn [app]. rewrite read_quoted. cbn [mbind option_bind].
  rewrite skip_ws_char, expect_char by done. cbn [mbind option_bind]. by rewrite Hj by done.
Qed.

Lemma read_members_back ms fuel l :
  Forall (reads_back ∘ snd) ms → Forall (fun kj => numbers_ok kj.2) ms → ms ≠ [] →
  (2 * length (join (R1 ",") (render_member <$> ms)) < fuel)%nat →
  read_members fuel (join (R1 ",") (render_member <$> ms) ++ R1 "}" :: l) = Some (sanitize_member <$> ms, l).
Proof.
  assert (∀ kj, length (render kj.2) ≤ length (render_member kj))%nat as Hlen.
  { intros kj. unfold render_member. rewrite length_app. cbn. lia. }
  intros Hms. revert fuel. induction Hms as [|[k j] [|kj' ms] Hj _ IH]; intros fuel Hok Hne Hf; [done|..];
    apply Forall_cons in Hok as [Hokj Hok]; (destruct fuel as [|fuel]; [lia|]); specialize (Hlen (k, j)); cbn [snd] in Hlen.
  - cbn [fmap list_fmap join] in *. by rewrite read_member_back by (done || lia).
  - rewrite !fmap_cons, join_cons, <- app_assoc in *. rewrite length_app in Hf. cbn [length app] in *.
    rewrite read_member_back by (done || lia).
    rewrite skip_ws_char, bool_decide_eq_true_2 by done. by rewrite IH by (done || lia).
Qed.

(** An empty array or object is closed at once; one with elements is not. *)
Lemma expect_bracket j l : numbers_ok j → expect "]" (skip_ws (render j ++ l)) = None.
Proof.
  intros Hj. destruct (render_head j Hj) as (a & l' & -> & Hws & Hne). cbn [app].
  rewrite skip_ws_char by done. cbn. by rewrite bool_decide_eq_false_2.
Qed.

(** An object ends with its brace, whatever follows. *)
Lemma read_object_back ms fuel l :
  Forall (reads_back ∘ snd) ms → Forall (fun kj => numbers_ok kj.2) ms →
  (2 * length (render (JObj ms)) ≤ fuel)%nat →
  read_value fuel (render (JObj ms) ++ l) = Some (sanitize (JObj ms), l).
Proof.
  intros IH Hok Hf. destruct ms as [|[k j] ms]; [by destruct fuel; [cbn in Hf; lia|]|].
  cbn [render] in *. fold render_member in *. rewrite length_cons, length_app in Hf. destruct fuel as [|fuel]; [lia|].
  rewrite <- app_comm_cons, <- app_assoc. cbn [app read_value]. rewrite skip_ws_char by done.
  rewrite !bool_decide_eq_false_2, bool_decide_eq_true_2 by done.
  assert (∀ t, expect "}" (skip_ws (join (R1 ",") (render_member <$> (k, j) :: ms) ++ t)) = None) as Hx.
  { intros t. rewrite fmap_cons. by destruct (render_member <$> ms). }
  rewrite Hx, read_members_back by (done || (cbn [length] in Hf; lia)). done.
Qed.

Lemma read_value_render j : reads_back j.
Proof.
  induction j as [|b|t|s pl|l IH|l IH] using json_nested_ind; intros Hok fuel l' Hf Hl.
  - destruct fuel as [|fuel]; [cbn in Hf; lia|done].
  - destruct fuel as [|fuel]; [destruct b; cbn in Hf; lia|by destruct b].
  - cbn in Hok. destruct (valid_number_head t Hok) as (a & t' & -> & _).
    destruct fuel as [|fuel]; [cbn in Hf; lia|]. by apply read_number_text.
  - destruct fuel as [|fuel]; [cbn in Hf; lia|]. cbn [render]. unfold quoted.
    cbn [app read_value]. rewrite skip_ws_char, bool_decide_eq_true_2 by done.
    rewrite <- app_assoc. cbn [app]. rewrite read_quoted. cbn [mbind option_bind]. by rewrite quoted_plain.
  - apply numbers_ok_arr in Hok. destruct l as [|j l]; [by destruct fuel; [cbn in Hf; lia|]|].
    cbn [render] in *. rewrite length_cons, length_app in Hf. destruct fuel as [|fuel]; [lia|].
    rewrite <- app_comm_cons, <- app_assoc. cbn [app read_value]. rewrite skip_ws_char by done.
    rewrite bool_decide_eq_false_2, bool_decide_eq_true_2 by done.
    assert (∀ t, expect "]" (skip_ws (join (R1 ",") (render <$> j :: l) ++ t)) = None) as Hx.
    { intros t. apply Forall_cons in Hok as [Hj _]. rewrite fmap_cons. destruct (render <$> l);
        cbn [join]; rewrite <- ?app_assoc; by apply expect_bracket. }
    rewrite Hx, read_elements_back by (done || (cbn [length] in Hf; lia)). done.
  - apply read_object_back; [done| |done]. by apply numbers_ok_obj.
Qed.

(** ** What is written is UTF-8, without control characters *)

Definition printable (r : rune) : bool :=
  valid_rune r && match r with R1 a => 32 <=? code a | _ => true end.

Abbreviation all_printable := (Forall (fun r => printable r = true)).

Lemma escape_rune_printable r : scanned r → all_printable (escape_rune r).
Proof.
  intros [Hr|(a & -> & _)]; [|by repeat constructor].
  assert ((∀ a, r ≠ R1 a) → all_printable [r]) as Hone.
  { intros Ha. constructor; [|constructor]. unfold printable. rewrite Hr.
    destruct r as [a| | | |]; [by destruct (Ha a)|done..]. }
  destruct r as [a|a b|a b c|a b c d|a]; [|by apply Hone| |by apply Hone|done].
  - destruct a as [[] [] [] [] [] [] [] []]; first [discriminate Hr|by repeat constructor].
  - cbn [escape_rune]. repeat case_bool_decide; [by repeat constructor..|]. by apply Hone.
Qed.

Lemma quoted_printable s : all_printable (quoted s).
Proof.
  unfold quoted. constructor; [done|]. apply Forall_app. split; [|by repeat constructor].
  induction (runes_scanned s) as [|r l Hr _ IH]; [constructor|].
  rewrite bind_cons. apply Forall_app. split; [by apply escape_rune_printable|done].
Qed.

Lemma number_char_printable a : number_char a = true → printable (R1 a) = true.
Proof.
  intros H. destruct a as [[] [] [] [] [] [] [] []]; first [discriminate H|reflexivity].
Qed.

Lemma number_text_printable st t : num_run st t = true → all_printable (ascii_runes t).
Proof.
  revert st. induction t as [|a t IH]; intros st H; [constructor|]. cbn [num_run] in H.
  destruct (num_step st a) as [st'|] eqn:Hs; [|done]. constructor; [|by eapply IH].
  by apply num_step_char, number_char_printable in Hs.
Qed.

Lemma join_printable sep l : printable sep = true → Forall all_printable l → all_printable (join sep l).
Proof.
  intros Hs. induction 1 as [|x [|y l] Hx _ IH]; [constructor|done|].
  rewrite join_cons. apply Forall_app. split; [done|]. by constructor.
Qed.

Lemma render_printable j : numbers_ok j → all_printable (render j).
Proof.
  induction j as [|b|t|s pl|l IH|l IH] using json_nested_ind; intros Hok.
  - by repeat constructor.
  - destruct b; by repeat constructor.
  - by eapply number_text_printable.
  - apply quoted_printable.
  - apply numbers_ok_arr in Hok. constructor; [done|]. apply Forall_app. split; [|by repeat constructor].
    apply join_printable, Forall_fmap; [done|]. rewrite Forall_forall in *. intros j Hj. by apply IH, Hok.
  - apply numbers_ok_obj in Hok. constructor; [done|]. apply Forall_app. split; [|by repeat constructor].
    apply join_printable, Forall_fmap; [done|]. rewrite Forall_forall in *. intros kj Hj.
    apply Forall_app. split; [apply quoted_printable|]. constructor; [done|]. by apply IH, Hok.
Qed.

Lemma render_valid j : numbers_ok j → Forall (fun r => valid_rune r = true) (render j).
Proof.
  intros Hj. eapply Forall_impl; [by apply render_printable|]. by intros r [? _]%andb_true_iff.
Qed.

Lemma list_max_ext {A} (f g : A → nat) l : Forall (fun x => f x = g x) l → list_max (f <$> l) = list_max (g <$> l).
Proof. intros Hl. f_equal. by apply Forall_fmap_ext. Qed.

Lemma depth_sanitize j : depth (sanitize j) = depth j.
Proof.
  induction j as [|b|t|s pl|l IH|l IH] using json_nested_ind; [done..| |]; cbn [sanitize depth]; f_equal;
    rewrite <- list_fmap_compose; by apply list_max_ext.
Qed.

(** What is written reads back, and no more fuel is needed than the reader
    takes: every string comes back with the bytes that are not UTF-8 replaced. *)
Lemma Parse_json_text j :
  numbers_ok j → (depth j ≤ maxNestingDepth)%nat → Parse (json_text j) = Some (sanitize j).
Proof.
  intros Hok Hd. unfold Parse, json_text. rewrite runes_flat_all by by apply render_valid.
  rewrite <- (app_nil_r (render j)) at 2. rewrite read_value_render by (done || (unfold read_fuel; lia)).
  cbn [mbind option_bind]. rewrite depth_sanitize, bool_decide_eq_true_2 by done.
  by apply Nat.leb_le in Hd as ->.
Qed.

(** The encoder's line ends with a line break, which the reader skips. *)
Lemma Parse_json_line j :
  numbers_ok j → (depth j ≤ maxNestingDepth)%nat →
  Parse (json_text j +:+ String "010" "") = Some (sanitize j).
Proof.
  intros Hok Hd. unfold Parse, json_text. rewrite runes_flat by by apply render_valid.
  change (runes (String "010" "")) with [R1 "010"].
  rewrite read_value_render by (done || (unfold read_fuel; rewrite length_app; lia)).
  cbn [mbind option_bind]. rewrite depth_sanitize. cbn [skip_ws is_ws].
  rewrite !bool_decide_eq_true_2 by (done || (by vm_compute)). by apply Nat.leb_le in Hd as ->.
Qed.

(** A decoder takes an object from the front of a stream. *)
Lemma DecodeFirst_object ms s :
  numbers_ok (JObj ms) → (depth (JObj ms) ≤ maxNestingDepth)%nat →
  DecodeFirst (json_text (JObj ms) +:+ s) = Some (sanitize (JObj ms)).
Proof.
  intros Hok Hd. unfold DecodeFirst, json_text. rewrite runes_flat by by apply render_valid.
  rewrite read_object_back.
  - cbn [mbind option_bind]. rewrite depth_sanitize. apply Nat.leb_le in Hd as ->. done.
  - apply Forall_true. intros kj. apply read_value_render.
  - by apply numbers_ok_obj.
  - unfold read_fuel. rewrite length_app. lia.
Qed.
