(* ===== verification/JsonStruct.v ===== *)
(** * Structs and JSON

    How [encoding/json] writes the fields of a struct and fills them from an
    object: the names of the fields, the integers, the floats through the
    interface [FloatText], and the errors.  A decoded value is [None] when
    [json.Unmarshal] returns an error. *)

From S2P Require Import Prelude GoTime GoText Json.
From stdpp Require Import base gmap strings list pretty.
From Stdlib Require Import ZArith Ascii Lia.

#[local] Open Scope Z_scope.

Create HintDb json.
Create Rewrite HintDb json_fill.

(** ** Floats *)

(** The text of a float: which floats have one (not NaN, not an infinity), the
    shortest text that identifies the value, and [strconv.ParseFloat], with its
    range error. *)
Class FloatText (F : Type) := {
  finite : F → bool;
  float_text : F → string;
  parse_float : string → option F
}.

(** What [strconv] documents. *)
Class FloatTextLaws (F : Type) `{FloatText F} := {
  float_text_number x : finite x = true → valid_number (float_text x) = true;
  float_text_parse x : finite x = true → parse_float (float_text x) = Some x
}.

(** ** Integers *)

Definition int_text (z : Z) : string := pretty z.

Fixpoint all_digits (s : string) : bool :=
  match s with
  | EmptyString => true
  | String a s => is_digit a && all_digits s
  end.

(** [strconv.ParseInt(t, 10, 64)] of the text of a number: a fraction, an
    exponent and a value out of range are errors. *)
Definition parse_int64 (t : string) : option Z :=
  let '(sign, u) :=
    match t with
    | String a u => if bool_decide (a = "-"%char) then (-1, u) else (1, t)
    | EmptyString => (1, t)
    end in
  if negb (bool_decide (u = "")) && all_digits u then
    let z := sign * Z.of_N (digits_value 0 u) in
    if (- 2 ^ 63 <=? z) && (z <? 2 ^ 63) then Some z else None
  else None.

Lemma pretty_N_char_digit x : (x < 10)%N → is_digit (pretty_N_char x) = true.
Proof.
  intros Hx. assert (x ∈ [0; 1; 2; 3; 4; 5; 6; 7; 8; 9]%N) as Hin.
  { rewrite !elem_of_cons. lia. }
  repeat (apply elem_of_cons in Hin as [->|Hin]; [done|]). by apply elem_of_nil in Hin.
Qed.

(** A positive number starts with a digit that is not 0. *)
Lemma pretty_N_go_digits x s :
  (0 < x)%N → all_digits s = true →
  ∃ d t, pretty_N_go x s = String (pretty_N_char d) t ∧ (0 < d < 10)%N ∧ all_digits t = true.
Proof.
  revert s. induction (N.lt_wf_0 x) as [x _ IH]. intros s Hx Hs. rewrite pretty_N_go_step by done.
  destruct (decide (x < 10)%N) as [Hlt|Hge].
  - rewrite N.div_small, N.mod_small, pretty_N_go_0 by done. exists x, s. split_and!; [done..].
  - apply IH; [by apply N.div_lt|apply N.div_str_pos; lia|].
    cbn. rewrite pretty_N_char_digit by (by apply N.mod_lt). done.
Qed.

Lemma pretty_pos_digits x :
  (0 < x)%N → ∃ d t, pretty x = String (pretty_N_char d) t ∧ (0 < d < 10)%N ∧ all_digits t = true.
Proof.
  intros Hx. unfold pretty, pretty_N. rewrite decide_False by lia. by apply pretty_N_go_digits.
Qed.

Lemma num_run_all_digits s : all_digits s = true → num_run NInt s = true.
Proof.
  induction s as [|a s IH]; [done|]. cbn. intros [Ha Hs]%andb_true_iff. rewrite Ha. by apply IH.
Qed.

(** Positive numbers, on their own and after a sign. *)
Lemma num_run_pos st x :
  st ∈ [NStart; NNeg] → (0 < x)%N → num_run st (pretty x) = true ∧ all_digits (pretty x) = true ∧
  ∃ a t, pretty x = String a t ∧ a ≠ "-"%char.
Proof.
  intros Hst Hx. destruct (pretty_pos_digits x Hx) as (d & t & -> & Hd & Ht).
  assert (d ∈ [1; 2; 3; 4; 5; 6; 7; 8; 9]%N) as Hin by (rewrite !elem_of_cons; lia).
  apply num_run_all_digits in Ht as Hrun.
  repeat (apply elem_of_cons in Hin as [->|Hin];
    [split_and!; [repeat (apply elem_of_cons in Hst as [->|Hst]; [exact Hrun|]); by apply elem_of_nil in Hst
                 |exact Ht|by eexists _, _]|]).
  by apply elem_of_nil in Hin.
Qed.

Lemma int_text_cases z :
  z = 0 ∧ int_text z = "0" ∨
  0 < z ∧ int_text z = pretty (Z.to_N z) ∨
  z < 0 ∧ int_text z = String "-" (pretty (Z.to_N (- z))).
Proof. destruct z; [by left|right; left; by split|right; right; by split]. Qed.

Lemma int_text_number z : valid_number (int_text z) = true.
Proof.
  destruct (int_text_cases z) as [[-> ->]|[[Hz ->]|[Hz ->]]]; [done| |].
  - apply (num_run_pos NStart); [left|lia].
  - apply (num_run_pos NNeg); [right; left|lia].
Qed.

Lemma int_text_parse z : - 2 ^ 63 <= z < 2 ^ 63 → parse_int64 (int_text z) = Some z.
Proof.
  intros Hr. unfold parse_int64. destruct (int_text_cases z) as [[-> ->]|[[Hz ->]|[Hz ->]]]; [done| |].
  - destruct (num_run_pos NStart (Z.to_N z)) as (_ & Hd & a & t & Heq & Ha); [left|lia|].
    rewrite Heq. rewrite bool_decide_eq_false_2 by done. rewrite <- Heq, Hd, digits_value_pretty.
    rewrite bool_decide_eq_false_2 by (by rewrite Heq). cbn [negb andb].
    replace (1 * Z.of_N (Z.to_N z)) with z by lia. rewrite (proj2 (Z.leb_le _ _)), (proj2 (Z.ltb_lt _ _)) by lia. done.
  - destruct (num_run_pos NStart (Z.to_N (- z))) as (_ & Hd & a & t & Heq & Ha); [left|lia|].
    rewrite bool_decide_eq_true_2 by done. rewrite Hd, digits_value_pretty.
    rewrite bool_decide_eq_false_2 by (by rewrite Heq). cbn [negb andb].
    replace (-1 * Z.of_N (Z.to_N (- z))) with z by lia.
    rewrite (proj2 (Z.leb_le _ _)), (proj2 (Z.ltb_lt _ _)) by lia. done.
Qed.

(** ** Writing a struct *)

Section write.
Context {F : Type} `{FloatText F}.

Definition put_string (s : string) : option json := Some (JStr s (plain_text s)).
Definition put_bool (b : bool) : option json := Some (JBool b).
Definition put_int (z : Z) : option json := Some (JNum (int_text z)).

(** NaN and the infinities are an [UnsupportedValueError]. *)
Definition put_float (x : F) : option json := if finite x then Some (JNum (float_text x)) else None.

(** The fields in the order of the struct; the first error is the result. *)
Fixpoint put_struct (fields : list (string * option json)) : option (list (string * json)) :=
  match fields with
  | [] => Some []
  | (k, o) :: fields => j ← o; ms ← put_struct fields; Some ((k, j) :: ms)
  end.

Definition Marshal (fields : list (string * option json)) : option string :=
  ms ← put_struct fields; Some (json_text (JObj ms)).
End write.

(** ** Filling a struct *)

(** Each rune folded to the smallest of its class; only those whose class has an
    ASCII letter can match the name of a field, which is ASCII. *)
Definition fold_rune (r : rune) : rune :=
  match r with
  | R1 a => if ((97 <=? code a) && (code a <=? 122))%N then R1 (ascii_of_N (code a - 32)) else r
  | _ => if bool_decide (r = encode_rune 8490) then R1 "K"        (* U+212A, Kelvin *)
         else if bool_decide (r = encode_rune 383) then R1 "S"    (* U+017F, long s *)
         else coerce r
  end.

Definition foldName (s : string) : list rune := fold_rune <$> runes s.

Section fill.
Context {F : Type} `{FloatText F} {M : Type}.

(** The fields: a name, and how a value is stored. *)
Abbreviation fields := (list (string * (json → M → option M))).

Fixpoint first_field (p : string → bool) (fs : fields) : option (json → M → option M) :=
  match fs with
  | [] => None
  | (name, store) :: fs => if p name then Some store else first_field p fs
  end.

(** The field with this name, else the first that is equal up to case. *)
Definition find_field (fs : fields) (k : string) : option (json → M → option M) :=
  match first_field (fun name => bool_decide (name = k)) fs with
  | Some store => Some store
  | None => first_field (fun name => bool_decide (foldName name = foldName k)) fs
  end.

(** Members in order, so that the last of a name wins; others are ignored. *)
Fixpoint fill_members (fs : fields) (ms : list (string * json)) (m : M) : option M :=
  match ms with
  | [] => Some m
  | (k, j) :: ms =>
    m ← match find_field fs k with Some store => store j m | None => Some m end;
    fill_members fs ms m
  end.

(** [null] leaves a struct as it is. *)
Definition fill_struct (fs : fields) (m : M) (j : json) : option M :=
  match j with
  | JNull => Some m
  | JObj ms => fill_members fs ms m
  | _ => None
  end.

(** [json.Unmarshal] into a variable that holds [zero]. *)
Definition Unmarshal (fs : fields) (zero : M) (s : string) : option M :=
  j ← Parse s; fill_struct fs zero j.

(** Storing a value of each type; [null] leaves the field as it is, and sets a
    pointer to nil. *)
Definition get_string (set : string → M → M) (j : json) (m : M) : option M :=
  match j with JNull => Some m | JStr s _ => Some (set s m) | _ => None end.

Definition get_float (set : F → M → M) (j : json) (m : M) : option M :=
  match j with
  | JNull => Some m
  | JNum t => x ← parse_float t; Some (set x m)
  | _ => None
  end.

Definition get_bool (set : bool → M → M) (j : json) (m : M) : option M :=
  match j with JNull => Some m | JBool b => Some (set b m) | _ => None end.

Definition get_bool_ptr (set : option bool → M → M) (j : json) (m : M) : option M :=
  match j with JNull => Some (set None m) | JBool b => Some (set (Some b) m) | _ => None end.

Definition get_int64_ptr (set : option Z → M → M) (j : json) (m : M) : option M :=
  match j with
  | JNull => Some (set None m)
  | JNum t => z ← parse_int64 t; Some (set (Some z) m)
  | _ => None
  end.

(** A slice of floats: [null] is nil; an element that is [null] keeps what the
    slice held there. *)
Fixpoint get_elements (zero : F) (old : list F) (js : list json) : option (list F) :=
  match js with
  | [] => Some []
  | j :: js =>
    x ← match j with JNull => Some (default zero (head old)) | JNum t => parse_float t | _ => None end;
    xs ← get_elements zero (tail old) js;
    Some (x :: xs)
  end.

Definition get_floats (zero : F) (get : M → list F) (set : list F → M → M) (j : json) (m : M) : option M :=
  match j with
  | JNull => Some (set [] m)
  | JArr js => xs ← get_elements zero (get m) js; Some (set xs m)
  | _ => None
  end.

(** A slice of strings. *)
Fixpoint get_texts (old : list string) (js : list json) : option (list string) :=
  match js with
  | [] => Some []
  | j :: js =>
    x ← match j with JNull => Some (default "" (head old)) | JStr s _ => Some s | _ => None end;
    xs ← get_texts (tail old) js;
    Some (x :: xs)
  end.

Definition get_strings (get : M → list string) (set : list string → M → M) (j : json) (m : M) : option M :=
  match j with
  | JNull => Some (set [] m)
  | JArr js => xs ← get_texts (get m) js; Some (set xs m)
  | _ => None
  end.

(** An integer of 64 bits. *)
Definition get_int64 (set : Z → M → M) (j : json) (m : M) : option M :=
  match j with
  | JNull => Some m
  | JNum t => z ← parse_int64 t; Some (set z m)
  | _ => None
  end.

(** The elements of a map: one that is [null] is the zero value. *)
Definition elem_string (j : json) : option string :=
  match j with JNull => Some "" | JStr s _ => Some s | _ => None end.

Definition elem_bool (j : json) : option bool :=
  match j with JNull => Some false | JBool b => Some b | _ => None end.

Definition elem_float (zero : F) (j : json) : option F :=
  match j with JNull => Some zero | JNum t => parse_float t | _ => None end.

Fixpoint get_entries {A} (elem : json → option A) (ms : list (string * json)) (old : gmap string A) :
    option (gmap string A) :=
  match ms with
  | [] => Some old
  | (k, j) :: ms => x ← elem j; get_entries elem ms (<[k := x]> old)
  end.

(** A map: [null] is nil, an object adds to the map that is there. *)
Definition get_map {A} (elem : json → option A) (get : M → gmap string A) (set : gmap string A → M → M)
    (j : json) (m : M) : option M :=
  match j with
  | JNull => Some (set ∅ m)
  | JObj ms => x ← get_entries elem ms (get m); Some (set x m)
  | _ => None
  end.

(** A map that may be nil. *)
Definition get_nil_map {A} (elem : json → option A) (get : M → option (gmap string A))
    (set : option (gmap string A) → M → M) (j : json) (m : M) : option M :=
  match j with
  | JNull => Some (set None m)
  | JObj ms => x ← get_entries elem ms (default ∅ (get m)); Some (set (Some x) m)
  | _ => None
  end.
End fill.
Arguments find_field {M}.
Arguments fill_members {M}.
Arguments fill_struct {M}.
Arguments Unmarshal {M}.

(** A struct inside of a struct. *)
Definition get_struct {M N} (fs : list (string * (json → N → option N))) (get : M → N) (set : N → M → M)
    (j : json) (m : M) : option M :=
  n ← fill_struct fs (get m) j; Some (set n m).

(** ** What is marshalled can be unmarshalled *)

(** The written values are fields of a struct of scalars. *)
Definition scalar (j : json) : Prop := numbers_ok j ∧ depth j = 0%nat.

Lemma scalar_int z : scalar (JNum (int_text z)).
Proof. split; [apply int_text_number|done]. Qed.

Lemma scalar_float `{FloatTextLaws F} x : finite x = true → scalar (JNum (float_text x)).
Proof. intros Hx. split; [by apply float_text_number|done]. Qed.

#[export] Hint Resolve scalar_int scalar_float : json.
#[export] Hint Extern 1 (scalar _) => (split; done) : json.

(** The text of an object is read as the object. *)
Lemma Unmarshal_object {M} fs (zero : M) ms :
  Forall (fun kj => numbers_ok kj.2) ms → (depth (JObj ms) ≤ maxNestingDepth)%nat →
  Unmarshal fs zero (json_text (JObj ms)) = fill_members fs (sanitize_member <$> ms) zero.
Proof. intros Hms Hd. unfold Unmarshal. by rewrite Parse_json_text by (done || by apply numbers_ok_obj). Qed.

(** An object of scalars, in particular. *)
Lemma Unmarshal_scalars {M} fs (zero : M) ms :
  Forall (fun kj => scalar kj.2) ms →
  Unmarshal fs zero (json_text (JObj ms)) = fill_members fs (sanitize_member <$> ms) zero.
Proof.
  intros Hms. apply Unmarshal_object.
  - eapply Forall_impl; [exact Hms|]. by intros kj [? _].
  - cbn [depth]. transitivity 1%nat; [|unfold maxNestingDepth; cbn; lia].
    enough (list_max ((fun kj : string * json => depth kj.2) <$> ms) = 0%nat) by lia.
    induction Hms as [|kj ms [_ Hd] _ IH]; [done|]. rewrite fmap_cons. cbn. by rewrite Hd.
Qed.

(** One member: a field of the struct, or none of them. *)
Lemma fill_store {M} (fs : list (string * (json → M → option M))) k store j ms m :
  to_valid k = k → find_field fs k = Some store →
  fill_members fs (sanitize_member (k, j) :: ms) m = store (sanitize j) m ≫= fill_members fs ms.
Proof. intros Hk Hf. unfold sanitize_member. cbn [fst snd fill_members]. by rewrite Hk, Hf. Qed.

Lemma fill_skip {M} (fs : list (string * (json → M → option M))) k j ms m :
  to_valid k = k → find_field fs k = None →
  fill_members fs (sanitize_member (k, j) :: ms) m = fill_members fs ms m.
Proof. intros Hk Hf. unfold sanitize_member. cbn [fst snd fill_members]. by rewrite Hk, Hf. Qed.

Lemma fill_nil {M} (fs : list (string * (json → M → option M))) m : fill_members fs [] m = Some m.
Proof. done. Qed.

(** The stores, at the values that are written. *)
Section stores.
Context {F : Type} `{FloatTextLaws F} {M : Type}.

Lemma get_string_written set s b (m : M) :
  get_string set (sanitize (JStr s b)) m = Some (set (to_valid s) m).
Proof. done. Qed.

Lemma get_float_written (set : F → M → M) x m :
  finite x = true → get_float set (sanitize (JNum (float_text x))) m = Some (set x m).
Proof. intros Hx. cbn. by rewrite float_text_parse. Qed.

Lemma get_bool_written set b (m : M) : get_bool set (sanitize (JBool b)) m = Some (set b m).
Proof. done. Qed.

Lemma get_bool_ptr_written set b (m : M) :
  get_bool_ptr set (sanitize (JBool b)) m = Some (set (Some b) m).
Proof. done. Qed.

Lemma get_floats_nil (zero : F) get set (m : M) : get_floats zero get set (sanitize JNull) m = Some (set [] m).
Proof. done. Qed.

Lemma get_map_nil {A} (elem : json → option A) get set (m : M) :
  get_map elem get set (sanitize JNull) m = Some (set ∅ m).
Proof. done. Qed.

Lemma get_struct_written {N} fs get (set : N → M → M) ms (m : M) :
  get_struct fs get set (sanitize (JObj ms)) m =
  n ← fill_members fs (sanitize_member <$> ms) (get m); Some (set n m).
Proof. done. Qed.

Lemma get_int64_ptr_written set z (m : M) :
  - 2 ^ 63 <= z < 2 ^ 63 →
  get_int64_ptr set (sanitize (JNum (int_text z))) m = Some (set (Some z) m).
Proof. intros Hz. cbn [get_int64_ptr sanitize]. by rewrite int_text_parse. Qed.
End stores.

#[export] Hint Rewrite @get_string_written @get_bool_written @get_bool_ptr_written @get_floats_nil
  @get_map_nil @get_struct_written : json_fill.
#[export] Hint Rewrite @get_float_written @get_int64_ptr_written using done : json_fill.

(** Reads the next member of an object. *)
Ltac fill_member :=
  first
    [erewrite fill_store; [|vm_compute; reflexivity|reflexivity]
    |rewrite fill_skip; [|vm_compute; reflexivity|vm_compute; reflexivity]];
  autorewrite with json_fill; cbn [mbind option_bind]; rewrite ?fill_nil; cbn [mbind option_bind].
