(* ===== verification/Model.v ===== *)
(** * Domain model: vehicles and flexibility signals

    Models [core/model/vehicle.go] and [core/model/signal.go]. *)

From S2P Require Import Prelude Num GoTime.
From stdpp Require Import base gmap strings list.
From Stdlib Require Import ZArith QArith Qabs Qminmax Lqa Lia.

#[local] Open Scope Z_scope.

(** ** Signals *)

(** [type SignalType int]: any integer is a value of the type. *)
Abbreviation SignalType := Z (only parsing).

Definition SignalFCR : SignalType := 0.
Definition SignalAFRR : SignalType := 1.
Definition SignalMA : SignalType := 2.
Definition SignalNEBEF : SignalType := 3.
Definition SignalEcoWatt : SignalType := 4.

Definition SignalType_String (t : SignalType) : string :=
  if t =? SignalFCR then "FCR"
  else if t =? SignalAFRR then "aFRR"
  else if t =? SignalMA then "MA"
  else if t =? SignalNEBEF then "NEBEF"
  else if t =? SignalEcoWatt then "EcoWatt"
  else "unknown".

Record FlexibilitySignal (F : Type) := MkSignal {
  sig_Type : SignalType;
  PowerKW : F;
  sig_Duration : Duration;
  Timestamp : Time
}.
Arguments MkSignal {F}.
Arguments sig_Type {F}.
Arguments PowerKW {F}.
Arguments sig_Duration {F}.
Arguments Timestamp {F}.

Definition IsStrict {F} (s : FlexibilitySignal F) : bool := sig_Type s =? SignalFCR.

(** ** Vehicles *)

Record UserProfile (F : Type) := MkUserProfile {
  ExpectedDeparture : Time;
  HistoricalUsage : list F
}.
Arguments MkUserProfile {F}.
Arguments ExpectedDeparture {F}.
Arguments HistoricalUsage {F}.

Record Vehicle (F : Type) := MkVehicle {
  ID : string;
  SoC : F;
  IsV2G : bool;
  MaxPower : F;
  BatteryKWh : F;
  Available : bool;
  Charging : bool;
  Priority : bool;
  Departure : Time;
  MinSoC : F;
  Profile : UserProfile F;
  Metadata : gmap string string;
  Segment : string;
  AvailabilityProb : F;
  DegradationFactor : F
}.
Arguments MkVehicle {F}.
Arguments ID {F}.
Arguments SoC {F}.
Arguments IsV2G {F}.
Arguments MaxPower {F}.
Arguments BatteryKWh {F}.
Arguments Available {F}.
Arguments Charging {F}.
Arguments Priority {F}.
Arguments Departure {F}.
Arguments MinSoC {F}.
Arguments Profile {F}.
Arguments Metadata {F}.
Arguments Segment {F}.
Arguments AvailabilityProb {F}.
Arguments DegradationFactor {F}.

Section vehicle.
Context {F : Type} `{Num F}.
Implicit Types v : Vehicle F.
#[local] Open Scope num_scope.

(** The Go zero value, from which composite literals are built. *)
Definition vehicle_zero : Vehicle F :=
  MkVehicle "" n0 false n0 n0 false false false time_zero n0
    (MkUserProfile time_zero []) ∅ "" n0 n0.

(** Assignments to single fields. *)
Definition set_AvailabilityProb (p : F) v : Vehicle F :=
  MkVehicle (ID v) (SoC v) (IsV2G v) (MaxPower v) (BatteryKWh v) (Available v)
    (Charging v) (Priority v) (Departure v) (MinSoC v) (Profile v) (Metadata v)
    (Segment v) p (DegradationFactor v).

Definition set_SoC (s : F) v : Vehicle F :=
  MkVehicle (ID v) s (IsV2G v) (MaxPower v) (BatteryKWh v) (Available v)
    (Charging v) (Priority v) (Departure v) (MinSoC v) (Profile v) (Metadata v)
    (Segment v) (AvailabilityProb v) (DegradationFactor v).

(** [Validate]: [inr tt] is a nil error. *)
Definition Validate v : string + unit :=
  if BatteryKWh v <=? n0 then inl "battery capacity must be positive"
  else inr tt.

Definition CanProvidePower v (power : F) : bool :=
  IsV2G v && Available v && (SoC v >=? MinSoC v) && (MaxPower v >=? power).

Definition CanReduceCharge v : bool := Charging v && negb (Priority v).

Definition EffectiveCapacity v (current : F) : F :=
  let min := MinSoC v in
  let min := if min =? n0 then 3 // 10 else min in
  if SoC v <? min then n0 else
  let avail := AvailabilityProb v in
  let avail := if avail =? n0 then n1 else avail in
  let avail := nmax n0 (nmin avail n1) in
  let degr := nmax n0 (nmin (DegradationFactor v) n1) in
  let cap := MaxPower v * (n1 - degr) - current in
  if cap <=? n0 then n0 else
  cap * (SoC v * avail).
End vehicle.

(** A vehicle whose physical quantities are in the ranges the struct's comments
    state. *)
Definition vehicle_wf (v : Vehicle Q) : Prop :=
  (0 <= SoC v <= 1)%Q ∧ (0 <= MaxPower v)%Q ∧ (0 <= BatteryKWh v)%Q ∧
  (0 <= MinSoC v <= 1)%Q ∧ (0 <= AvailabilityProb v <= 1)%Q ∧
  (0 <= DegradationFactor v <= 1)%Q.

Lemma clamp01_Q (x : Q) : (0 <= Qmax 0 (Qmin x 1) <= 1)%Q.
Proof.
  split; [apply Q.le_max_l|].
  apply Q.max_lub; [lra|]. apply Q.le_min_r.
Qed.

(** The capacity a fallback may add to [current] is never negative, and on top
    of [current] it stays within what degradation leaves of [MaxPower]. *)
Lemma EffectiveCapacity_bounds (v : Vehicle Q) (current : Q) :
  vehicle_wf v →
  (0 <= EffectiveCapacity v current)%Q ∧
  (EffectiveCapacity v current == 0 ∨
   current + EffectiveCapacity v current <= MaxPower v)%Q.
Proof.
  intros (HSoC & HMax & _ & _ & _ & _). unfold EffectiveCapacity. num_Q.
  set (avail := Qmax 0 (Qmin (if Qeq_bool (AvailabilityProb v) 0 then _ else _) 1)).
  set (degr := Qmax 0 (Qmin (DegradationFactor v) 1)).
  pose proof (clamp01_Q (if Qeq_bool (AvailabilityProb v) 0 then 1 # 1 else AvailabilityProb v)) as Ha.
  pose proof (clamp01_Q (DegradationFactor v)) as Hd.
  change (0 <= avail <= 1)%Q in Ha. change (0 <= degr <= 1)%Q in Hd.
  destruct (Qltb _ _); [split; [lra|left; lra]|].
  q_case; [split; [lra|left; lra]|].
  set (cap := (MaxPower v * ((1 # 1) - degr) - current)%Q) in *.
  assert (0 <= SoC v * avail <= 1)%Q by nra.
  split; [nra|right]. unfold cap in *. nra.
Qed.
