(* ===== verification/PowerMap.v ===== *)
(** * Power maps: [map\[string\]float64]

    Reading an absent key of a Go map yields the zero value and [m\[k\] += x]
    creates the key.  The second half of the file is the arithmetic of the sums
    of such maps over exact rationals, which the conservation theorems of the
    dispatchers and of the fallbacks share. *)

From S2P Require Import Prelude Num.
From stdpp Require Import base gmap strings list fin_maps.
From Stdlib Require Import ZArith QArith Qabs Qminmax Lqa Lia Setoid Morphisms.

Section ops.
Context {F : Type} `{Num F}.

(** [m\[k\]]. *)
Definition mget (m : gmap string F) (k : string) : F := default n0 (m !! k).

(** [m\[k\] += x]. *)
Definition madd (m : gmap string F) (k : string) (x : F) : gmap string F :=
  <[k := (mget m k + x)%num]> m.

Lemma mget_insert m k x j : mget (<[k := x]> m) j = if decide (k = j) then x else mget m j.
Proof. unfold mget. rewrite lookup_insert. by case_decide. Qed.

Lemma mget_madd_eq m k x : mget (madd m k x) k = (mget m k + x)%num.
Proof. unfold madd. rewrite mget_insert. by rewrite decide_True. Qed.

Lemma mget_madd_ne m k x j : k ≠ j → mget (madd m k x) j = mget m j.
Proof. intros Hne. unfold madd. rewrite mget_insert. by rewrite decide_False. Qed.

Lemma dom_madd m k x : dom (madd m k x) = {[k]} ∪ dom m.
Proof. apply dom_insert_L. Qed.

Lemma mget_empty k : mget ∅ k = n0.
Proof. done. Qed.

Lemma lookup_mget m k x : m !! k = Some x → mget m k = x.
Proof. unfold mget. by intros ->. Qed.
End ops.

(** ** Sums over exact rationals *)

#[local] Open Scope Q_scope.

Fixpoint qsum (l : list Q) : Q :=
  match l with [] => 0 | x :: l => x + qsum l end.

Lemma qsum_app l k : qsum (l ++ k) == qsum l + qsum k.
Proof. induction l as [|x l IH]; cbn [qsum app]; [|rewrite IH]; lra. Qed.

#[export] Instance qsum_perm : Proper (Permutation ==> Qeq) qsum.
Proof. induction 1; cbn [qsum]; lra. Qed.

Lemma qsum_nonneg l : Forall (fun x => 0 <= x) l → 0 <= qsum l.
Proof. induction 1; cbn [qsum]; lra. Qed.

Lemma qsum_le {A} (f g : A → Q) (l : list A) :
  Forall (fun x => f x <= g x) l → qsum (f <$> l) <= qsum (g <$> l).
Proof. induction 1; rewrite ?fmap_cons; cbn [qsum]; [cbn; lra|lra]. Qed.

Lemma qsum_eq {A} (f g : A → Q) (l : list A) :
  Forall (fun x => f x == g x) l → qsum (f <$> l) == qsum (g <$> l).
Proof. induction 1; rewrite ?fmap_cons; cbn [qsum]; [reflexivity|lra]. Qed.

Lemma qsum_elem_le l x : Forall (fun x => 0 <= x) l → x ∈ l → x <= qsum l.
Proof.
  intros Hl. induction 1 as [x l|x y l Hx IH]; apply Forall_cons in Hl as [? Hl];
    cbn [qsum]; pose proof (qsum_nonneg l Hl); [lra|]. specialize (IH Hl). lra.
Qed.

Lemma qsum_mult (q : Q) (l : list Q) : qsum ((fun x => q * x) <$> l) == q * qsum l.
Proof. induction l as [|x l IH]; [cbn; lra|]. rewrite !fmap_cons. cbn [qsum]. lra. Qed.

Lemma qsum_const {A} (q : Q) (l : list A) :
  qsum ((fun _ => q) <$> l) == inject_Z (Z.of_nat (length l)) * q.
Proof.
  induction l as [|x l IH]; [reflexivity|]. rewrite fmap_cons. cbn [qsum length].
  rewrite IH, Nat2Z.inj_succ, <- Z.add_1_r, inject_Z_plus. change (inject_Z 1) with 1. lra.
Qed.

(** The total power of an assignment. *)
Definition power_total (m : gmap string Q) : Q := qsum (map_to_list m).*2.

Lemma power_total_empty : power_total ∅ == 0.
Proof. unfold power_total. rewrite map_to_list_empty. reflexivity. Qed.

Lemma power_total_insert_None m k x : m !! k = None → power_total (<[k := x]> m) == x + power_total m.
Proof. intros Hk. unfold power_total. rewrite map_to_list_insert by done. reflexivity. Qed.

Lemma power_total_delete m k : power_total m == mget m k + power_total (delete k m).
Proof.
  unfold mget. destruct (m !! k) as [y|] eqn:Hy; cbn [default].
  - rewrite <- (insert_id m k y) at 1 by done.
    rewrite <- insert_delete_eq, power_total_insert_None by apply lookup_delete_eq. reflexivity.
  - rewrite delete_id by done. num_Q. lra.
Qed.

Lemma power_total_insert m k x : power_total (<[k := x]> m) == power_total m - mget m k + x.
Proof.
  rewrite <- insert_delete_eq, power_total_insert_None by apply lookup_delete_eq.
  rewrite (power_total_delete m k). lra.
Qed.

Lemma power_total_madd m k x : power_total (madd m k x) == power_total m + x.
Proof. unfold madd. rewrite power_total_insert. num_Q. lra. Qed.

(** The total over the keys of a duplicate-free list that covers the map. *)
Lemma power_total_keys (l : list string) m :
  NoDup l → dom m ⊆ list_to_set l → power_total m == qsum (mget m <$> l).
Proof.
  revert m. induction l as [|k l IH]; intros m Hnd Hdom; cbn [qsum fmap list_fmap].
  - assert (m = ∅) as -> by (apply dom_empty_inv_L; set_solver). apply power_total_empty.
  - apply NoDup_cons in Hnd as [Hk Hnd].
    rewrite (power_total_delete m k).
    rewrite IH by (done || rewrite dom_delete_L; set_solver).
    enough (mget (delete k m) <$> l = mget m <$> l) as -> by reflexivity.
    apply list_fmap_ext. intros i j Hj%list_elem_of_lookup_2.
    unfold mget. rewrite lookup_delete_ne by (intros ->; done). done.
Qed.

(** Assignments that all point in the direction [q] have a total that does. *)
Lemma power_total_sign q m :
  (∀ k x, m !! k = Some x → 0 <= q * x) → 0 <= q * power_total m.
Proof.
  intros Hm. unfold power_total. rewrite <- qsum_mult.
  apply qsum_nonneg, Forall_fmap, Forall_forall. intros x Hx. cbn.
  apply list_elem_of_fmap in Hx as ([k y] & -> & Hin%elem_of_map_to_list). by eapply Hm.
Qed.

(** ** Shares in the direction of a request *)

(** The magnitude of an assignment in the direction of the request. *)
Definition mag (sign : Q) (a : gmap string Q) (k : string) : Q := sign * mget a k.

Lemma mag_madd_eq sign a k x :
  sign * sign == 1 → mag sign (madd a k (sign * x)) k == mag sign a k + x.
Proof.
  intros Hs. unfold mag. rewrite (mget_madd_eq (F:=Q)). num_Q.
  by rewrite Qmult_plus_distr_r, Qmult_assoc, Hs, Qmult_1_l.
Qed.

Lemma mag_madd_ne sign a k x j : k ≠ j → mag sign (madd a k x) j = mag sign a j.
Proof. intros Hne. unfold mag. by rewrite (mget_madd_ne (F:=Q)). Qed.

Lemma mag_total_madd sign a k x :
  sign * sign == 1 → sign * power_total (madd a k (sign * x)) == sign * power_total a + x.
Proof.
  intros Hs. rewrite power_total_madd.
  by rewrite Qmult_plus_distr_r, Qmult_assoc, Hs, Qmult_1_l.
Qed.

(** ** Shares in proportion to a weight *)

Lemma share_bounds (s w r : Q) :
  0 <= s → s <= w → 0 < w → 0 < r → 0 <= r * (s / w) <= r.
Proof.
  intros Hs Hsw Hw Hr.
  assert (0 <= s / w <= 1) as [H1 H2].
  { split; [apply Qle_shift_div_l; lra|apply Qle_shift_div_r; lra]. }
  nra.
Qed.

Lemma share_nonneg (s w r : Q) : 0 <= s → 0 < w → 0 < r → 0 <= r * (s / w).
Proof. intros. apply Qmult_le_0_compat; [lra|]. apply Qle_shift_div_l; lra. Qed.

(** One step of a pass in which everybody takes the fraction [p] of what is
    left: the bound on the rest of the pass extends to the whole pass. *)
Lemma shrink_step (r r1 p u : Q) :
  0 <= r → 0 <= r1 → 0 <= p <= 1 → 0 <= u →
  r1 * (1 + u) <= r - r * p → r1 * (1 + (p + u)) <= r.
Proof.
  intros Hr Hr1 Hp Hu Hle.
  assert (0 <= r1 * u * p) by (apply Qmult_le_0_compat; [apply Qmult_le_0_compat|]; lra).
  assert (r1 * (1 + (p + u)) <= r1 * (1 + u) * (1 + p)) by lra.
  assert (r1 * (1 + u) * (1 + p) <= (r - r * p) * (1 + p)) by (apply Qmult_le_compat_r; lra).
  assert (0 <= r * p * p) by (apply Qmult_le_0_compat; [apply Qmult_le_0_compat|]; lra).
  lra.
Qed.

(** Powers of two, which measure how fast a remainder shrinks. *)
Fixpoint pow2 (n : nat) : Q := match n with O => 1 | S n => 2 * pow2 n end.

Lemma pow2_pos n : 0 < pow2 n.
Proof. induction n; cbn [pow2]; lra. Qed.

Lemma pow2_mono n m : (n ≤ m)%nat → pow2 n <= pow2 m.
Proof.
  induction 1 as [|m Hle IH]; [lra|]. cbn [pow2]. pose proof (pow2_pos m). lra.
Qed.

Lemma pow2_S n : pow2 (S n) == 2 * pow2 n.
Proof. reflexivity. Qed.

Lemma pow2_add n m : pow2 (n + m) == pow2 n * pow2 m.
Proof. induction n as [|n IH]; cbn [pow2 Nat.add]; [|rewrite IH]; lra. Qed.

(** A pass either halves the remainder or shortens the list of [n] takers. *)
Lemma halve_or_leave (P r r' : Q) (k n n' n0 : nat) :
  0 <= r → 0 <= r' → r' <= r → (n' ≤ n)%nat → (n' = n → r' * 2 <= r) →
  r * pow2 (k + n) <= P * pow2 n0 → r' * pow2 (S k + n') <= P * pow2 n0.
Proof.
  intros Hr Hr' Hle Hlen Hhalf Hh.
  destruct (decide (n' = n)) as [->|Hne].
  - specialize (Hhalf eq_refl). rewrite Nat.add_succ_l, pow2_S.
    pose proof (pow2_pos (k + n)).
    assert (r' * 2 * pow2 (k + n) <= r * pow2 (k + n)) by (apply Qmult_le_compat_r; lra). lra.
  - pose proof (pow2_mono (S k + n') (k + n) ltac:(lia)).
    pose proof (pow2_pos (S k + n')).
    assert (r' * pow2 (S k + n') <= r * pow2 (S k + n')) by (apply Qmult_le_compat_r; lra).
    assert (r * pow2 (S k + n') <= r * pow2 (k + n)); [|lra].
    rewrite !(Qmult_comm r). apply Qmult_le_compat_r; lra.
Qed.
