(* ===== verification/Candidates.v ===== *)
(** * Eligibility: filter, dispatch context and candidates

    Models [core/dispatch/filter.go], [context.go] and [helpers.go]: the
    vehicles a signal may use, and the power each may be asked for. *)

From S2P Require Import Prelude Num GoTime Model PowerMap.
From stdpp Require Import base gmap strings list.
From Stdlib Require Import ZArith QArith Qabs Qminmax Lqa Lia.

#[local] Open Scope Z_scope.

(** ** [SimpleVehicleFilter] *)

Section filter.
Context {F : Type} `{Num F}.
#[local] Open Scope num_scope.

(** The body of the loop: whether [v] is appended to the result. *)
Definition filter_keep (signal : FlexibilitySignal F) (v : Vehicle F) : bool :=
  if negb (Available v) then false
  else if (sig_Type signal =? SignalFCR)%Z then IsV2G v && (SoC v >=? 6 // 10)
  else if (sig_Type signal =? SignalNEBEF)%Z then CanReduceCharge v
  else true.

Definition Filter (vehicles : list (Vehicle F)) (signal : FlexibilitySignal F) :
    list (Vehicle F) :=
  List.filter (filter_keep signal) vehicles.
End filter.

(** ** [DispatchContext] *)

Record DispatchContext (F : Type) := MkContext {
  ctx_Signal : FlexibilitySignal F;
  ctx_Now : Time;
  ctx_MarketPrice : F;
  ctx_ParticipationScore : option (gmap string F)   (* None: a nil map *)
}.
Arguments MkContext {F}.
Arguments ctx_Signal {F}.
Arguments ctx_Now {F}.
Arguments ctx_MarketPrice {F}.
Arguments ctx_ParticipationScore {F}.

Section context.
Context {F : Type} `{Num F}.

(** Reading from a nil map yields the zero value. *)
Definition GetParticipation (ctx : DispatchContext F) (id : string) : F :=
  mget (default ∅ (ctx_ParticipationScore ctx)) id.

Definition SetParticipation (ctx : DispatchContext F) (id : string) (score : F) :
    DispatchContext F :=
  let m := match ctx_ParticipationScore ctx with None => ∅ | Some m => m end in
  MkContext (ctx_Signal ctx) (ctx_Now ctx) (ctx_MarketPrice ctx) (Some (<[id := score]> m)).

Lemma GetParticipation_Set ctx id score j :
  GetParticipation (SetParticipation ctx id score) j =
  if decide (id = j) then score else GetParticipation ctx j.
Proof.
  unfold GetParticipation, SetParticipation. cbn. rewrite mget_insert.
  by destruct (ctx_ParticipationScore ctx).
Qed.
End context.

(** ** Capacities and candidates *)

Record candidate (F : Type) := MkCandidate {
  c_v : Vehicle F;
  c_score : F;
  c_capacity : F
}.
Arguments MkCandidate {F}.
Arguments c_v {F}.
Arguments c_score {F}.
Arguments c_capacity {F}.

Definition c_id {F} (c : candidate F) : string := ID (c_v c).

Section helpers.
Context {F : Type} `{Num F}.
#[local] Open Scope num_scope.
Implicit Types v : Vehicle F.

Definition availableEnergyAndCapacity v (signal : FlexibilitySignal F)
    (useFloor : bool) (floor : F) : F * F :=
  let min := MinSoC v in
  let min := if useFloor && (floor >? min) then floor else min in
  let energy := (SoC v - min) * BatteryKWh v in
  let cap := MaxPower v in
  if (PowerKW signal <? n0) && (energy <=? n0) then (energy, n0) else
  let cap :=
    if (PowerKW signal <? n0) && (0 <? sig_Duration signal)%Z then
      let maxFromEnergy := energy / Hours (sig_Duration signal) in
      if maxFromEnergy <? cap then maxFromEnergy else cap
    else cap in
  if cap <=? n0 then (energy, n0) else (energy, cap).

Fixpoint prepareVehicles (vehicles : list (Vehicle F)) (signal : FlexibilitySignal F)
    (ctx : DispatchContext F) (scorer : Vehicle F → DispatchContext F → F)
    (useFloor : bool) (floor : F) : list (candidate F) :=
  match vehicles with
  | [] => []
  | v :: rest =>
    let '(_, cap) := availableEnergyAndCapacity v signal useFloor floor in
    if cap <=? n0 then prepareVehicles rest signal ctx scorer useFloor floor
    else MkCandidate v (scorer v ctx) cap
           :: prepareVehicles rest signal ctx scorer useFloor floor
  end.

Lemma prepareVehicles_sublist vehicles signal ctx scorer useFloor floor :
  sublist (c_v <$> prepareVehicles vehicles signal ctx scorer useFloor floor) vehicles.
Proof.
  induction vehicles as [|v vs IH]; cbn; [constructor|].
  destruct (availableEnergyAndCapacity _ _ _ _) as [energy cap].
  by destruct (cap <=? n0); constructor.
Qed.

Lemma prepareVehicles_ids vehicles signal ctx scorer useFloor floor :
  NoDup (ID <$> vehicles) →
  NoDup (c_id <$> prepareVehicles vehicles signal ctx scorer useFloor floor).
Proof.
  intros Hnd. unfold c_id.
  change (fun c : candidate F => ID (c_v c)) with (ID ∘ c_v (F:=F)).
  rewrite list_fmap_compose.
  eapply NoDup_fmap_sublist; [apply prepareVehicles_sublist|done].
Qed.

(** Each candidate carries the capacity and the score of its vehicle. *)
Lemma elem_of_prepareVehicles vehicles signal ctx scorer useFloor floor c :
  c ∈ prepareVehicles vehicles signal ctx scorer useFloor floor ↔
  c_v c ∈ vehicles ∧ c_score c = scorer (c_v c) ctx ∧
  c_capacity c = snd (availableEnergyAndCapacity (c_v c) signal useFloor floor) ∧
  (c_capacity c <=? n0) = false.
Proof.
  destruct c as [w s k]; cbn [c_v c_score c_capacity].
  induction vehicles as [|v vs IH]; cbn [prepareVehicles].
  { rewrite !elem_of_nil. tauto. }
  destruct (availableEnergyAndCapacity v signal useFloor floor) as [energy cap] eqn:Hcap.
  rewrite elem_of_cons. destruct (cap <=? n0) eqn:Hle.
  - rewrite IH. split; [tauto|]. intros ([->|Hin] & ? & Hk & Hk'); [|tauto].
    rewrite Hcap in Hk. cbn in Hk. congruence.
  - rewrite elem_of_cons, IH. split.
    + intros [[= -> -> ->]|(? & ? & ? & ?)]; [rewrite Hcap|]; tauto.
    + intros ([->|Hin] & -> & Hk & Hk'); [left|right; tauto].
      rewrite Hcap in Hk. cbn in Hk. congruence.
Qed.
End helpers.

(** ** Exact bounds *)

#[local] Open Scope Q_scope.

(** The SoC below which a vehicle may not be taken. *)
Definition soc_floor (v : Vehicle Q) (useFloor : bool) (floor : Q) : Q :=
  if useFloor then Qmax floor (MinSoC v) else MinSoC v.

Lemma capacity_bounds (v : Vehicle Q) signal useFloor floor energy cap :
  availableEnergyAndCapacity v signal useFloor floor = (energy, cap) →
  energy == (SoC v - soc_floor v useFloor floor) * BatteryKWh v ∧
  0 <= cap ∧ (0 < cap → cap <= MaxPower v) ∧
  (0 < cap → PowerKW signal < 0 → (0 < sig_Duration signal)%Z →
     cap * Hours (sig_Duration signal) <= energy).
Proof.
  unfold availableEnergyAndCapacity, soc_floor. num_Q. intros Heq.
  set (min := if useFloor && Qltb (MinSoC v) floor then floor else MinSoC v) in *.
  assert (min == if useFloor then Qmax floor (MinSoC v) else MinSoC v) as Hmin.
  { unfold min. destruct useFloor; cbn [andb]; [|lra].
    q_case; [rewrite Q.max_l; lra|rewrite Q.max_r; lra]. }
  set (e := (SoC v - min) * BatteryKWh v) in *.
  assert (e == (SoC v - if useFloor then Qmax floor (MinSoC v) else MinSoC v) * BatteryKWh v) as He.
  { unfold e. rewrite Hmin. reflexivity. }
  destruct (Qltb_spec (PowerKW signal) (0 # 1)) as [Hneg|Hneg]; cbn [andb] in Heq.
  - destruct (Qleb_spec e (0 # 1)) as [Hle|Hle].
    { injection Heq as <- <-. repeat split; try lra. }
    destruct (Z.ltb_spec 0 (sig_Duration signal)) as [Hd|Hd].
    + pose proof (Hours_Q_pos _ Hd) as Hh.
      set (h := Hours (sig_Duration signal)) in *.
      assert (e / h * h == e) as Hdiv by (field; lra).
      destruct (Qltb_spec (e / h) (MaxPower v)) as [Hlt|Hlt];
        match type of Heq with (if Qle_bool ?c _ then _ else _) = _ =>
          destruct (Qleb_spec c (0 # 1)) end;
        injection Heq as <- <-; repeat split; try lra; intros; nra.
    + destruct (Qleb_spec (MaxPower v) (0 # 1)); injection Heq as <- <-;
        repeat split; try lra; intros; lia.
  - destruct (Qleb_spec (MaxPower v) (0 # 1)); injection Heq as <- <-;
      repeat split; try lra.
Qed.
