(* ===== verification/MathExp.v ===== *)
(** * [math.Exp]

    The only transcendental function of the code is the exponential in the
    departure score.  Its implementation differs between platforms (assembly on
    some, portable Go on the others), so the scoring is generic in it.  The
    instance at binary64 follows the portable implementation of the Go library:
    argument reduction by multiples of ln 2, then a rational approximation. *)

From S2P Require Import Prelude Num.
From stdpp Require Import base gmap strings list.
From Stdlib Require Import ZArith QArith Lia Floats.SpecFloat.

#[local] Open Scope Z_scope.

Class MathExp (F : Type) := math_Exp : F → F.

(** Conversion [int(x)] of a finite number: truncation towards zero. *)
Definition b64_trunc (x : spec_float) : Z :=
  match x with
  | S754_finite s m e =>
    let z := if e <? 0 then Z.shiftr (Z.pos m) (- e) else Z.shiftl (Z.pos m) e in
    if s then - z else z
  | _ => 0
  end.

(** The constants of the portable implementation, by mantissa and exponent. *)
Definition exp_Ln2Hi : spec_float := S754_finite false 6243314766446592 (-53).
Definition exp_Ln2Lo : spec_float := S754_finite false 7382048951581814 (-85).
Definition exp_Log2e : spec_float := S754_finite false 6497320848556798 (-52).
Definition exp_P1 : spec_float := S754_finite false 6004799503160661 (-55).
Definition exp_P2 : spec_float := S754_finite true 6405119469862291 (-61).
Definition exp_P3 : spec_float := S754_finite false 4880090809097772 (-66).
Definition exp_P4 : spec_float := S754_finite true 7807914560613361 (-72).
Definition exp_P5 : spec_float := S754_finite false 6253375523824848 (-77).
Definition exp_Overflow : spec_float := S754_finite false 6243314768165359 (-43).
Definition exp_Underflow : spec_float := S754_finite true 6554261109157969 (-43).
Definition exp_NearZero : spec_float := S754_finite false 4503599627370496 (-80).

Section b64_exp.
#[local] Open Scope num_scope.

Definition b64_expmulti (hi lo : spec_float) (k : Z) : spec_float :=
  let r := hi - lo in
  let t := r * r in
  let c := r - t * (exp_P1 + t * (exp_P2 + t * (exp_P3 + t * (exp_P4 + t * exp_P5)))) in
  let y := n1 - ((lo - (r * c) / (2 // 1 - c)) - hi) in
  SFldexp prec64 emax64 y k.

Definition b64_exp (x : spec_float) : spec_float :=
  if b64_is_nan x || b64_is_inf false x then x
  else if b64_is_inf true x then n0
  else if exp_Overflow <? x then S754_infinity false
  else if x <? exp_Underflow then n0
  else if (- exp_NearZero <? x) && (x <? exp_NearZero) then n1 + x
  else
    let k :=
      if x <? n0 then b64_trunc (exp_Log2e * x - 5 // 10)
      else if n0 <? x then b64_trunc (exp_Log2e * x + 5 // 10)
      else 0%Z in
    let hi := x - nofZ k * exp_Ln2Hi in
    let lo := nofZ k * exp_Ln2Lo in
    b64_expmulti hi lo k.
End b64_exp.

#[export] Instance MathExp_B64 : MathExp spec_float := b64_exp.
