(* ===== verification/EqualDispatcher.v ===== *)
(** * [EqualDispatcher]

    Models [core/dispatch/dispatcher.go]: an equal share for every vehicle, then
    rounds that hand what saturated vehicles could not take to the others. *)

From S2P Require Import Prelude Num GoTime Model PowerMap.
From stdpp Require Import base gmap strings list.
From Stdlib Require Import ZArith QArith Qabs Qminmax Lqa Lia.

#[local] Open Scope Z_scope.

Section equal.
Context {F : Type} `{Num F}.
#[local] Open Scope num_scope.

(** The first loop: every vehicle gets [share] or its [MaxPower]; those that
    could take more are collected in [needMore]. *)
Fixpoint equal_first (share : F) (vehicles : list (Vehicle F))
    (assignments : gmap string F) (remaining : F) :
    gmap string F * F * list (Vehicle F) :=
  match vehicles with
  | [] => (assignments, remaining, [])
  | v :: rest =>
    let '(amount, more) :=
      if MaxPower v <? share then (MaxPower v, []) else (share, [v]) in
    let '(a, r, needMore) :=
      equal_first share rest (<[ID v := amount]> assignments) (remaining - amount) in
    (a, r, more ++ needMore)
  end.

(** One iteration of the second loop: [next] keeps the vehicles that still
    have room while power remains. *)
Fixpoint equal_round (share : F) (needMore : list (Vehicle F))
    (assignments : gmap string F) (remaining : F) :
    gmap string F * F * list (Vehicle F) :=
  match needMore with
  | [] => (assignments, remaining, [])
  | v :: rest =>
    let cap := MaxPower v - mget assignments (ID v) in
    if cap <=? n0 then equal_round share rest assignments remaining else
    let add := if cap <? share then cap else share in
    let assignments := madd assignments (ID v) add in
    let remaining := remaining - add in
    let keep := (mget assignments (ID v) <? MaxPower v) && (remaining >? n0) in
    let '(a, r, next) := equal_round share rest assignments remaining in
    (a, r, if keep then v :: next else next)
  end.

(** The second loop; [None] when [fuel] iterations are not enough. *)
Fixpoint equal_loop (fuel : nat) (assignments : gmap string F) (remaining : F)
    (needMore : list (Vehicle F)) : option (gmap string F) :=
  if (remaining >? n0) && negb (Nat.eqb (length needMore) 0) then
    match fuel with
    | O => None
    | S fuel =>
      let share := remaining / nofZ (Z.of_nat (length needMore)) in
      let '(a, r, next) := equal_round share needMore assignments remaining in
      if Nat.eqb (length next) (length needMore) then Some a
      else equal_loop fuel a r next
    end
  else Some assignments.

Definition EqualDispatch (vehicles : list (Vehicle F)) (signal : FlexibilitySignal F) :
    option (gmap string F) :=
  if Nat.eqb (length vehicles) 0 then Some ∅ else
  let share := PowerKW signal / nofZ (Z.of_nat (length vehicles)) in
  let '(assignments, remaining, needMore) :=
    equal_first share vehicles ∅ (PowerKW signal) in
  equal_loop (length vehicles) assignments remaining needMore.

(** ** Termination, for every arithmetic *)

Lemma equal_first_sublist share vehicles a r :
  sublist (equal_first share vehicles a r).2 vehicles.
Proof.
  revert a r. induction vehicles as [|v vs IH]; intros a r; cbn; [constructor|].
  destruct (MaxPower v <? share);
    match goal with |- context [equal_first ?s vs ?a ?r] =>
      specialize (IH a r); destruct (equal_first s vs a r) as [[a' r'] nm] end;
    cbn in *; by constructor.
Qed.

Lemma equal_round_sublist share l a r :
  sublist (equal_round share l a r).2 l.
Proof.
  revert a r. induction l as [|v vs IH]; intros a r; cbn; [constructor|].
  destruct (_ <=? n0); [by constructor|].
  match goal with |- context [equal_round ?s vs ?a ?r] =>
    specialize (IH a r); destruct (equal_round s vs a r) as [[a' r'] nx] end.
  cbn in *. destruct (_ && _); by constructor.
Qed.

Lemma equal_loop_total fuel a r needMore :
  (length needMore ≤ fuel)%nat → is_Some (equal_loop fuel a r needMore).
Proof.
  revert a r needMore. induction fuel as [|fuel IH]; intros a r nm Hlen; cbn.
  - destruct nm; [|cbn in Hlen; lia]. rewrite andb_false_r. by eexists.
  - destruct (_ && _); [|by eexists].
    pose proof (equal_round_sublist (r / nofZ (Z.of_nat (length nm))) nm a r) as Hsub.
    destruct (equal_round _ nm a r) as [[a' r'] nx]. cbn in Hsub.
    destruct (Nat.eqb_spec (length nx) (length nm)); [by eexists|].
    apply IH. apply sublist_length in Hsub. lia.
Qed.

(** [EqualDispatcher.Dispatch] always returns. *)
Lemma EqualDispatch_total (vehicles : list (Vehicle F)) (signal : FlexibilitySignal F) :
  is_Some (EqualDispatch vehicles signal).
Proof.
  unfold EqualDispatch. destruct (Nat.eqb _ _); [by eexists|].
  pose proof (equal_first_sublist
    (PowerKW signal / nofZ (Z.of_nat (length vehicles))) vehicles ∅ (PowerKW signal)) as Hsub.
  destruct (equal_first _ _ _ _) as [[a r] nm]. cbn in Hsub.
  apply equal_loop_total. by apply sublist_length in Hsub.
Qed.

(** In every arithmetic, binary64 with its NaNs included: [Dispatch] returns
    after at most one round per vehicle, for every fleet and every request. *)
Theorem EqualDispatch_returns (vehicles : list (Vehicle F)) (signal : FlexibilitySignal F) :
  ∃ m, EqualDispatch vehicles signal = Some m.
Proof. apply EqualDispatch_total. Qed.
End equal.

(** ** Exact delivery *)

#[local] Open Scope Q_scope.

(** Induction over the loops meets a fixed vehicle list; these are the facts
    about one vehicle's share that every step re-establishes. *)
Definition within (a : gmap string Q) (l : list (Vehicle Q)) : Prop :=
  Forall (fun v => 0 <= mget a (ID v) <= MaxPower v) l.

Definition untouched (l : list (Vehicle Q)) (a a' : gmap string Q) : Prop :=
  ∀ k, k ∉ ID <$> l → mget a' k = mget a k.

Lemma untouched_cons v l a a' :
  untouched l a a' → untouched (v :: l) a a'.
Proof. intros Hu k Hk. apply Hu. rewrite fmap_cons in Hk. by apply not_elem_of_cons in Hk as [_ ?]. Qed.

(** A list of length [n] still owed [n] times [share]. *)
Definition owed (share : Q) (l : list (Vehicle Q)) : Q :=
  inject_Z (Z.of_nat (length l)) * share.

Lemma owed_cons share v l : owed share (v :: l) == share + owed share l.
Proof.
  unfold owed. cbn [length]. rewrite Nat2Z.inj_succ, <- Z.add_1_r, inject_Z_plus.
  change (inject_Z 1) with 1. lra.
Qed.

Lemma owed_nil share : owed share [] == 0.
Proof. reflexivity. Qed.

Lemma owed_nonneg share l : 0 <= share → 0 <= owed share l.
Proof.
  intros Hs. unfold owed. change 0 with (inject_Z 0 * 0).
  assert (0 <= inject_Z (Z.of_nat (length l))).
  { change 0 with (inject_Z 0). rewrite <- Zle_Qle. lia. }
  nra.
Qed.

Lemma within_ext a a' l :
  (∀ v, v ∈ l → mget a' (ID v) = mget a (ID v)) → within a l → within a' l.
Proof.
  unfold within. rewrite !Forall_forall. intros Heq Hw v Hv.
  rewrite Heq by done. by apply Hw.
Qed.

(** Everything the proof needs to know about the result of the first loop. *)
Lemma equal_first_spec share (l : list (Vehicle Q)) a r a' r' nm :
  NoDup (ID <$> l) → Forall (fun v => 0 <= MaxPower v) l → 0 <= share →
  owed share l <= r → (∀ k, k ∈ ID <$> l → a !! k = None) →
  equal_first share l a r = (a', r', nm) →
  untouched l a a' ∧ within a' l ∧ 0 <= r' ∧ power_total a' + r' == power_total a + r ∧
  dom a' = list_to_set (ID <$> l) ∪ dom a ∧
  (∀ v, v ∈ l → ID v ∉ ID <$> nm → mget a' (ID v) == MaxPower v).
Proof.
  revert a r a' r' nm. induction l as [|v l IH]; intros a r a' r' nm Hnd Hmax Hs Hr Hfresh Heq.
  { cbn in Heq. injection Heq as <- <- <-. rewrite owed_nil in Hr.
    split_and!; [done|constructor|lra|reflexivity|set_solver|].
    intros v Hv. by apply not_elem_of_nil in Hv. }
  rewrite fmap_cons in *. apply NoDup_cons in Hnd as [Hv Hnd]. apply Forall_cons in Hmax as [Hm Hmax].
  rewrite owed_cons in Hr. pose proof (owed_nonneg share l Hs).
  cbn [equal_first] in Heq. num_Q.
  set (amount := if Qltb (MaxPower v) share then MaxPower v else share).
  set (more := if Qltb (MaxPower v) share then [] else [v]).
  assert ((if Qltb (MaxPower v) share then (MaxPower v, []) else (share, [v])) = (amount, more)) as Ham
    by (unfold amount, more; by destruct (Qltb _ _)).
  rewrite Ham in Heq.
  assert (0 <= amount <= MaxPower v ∧ amount <= share ∧ (ID v ∉ ID <$> more → amount == MaxPower v)) as (Ha & Has & Hsat).
  { unfold amount, more. q_case; split_and!; try lra. intros Hn. contradict Hn. left. }
  destruct (equal_first share l _ _) as [[a1 r1] nm1] eqn:Hrec. injection Heq as <- <- <-.
  assert (mget a (ID v) = 0) as H0.
  { unfold mget. by rewrite Hfresh by left. }
  apply IH in Hrec as (Hunt & Hw & Hr1 & Htot & Hdom & Hnm); [|try done..]; [|lra|].
  2:{ intros k Hk. rewrite lookup_insert_ne by (intros <-; done).
      apply Hfresh. by right. }
  assert (mget a1 (ID v) = amount) as Hget.
  { rewrite Hunt by done. by rewrite mget_insert, decide_True. }
  split_and!.
  - intros k [Hk1 Hk2]%not_elem_of_cons. rewrite Hunt by done.
    by rewrite mget_insert, decide_False.
  - constructor; [by rewrite Hget|done].
  - done.
  - rewrite Htot, power_total_insert, H0. lra.
  - rewrite Hdom, dom_insert_L. clear. set_solver.
  - intros w Hw' Hnw. rewrite fmap_app, elem_of_app in Hnw. apply elem_of_cons in Hw' as [->|Hw'].
    + rewrite Hget. apply Hsat. tauto.
    + apply Hnm; tauto.
Qed.

(** What one pass of the second loop over [l] does to the assignment [a] and
    to what remains, [r]. *)
Definition round_post (share : Q) (l : list (Vehicle Q)) (a : gmap string Q) (r : Q)
    (a' : gmap string Q) (r' : Q) (nx : list (Vehicle Q)) : Prop :=
  untouched l a a' ∧ within a' l ∧ 0 <= r' ∧ power_total a' + r' == power_total a + r ∧
  dom a' ⊆ list_to_set (ID <$> l) ∪ dom a ∧ dom a ⊆ dom a' ∧
  (∀ v, v ∈ l → ID v ∉ ID <$> nx → mget a' (ID v) == MaxPower v ∨ r' == 0) ∧
  (length nx = length l → r' == r - owed share l ∧ (l ≠ [] → 0 < r')).

(** A vehicle with no headroom is skipped. *)
Lemma round_post_skip share v (l : list (Vehicle Q)) a r a' r' nx :
  ID v ∉ ID <$> l → MaxPower v - mget a (ID v) <= 0 → 0 <= mget a (ID v) <= MaxPower v →
  sublist nx l → round_post share l a r a' r' nx → round_post share (v :: l) a r a' r' nx.
Proof.
  intros Hv Hcap Hwv Hsub (Hunt & Hw' & Hr' & Htot & Hdom & Hdom' & Hnx & Hfull).
  assert (mget a' (ID v) = mget a (ID v)) as Hget by by apply Hunt.
  split_and!; try done.
  - by apply untouched_cons.
  - constructor; [by rewrite Hget|done].
  - clear -Hdom. set_solver.
  - intros w Hw1 Hw2. apply elem_of_cons in Hw1 as [->|Hw1]; [left|by apply Hnx].
    rewrite Hget. lra.
  - intros Hlen. apply sublist_length in Hsub. cbn in Hlen. lia.
Qed.

(** A vehicle with headroom gets [add]; it stays in the next pass only while
    it has headroom and power remains. *)
Lemma round_post_add share v (l : list (Vehicle Q)) a r add a' r' nx :
  ID v ∉ ID <$> l → 0 < share → share + owed share l <= r → 0 < add <= share →
  0 <= mget a (ID v) → add <= MaxPower v - mget a (ID v) →
  (mget a (ID v) + add < MaxPower v → add == share) → sublist nx l →
  round_post share l (madd a (ID v) add) (r - add) a' r' nx →
  round_post share (v :: l) a r a' r'
    (if Qltb (mget a (ID v) + add) (MaxPower v) && Qltb 0 (r - add) then v :: nx else nx).
Proof.
  intros Hv Hs Hr Hadd Hge Hadd' Hshare Hsub (Hunt & Hw' & Hr1 & Htot & Hdom & Hdom' & Hnx & Hfull).
  assert (mget a' (ID v) = mget a (ID v) + add) as Hget
    by (rewrite Hunt by done; exact (mget_madd_eq a (ID v) add)).
  pose proof (owed_nonneg share l ltac:(lra)) as Ho. rewrite dom_madd in *. split_and!.
  - intros k [Hk1 Hk2]%not_elem_of_cons. rewrite Hunt by done. by apply mget_madd_ne.
  - constructor; [rewrite Hget; lra|done].
  - done.
  - rewrite Htot, power_total_madd. lra.
  - clear -Hdom. set_solver.
  - clear -Hdom'. set_solver.
  - intros w Hw1 Hw2. apply elem_of_cons in Hw1 as [->|Hw1].
    + rewrite Hget. destruct (Qltb_spec (mget a (ID v) + add) (MaxPower v)) as [Hlt|Hlt]; [|left; lra].
      destruct (Qltb_spec 0 (r - add)) as [Hpos|Hpos]; cbn in Hw2; [contradict Hw2; left|].
      right. destruct l as [|w' l].
      * apply sublist_nil_r in Hsub as ->. rewrite owed_nil in *.
        destruct Hfull as [Hfull _]; [done|]. lra.
      * rewrite owed_cons in Hr. pose proof (owed_nonneg share l ltac:(lra)). lra.
    + apply Hnx; [done|]. destruct (_ && _); [|done].
      by apply not_elem_of_cons in Hw2 as [_ ?].
  - intros Hlen. apply sublist_length in Hsub.
    destruct (Qltb_spec (mget a (ID v) + add) (MaxPower v)) as [Hlt|Hlt]; cbn in Hlen; [|lia].
    destruct (Qltb_spec 0 (r - add)) as [Hpos|Hpos]; cbn in Hlen; [|lia].
    specialize (Hshare Hlt). rewrite owed_cons. destruct Hfull as [Hfull1 Hfull2]; [lia|].
    split; [lra|]. intros _. destruct l as [|w' l]; [rewrite owed_nil in *; lra|auto].
Qed.

Lemma equal_round_spec share (l : list (Vehicle Q)) a r a' r' nx :
  NoDup (ID <$> l) → 0 < share → owed share l <= r → within a l →
  equal_round share l a r = (a', r', nx) → round_post share l a r a' r' nx.
Proof.
  revert a r a' r' nx. induction l as [|v l IH]; intros a r a' r' nx Hnd Hs Hr Hw Heq.
  { cbn in Heq. injection Heq as <- <- <-. rewrite owed_nil in Hr.
    split_and!; [done|constructor|lra|reflexivity|set_solver..|].
    intros _. rewrite owed_nil. split; [lra|done]. }
  rewrite fmap_cons in *. apply NoDup_cons in Hnd as [Hv Hnd]. apply Forall_cons in Hw as [Hwv Hw].
  rewrite owed_cons in Hr. cbn [equal_round] in Heq. num_Q.
  destruct (Qleb_spec (MaxPower v - mget a (ID v)) (0 # 1)) as [Hcap|Hcap].
  { pose proof (equal_round_sublist share l a r) as Hsub. rewrite Heq in Hsub. cbn in Hsub.
    apply round_post_skip; [done..|]. apply IH; [done..|lra|done|done]. }
  set (add := if Qltb (MaxPower v - mget a (ID v)) share then MaxPower v - mget a (ID v) else share) in *.
  assert (0 < add <= share ∧ add <= MaxPower v - mget a (ID v) ∧
          (mget a (ID v) + add < MaxPower v → add == share)) as (Hadd & Hadd' & Hshare).
  { unfold add. q_case; repeat split; try lra. }
  destruct (equal_round share l (madd a (ID v) add) (r - add)) as [[a1 r1] nx1] eqn:Hrec.
  pose proof (equal_round_sublist share l (madd a (ID v) add) (r - add)) as Hsub.
  rewrite Hrec in Hsub. cbn in Hsub. injection Heq as <- <- <-.
  assert (mget (madd a (ID v) add) (ID v) = mget a (ID v) + add) as ->
    by exact (mget_madd_eq a (ID v) add).
  apply round_post_add; [done|done|lra|done|lra|done|done|done|].
  apply IH; [done..|lra| |done].
  eapply within_ext; [|done]. intros w Hw1. apply mget_madd_ne.
  intros Heq. apply Hv. rewrite Heq. by apply list_elem_of_fmap_2.
Qed.

(** The invariant of the second loop, for a target [P] and the vehicles [vs]:
    what is assigned and what remains add up to the target, and every vehicle
    outside [needMore] is full unless nothing remains. *)
Record equal_inv (P : Q) (vs : list (Vehicle Q)) (a : gmap string Q) (r : Q)
    (nm : list (Vehicle Q)) : Prop := {
  ei_sub : sublist nm vs;
  ei_rem : 0 <= r;
  ei_within : within a vs;
  ei_dom : dom a = list_to_set (ID <$> vs);
  ei_total : power_total a + r == P;
  ei_sat v : v ∈ vs → ID v ∉ ID <$> nm → mget a (ID v) == MaxPower v ∨ r == 0
}.

Lemma equal_first_inv (vs : list (Vehicle Q)) P a r nm :
  NoDup (ID <$> vs) → Forall (fun v => 0 <= MaxPower v) vs → 0 <= P → vs ≠ [] →
  equal_first (P / inject_Z (Z.of_nat (length vs))) vs ∅ P = (a, r, nm) →
  equal_inv P vs a r nm.
Proof.
  intros Hnd Hmax HP Hne Heq.
  set (share := P / inject_Z (Z.of_nat (length vs))) in *.
  assert (0 < inject_Z (Z.of_nat (length vs))) as Hn.
  { change 0 with (inject_Z 0). rewrite <- Zlt_Qlt. destruct vs; [done|cbn; lia]. }
  assert (owed share vs == P) by (unfold owed, share; field; lra).
  assert (0 <= share) by (apply Qle_shift_div_l; lra).
  pose proof (equal_first_sublist share vs ∅ P) as Hsub. rewrite Heq in Hsub.
  apply equal_first_spec in Heq as (Hunt & Hw & Hr & Htot & Hdom & Hnm); try done; [|lra].
  split; try done.
  - rewrite Hdom, dom_empty_L. apply union_empty_r_L.
  - rewrite Htot, power_total_empty. lra.
  - auto.
Qed.

Lemma equal_round_inv (vs : list (Vehicle Q)) P a r nm a' r' nx :
  NoDup (ID <$> vs) → equal_inv P vs a r nm → 0 < r → nm ≠ [] →
  equal_round (r / inject_Z (Z.of_nat (length nm))) nm a r = (a', r', nx) →
  length nx ≠ length nm ∧ equal_inv P vs a' r' nx.
Proof.
  intros Hnd [Hsub _ Hw Hdom Htot Hsat] Hr Hne Heq.
  set (share := r / inject_Z (Z.of_nat (length nm))) in *.
  assert (0 < inject_Z (Z.of_nat (length nm))) as Hn.
  { change 0 with (inject_Z 0). rewrite <- Zlt_Qlt. destruct nm; [done|cbn; lia]. }
  assert (owed share nm == r) by (unfold owed, share; field; lra).
  assert (0 < share) by (apply Qlt_shift_div_l; lra).
  pose proof (equal_round_sublist share nm a r) as Hs. rewrite Heq in Hs. cbn in Hs.
  unfold within in *. rewrite Forall_forall in *.
  apply equal_round_spec in Heq as (Hunt & Hw1 & Hr1 & Htot1 & Hd1 & Hd2 & Hnx & Hfull);
    [|by eapply NoDup_fmap_sublist|done|lra|apply Forall_forall; eauto using sublist_incl].
  unfold within in *. rewrite Forall_forall in *.
  assert (∀ v, v ∈ vs → ID v ∈ ID <$> nm → v ∈ nm) as Hin.
  { intros v Hv (w & Hid & Hw')%list_elem_of_fmap.
    by rewrite (NoDup_fmap_in_inj ID vs v w) by eauto using sublist_incl. }
  split.
  { intros Hl. destruct (Hfull Hl) as [Hz Hz']. specialize (Hz' Hne). lra. }
  split; [by etrans|done|..].
  - unfold within. apply Forall_forall. intros v Hv.
    destruct (decide (ID v ∈ ID <$> nm)); [by apply Hw1, Hin|rewrite Hunt by done; by apply Hw].
  - apply (anti_symm (⊆)); [|by rewrite <- Hdom]. etrans; [exact Hd1|]. rewrite Hdom.
    intros k. rewrite elem_of_union, !elem_of_list_to_set. intros [Hk|]; [|done].
    apply list_elem_of_fmap in Hk as (v & -> & Hv).
    apply list_elem_of_fmap_2. eauto using sublist_incl.
  - lra.
  - intros v Hv Hnv. destruct (decide (ID v ∈ ID <$> nm)) as [Hnm|Hnm].
    + apply Hnx; auto.
    + rewrite Hunt by done. destruct (Hsat v Hv Hnm); [by left|lra].
Qed.

(** The loop ends with nothing left to hand out or with every vehicle full. *)
Lemma equal_loop_inv (vs : list (Vehicle Q)) P fuel a r nm m :
  NoDup (ID <$> vs) → equal_inv P vs a r nm → equal_loop fuel a r nm = Some m →
  ∃ r' nm', equal_inv P vs m r' nm' ∧ (r' == 0 ∨ nm' = []).
Proof.
  intros Hnd. revert a r nm. induction fuel as [|fuel IH]; intros a r nm Hinv Heq;
    pose proof (ei_rem _ _ _ _ _ Hinv); cbn [equal_loop] in Heq; num_Q;
    destruct (Qltb_spec (0 # 1) r) as [Hpos|Hpos]; cbn [andb] in Heq;
    try (injection Heq as <-; exists r, nm; split; [done|left; lra]);
    destruct nm as [|v nm]; cbn [length Nat.eqb negb] in Heq;
    try (injection Heq as <-; exists r, []; split; [done|by right]); [done|].
  destruct (equal_round _ _ a r) as [[a' r'] nx] eqn:Hround.
  apply (equal_round_inv vs P a r (v :: nm)) in Hround as [Hlen Hinv']; [|done..].
  destruct (Nat.eqb_spec (length nx) (S (length nm))); [done|]. by eapply IH.
Qed.

Lemma within_total (vs : list (Vehicle Q)) a :
  NoDup (ID <$> vs) → dom a = list_to_set (ID <$> vs) →
  power_total a == qsum ((fun v => mget a (ID v)) <$> vs).
Proof.
  intros Hnd Hdom. rewrite (power_total_keys (ID <$> vs)) by (done || by rewrite Hdom).
  by rewrite <- list_fmap_compose.
Qed.

Lemma EqualDispatch_exact (vehicles : list (Vehicle Q)) (signal : FlexibilitySignal Q) m :
  NoDup (ID <$> vehicles) → Forall (fun v => 0 <= MaxPower v) vehicles → 0 <= PowerKW signal →
  EqualDispatch vehicles signal = Some m →
  dom m = list_to_set (ID <$> vehicles) ∧
  (∀ v, v ∈ vehicles → 0 <= mget m (ID v) <= MaxPower v) ∧
  power_total m == Qmin (PowerKW signal) (qsum (MaxPower <$> vehicles)).
Proof.
  intros Hnd Hmax HP Hm.
  unfold EqualDispatch in Hm. destruct vehicles as [|v0 vs0]; cbn [length Nat.eqb] in Hm.
  { injection Hm as <-. split_and!; [done|intros v Hv; by apply not_elem_of_nil in Hv|].
    rewrite power_total_empty, Q.min_r; [reflexivity|done]. }
  set (vs := v0 :: vs0) in *.
  destruct (equal_first _ vs ∅ _) as [[a r] nm] eqn:Hfirst.
  apply (equal_first_inv vs (PowerKW signal)) in Hfirst; [|done..].
  apply (equal_loop_inv vs (PowerKW signal)) in Hm as (r' & nm' & [_ Hr Hw Hdom Htot Hsat] & Hend); [|done..].
  unfold within in Hw. rewrite Forall_forall in Hw. split_and!; [done..|].
  assert (power_total m <= qsum (MaxPower <$> vs)) as Hle.
  { rewrite (within_total vs) by done. apply qsum_le, Forall_forall. intros v Hv. by apply Hw. }
  destruct (Qleb_spec r' 0) as [Hz|Hz]; [rewrite Q.min_l; lra|].
  assert (power_total m == qsum (MaxPower <$> vs)) as Heq.
  { rewrite (within_total vs) by done. apply qsum_eq, Forall_forall. intros v Hv.
    destruct Hend as [Hend| ->]; [lra|].
    destruct (Hsat v Hv (not_elem_of_nil _)); [done|lra]. }
  rewrite Q.min_r; lra.
Qed.


(** A negative request is split into equal shares whatever the limits are. *)
Lemma equal_first_negative share (l : list (Vehicle Q)) a r :
  share < 0 → Forall (fun v => 0 <= MaxPower v) l →
  equal_first share l a r =
  (foldl (fun a v => <[ID v := share]> a) a l, foldl (fun r _ => r - share) r l, l).
Proof.
  intros Hs Hmax. revert a r. induction Hmax as [|v l Hv Hl IH]; intros a r; [done|].
  cbn [equal_first foldl]. num_Q.
  destruct (Qltb_spec (MaxPower v) share); [lra|]. by rewrite IH.
Qed.

Lemma foldl_insert_share (share : Q) (l : list (Vehicle Q)) (a : gmap string Q) k :
  foldl (fun a v => <[ID v := share]> a) a l !! k =
  if decide (k ∈ ID <$> l) then Some share else a !! k.
Proof.
  revert a. induction l as [|v l IH]; intros a; [done|]. cbn [foldl]. rewrite IH, fmap_cons.
  destruct (decide (k ∈ ID <$> l)) as [Hk|Hk]; [by rewrite decide_True by (by right)|].
  destruct (decide (k = ID v)) as [->|Hne].
  - by rewrite lookup_insert_eq, decide_True by left.
  - rewrite lookup_insert_ne, decide_False; [done| |done]. by apply not_elem_of_cons.
Qed.

Lemma foldl_sub_share (share : Q) (l : list (Vehicle Q)) r :
  foldl (fun r _ => r - share) r l == r - owed share l.
Proof.
  revert r. induction l as [|v l IH]; intros r; cbn [foldl].
  - rewrite owed_nil. lra.
  - rewrite IH, owed_cons. lra.
Qed.

(** For a negative request every vehicle is assigned exactly
    [PowerKW / len(vehicles)]: [MaxPower] does not limit the magnitude. *)
Theorem EqualDispatch_negative (vehicles : list (Vehicle Q)) (signal : FlexibilitySignal Q)
    (Hmax : Forall (fun v => 0 <= MaxPower v) vehicles)
    (HP : PowerKW signal < 0) :
  ∃ m, EqualDispatch vehicles signal = Some m ∧
    ∀ v, v ∈ vehicles →
      m !! ID v = Some (PowerKW signal / inject_Z (Z.of_nat (length vehicles))).
Proof.
  unfold EqualDispatch. destruct vehicles as [|v0 vs0]; cbn [length Nat.eqb].
  { exists ∅. split; [done|]. intros v Hv. by apply not_elem_of_nil in Hv. }
  set (vs := v0 :: vs0) in *. num_Q. change (S (length vs0)) with (length vs).
  set (share := PowerKW signal / inject_Z (Z.of_nat (length vs))).
  assert (0 < inject_Z (Z.of_nat (length vs))) as Hn.
  { change 0 with (inject_Z 0). rewrite <- Zlt_Qlt. cbn. lia. }
  assert (owed share vs == PowerKW signal) as Howed by (unfold owed, share; field; lra).
  assert (share < 0) by (unfold share; apply Qlt_shift_div_r; lra).
  rewrite equal_first_negative by done.
  pose proof (foldl_sub_share share vs (PowerKW signal)) as Hrem.
  set (rem := foldl _ (PowerKW signal) vs) in *.
  set (m := foldl _ ∅ vs). exists m. split.
  - subst vs. cbn [equal_loop length]. num_Q. destruct (Qltb_spec (0 # 1) rem); [lra|done].
  - intros v Hv. unfold m. rewrite foldl_insert_share, decide_True; [done|].
    by apply list_elem_of_fmap_2.
Qed.
