(* ===== verification/SmartDispatcher.v ===== *)
(** * [SmartDispatcher]

    Models [core/dispatch/smart_dispatcher.go]: vehicles are scored, and power is
    allocated in proportion to the scores over a bounded number of rounds.  The
    receiver is a pointer, so [SmartDispatch] returns the updated dispatcher;
    log output is left out. *)

From S2P Require Import Prelude Num GoTime Model PowerMap Candidates MathExp.
From stdpp Require Import base gmap strings list.
From Stdlib Require Import ZArith QArith Qabs Qminmax Lqa Lia.

#[local] Open Scope Z_scope.

Record SmartDispatcher (F : Type) := MkSmart {
  sd_SocWeight : F;
  sd_TimeWeight : F;
  sd_PriorityWeight : F;
  sd_PriceWeight : F;
  sd_WearWeight : F;
  sd_FairnessWeight : F;
  sd_AvailabilityWeight : F;
  sd_MarketPrice : F;
  sd_Participation : option (gmap string F);   (* None: a nil map *)
  sd_MaxRounds : Z;
  sd_scores : gmap string F;
  sd_EnableSoCConstraints : bool;
  sd_MinSoC : F;
  sd_SafeDischargeFloor : F
}.
Arguments MkSmart {F}.
Arguments sd_SocWeight {F}.
Arguments sd_TimeWeight {F}.
Arguments sd_PriorityWeight {F}.
Arguments sd_PriceWeight {F}.
Arguments sd_WearWeight {F}.
Arguments sd_FairnessWeight {F}.
Arguments sd_AvailabilityWeight {F}.
Arguments sd_MarketPrice {F}.
Arguments sd_Participation {F}.
Arguments sd_MaxRounds {F}.
Arguments sd_scores {F}.
Arguments sd_EnableSoCConstraints {F}.
Arguments sd_MinSoC {F}.
Arguments sd_SafeDischargeFloor {F}.

Definition set_scores {F} (s : gmap string F) (d : SmartDispatcher F) : SmartDispatcher F :=
  MkSmart (sd_SocWeight d) (sd_TimeWeight d) (sd_PriorityWeight d) (sd_PriceWeight d)
    (sd_WearWeight d) (sd_FairnessWeight d) (sd_AvailabilityWeight d) (sd_MarketPrice d)
    (sd_Participation d) (sd_MaxRounds d) s (sd_EnableSoCConstraints d) (sd_MinSoC d)
    (sd_SafeDischargeFloor d).

Section smart.
Context {F : Type} `{Num F} `{!MathExp F}.
#[local] Open Scope num_scope.
Implicit Types d : SmartDispatcher F.

Definition NewSmartDispatcher : SmartDispatcher F :=
  MkSmart (5 // 10) (3 // 10) (1 // 10) (5 // 100) (5 // 100) (5 // 100) (1 // 10)
    n0 (Some ∅) 10 ∅ true (1 // 10) (1 // 10).

(** ** Candidates *)

(** Whether the loop of [filterBySoC] excludes [v]; [n] is [len(vehicles)]. *)
Definition soc_excluded d (signal : FlexibilitySignal F) (n : nat) (v : Vehicle F) : bool :=
  if (SoC v <? sd_MinSoC d) || (BatteryKWh v <=? n0) then true else
  let '(energy, cap) := availableEnergyAndCapacity v signal true (sd_SafeDischargeFloor d) in
  if (PowerKW signal <? n0) && (energy <=? n0) then true else
  (Nat.eqb n 1) && (cap <? nabs (PowerKW signal)).

Definition filterBySoC d (vehicles : list (Vehicle F)) (signal : FlexibilitySignal F) :
    list (Vehicle F) * list (Vehicle F) :=
  if negb (sd_EnableSoCConstraints d) then (vehicles, []) else
  (List.filter (fun v => negb (soc_excluded d signal (length vehicles) v)) vehicles,
   List.filter (soc_excluded d signal (length vehicles)) vehicles).

Definition weightsForSignal d (t : SignalType) : F * F * F * F * F * F * F :=
  let soc := sd_SocWeight d in
  let tm := sd_TimeWeight d in
  let prio := sd_PriorityWeight d in
  let price := sd_PriceWeight d in
  let wear := sd_WearWeight d in
  let fair := sd_FairnessWeight d in
  let avail := sd_AvailabilityWeight d in
  if (t =? SignalFCR)%Z then
    (soc + 2 // 10, tm, prio + 1 // 10, price, wear, fair, avail)
  else if (t =? SignalNEBEF)%Z then
    (soc + 1 // 10, tm + 2 // 10, prio, price, wear, fair, avail)
  else if ((t =? SignalMA) || (t =? SignalEcoWatt))%Z then
    (soc + 1 // 10, tm, prio, price, wear, fair, avail)
  else (soc, tm, prio, price, wear, fair, avail).

Definition vehicleScore d (v : Vehicle F) (ctx : DispatchContext F) : F :=
  let '(socW, timeW, prioW, priceW, wearW, fairW, availW) :=
    weightsForSignal d (sig_Type (ctx_Signal ctx)) in
  if BatteryKWh v <=? n0 then n0 else
  let denom := n1 - MinSoC v in
  let energyNorm := if denom =? n0 then n0 else (SoC v - MinSoC v) / denom in
  let energyNorm := if energyNorm <? n0 then n0 else energyNorm in
  let energyNorm := if energyNorm >? n1 then n1 else energyNorm in
  let minutes := Minutes (Sub (Departure v) (ctx_Now ctx)) in
  let timeScore := if minutes >? n0 then math_Exp (- minutes / (30 // 1)) else n0 in
  let priority := if Priority v then n1 else n0 in
  let wear := GetParticipation ctx (ID v) in
  let score := energyNorm * socW + timeScore * timeW + priority * prioW
               + energyNorm * ctx_MarketPrice ctx * priceW in
  let score := score + AvailabilityProb v * availW in
  let score := score - (wear * wearW + wear * fairW) in
  if score <? n0 then n0 else score.

Definition buildCandidates d (vehicles : list (Vehicle F)) (signal : FlexibilitySignal F)
    (ctx : DispatchContext F) : list (candidate F) * list (Vehicle F) :=
  let '(eligible, excluded) := filterBySoC d vehicles signal in
  (prepareVehicles eligible signal ctx (vehicleScore d)
     (sd_EnableSoCConstraints d) (sd_SafeDischargeFloor d), excluded).

(** ** Allocation *)

(** One pass over the candidates; [next] keeps those not yet at capacity.  The
    loop breaks when nothing remains or no weight is left, dropping the
    candidates it has not reached. *)
Fixpoint allocateRound (sign : F) (list : list (candidate F)) (weightSum remaining : F)
    (assignments : gmap string F) (consumed : F) :
    List.list (candidate F) * F * F * F * gmap string F :=
  match list with
  | [] => ([], weightSum, remaining, consumed, assignments)
  | c :: rest =>
    if (remaining <=? n0) || (weightSum <=? n0) then
      ([], weightSum, remaining, consumed, assignments)
    else
      let share := remaining * (c_score c / weightSum) in
      if share >=? c_capacity c then
        allocateRound sign rest (weightSum - c_score c) (remaining - c_capacity c)
          (madd assignments (c_id c) (sign * c_capacity c)) (consumed + c_capacity c)
      else
        let '(next, w, r, co, a) :=
          allocateRound sign rest weightSum (remaining - share)
            (madd assignments (c_id c) (sign * share)) (consumed + share) in
        (MkCandidate (c_v c) (c_score c) (c_capacity c - share) :: next, w, r, co, a)
  end.

(** The main loop; [None] when [fuel] iterations are not enough. *)
Fixpoint smart_loop (fuel : nat) (maxRounds rounds : Z) (sign : F)
    (list : list (candidate F)) (weightSum remaining : F) (assignments : gmap string F) :
    option (gmap string F) :=
  if (remaining >? n0) && negb (Nat.eqb (length list) 0) && (weightSum >? n0)
     && ((maxRounds =? 0) || (rounds <? maxRounds))%Z then
    match fuel with
    | O => None
    | S fuel =>
      let '(list, weightSum, remaining, consumed, assignments) :=
        allocateRound sign list weightSum remaining assignments n0 in
      if consumed =? n0 then Some assignments
      else smart_loop fuel maxRounds (rounds + 1) sign list weightSum remaining assignments
    end
  else Some assignments.

Definition candidate_scores (list : list (candidate F)) : gmap string F :=
  foldl (fun m c => <[c_id c := c_score c]> m) ∅ list.

Definition weight_sum (list : list (candidate F)) : F :=
  foldl (fun w c => w + c_score c) n0 list.

(** [sign]: 1.0, or -1 for a negative request. *)
Definition signal_sign (signal : FlexibilitySignal F) : F :=
  if PowerKW signal <? n0 then nlit (-1) 1 else n1.

(** The context both [SmartDispatcher] and [LPDispatcher] score in. *)
Definition dispatch_context d (signal : FlexibilitySignal F) : DispatchContext F :=
  MkContext signal (Timestamp signal) (sd_MarketPrice d) (sd_Participation d).

Definition SmartDispatch (fuel : nat) d (vehicles : list (Vehicle F))
    (signal : FlexibilitySignal F) : option (gmap string F * SmartDispatcher F) :=
  if Nat.eqb (length vehicles) 0 || (PowerKW signal =? n0) then Some (∅, d) else
  let ctx := dispatch_context d signal in
  let '(list, excluded) := buildCandidates d vehicles signal ctx in
  let d := set_scores (candidate_scores list) d in
  if Nat.eqb (length list) 0 then Some (∅, d) else
  let remaining := nabs (PowerKW signal) in
  assignments ← smart_loop fuel (sd_MaxRounds d) 0 (signal_sign signal) list
                  (weight_sum list) remaining ∅;
  Some (assignments, d).

(** [GetScores] returns a copy of the scores. *)
Definition SmartGetScores `{!MapRange} d : gmap string F :=
  foldl (fun m '(k, x) => <[k := x]> m) ∅ (range_map (sd_scores d)).

Definition SmartGetMarketPrice d : F := sd_MarketPrice d.
End smart.

(** ** Facts for every arithmetic *)

Section generic.
Context {F : Type} `{Num F} `{!MathExp F}.
Implicit Types d : SmartDispatcher F.

Lemma smart_loop_total fuel maxRounds rounds (sign : F) list w r a :
  maxRounds ≠ 0 → maxRounds - rounds <= Z.of_nat fuel →
  is_Some (smart_loop fuel maxRounds rounds sign list w r a).
Proof.
  intros Hmax. revert rounds list w r a.
  induction fuel as [|fuel IH]; intros rounds list w r a Hfuel; cbn.
  - rewrite (proj2 (Z.eqb_neq maxRounds 0)) by done.
    rewrite (proj2 (Z.ltb_ge rounds maxRounds)) by lia.
    rewrite andb_false_r. by eexists.
  - destruct (_ && _); [|by eexists].
    destruct (allocateRound _ _ _ _ _ _) as [[[[list' w'] r'] co] a'].
    destruct (neqb co n0); [by eexists|]. apply IH. lia.
Qed.

(** The loop of [Dispatch] runs at most [MaxRounds] times, whatever the
    numbers are. *)
Lemma SmartDispatch_total fuel d (vehicles : list (Vehicle F))
    (signal : FlexibilitySignal F)
    (Hmax : sd_MaxRounds d ≠ 0) (Hfuel : sd_MaxRounds d <= Z.of_nat fuel) :
  is_Some (SmartDispatch fuel d vehicles signal).
Proof.
  unfold SmartDispatch. destruct (_ || _); [by eexists|].
  destruct (buildCandidates _ _ _ _) as [list excluded].
  destruct (Nat.eqb _ _); [by eexists|].
  destruct (smart_loop_total fuel (sd_MaxRounds d) 0 (signal_sign signal) list
    (weight_sum list) (nabs (PowerKW signal)) ∅) as [m Hm]; [done|lia|].
  cbn. rewrite Hm. by eexists.
Qed.

(** In every arithmetic, binary64 with its NaNs included: a dispatcher whose
    [MaxRounds] is not 0 returns within [MaxRounds] rounds (none if it is
    negative), for every fleet and every request. *)
Theorem SmartDispatch_returns d (vehicles : list (Vehicle F)) (signal : FlexibilitySignal F)
    (Hmax : sd_MaxRounds d ≠ 0) :
  ∃ m d', SmartDispatch (Z.to_nat (sd_MaxRounds d)) d vehicles signal = Some (m, d').
Proof.
  destruct (SmartDispatch_total (Z.to_nat (sd_MaxRounds d)) d vehicles signal) as [[m d'] Hm];
    [done|lia|]. by exists m, d'.
Qed.

Lemma allocateRound_dom (sign : F) list w r a co next w' r' co' a' :
  allocateRound sign list w r a co = (next, w', r', co', a') →
  (c_v <$> next) `sublist_of` (c_v <$> list) ∧
  dom a ⊆ dom a' ⊆ dom a ∪ list_to_set (c_id <$> list).
Proof.
  revert w r a co next w' r' co' a'.
  induction list as [|c list IH]; intros w r a co next w' r' co' a' Heq; cbn in Heq.
  { injection Heq as <- <- <- <- <-. split; [done|set_solver]. }
  destruct (_ || _).
  { injection Heq as <- <- <- <- <-. split; [apply sublist_nil_l|set_solver]. }
  destruct (nleb _ _).
  - apply IH in Heq as [Hs [Hd1 Hd2]]. rewrite dom_madd in *.
    split; [by constructor|]. rewrite fmap_cons. set_solver.
  - destruct (allocateRound _ _ _ _ _ _) as [[[[nx w1] r1] co1] a1] eqn:Hrec.
    injection Heq as <- <- <- <- <-. apply IH in Hrec as [Hs [Hd1 Hd2]].
    rewrite dom_madd in *. split; [by constructor|]. rewrite fmap_cons. set_solver.
Qed.

Lemma sublist_ids (l k : list (candidate F)) :
  (c_v <$> l) `sublist_of` (c_v <$> k) → (c_id <$> l) `sublist_of` (c_id <$> k).
Proof.
  intros Hs. unfold c_id.
  change (fun c : candidate F => ID (c_v c)) with (ID ∘ c_v (F:=F)).
  rewrite !list_fmap_compose. by apply fmap_sublist_mono.
Qed.

Lemma smart_loop_dom fuel maxRounds rounds (sign : F) list w r a m :
  smart_loop fuel maxRounds rounds sign list w r a = Some m →
  dom m ⊆ dom a ∪ list_to_set (c_id <$> list).
Proof.
  revert rounds list w r a.
  induction fuel as [|fuel IH]; intros rounds list w r a Heq; cbn in Heq;
    (destruct (_ && _); [|injection Heq as <-; set_solver]); [done|].
  destruct (allocateRound _ _ _ _ _ _) as [[[[list' w'] r'] co] a'] eqn:Hround.
  apply allocateRound_dom in Hround as [Hs%sublist_ids [_ Hd]].
  destruct (neqb co n0); [injection Heq as <-; done|].
  apply IH in Heq. etrans; [exact Heq|]. intros k. rewrite !elem_of_union, !elem_of_list_to_set.
  intros [Hk|Hk]; [apply Hd in Hk; set_solver|].
  right. by eapply sublist_incl.
Qed.

(** A vehicle that may take part in a dispatch: with the SoC constraints on,
    its SoC is not below [MinSoC], its battery is not empty of capacity, and
    for a negative request it holds energy above the discharge floor. *)
Definition dispatchable d (signal : FlexibilitySignal F) (n : nat) (v : Vehicle F) : Prop :=
  sd_EnableSoCConstraints d = true → soc_excluded d signal n v = false.

Lemma elem_of_filterBySoC d (vehicles : list (Vehicle F)) signal v :
  v ∈ (filterBySoC d vehicles signal).1 ↔
  v ∈ vehicles ∧ dispatchable d signal (length vehicles) v.
Proof.
  unfold filterBySoC, dispatchable. destruct (sd_EnableSoCConstraints d); cbn; [|naive_solver].
  rewrite list_elem_of_In, filter_In, negb_true_iff, <- list_elem_of_In. naive_solver.
Qed.

(** Every vehicle is either eligible or reported as excluded, in order. *)
Lemma filterBySoC_partition d (vehicles : list (Vehicle F)) signal :
  let '(eligible, excluded) := filterBySoC d vehicles signal in
  eligible ++ excluded ≡ₚ vehicles.
Proof.
  unfold filterBySoC. destruct (negb _); [by rewrite app_nil_r|].
  generalize (soc_excluded d signal (length vehicles)) as p. intros p.
  induction vehicles as [|v vs IH]; cbn; [done|].
  destruct (p v); cbn; [|by constructor].
  rewrite <- Permutation_middle. by constructor.
Qed.

(** The candidates of a dispatch: the positive-capacity eligible vehicles. *)
Definition smart_candidates d (vehicles : list (Vehicle F)) (signal : FlexibilitySignal F) :
    list (candidate F) :=
  (buildCandidates d vehicles signal (dispatch_context d signal)).1.

Lemma elem_of_smart_candidates d vehicles signal c :
  c ∈ smart_candidates d vehicles signal →
  c_v c ∈ vehicles ∧ dispatchable d signal (length vehicles) (c_v c) ∧
  c_score c = vehicleScore d (c_v c) (dispatch_context d signal) ∧
  c_capacity c = snd (availableEnergyAndCapacity (c_v c) signal
                        (sd_EnableSoCConstraints d) (sd_SafeDischargeFloor d)) ∧
  nleb (c_capacity c) n0 = false.
Proof.
  unfold smart_candidates, buildCandidates.
  destruct (filterBySoC d vehicles signal) as [eligible excluded] eqn:Hf. cbn.
  rewrite elem_of_prepareVehicles. intros (Hin & Hs & Hc & Hpos).
  assert (c_v c ∈ (filterBySoC d vehicles signal).1) as Hin' by by rewrite Hf.
  apply elem_of_filterBySoC in Hin' as [Hin' Hd]. done.
Qed.

Lemma smart_candidates_NoDup d vehicles signal :
  NoDup (ID <$> vehicles) → NoDup (c_id <$> smart_candidates d vehicles signal).
Proof.
  intros Hnd. unfold smart_candidates, buildCandidates.
  destruct (filterBySoC d vehicles signal) as [eligible excluded] eqn:Hf. cbn.
  apply prepareVehicles_ids. unfold filterBySoC in Hf.
  destruct (negb (sd_EnableSoCConstraints d)); injection Hf as <- _; [done|].
  eapply NoDup_fmap_sublist; [|exact Hnd].
  generalize (fun v => negb (soc_excluded d signal (length vehicles) v)) as p. intros p.
  clear. induction vehicles as [|v vs IH]; cbn; [constructor|].
  destruct (p v); by constructor.
Qed.

(** Unfolding of [Dispatch] past its guards. *)
Lemma SmartDispatch_inv fuel d vehicles signal m d' :
  SmartDispatch fuel d vehicles signal = Some (m, d') →
  (m = ∅ ∧ d' = d ∧ (vehicles = [] ∨ neqb (PowerKW signal) n0 = true)) ∨
  (vehicles ≠ [] ∧ neqb (PowerKW signal) n0 = false ∧
   d' = set_scores (candidate_scores (smart_candidates d vehicles signal)) d ∧
   ((m = ∅ ∧ smart_candidates d vehicles signal = []) ∨
    smart_loop fuel (sd_MaxRounds d) 0 (signal_sign signal)
      (smart_candidates d vehicles signal)
      (weight_sum (smart_candidates d vehicles signal)) (nabs (PowerKW signal)) ∅ = Some m)).
Proof.
  unfold SmartDispatch, smart_candidates.
  destruct (Nat.eqb_spec (length vehicles) 0) as [Hl|Hl]; cbn [orb].
  { intros [= <- <-]. left. apply nil_length_inv in Hl. auto. }
  destruct (neqb (PowerKW signal) n0) eqn:Hz.
  { intros [= <- <-]. left. auto. }
  destruct (buildCandidates _ _ _ _) as [list excluded]. cbn [fst].
  intros Heq. right. split_and!; [by intros ->|done|..].
  - destruct (Nat.eqb _ _); [by injection Heq as <- <-|].
    cbn in Heq. destruct (smart_loop _ _ _ _ _ _ _ _); [by injection Heq as <- <-|done].
  - destruct (Nat.eqb_spec (length list) 0) as [Hn|Hn].
    + injection Heq as <- <-. left. by apply nil_length_inv in Hn.
    + right. cbn in Heq. destruct (smart_loop _ _ _ _ _ _ _ _); [by injection Heq as <- <-|done].
Qed.

Lemma SmartDispatch_assigned fuel d (vehicles : list (Vehicle F))
    (signal : FlexibilitySignal F) m d' id p :
  SmartDispatch fuel d vehicles signal = Some (m, d') → m !! id = Some p →
  ∃ v, v ∈ vehicles ∧ ID v = id ∧ dispatchable d signal (length vehicles) v ∧
    nleb (snd (availableEnergyAndCapacity v signal
            (sd_EnableSoCConstraints d) (sd_SafeDischargeFloor d))) n0 = false.
Proof.
  intros Hrun Hid.
  apply SmartDispatch_inv in Hrun as [(-> & _)|(_ & _ & _ & [[-> _]|Hloop])]; [done..|].
  apply smart_loop_dom in Hloop. apply elem_of_dom_2, Hloop in Hid.
  rewrite dom_empty_L, union_empty_l_L, elem_of_list_to_set in Hid.
  apply list_elem_of_fmap in Hid as (c & -> & Hc).
  apply elem_of_smart_candidates in Hc as (Hin & Hd & _ & Hcap & Hpos).
  exists (c_v c). rewrite <- Hcap. done.
Qed.

End generic.

(** ** Scores *)

(** A score is never negative: not below zero in the order of [float64]. *)
Lemma vehicleScore_nonneg {F} `{NumOrder F} `{!MathExp F} (d : SmartDispatcher F)
    (v : Vehicle F) (ctx : DispatchContext F) :
  nltb (vehicleScore d v ctx) n0 = false.
Proof.
  unfold vehicleScore. destruct (weightsForSignal _ _) as [[[[[[socW tmW] prW] priW] weW] faW] avW].
  destruct (nleb _ _); [apply nltb_irrefl|].
  match goal with |- nltb (if nltb ?s n0 then _ else _) _ = _ => destruct (nltb s n0) eqn:Hs end;
    [apply nltb_irrefl|done].
Qed.
