(* ===== verification/SmartDelivery.v ===== *)
(** * [SmartDispatcher]: bounds and delivery over exact arithmetic

    What the rounds of [allocateRound] conserve, how much of the request they
    deliver, and that no vehicle is asked for more than its capacity. *)

From S2P Require Import Prelude Num GoTime Model PowerMap Candidates MathExp SmartDispatcher.
From stdpp Require Import base gmap strings list.
From Stdlib Require Import ZArith QArith Qabs Qminmax Lqa Lia.

#[local] Open Scope Q_scope.

(** ** One round *)

Abbreviation scores_of l := (qsum (c_score <$> l)).

Definition cand_ok (c : candidate Q) : Prop := 0 <= c_score c ∧ 0 < c_capacity c.

Lemma scores_nonneg (l : list (candidate Q)) : Forall cand_ok l → 0 <= scores_of l.
Proof. intros Hl. apply qsum_nonneg, Forall_fmap. eapply Forall_impl; [done|]. by intros c []. Qed.

(** What a round guarantees when it starts on the candidates [l]: [B] gives the
    capacity each identifier started with. *)
Record round_spec (sign : Q) (B : string → Q) (l : list (candidate Q)) (w r : Q)
    (a : gmap string Q) (co : Q) (next : list (candidate Q)) (w' r' co' : Q)
    (a' : gmap string Q) : Prop := {
  rs_rem : 0 <= r' <= r;
  rs_consumed : co' + r' == co + r;
  rs_total : sign * power_total a' + r' == sign * power_total a + r;
  rs_weight : scores_of next <= w' - (w - scores_of l);
  rs_exact : r' == 0 ∨ w' <= 0 ∨ scores_of next == w' - (w - scores_of l);
  rs_ok : Forall cand_ok next;
  rs_cap c : c ∈ next → mag sign a' (c_id c) + c_capacity c == B (c_id c);
  rs_mag c : c ∈ l → 0 <= mag sign a' (c_id c) <= B (c_id c);
  rs_other k : k ∉ c_id <$> l → mag sign a' k = mag sign a k;
  rs_sat c : c ∈ l → c_id c ∉ c_id <$> next → 0 < c_score c →
    mag sign a' (c_id c) == B (c_id c) ∨ r' == 0;
  rs_scores c : c ∈ next → ∃ c0, c0 ∈ l ∧ c_id c0 = c_id c ∧ c_score c0 = c_score c
}.

Lemma round_stop sign B l w r a co :
  Forall cand_ok l → scores_of l <= w → 0 <= r → (r == 0 ∨ w <= 0) →
  (∀ c, c ∈ l → mag sign a (c_id c) + c_capacity c == B (c_id c) ∧ 0 <= mag sign a (c_id c)) →
  round_spec sign B l w r a co [] w r co a.
Proof.
  intros Hok Hw Hr Hstop Hcap. split; try done; [lra|..].
  - change (scores_of []) with 0. pose proof (scores_nonneg l Hok). lra.
  - tauto.
  - intros c Hc. by apply not_elem_of_nil in Hc.
  - intros c Hc. rewrite Forall_forall in Hok.
    destruct (Hok c Hc), (Hcap c Hc). lra.
  - intros c Hc _ Hs. destruct Hstop as [|Hw0]; [by right|exfalso].
    assert (c_score c <= scores_of l); [|lra].
    apply qsum_elem_le; [|by apply list_elem_of_fmap_2].
    apply Forall_fmap. eapply Forall_impl; [done|]. by intros ? [].
  - intros c Hc. by apply not_elem_of_nil in Hc.
Qed.

Lemma elem_of_ids (l : list (candidate Q)) c : c ∈ l → c_id c ∈ c_id <$> l.
Proof. apply list_elem_of_fmap_2. Qed.

(** The recursive step, shared by both branches: candidate [c] is given [x]. *)
Lemma round_step sign B c l w r a co x w1 next w' r' co' a' :
  sign * sign == 1 → c_id c ∉ c_id <$> l → cand_ok c →
  0 <= x <= c_capacity c → x <= r →
  mag sign a (c_id c) + c_capacity c == B (c_id c) → 0 <= mag sign a (c_id c) →
  (w1 == w ∧ x < c_capacity c ∨ w1 == w - c_score c ∧ x == c_capacity c) →
  round_spec sign B l w1 (r - x) (madd a (c_id c) (sign * x)) (co + x) next w' r' co' a' →
  round_spec sign B (c :: l) w r a co
    (if Qltb x (c_capacity c)
     then MkCandidate (c_v c) (c_score c) (c_capacity c - x) :: next else next) w' r' co' a'.
Proof.
  intros Hs Hc [Hsc Hcc] Hx Hxr HB Hm Hw1 [? ? Htot Hwt Hex Hok Hcap Hmag Hoth Hsat Hsco].
  assert (mag sign a' (c_id c) == mag sign a (c_id c) + x) as Hmc.
  { rewrite Hoth by done. by apply mag_madd_eq. }
  rewrite mag_total_madd in Htot by done.
  split; rewrite ?fmap_cons; cbn [qsum].
  - lra.
  - lra.
  - lra.
  - q_case; rewrite ?fmap_cons; cbn [qsum c_score]; destruct Hw1 as [[]|[]]; lra.
  - destruct Hex as [?|[?|Hex]]; [by left|by right; left|right; right].
    q_case; rewrite ?fmap_cons; cbn [qsum c_score]; destruct Hw1 as [[]|[]]; lra.
  - q_case; [constructor; [split; cbn; lra|done]|done].
  - intros c' Hc'. destruct (Qltb_spec x (c_capacity c)) as [Hlt|Hlt]; [|by apply Hcap].
    apply elem_of_cons in Hc' as [->|Hc']; [|by apply Hcap]. unfold c_id. cbn. fold (c_id c). lra.
  - intros c' [->|Hc']%elem_of_cons; [lra|by apply Hmag].
  - intros k [Hk1 Hk2]%not_elem_of_cons. rewrite Hoth by done. by apply mag_madd_ne.
  - intros c' [->|Hc']%elem_of_cons Hn Hpos.
    + destruct (Qltb_spec x (c_capacity c)) as [Hlt|Hlt]; [|left; lra].
      contradict Hn. rewrite fmap_cons. left.
    + apply Hsat; [done| |done]. destruct (Qltb _ _); [|done].
      rewrite fmap_cons in Hn. by apply not_elem_of_cons in Hn as [_ ?].
  - intros c' Hc'. destruct (Qltb_spec x (c_capacity c)) as [Hlt|Hlt].
    + apply elem_of_cons in Hc' as [->|Hc']; [exists c; split_and!; [left|done..]|].
      destruct (Hsco c' Hc') as (c0 & ? & ? & ?). exists c0. split_and!; [by right|done..].
    + destruct (Hsco c' Hc') as (c0 & ? & ? & ?). exists c0. split_and!; [by right|done..].
Qed.

Lemma allocateRound_spec `{!MathExp Q} sign B l w r a co next w' r' co' a' :
  sign * sign == 1 → NoDup (c_id <$> l) → Forall cand_ok l → scores_of l <= w → 0 <= r →
  (∀ c, c ∈ l → mag sign a (c_id c) + c_capacity c == B (c_id c) ∧ 0 <= mag sign a (c_id c)) →
  allocateRound sign l w r a co = (next, w', r', co', a') →
  round_spec sign B l w r a co next w' r' co' a'.
Proof.
  intros Hs. revert w r a co next w' r' co' a'.
  induction l as [|c l IH]; intros w r a co next w' r' co' a' Hnd Hok Hw Hr HB Heq.
  { cbn in Heq. injection Heq as <- <- <- <- <-. split; try done; [lra|..];
      try (intros c Hc; by apply not_elem_of_nil in Hc); change (scores_of []) with 0; lra. }
  cbn [allocateRound] in Heq. num_Q.
  destruct (Qleb_spec r (0 # 1)) as [Hr0|Hr0]; cbn [orb] in Heq.
  { injection Heq as <- <- <- <- <-. apply round_stop; try done. left. lra. }
  destruct (Qleb_spec w (0 # 1)) as [Hw0|Hw0]; cbn [orb] in Heq.
  { injection Heq as <- <- <- <- <-. apply round_stop; try done. by right. }
  rewrite fmap_cons in Hnd. rewrite fmap_cons in Hw. cbn [qsum] in Hw.
  apply NoDup_cons in Hnd as [Hc Hnd]. apply Forall_cons in Hok as [Hokc Hok].
  pose proof (scores_nonneg l Hok) as Hsl. destruct (HB c ltac:(left)) as [HBc Hmc].
  destruct (share_bounds (c_score c) w r) as [Hsh1 Hsh2]; [apply Hokc|lra..|].
  set (share := r * (c_score c / w)) in *.
  assert (∀ x c0, c0 ∈ l → mag sign (madd a (c_id c) x) (c_id c0) = mag sign a (c_id c0)) as Hne.
  { intros x c0 Hc0. apply mag_madd_ne. intros Heq'. apply Hc. rewrite Heq'. by apply elem_of_ids. }
  assert (∀ x c0, c0 ∈ l → mag sign (madd a (c_id c) x) (c_id c0) + c_capacity c0 == B (c_id c0)
            ∧ 0 <= mag sign (madd a (c_id c) x) (c_id c0)) as HB'.
  { intros x c0 Hc0. rewrite Hne by done. apply HB. by right. }
  destruct (Qleb_spec (c_capacity c) share) as [Hcap|Hcap].
  - pose proof (round_step sign B c l w r a co (c_capacity c) (w - c_score c)
      next w' r' co' a') as Hstep.
    destruct (Qltb_spec (c_capacity c) (c_capacity c)); [lra|].
    apply Hstep; [done..|destruct Hokc; lra|lra|done|done|right; lra|].
    apply IH; [done..|lra|lra|by auto|done].
  - destruct (allocateRound sign l w (r - share) _ _) as [[[[nx w1] r1] co1] a1] eqn:Hrec.
    injection Heq as <- <- <- <- <-.
    pose proof (round_step sign B c l w r a co share w nx w1 r1 co1 a1) as Hstep.
    destruct (Qltb_spec share (c_capacity c)); [|lra].
    apply Hstep; [done..|lra|lra|done|done|left; lra|].
    destruct Hokc. apply IH; [done..|lra|lra|by auto|done].
Qed.

(** A round in which nobody reaches capacity leaves at most [r / (1 + S / w)]:
    half of [r] when [w] is the sum [S] of the scores. *)
Lemma allocateRound_shrinks `{!MathExp Q} sign l w r a co next w' r' co' a' :
  Forall cand_ok l → scores_of l <= w → 0 < w → 0 <= r →
  allocateRound sign l w r a co = (next, w', r', co', a') → length next = length l →
  0 <= r' ∧ r' * (1 + scores_of l / w) <= r.
Proof.
  intros Hok Hw Hw0. revert r a co next w' r' co' a'.
  induction l as [|c l IH]; intros r a co next w' r' co' a' Hr Heq Hlen.
  { cbn in Heq. injection Heq as <- <- <- <- <-. change (scores_of []) with 0.
    split; [done|]. assert (0 / w == 0) as -> by (field; lra). lra. }
  rewrite fmap_cons in *. cbn [qsum] in *. apply Forall_cons in Hok as [[Hs Hc] Hok].
  pose proof (scores_nonneg l Hok) as Hsl.
  cbn [allocateRound] in Heq. num_Q.
  destruct (_ || _) eqn:Hstop; [by injection Heq as <- <- <- <- <-|].
  apply orb_false_iff in Hstop as [Hr0 _]. q_bool.
  destruct (share_bounds (c_score c) w r) as [Hsh1 Hsh2]; [lra..|].
  destruct (Qle_bool _ _).
  { apply allocateRound_dom in Heq as [Hsub%sublist_length _].
    rewrite !length_fmap in Hsub. cbn in Hlen. lia. }
  destruct (allocateRound sign l w _ _ _) as [[[[nx w1] r1] co1] a1] eqn:Hrec.
  injection Heq as <- <- <- <- <-. injection Hlen as Hlen.
  apply IH in Hrec as [Hr1 Hle]; [|done|lra|lra|done].
  split; [done|].
  set (p := c_score c / w) in *. set (u := scores_of l / w) in *.
  assert ((c_score c + scores_of l) / w == p + u) as -> by (unfold p, u; field; lra).
  assert (0 <= u) by (apply Qle_shift_div_l; lra).
  assert (0 <= p <= 1) as [Hp1 Hp2]
    by (split; [apply Qle_shift_div_l|apply Qle_shift_div_r]; lra).
  apply shrink_step; done || lra.
Qed.

Lemma allocateRound_le `{!MathExp Q} sign l w r a co next w' r' co' a' :
  Forall cand_ok l → allocateRound sign l w r a co = (next, w', r', co', a') → r' <= r.
Proof.
  intros Hok. revert w r a co next w' r' co' a'.
  induction Hok as [|c l [Hs Hc] Hok IH]; intros w r a co next w' r' co' a' Heq;
    cbn [allocateRound] in Heq; [injection Heq as <- <- <- <- <-; lra|]. num_Q.
  destruct (_ || _) eqn:Hstop; [injection Heq as <- <- <- <- <-; lra|].
  apply orb_false_iff in Hstop as [Hr0 Hw0]. q_bool.
  pose proof (share_nonneg (c_score c) w r ltac:(done) ltac:(lra) ltac:(lra)).
  destruct (Qle_bool _ _); [apply IH in Heq; lra|].
  destruct (allocateRound sign l _ _ _ _) as [[[[nx w1] r1] co1] a1] eqn:Hrec.
  injection Heq as <- <- <- <- <-. apply IH in Hrec. lra.
Qed.

(** A round makes progress whenever some candidate has a positive score. *)
Lemma allocateRound_progress `{!MathExp Q} sign l w r a co next w' r' co' a' :
  Forall cand_ok l → 0 < r → 0 < w → 0 < scores_of l →
  allocateRound sign l w r a co = (next, w', r', co', a') → r' < r.
Proof.
  intros Hok Hr Hw. revert r a co next w' r' co' a' Hr.
  induction Hok as [|c l [Hs Hc] Hok IH]; intros r a co next w' r' co' a' Hr Hpos Heq.
  { change (scores_of []) with 0 in Hpos. lra. }
  rewrite fmap_cons in Hpos. cbn [qsum] in Hpos. cbn [allocateRound] in Heq. num_Q.
  destruct (Qleb_spec r (0 # 1)), (Qleb_spec w (0 # 1)); cbn [orb] in Heq; [lra..|].
  destruct (Qle_bool _ _); [apply allocateRound_le in Heq; [lra|done]|].
  destruct (allocateRound sign l _ _ _ _) as [[[[nx w1] r1] co1] a1] eqn:Hrec.
  injection Heq as <- <- <- <- <-.
  destruct (Qltb_spec 0 (c_score c)) as [Hc0|Hc0].
  - apply allocateRound_le in Hrec; [|done].
    assert (0 < r * (c_score c / w)); [|lra].
    apply Qmult_lt_0_compat; [done|]. apply Qlt_shift_div_l; lra.
  - assert (r * (c_score c / w) == 0) as Hz.
    { assert (c_score c == 0) as -> by lra. field. lra. }
    apply IH in Hrec; lra.
Qed.

(** ** The loop *)

Section loop.
Context `{!MathExp Q} (sign P : Q) (l0 : list (candidate Q)).
Context (Hsign : sign * sign == 1) (Hnd0 : NoDup (c_id <$> l0)).

(** The state of the loop after [k] rounds. *)
Record smart_inv (B : string → Q) (k : nat) (l : list (candidate Q)) (w r : Q)
    (a : gmap string Q) : Prop := {
  si_sub : sublist (c_v <$> l) (c_v <$> l0);
  si_ok : Forall cand_ok l;
  si_weight : scores_of l <= w;
  si_exact : r == 0 ∨ w <= 0 ∨ scores_of l == w;
  si_rem : 0 <= r;
  si_cap c : c ∈ l → mag sign a (c_id c) + c_capacity c == B (c_id c);
  si_mag c : c ∈ l0 → 0 <= mag sign a (c_id c) <= B (c_id c);
  si_total : sign * power_total a + r == P;
  si_sat c : c ∈ l0 → c_id c ∉ c_id <$> l → 0 < c_score c →
    mag sign a (c_id c) == B (c_id c) ∨ r == 0;
  si_scores c : c ∈ l → ∃ c0, c0 ∈ l0 ∧ c_id c0 = c_id c ∧ c_score c0 = c_score c;
  si_halves : r * pow2 (k + length l) <= P * pow2 (length l0)
}.

Lemma si_NoDup B k l w r a : smart_inv B k l w r a → NoDup (c_id <$> l).
Proof.
  intros Hi. apply si_sub in Hi. apply sublist_ids in Hi.
  rewrite <- (list_fmap_id (c_id <$> l)). eapply (NoDup_fmap_sublist id); [exact Hi|].
  by rewrite list_fmap_id.
Qed.

Lemma smart_round_inv B k l w r a next w' r' co a' :
  smart_inv B k l w r a → 0 < r → 0 < w →
  allocateRound sign l w r a 0 = (next, w', r', co, a') →
  smart_inv B (S k) next w' r' a' ∧ co + r' == r.
Proof.
  intros Hi Hr Hw Heq. pose proof (si_NoDup _ _ _ _ _ _ Hi) as Hnd.
  destruct Hi as [Hsub Hok Hwt Hex _ Hcap Hmag Htot Hsat Hsco Hhal].
  assert (∀ c, c ∈ l → 0 <= mag sign a (c_id c)) as Hpos.
  { intros c Hc. destruct (Hsco c Hc) as (c0 & Hc0 & <- & _). by apply Hmag. }
  pose proof (allocateRound_dom _ _ _ _ _ _ _ _ _ _ _ Heq) as [Hs _].
  assert (length next ≤ length l)%nat as Hlen.
  { apply sublist_length in Hs. by rewrite !length_fmap in Hs. }
  assert (length next = length l → r' * 2 <= r) as Hhalf.
  { intros Hl. destruct Hex as [?|[?|Hex]]; [lra|lra|].
    apply allocateRound_shrinks in Heq as [? Hle]; [|try done; lra..].
    assert (scores_of l / w == 1) as Hone by (rewrite Hex; field; lra).
    rewrite Hone in Hle. lra. }
  apply (allocateRound_spec sign B) in Heq; [|done|done|done|done|lra|by auto].
  destruct Heq as [Rrem Rco Rtot Rwt Rex Rok Rcap Rmag Roth Rsat Rsco].
  assert (∀ c, c ∈ l0 → c_id c ∈ c_id <$> l →
            ∃ c1, c1 ∈ l ∧ c_id c1 = c_id c ∧ c_score c1 = c_score c) as Hlift.
  { intros c Hc (c1 & Hid & Hc1)%list_elem_of_fmap.
    destruct (Hsco c1 Hc1) as (c0 & Hc0 & Hid0 & Hs0). exists c1. split_and!; [done..|].
    by rewrite (NoDup_fmap_in_inj c_id l0 c c0) by congruence. }
  split; [split|lra].
  - by etrans.
  - done.
  - lra.
  - destruct Rex as [?|[?|?]]; [tauto..|]. destruct Hex as [?|[?|?]]; lra.
  - lra.
  - done.
  - intros c Hc. destruct (decide (c_id c ∈ c_id <$> l)) as [Hin|Hin].
    + destruct (Hlift c Hc Hin) as (c1 & Hc1 & <- & _). by apply Rmag.
    + rewrite Roth by done. by apply Hmag.
  - lra.
  - intros c Hc Hn Hpos'. destruct (decide (c_id c ∈ c_id <$> l)) as [Hin|Hin].
    + destruct (Hlift c Hc Hin) as (c1 & Hc1 & Hid & Hsc).
      rewrite <- Hid, <- Hsc in *. by apply Rsat.
    + rewrite Roth by done. destruct (Hsat c Hc Hin Hpos'); [by left|lra].
  - intros c Hc. destruct (Rsco c Hc) as (c1 & Hc1 & Hid & Hsc).
    destruct (Hsco c1 Hc1) as (c0 & ? & ? & ?). exists c0. split_and!; congruence.
  - apply (halve_or_leave P r _ k (length l)); try done; lra.
Qed.

(** A state the loop stops in leaves nothing to hand out, or nobody with a
    positive score below its capacity. *)
Lemma smart_stop B k l w r a :
  smart_inv B k l w r a → (r <= 0 ∨ l = [] ∨ w <= 0) →
  r == 0 ∨ ∀ c, c ∈ l0 → 0 < c_score c → mag sign a (c_id c) == B (c_id c).
Proof.
  intros [Hsub Hok Hwt Hex Hr Hcap Hmag Htot Hsat Hsco Hhal] Hstop.
  destruct (Qeqb_spec r 0) as [Hz|Hz]; [by left|right]. intros c Hc Hpos.
  destruct (decide (c_id c ∈ c_id <$> l)) as [Hin|Hin]; [|by destruct (Hsat c Hc Hin Hpos)].
  exfalso. destruct Hstop as [?|[->|Hw]]; [lra|by apply not_elem_of_nil in Hin|].
  apply list_elem_of_fmap in Hin as (c1 & Hid & Hc1).
  destruct (Hsco c1 Hc1) as (c0 & Hc0 & Hid0 & Hs0).
  rewrite (NoDup_fmap_in_inj c_id l0 c c0) in Hpos by congruence.
  assert (c_score c1 <= scores_of l); [|rewrite Hs0 in Hpos; lra].
  apply qsum_elem_le; [|by apply list_elem_of_fmap_2].
  apply Forall_fmap. eapply Forall_impl; [done|]. by intros ? [].
Qed.

(** How the loop ends: nothing is left to hand out, or every candidate with a
    positive score is at its capacity, or [maxRounds] rounds were made. *)
Lemma smart_loop_inv B fuel maxRounds k l w r a m :
  smart_inv B k l w r a →
  smart_loop fuel maxRounds (Z.of_nat k) sign l w r a = Some m →
  ∃ k' l' w' r', smart_inv B k' l' w' r' m ∧
    (r' == 0 ∨ (∀ c, c ∈ l0 → 0 < c_score c → mag sign m (c_id c) == B (c_id c)) ∨
     maxRounds ≠ 0%Z ∧ (maxRounds <= Z.of_nat k')%Z).
Proof.
  revert k l w r a. induction fuel as [|fuel IH]; intros k l w r a Hi Heq;
    pose proof (smart_stop _ _ _ _ _ _ Hi) as Hstop;
    cbn [smart_loop] in Heq; num_Q;
    destruct (_ && _) eqn:Hguard; try done.
  all: try (injection Heq as <-; exists k, l, w, r; split; [done|];
    apply andb_false_iff in Hguard as [Hguard|Hguard];
      [|apply orb_false_iff in Hguard as [?%Z.eqb_neq ?%Z.ltb_ge]; by auto];
    apply andb_false_iff in Hguard as [Hguard|Hguard]; [|q_bool; destruct Hstop; [right; right; lra|by auto..]];
    apply andb_false_iff in Hguard as [Hguard|Hguard]; [q_bool; destruct Hstop; [left; lra|by auto..]|];
    apply negb_false_iff, Nat.eqb_eq, nil_length_inv in Hguard; destruct Hstop; auto).
  apply andb_true_iff in Hguard as [Hguard _].
  apply andb_true_iff in Hguard as [Hguard Hw].
  apply andb_true_iff in Hguard as [Hr Hl]. q_bool.
  destruct (allocateRound sign l w r a 0) as [[[[l' w'] r'] co] a'] eqn:Hround.
  assert (r' < r) as Hlt.
  { destruct Hi as [_ Hok _ [?|[?|Hex]] _ _ _ _ _ _ _]; [lra..|].
    apply allocateRound_progress in Hround; [done..|lra]. }
  apply (smart_round_inv B k) in Hround as [Hi' Hco]; [|done..].
  destruct (Qeqb_spec co (0 # 1)) as [Hz|Hz]; [lra|].
  apply (IH (S k) l' w' r' a'); [done|]. by rewrite Nat2Z.inj_succ, <- Z.add_1_r.
Qed.
End loop.

(** ** The dispatcher *)

Section dispatch.
Context `{!MathExp Q}.
Implicit Types (d : SmartDispatcher Q) (signal : FlexibilitySignal Q).

Lemma weight_sum_Q (l : list (candidate Q)) : weight_sum l == scores_of l.
Proof.
  unfold weight_sum. num_Q.
  enough (∀ w, foldl (fun w c => w + c_score c) w l == w + scores_of l) as Hf
    by (rewrite Hf; lra).
  induction l as [|c l IH]; intros w.
  - change (scores_of []) with 0. cbn [foldl]. lra.
  - cbn [foldl]. rewrite IH, fmap_cons. cbn [qsum]. lra.
Qed.

Lemma signal_sign_sq signal : signal_sign signal * signal_sign signal == 1.
Proof. unfold signal_sign. num_Q. q_case; lra. Qed.

Lemma candidates_ok d vehicles signal : Forall cand_ok (smart_candidates d vehicles signal).
Proof.
  apply Forall_forall. intros c (_ & _ & Hs & _ & Hpos)%elem_of_smart_candidates. num_Q. q_bool.
  split; [|lra]. rewrite Hs.
  pose proof (vehicleScore_nonneg d (c_v c) (dispatch_context d signal)) as Hn. num_Q. q_bool. lra.
Qed.

(** The capacity each identifier starts with. *)
Definition start_capacity (l : list (candidate Q)) : string → Q :=
  mget (list_to_map ((fun c => (c_id c, c_capacity c)) <$> l)).

Lemma start_capacity_elem l c :
  NoDup (c_id <$> l) → c ∈ l → start_capacity l (c_id c) = c_capacity c.
Proof.
  intros Hnd Hc. unfold start_capacity, mget.
  erewrite elem_of_list_to_map_1; [done| |].
  - by rewrite <- list_fmap_compose.
  - by apply (list_elem_of_fmap_2 (fun c => (c_id c, c_capacity c))).
Qed.

Lemma smart_init d vehicles signal :
  NoDup (ID <$> vehicles) →
  let l := smart_candidates d vehicles signal in
  smart_inv (signal_sign signal) (Qabs (PowerKW signal)) l (start_capacity l) 0 l
    (weight_sum l) (Qabs (PowerKW signal)) ∅.
Proof.
  intros Hnd l. pose proof (candidates_ok d vehicles signal) as Hok. fold l in Hok.
  assert (NoDup (c_id <$> l)) as Hndl by by apply smart_candidates_NoDup.
  assert (∀ k, mag (signal_sign signal) ∅ k == 0) as Hmag.
  { intros k. unfold mag. rewrite mget_empty. num_Q. lra. }
  split; rewrite ?weight_sum_Q.
  - done.
  - done.
  - lra.
  - right. right. lra.
  - apply Qabs_nonneg.
  - intros c Hc. rewrite start_capacity_elem, Hmag by done. lra.
  - intros c Hc. rewrite start_capacity_elem, Hmag by done.
    rewrite Forall_forall in Hok. destruct (Hok c Hc). lra.
  - rewrite power_total_empty. lra.
  - intros c Hc Hn. contradict Hn. by apply elem_of_ids.
  - intros c Hc. by exists c.
  - cbn. lra.
Qed.

(** The outcome of a dispatch in terms of its candidates. *)
Lemma SmartDispatch_outcome fuel d vehicles signal m d' :
  NoDup (ID <$> vehicles) → SmartDispatch fuel d vehicles signal = Some (m, d') →
  let l := smart_candidates d vehicles signal in
  let sign := signal_sign signal in
  let P := Qabs (PowerKW signal) in
  (∀ c, c ∈ l → 0 <= mag sign m (c_id c) <= c_capacity c) ∧
  sign * power_total m <= P ∧
  ((P - sign * power_total m) * pow2 (Z.to_nat (sd_MaxRounds d)) <= P * pow2 (length l) ∨
   ∀ c, c ∈ l → 0 < c_score c → mag sign m (c_id c) == c_capacity c).
Proof.
  intros Hnd Hrun l sign P.
  assert (NoDup (c_id <$> l)) as Hndl by by apply smart_candidates_NoDup.
  pose proof (candidates_ok d vehicles signal) as Hok. fold l in Hok.
  rewrite Forall_forall in Hok.
  assert (0 <= P) as HP by apply Qabs_nonneg.
  assert (∀ k, mag sign ∅ k == 0) as Hmag.
  { intros k. unfold mag. rewrite mget_empty. num_Q. lra. }
  assert (sign * power_total ∅ == 0) as Htot0 by (rewrite power_total_empty; lra).
  apply SmartDispatch_inv in Hrun as [(-> & _ & Hz)|(_ & _ & _ & [[-> Hnil]|Hloop])].
  - split_and!; [intros c Hc; rewrite Hmag; destruct (Hok c Hc); lra|lra|].
    destruct Hz as [->|Hz].
    + right. intros c (Hin & _)%elem_of_smart_candidates. by apply not_elem_of_nil in Hin.
    + left. num_Q. q_bool.
      assert (P == 0) as -> by (unfold P; match goal with H : _ == _ |- _ => rewrite H end; done).
      rewrite Htot0. lra.
  - fold l in Hnil. rewrite Hnil. split_and!; [|lra|right];
      intros c Hc; by apply not_elem_of_nil in Hc.
  - fold l in Hloop.
    pose proof (smart_init d vehicles signal Hnd) as Hinit.
    destruct (smart_loop_inv sign P l (signal_sign_sq signal) Hndl (start_capacity l)
      fuel (sd_MaxRounds d) 0 l (weight_sum l) P ∅ m Hinit Hloop)
      as (k & l' & w & r & [_ _ _ _ Hr _ Hm Htot _ _ Hhal] & Hend).
    split_and!.
    + intros c Hc. rewrite <- (start_capacity_elem l c) by done. by apply Hm.
    + lra.
    + destruct Hend as [Hz|[Hsat|[_ Hk]]].
      * left. assert (P - sign * power_total m == 0) as -> by lra.
        pose proof (pow2_pos (length l)).
        assert (0 <= P * pow2 (length l)) by (apply Qmult_le_0_compat; lra). lra.
      * right. intros c Hc Hs. rewrite <- (start_capacity_elem l c) by done. by apply Hsat.
      * left. assert (P - sign * power_total m == r) as -> by lra.
        pose proof (pow2_mono (Z.to_nat (sd_MaxRounds d)) (k + length l') ltac:(lia)) as Hmono.
        apply (Qmult_le_compat_r _ _ r) in Hmono; [|done].
        lra.
Qed.
(** The physical limits of one assigned power: the vehicle exists, the power
    has the sign of the request and at most the magnitude [MaxPower], and for a
    negative request of positive duration it does not take the vehicle below
    the larger of its [MinSoC] and the safe discharge floor. *)
Definition power_ok d (vehicles : list (Vehicle Q)) (signal : FlexibilitySignal Q)
    (id : string) (p : Q) : Prop :=
  ∃ v, v ∈ vehicles ∧ ID v = id ∧ 0 <= signal_sign signal * p <= MaxPower v ∧
    (PowerKW signal < 0 → (0 < sig_Duration signal)%Z →
     signal_sign signal * p * Hours (sig_Duration signal) <=
     (SoC v - soc_floor v (sd_EnableSoCConstraints d) (sd_SafeDischargeFloor d))
       * BatteryKWh v).

Lemma SmartDispatch_limits fuel d (vehicles : list (Vehicle Q)) signal m d' :
  NoDup (ID <$> vehicles) →
  SmartDispatch fuel d vehicles signal = Some (m, d') →
  (∀ id p, m !! id = Some p → power_ok d vehicles signal id p) ∧
  0 <= signal_sign signal * power_total m <= Qabs (PowerKW signal).
Proof.
  intros Hnd Hrun. destruct (SmartDispatch_outcome _ _ _ _ _ _ Hnd Hrun) as (Hcap & Htot & _).
  set (sign := signal_sign signal) in *.
  set (l := smart_candidates d vehicles signal) in *.
  assert (∀ id p, m !! id = Some p → ∃ c, c ∈ l ∧ c_id c = id) as Hdom.
  { intros id p Hid.
    apply SmartDispatch_inv in Hrun as [(-> & _)|(_ & _ & _ & [[-> _]|Hloop])]; [done..|].
    apply smart_loop_dom in Hloop. apply elem_of_dom_2, Hloop in Hid.
    rewrite dom_empty_L, union_empty_l_L, elem_of_list_to_set in Hid.
    apply list_elem_of_fmap in Hid as (c & -> & Hc). by exists c. }
  split; [|split; [|done]].
  - intros id p Hid. destruct (Hdom id p Hid) as (c & Hc & <-).
    specialize (Hcap c Hc). unfold mag in Hcap. rewrite (lookup_mget _ _ _ Hid) in Hcap.
    apply elem_of_smart_candidates in Hc as (Hv & _ & _ & Hk & Hpos). num_Q. q_bool.
    destruct (availableEnergyAndCapacity _ _ _ _) as [energy cap] eqn:Hec.
    apply capacity_bounds in Hec as (He & _ & Hmax & Hen). cbn [snd] in Hk. subst cap.
    unfold power_ok. fold sign. exists (c_v c). split_and!; [done|done|lra|specialize (Hmax ltac:(lra)); lra|].
    intros Hneg Hdur. specialize (Hen ltac:(lra) Hneg Hdur).
    pose proof (Hours_Q_pos _ Hdur). rewrite <- He.
    assert (sign * p * Hours (sig_Duration signal) <=
            c_capacity c * Hours (sig_Duration signal)); [|lra].
    apply Qmult_le_compat_r; lra.
  - apply power_total_sign. intros id p Hid. destruct (Hdom id p Hid) as (c & Hc & <-).
    specialize (Hcap c Hc). unfold mag in Hcap. rewrite (lookup_mget _ _ _ Hid) in Hcap. lra.
Qed.

(** C5. Exact arithmetic, distinct identifiers and [MaxRounds] not 0.  The
    dispatcher returns; every assigned power has the sign of the request and a
    magnitude of at most the vehicle's [MaxPower]; for a negative request of
    positive duration it does not take the vehicle below the larger of its
    [MinSoC] and the safe discharge floor; and the total does not exceed the
    request. *)
Theorem SmartDispatch_safe d (vehicles : list (Vehicle Q)) signal
    (Hnd : NoDup (ID <$> vehicles)) (Hmax : sd_MaxRounds d ≠ 0%Z) :
  ∃ m d', SmartDispatch (Z.to_nat (sd_MaxRounds d)) d vehicles signal = Some (m, d') ∧
    (∀ id p, m !! id = Some p → power_ok d vehicles signal id p) ∧
    0 <= signal_sign signal * power_total m <= Qabs (PowerKW signal).
Proof.
  destruct (SmartDispatch_total (Z.to_nat (sd_MaxRounds d)) d vehicles signal) as [[m d'] Hm];
    [done|lia|].
  exists m, d'. split; [done|]. by eapply SmartDispatch_limits.
Qed.

(** C6. The shortfall of a dispatch: either it is at most the request scaled by
    [2 ^ (candidates - MaxRounds)], or every candidate with a positive score is
    used up to its capacity. *)
Theorem SmartDispatch_delivers d (vehicles : list (Vehicle Q)) signal
    (Hnd : NoDup (ID <$> vehicles)) (Hmax : sd_MaxRounds d ≠ 0%Z) :
  let cands := smart_candidates d vehicles signal in
  ∃ m d', SmartDispatch (Z.to_nat (sd_MaxRounds d)) d vehicles signal = Some (m, d') ∧
    let delivered := signal_sign signal * power_total m in
    ((Qabs (PowerKW signal) - delivered) * pow2 (Z.to_nat (sd_MaxRounds d))
       <= Qabs (PowerKW signal) * pow2 (length cands) ∨
     (∀ c, c ∈ cands → 0 < c_score c →
        signal_sign signal * mget m (c_id c) == c_capacity c)).
Proof.
  destruct (SmartDispatch_total (Z.to_nat (sd_MaxRounds d)) d vehicles signal) as [[m d'] Hm];
    [done|lia|].
  exists m, d'. split; [done|].
  by destruct (SmartDispatch_outcome _ _ _ _ _ _ Hnd Hm) as (_ & _ & Hend).
Qed.
End dispatch.
