(* ===== verification/LPDispatcher.v ===== *)
(** * [LPDispatcher]

    Models [core/dispatch/lp_dispatcher.go].  The simplex solver is gonum's
    ([lp.Convert] followed by [lp.Simplex]) and is a parameter: a function of
    the general-form program the code builds.  A panic (an index out of range
    in the returned solution) is the result [None]. *)

From S2P Require Import Prelude Num GoTime Model PowerMap Candidates MathExp SmartDispatcher.
From S2P Require Import SmartDelivery.
From stdpp Require Import base gmap strings list.
From Stdlib Require Import ZArith QArith Qabs Qminmax Lqa Lia.

#[local] Open Scope Z_scope.

(** Errors of [DispatchStrict]: what the solver reports, or [ErrInfeasible]. *)
Inductive lp_error := ErrSolver (msg : string) | ErrInfeasible.

(** [minimize c x] subject to [g x <= h] and [A x = b], with a tolerance. *)
Definition LPSolver (F : Type) : Type :=
  list F → list (list F) → list F → list (list F) → list F → F → string + list F.

Record lpData (F : Type) := MkLpData {
  lp_ids : list string;
  lp_scores : list F;
  lp_caps : list F
}.
Arguments MkLpData {F}.
Arguments lp_ids {F}.
Arguments lp_scores {F}.
Arguments lp_caps {F}.

Section lp.
Context {F : Type} `{Num F} `{!MathExp F} (simplex : LPSolver F).
#[local] Open Scope num_scope.

(** [LPDispatcher] embeds a [SmartDispatcher] and has no field of its own. *)
Implicit Types d : SmartDispatcher F.

Definition NewLPDispatcher : SmartDispatcher F := NewSmartDispatcher.

Definition buildData d (vehicles : list (Vehicle F)) (signal : FlexibilitySignal F)
    (ctx : DispatchContext F) : lpData F :=
  let cands := prepareVehicles vehicles signal ctx (vehicleScore d)
                 (sd_EnableSoCConstraints d) (sd_SafeDischargeFloor d) in
  MkLpData (c_id <$> cands) (c_score <$> cands) (c_capacity <$> cands).

(** Row [i] of the identity matrix of size [n]. *)
Definition unit_row (n i : nat) : list F :=
  (fun j => if Nat.eqb i j then n1 else n0) <$> seq 0 n.

Definition solveLP (scores caps : list F) (target : F) : string + list F :=
  let c := nopp <$> scores in
  let g := unit_row (length caps) <$> seq 0 (length caps) in
  let h := caps in
  let A := [(fun _ => n1) <$> caps] in
  let b := [target] in
  simplex c g h A b (1 // 10000000).

(** The loop over [data.ids]: clamp each component of the solution. *)
Fixpoint lp_assign (sign : F) (ids : list string) (caps sol : list F)
    (assignments : gmap string F) (sum : F) : option (gmap string F * F) :=
  match ids, caps with
  | id :: ids, cap :: caps =>
    match sol with
    | [] => None
    | power :: sol =>
      let power := if power <? n0 then n0 else power in
      let power := if power >? cap then cap else power in
      lp_assign sign ids caps sol (<[id := sign * power]> assignments) (sum + power)
    end
  | _, _ => Some (assignments, sum)
  end.

Definition data_scores (data : lpData F) : gmap string F :=
  foldl (fun m '(id, s) => <[id := s]> m) ∅ (zip (lp_ids data) (lp_scores data)).

(** The result is the map ([None] for the nil map returned when the solver
    fails), the error, and the dispatcher with its new scores. *)
Definition DispatchStrict d (vehicles : list (Vehicle F)) (signal : FlexibilitySignal F) :
    option (option (gmap string F) * option lp_error * SmartDispatcher F) :=
  if Nat.eqb (length vehicles) 0 || (PowerKW signal =? n0) then Some (Some ∅, None, d) else
  let ctx := dispatch_context d signal in
  let data := buildData d vehicles signal ctx in
  let d := set_scores (data_scores data) d in
  if Nat.eqb (length (lp_ids data)) 0 then Some (Some ∅, None, d) else
  let target := nabs (PowerKW signal) in
  let sign := signal_sign signal in
  match solveLP (lp_scores data) (lp_caps data) target with
  | inl err => Some (None, Some (ErrSolver err), d)
  | inr sol =>
    '(assignments, sum) ← lp_assign sign (lp_ids data) (lp_caps data) sol ∅ n0;
    if nabs (sum - target) >? 1 // 1000
    then Some (Some assignments, Some ErrInfeasible, d)
    else Some (Some assignments, None, d)
  end.

(** [Dispatch]: the greedy dispatcher runs on a copy when the LP fails, so the
    scores kept are the LP's. *)
Definition LPDispatch (fuel : nat) d (vehicles : list (Vehicle F))
    (signal : FlexibilitySignal F) : option (gmap string F * SmartDispatcher F) :=
  '(asn, err, d) ← DispatchStrict d vehicles signal;
  match err with
  | Some _ => '(m, _) ← SmartDispatch fuel d vehicles signal; Some (m, d)
  | None => Some (default ∅ asn, d)
  end.

Definition LPGetScores `{!MapRange} d : gmap string F := SmartGetScores d.

(** ** Structure *)

Definition lp_candidates d (vehicles : list (Vehicle F)) (signal : FlexibilitySignal F) :
    list (candidate F) :=
  prepareVehicles vehicles signal (dispatch_context d signal) (vehicleScore d)
    (sd_EnableSoCConstraints d) (sd_SafeDischargeFloor d).

(** The solver returns one value per variable at least, as it does for a
    program it solves. *)
Definition solver_complete : Prop :=
  ∀ c g h A b tol sol, simplex c g h A b tol = inr sol → (length c ≤ length sol)%nat.

Lemma lp_assign_total sign (l : list (candidate F)) sol m sum :
  (length l ≤ length sol)%nat →
  is_Some (lp_assign sign (c_id <$> l) (c_capacity <$> l) sol m sum).
Proof.
  revert sol m sum. induction l as [|c l IH]; intros sol m sum Hlen; cbn; [by eexists|].
  destruct sol as [|power sol]; cbn in Hlen; [lia|]. apply IH. lia.
Qed.

Lemma lp_assign_elem (sign : F) (l : list (candidate F)) sol m sum m' sum' :
  lp_assign sign (c_id <$> l) (c_capacity <$> l) sol m sum = Some (m', sum') →
  ∀ id p, m' !! id = Some p → m !! id = Some p ∨
    ∃ c q, c ∈ l ∧ c_id c = id ∧
      p = sign * (let x := if q <? n0 then n0 else q in if x >? c_capacity c then c_capacity c else x).
Proof.
  revert sol m sum. induction l as [|c l IH]; intros sol m sum Heq id p Hp; cbn in Heq.
  { injection Heq as <- <-. by left. }
  destruct sol as [|power sol]; [done|].
  apply (IH _ _ _ Heq) in Hp as [Hp|(c' & q & Hc' & Hid & ->)].
  - rewrite lookup_insert in Hp. case_decide as Hid; [|by left].
    injection Hp as <-. right. exists c, power. split_and!; [left|done|done].
  - right. exists c', q. split_and!; [by right|done|done].
Qed.

Lemma DispatchStrict_returns (Hsolver : solver_complete) d vehicles signal :
  is_Some (DispatchStrict d vehicles signal).
Proof.
  unfold DispatchStrict. destruct (_ || _); [by eexists|].
  unfold buildData. cbn [lp_ids lp_scores lp_caps].
  destruct (Nat.eqb _ _); [by eexists|].
  destruct (solveLP _ _ _) as [e|sol] eqn:Hsol; [by eexists|].
  apply Hsolver in Hsol. rewrite !length_fmap in Hsol.
  destruct (lp_assign_total (signal_sign signal)
    (prepareVehicles vehicles signal (dispatch_context d signal) (vehicleScore d)
       (sd_EnableSoCConstraints d) (sd_SafeDischargeFloor d)) sol ∅ n0 Hsol) as [[m sum] Ha].
  rewrite Ha. cbn. destruct (nltb _ _); by eexists.
Qed.

(** Only the scores of the dispatcher change. *)
Lemma DispatchStrict_frame d vehicles signal asn err d' :
  DispatchStrict d vehicles signal = Some (asn, err, d') → d' = set_scores (sd_scores d') d.
Proof.
  unfold DispatchStrict. destruct (_ || _); [intros [= <- <- <-]; by destruct d|].
  destruct (Nat.eqb _ _); [by intros [= <- <- <-]|].
  destruct (solveLP _ _ _) as [e|sol]; [by intros [= <- <- <-]|].
  destruct (lp_assign _ _ _ _ _ _) as [[m sum]|]; cbn; [|done].
  destruct (nltb _ _); by intros [= <- <- <-].
Qed.

Lemma DispatchStrict_inv d vehicles signal asn err d' :
  DispatchStrict d vehicles signal = Some (asn, err, d') →
  (asn = Some ∅ ∧ err = None) ∨
  (∃ e, asn = None ∧ err = Some (ErrSolver e)) ∨
  (∃ sol m sum, solveLP (c_score <$> lp_candidates d vehicles signal)
     (c_capacity <$> lp_candidates d vehicles signal) (nabs (PowerKW signal)) = inr sol ∧
   lp_assign (signal_sign signal) (c_id <$> lp_candidates d vehicles signal)
     (c_capacity <$> lp_candidates d vehicles signal) sol ∅ n0 = Some (m, sum) ∧
   asn = Some m ∧
   err = if nabs (sum - nabs (PowerKW signal)) >? 1 // 1000 then Some ErrInfeasible else None).
Proof.
  unfold DispatchStrict, lp_candidates.
  destruct (_ || _); [intros [= <- <- <-]; auto|].
  unfold buildData. cbn [lp_ids lp_scores lp_caps].
  destruct (Nat.eqb _ _); [intros [= <- <- <-]; auto|].
  destruct (solveLP _ _ _) as [e|sol]; [intros [= <- <- <-]; eauto|].
  destruct (lp_assign _ _ _ _ _ _) as [[m sum]|] eqn:Ha; cbn; [|done].
  intros Heq. right. right. exists sol, m, sum. split_and!; [done|done|..];
    destruct (nltb _ _); by injection Heq as <- <- <-.
Qed.
End lp.

(** In any arithmetic with the order laws, in particular binary64: every power
    [DispatchStrict] returns is [sign] times a magnitude that is neither below
    zero nor above the capacity of its vehicle. *)
Theorem DispatchStrict_clamped {F} `{NumOrder F} `{!MathExp F} (simplex : LPSolver F)
    (d : SmartDispatcher F) (vehicles : list (Vehicle F)) (signal : FlexibilitySignal F)
    m err d' id p
    (Hrun : DispatchStrict simplex d vehicles signal = Some (Some m, err, d'))
    (Hid : m !! id = Some p) :
  ∃ v q, v ∈ vehicles ∧ ID v = id ∧ p = (signal_sign signal * q)%num ∧
    nltb q n0 = false ∧
    nltb (snd (availableEnergyAndCapacity v signal (sd_EnableSoCConstraints d)
                (sd_SafeDischargeFloor d))) q = false.
Proof.
  apply DispatchStrict_inv in Hrun as [[[= ->] _]|[(e & [=] & _)|(sol & m' & sum & _ & Ha & [= <-] & _)]];
    [done|].
  apply (lp_assign_elem _ _ _ _ _ _ _ Ha) in Hid as [Hid|(c & q & Hc & <- & ->)]; [done|].
  unfold lp_candidates in Hc. apply elem_of_prepareVehicles in Hc as (Hv & _ & Hcap & Hpos).
  exists (c_v c), (clamp n0 (c_capacity c) q). rewrite <- Hcap. split_and!; [done..|apply clamp_bounds|apply clamp_bounds];
    destruct (nltb (c_capacity c) n0) eqn:Hlt; [by rewrite (nltb_nleb _ _ Hlt) in Hpos|done|
    by rewrite (nltb_nleb _ _ Hlt) in Hpos|done].
Qed.

(** ** Exact arithmetic *)

#[local] Open Scope Q_scope.

Lemma lp_assign_total_Q sign (l : list (candidate Q)) sol m sum m' sum' :
  sign * sign == 1 → NoDup (c_id <$> l) → (∀ k, k ∈ c_id <$> l → m !! k = None) →
  lp_assign sign (c_id <$> l) (c_capacity <$> l) sol m sum = Some (m', sum') →
  sign * power_total m' - sum' == sign * power_total m - sum.
Proof.
  intros Hs. revert sol m sum. induction l as [|c l IH]; intros sol m sum Hnd Hfresh Heq; cbn in Heq.
  { injection Heq as <- <-. reflexivity. }
  destruct sol as [|power sol]; [done|].
  rewrite fmap_cons in *. apply NoDup_cons in Hnd as [Hc Hnd].
  apply IH in Heq; [|done|].
  - rewrite Heq, power_total_insert_None by (apply Hfresh; left). num_Q.
    set (x := if Qltb (c_capacity c) _ then _ else _).
    rewrite Qmult_plus_distr_r, Qmult_assoc, Hs. lra.
  - intros k Hk. rewrite lookup_insert_ne by (intros <-; done). apply Hfresh. by right.
Qed.

Section exact.
Context `{!MathExp Q} (simplex : LPSolver Q).
Implicit Types (d : SmartDispatcher Q) (signal : FlexibilitySignal Q).

Lemma DispatchStrict_power_ok d vehicles signal m err d' :
  DispatchStrict simplex d vehicles signal = Some (Some m, err, d') →
  ∀ id p, m !! id = Some p → power_ok d vehicles signal id p.
Proof.
  intros Hrun id p Hid.
  apply DispatchStrict_inv in Hrun
    as [[[= ->] _]|[(e & [=] & _)|(sol & m' & sum & _ & Ha & [= <-] & _)]]; [done|].
  apply (lp_assign_elem _ _ _ _ _ _ _ Ha) in Hid as [Hid|(c & q & Hc & <- & ->)]; [done|].
  unfold lp_candidates in Hc. apply elem_of_prepareVehicles in Hc as (Hv & _ & Hcap & Hpos).
  num_Q. q_bool.
  destruct (availableEnergyAndCapacity _ _ _ _) as [energy cap] eqn:Hec.
  apply capacity_bounds in Hec as (He & _ & Hmax & Hen). cbn [snd] in Hcap. subst cap.
  set (x := if Qltb (c_capacity c) _ then _ else _).
  assert (0 <= x <= c_capacity c) as Hx.
  { unfold x. repeat q_case; lra. }
  exists (c_v c). rewrite Qmult_assoc, signal_sign_sq, Qmult_1_l.
  split_and!; [done|done|lra|specialize (Hmax ltac:(lra)); lra|].
  intros Hneg Hdur. specialize (Hen ltac:(lra) Hneg Hdur).
  pose proof (Hours_Q_pos _ Hdur). rewrite <- He.
  assert (x * Hours (sig_Duration signal) <= c_capacity c * Hours (sig_Duration signal)); [|lra].
  apply Qmult_le_compat_r; lra.
Qed.


(** [Dispatch] meets the physical limits whether the LP succeeds or the greedy
    dispatcher replaces it, and always returns when [MaxRounds] is not 0. *)
Theorem LPDispatch_safe fuel d (vehicles : list (Vehicle Q)) signal
    (Hnd : NoDup (ID <$> vehicles)) (Hsolver : solver_complete simplex)
    (Hmax : sd_MaxRounds d ≠ 0%Z) (Hfuel : (sd_MaxRounds d <= Z.of_nat fuel)%Z) :
  ∃ m d', LPDispatch simplex fuel d vehicles signal = Some (m, d') ∧
    ∀ id p, m !! id = Some p → power_ok d vehicles signal id p.
Proof.
  destruct (DispatchStrict_returns simplex Hsolver d vehicles signal) as [[[asn err] d1] Hs].
  pose proof (DispatchStrict_frame _ _ _ _ _ _ _ Hs) as Hframe.
  unfold LPDispatch. rewrite Hs. cbn. destruct err as [e|].
  - destruct (SmartDispatch_total fuel d1 vehicles signal) as [[m d2] Hm];
      [by rewrite Hframe..|].
    rewrite Hm. exists m, d1. split; [done|].
    destruct (SmartDispatch_limits _ _ _ _ _ _ Hnd Hm) as [Hsafe _].
    unfold power_ok in Hsafe. rewrite Hframe in Hsafe. exact Hsafe.
  - destruct asn as [m|].
    + exists m, d1. split; [done|]. by eapply DispatchStrict_power_ok.
    + exists ∅, d1. done.
Qed.
End exact.
