(* ===== verification/SegmentedDispatcher.v ===== *)
(** * [SegmentedSmartDispatcher]

    Models [core/dispatch/segmented_dispatcher.go]: the fleet is split by
    segment, every segment present receives the same part of the request, and
    each is dispatched with the weights and the strategy of its configuration. *)

From S2P Require Import Prelude Num GoTime Model PowerMap Candidates MathExp SmartDispatcher.
From S2P Require Import SmartDelivery LPDispatcher.
From stdpp Require Import base gmap strings list fin_maps.
From Stdlib Require Import ZArith QArith Qabs Qminmax Lqa Lia.

#[local] Open Scope Z_scope.

Record SegmentConfig (F : Type) := MkSegment {
  seg_Weights : gmap string F;
  seg_DispatcherType : string;
  seg_Fallback : bool
}.
Arguments MkSegment {F}.
Arguments seg_Weights {F}.
Arguments seg_DispatcherType {F}.
Arguments seg_Fallback {F}.

(** The state of the dispatcher is its map of configurations. *)
Abbreviation segments F := (gmap string (SegmentConfig F)).

Section segmented.
Context {F : Type} `{Num F} `{!MathExp F} `{!MapRange} (simplex : LPSolver F).
#[local] Open Scope num_scope.

Definition DefaultSegmentConfigs : segments F :=
  <["commuter" := MkSegment
      (<["soc" := 6 // 10]> (<["time" := 3 // 10]> (<["priority" := 1 // 10]> ∅)))
      "heuristic" false]>
  (<["captive_fleet" := MkSegment
      (<["soc" := 4 // 10]> (<["time" := 2 // 10]> (<["availability" := 4 // 10]> ∅)))
      "lp" true]>
  (<["opportunistic_charger" := MkSegment
      (<["soc" := 2 // 10]> (<["time" := 1 // 10]> (<["price" := 4 // 10]>
        (<["availability" := 2 // 10]> (<["wear" := 1 // 10]> ∅)))))
      "heuristic" true]> ∅)).

(** The map is copied; a nil map ([None]) selects the defaults. *)
Definition NewSegmentedSmartDispatcher (cfg : option (segments F)) : segments F :=
  let cfg := match cfg with None => DefaultSegmentConfigs | Some cfg => cfg end in
  foldl (fun cp '(k, v) => <[k := v]> cp) ∅ (range_map cfg).

(** The body of the loop of [applyWeights]: the [switch] on the key. *)
Definition apply_weight (d : SmartDispatcher F) (k : string) (v : F) : SmartDispatcher F :=
  let '(MkSmart soc tm pr price wear fair av market part rounds sc en min floor) := d in
  if bool_decide (k = "soc") then
    MkSmart v tm pr price wear fair av market part rounds sc en min floor
  else if bool_decide (k = "time") then
    MkSmart soc v pr price wear fair av market part rounds sc en min floor
  else if bool_decide (k = "priority") then
    MkSmart soc tm v price wear fair av market part rounds sc en min floor
  else if bool_decide (k = "price") then
    MkSmart soc tm pr v wear fair av market part rounds sc en min floor
  else if bool_decide (k = "wear") then
    MkSmart soc tm pr price v fair av market part rounds sc en min floor
  else if bool_decide (k = "fairness") then
    MkSmart soc tm pr price wear v av market part rounds sc en min floor
  else if bool_decide (k = "availability") then
    MkSmart soc tm pr price wear fair v market part rounds sc en min floor
  else if bool_decide (k = "market_price") then
    MkSmart soc tm pr price wear fair av v part rounds sc en min floor
  else d.

Definition applyWeights (d : SmartDispatcher F) (weights : gmap string F) : SmartDispatcher F :=
  foldl (fun d '(k, v) => apply_weight d k v) d (range_map weights).

(** [None] stands for a panic of the LP code or for exhausted fuel. *)
Definition dispatchSegment (fuel : nat) (vs : list (Vehicle F)) (signal : FlexibilitySignal F)
    (cfg : SegmentConfig F) : option (gmap string F) :=
  let sd := applyWeights NewSmartDispatcher (seg_Weights cfg) in
  if bool_decide (seg_DispatcherType cfg = "lp") then
    if seg_Fallback cfg then
      '(asn, err, _) ← DispatchStrict simplex sd vs signal;
      match err with
      | Some _ => fst <$> SmartDispatch fuel sd vs signal
      | None => Some (default ∅ asn)
      end
    else fst <$> LPDispatch simplex fuel sd vs signal
  else fst <$> SmartDispatch fuel sd vs signal.

(** [groups\[v.Segment\] = append(groups\[v.Segment\], v)]. *)
Definition group_by_segment (vehicles : list (Vehicle F)) : gmap string (list (Vehicle F)) :=
  foldl (fun groups v => <[Segment v := default [] (groups !! Segment v) ++ [v]]> groups)
    ∅ vehicles.

Definition set_PowerKW (p : F) (signal : FlexibilitySignal F) : FlexibilitySignal F :=
  MkSignal (sig_Type signal) p (sig_Duration signal) (Timestamp signal).

(** A segment without a configuration gets the zero [SegmentConfig]. *)
Definition segment_config (segs : segments F) (seg : string) : SegmentConfig F :=
  match segs !! seg with Some cfg => cfg | None => MkSegment ∅ "" false end.

Fixpoint dispatch_groups (fuel : nat) (segs : segments F) (part : FlexibilitySignal F)
    (groups : list (string * list (Vehicle F))) (assignments : gmap string F) :
    option (gmap string F) :=
  match groups with
  | [] => Some assignments
  | (seg, vs) :: groups =>
    res ← dispatchSegment fuel vs part (segment_config segs seg);
    dispatch_groups fuel segs part groups
      (foldl (fun a '(id, p) => <[id := p]> a) assignments (range_map res))
  end.

Definition SegmentedDispatch (fuel : nat) (segs : segments F) (vehicles : list (Vehicle F))
    (signal : FlexibilitySignal F) : option (gmap string F) :=
  if Nat.eqb (length vehicles) 0 then Some ∅ else
  let groups := group_by_segment vehicles in
  let share := PowerKW signal / nofZ (Z.of_nat (size groups)) in
  dispatch_groups fuel segs (set_PowerKW share signal) (range_map groups) ∅.
End segmented.

(** ** The weights do not depend on the iteration order *)

Section weights.
Context {F : Type} `{Num F} `{!MathExp F}.
Implicit Types (d : SmartDispatcher F) (w : gmap string F).

(** The configured weights replace the defaults, name by name. *)
Definition with_weights d w : SmartDispatcher F :=
  let get k x := default x (w !! k) in
  MkSmart (get "soc" (sd_SocWeight d)) (get "time" (sd_TimeWeight d))
    (get "priority" (sd_PriorityWeight d)) (get "price" (sd_PriceWeight d))
    (get "wear" (sd_WearWeight d)) (get "fairness" (sd_FairnessWeight d))
    (get "availability" (sd_AvailabilityWeight d)) (get "market_price" (sd_MarketPrice d))
    (sd_Participation d) (sd_MaxRounds d) (sd_scores d)
    (sd_EnableSoCConstraints d) (sd_MinSoC d) (sd_SafeDischargeFloor d).

Lemma with_weights_cons d (l : list (string * F)) k v :
  k ∉ l.*1 →
  with_weights (apply_weight d k v) (list_to_map l) = with_weights d (list_to_map ((k, v) :: l)).
Proof.
  intros Hk%not_elem_of_list_to_map_1. destruct d. unfold with_weights, apply_weight.
  cbn [list_to_map foldr curry].
  repeat (case_bool_decide; [subst k; cbn; by rewrite Hk, lookup_insert_eq, !lookup_insert_ne by done|]).
  cbn. by rewrite !lookup_insert_ne by done.
Qed.

Lemma applyWeights_spec `{!MapRange} d w : applyWeights d w = with_weights d w.
Proof.
  unfold applyWeights.
  assert (∀ l : list (string * F), NoDup l.*1 → ∀ d,
    foldl (fun d '(k, v) => apply_weight d k v) d l = with_weights d (list_to_map l)) as Hl.
  { induction l as [|[k v] l IH]; intros Hnd d'; cbn [foldl]; [by destruct d'|].
    apply NoDup_cons in Hnd as [Hk Hnd]. by rewrite IH, with_weights_cons. }
  rewrite Hl by auto with v2g. f_equal.
  rewrite <- (list_to_map_to_list w) at 2.
  apply list_to_map_proper; auto with v2g.
Qed.
End weights.

(** ** Segments *)

Section grouping.
Context {F : Type}.
Implicit Types (vehicles : list (Vehicle F)).

Lemma group_by_segment_lookup vehicles seg :
  group_by_segment vehicles !! seg =
  let vs := filter (fun v => Segment v = seg) vehicles in
  if decide (vs = []) then None else Some vs.
Proof.
  unfold group_by_segment. induction vehicles as [|v vehicles IH] using rev_ind; [done|].
  rewrite foldl_app. cbn [foldl]. rewrite filter_app, lookup_insert.
  set (groups := foldl _ ∅ vehicles) in *.
  destruct (decide (Segment v = seg)) as [<-|Hne].
  - rewrite filter_cons_True, filter_nil by done. rewrite IH. cbn zeta.
    case_decide as Hnil; [rewrite Hnil; cbn; done|]. cbn.
    rewrite decide_False; [done|]. intros Happ%app_eq_nil. naive_solver.
  - by rewrite filter_cons_False, filter_nil, app_nil_r by done.
Qed.

Lemma group_by_segment_elem vehicles seg vs v :
  group_by_segment vehicles !! seg = Some vs → v ∈ vs ↔ v ∈ vehicles ∧ Segment v = seg.
Proof.
  rewrite group_by_segment_lookup. cbn zeta. case_decide; [done|]. intros [= <-].
  rewrite list_elem_of_filter. tauto.
Qed.

Lemma group_by_segment_sublist vehicles seg vs :
  group_by_segment vehicles !! seg = Some vs → sublist vs vehicles.
Proof.
  rewrite group_by_segment_lookup. cbn zeta. case_decide; [done|]. intros [= <-].
  apply sublist_filter.
Qed.

Lemma group_of_vehicle vehicles v :
  v ∈ vehicles → ∃ vs, group_by_segment vehicles !! Segment v = Some vs ∧ v ∈ vs.
Proof.
  intros Hv. rewrite group_by_segment_lookup. cbn zeta.
  assert (v ∈ filter (fun w => Segment w = Segment v) vehicles) as Hf by (by apply list_elem_of_filter).
  case_decide as Hnil; [rewrite Hnil in Hf; by apply not_elem_of_nil in Hf|]. by eexists.
Qed.
End grouping.

Section dispatch.
Context {F : Type} `{Num F} `{!MathExp F} (simplex : LPSolver F).
#[local] Open Scope num_scope.
Implicit Types (vehicles vs : list (Vehicle F)) (signal : FlexibilitySignal F).

(** The dispatcher a segment is given. *)
Definition segment_dispatcher (cfg : SegmentConfig F) : SmartDispatcher F :=
  with_weights NewSmartDispatcher (seg_Weights cfg).

Lemma dispatchSegment_order `{R1 : !MapRange} `{R2 : !MapRange} fuel vs signal cfg :
  dispatchSegment (H0 := R1) simplex fuel vs signal cfg =
  dispatchSegment (H0 := R2) simplex fuel vs signal cfg.
Proof. unfold dispatchSegment. by rewrite !applyWeights_spec. Qed.

Lemma DispatchStrict_dom d vs signal m err d' id :
  DispatchStrict simplex d vs signal = Some (Some m, err, d') →
  id ∈ dom m → id ∈ ID <$> vs.
Proof.
  intros Hrun [p Hid]%elem_of_dom.
  apply DispatchStrict_inv in Hrun
    as [[[= ->] _]|[(e & [=] & _)|(sol & m' & sum & _ & Ha & [= <-] & _)]]; [done|].
  apply (lp_assign_elem _ _ _ _ _ _ _ Ha) in Hid as [Hid|(c & q & Hc & <- & ->)]; [done|].
  apply elem_of_prepareVehicles in Hc as (Hv & _). unfold c_id. by apply list_elem_of_fmap_2.
Qed.

Lemma SmartDispatch_dom fuel d vs signal m d' id :
  SmartDispatch fuel d vs signal = Some (m, d') → id ∈ dom m → id ∈ ID <$> vs.
Proof.
  intros Hrun [p Hid]%elem_of_dom.
  destruct (SmartDispatch_assigned _ _ _ _ _ _ _ _ Hrun Hid) as (v & Hv & <- & _).
  by apply list_elem_of_fmap_2.
Qed.

Lemma LPDispatch_dom fuel d vs signal m d' id :
  LPDispatch simplex fuel d vs signal = Some (m, d') → id ∈ dom m → id ∈ ID <$> vs.
Proof.
  unfold LPDispatch. destruct (DispatchStrict _ _ _ _) as [[[asn err] d1]|] eqn:Hs; [|done].
  cbn. destruct err as [e|].
  - destruct (SmartDispatch _ _ _ _) as [[m1 d2]|] eqn:Hm; [|done]. intros [= <- <-].
    by eapply SmartDispatch_dom.
  - intros [= <- <-]. destruct asn as [m1|]; [|set_solver]. by eapply DispatchStrict_dom.
Qed.

Lemma dispatchSegment_dom `{!MapRange} fuel vs signal cfg m id :
  dispatchSegment simplex fuel vs signal cfg = Some m → id ∈ dom m → id ∈ ID <$> vs.
Proof.
  unfold dispatchSegment. set (sd := applyWeights _ _).
  case_bool_decide.
  - destruct (seg_Fallback cfg).
    + destruct (DispatchStrict _ _ _ _) as [[[asn err] d1]|] eqn:Hs; [|done]. cbn.
      destruct err as [e|].
      * intros ([m1 d2] & Hm & ->)%fmap_Some. by eapply SmartDispatch_dom.
      * intros [= <-]. destruct asn; [|set_solver]. by eapply DispatchStrict_dom.
    + intros ([m1 d2] & Hm & ->)%fmap_Some. by eapply LPDispatch_dom.
  - intros ([m1 d2] & Hm & ->)%fmap_Some. by eapply SmartDispatch_dom.
Qed.

(** Vehicles with distinct identifiers: the segments do not overlap, so each
    identifier keeps what its own segment's dispatch gave it. *)
Definition groups_disjoint (groups : list (string * list (Vehicle F))) : Prop :=
  ∀ i j seg vs seg' vs', groups !! i = Some (seg, vs) → groups !! j = Some (seg', vs') →
    i ≠ j → ∀ id, id ∈ ID <$> vs → id ∈ ID <$> vs' → False.

Lemma groups_disjoint_cons seg vs groups :
  groups_disjoint ((seg, vs) :: groups) →
  groups_disjoint groups ∧
  ∀ seg' vs' id, (seg', vs') ∈ groups → id ∈ ID <$> vs → id ∈ ID <$> vs' → False.
Proof.
  intros Hd. split.
  - intros i j ? ? ? ? Hi Hj Hne. eapply (Hd (S i) (S j)); cbn; eauto.
  - intros seg' vs' id [j Hj]%list_elem_of_lookup. by eapply (Hd O (S j)); cbn.
Qed.

Lemma dispatch_groups_lookup `{!MapRange} fuel segs part groups a m :
  groups_disjoint groups →
  dispatch_groups simplex fuel segs part groups a = Some m →
  (∀ seg vs, (seg, vs) ∈ groups → ∃ res,
     dispatchSegment simplex fuel vs part (segment_config segs seg) = Some res ∧
     ∀ id, id ∈ ID <$> vs → m !! id = (res ∪ a) !! id) ∧
  (∀ id, (∀ seg vs, (seg, vs) ∈ groups → id ∉ ID <$> vs) → m !! id = a !! id).
Proof.
  revert a. induction groups as [|[seg vs] groups IH]; intros a Hd Heq; cbn [dispatch_groups] in Heq.
  { injection Heq as <-. split; [by intros ? ? ?%not_elem_of_nil|done]. }
  apply groups_disjoint_cons in Hd as [Hd Hne].
  destruct (dispatchSegment _ _ _ _ _) as [res|] eqn:Hres; [|done]. cbn in Heq.
  rewrite range_merge in Heq.
  assert (∀ id, id ∉ ID <$> vs → (res ∪ a) !! id = a !! id) as Hout.
  { intros id Hid. apply lookup_union_r, not_elem_of_dom.
    contradict Hid. by eapply dispatchSegment_dom. }
  destruct (IH _ Hd Heq) as [Hin Hother]. split.
  - intros seg' vs' [[= -> ->]|Hin']%elem_of_cons.
    + exists res. split; [done|]. intros id Hid. apply Hother.
      intros seg1 vs1 H1 Hid'. by eapply Hne.
    + destruct (Hin _ _ Hin') as (res' & Hres' & Hlk). exists res'. split; [done|].
      intros id Hid. rewrite Hlk, !(lookup_union res'), Hout; [done| |done].
      intros Hid'. by eapply Hne.
  - intros id Hid. rewrite Hother by (intros ? ? ?; eapply Hid; by right).
    apply Hout. eapply Hid. left.
Qed.

Lemma dispatch_groups_total `{!MapRange} fuel segs part groups a :
  (∀ seg vs, (seg, vs) ∈ groups →
     is_Some (dispatchSegment simplex fuel vs part (segment_config segs seg))) ↔
  is_Some (dispatch_groups simplex fuel segs part groups a).
Proof.
  revert a. induction groups as [|[seg vs] groups IH]; intros a; cbn [dispatch_groups].
  { split; [by eexists|]. by intros _ ? ? ?%not_elem_of_nil. }
  split.
  - intros Hall. destruct (Hall seg vs ltac:(left)) as [res ->]. cbn. apply IH.
    intros ? ? ?. apply Hall. by right.
  - destruct (dispatchSegment _ _ _ _ _) as [res|] eqn:Hres; [|by intros []]. cbn.
    intros Hs. rewrite <- IH in Hs. intros seg' vs' [[= -> ->]|Hin]%elem_of_cons; [by eexists|by apply Hs].
Qed.

Lemma range_groups_disjoint `{!MapRange} vehicles :
  NoDup (ID <$> vehicles) → groups_disjoint (range_map (group_by_segment vehicles)).
Proof.
  intros Hnd i j seg vs seg' vs' Hi Hj Hne id Hid Hid'.
  assert (seg ≠ seg') as Hseg.
  { intros <-. apply Hne. eapply (NoDup_lookup (range_map (group_by_segment vehicles)).*1);
      [auto with v2g|rewrite list_lookup_fmap, Hi|rewrite list_lookup_fmap, Hj]; done. }
  apply list_elem_of_lookup_2, elem_of_range in Hi, Hj.
  apply list_elem_of_fmap in Hid as (v & -> & Hv), Hid' as (v' & Heq & Hv').
  eapply group_by_segment_elem in Hv as [Hv Hs], Hv' as [Hv' Hs']; [|done..].
  assert (v = v') as -> by (by eapply (NoDup_fmap_in_inj ID vehicles)). congruence.
Qed.

(** What [Dispatch] computes, independently of the iteration order. *)
Definition segment_part vehicles signal : FlexibilitySignal F :=
  set_PowerKW (PowerKW signal / nofZ (Z.of_nat (size (group_by_segment vehicles)))) signal.

Lemma SegmentedDispatch_lookup `{!MapRange} fuel segs vehicles signal m :
  NoDup (ID <$> vehicles) → SegmentedDispatch simplex fuel segs vehicles signal = Some m →
  (∀ v, v ∈ vehicles → ∃ vs res,
     group_by_segment vehicles !! Segment v = Some vs ∧
     dispatchSegment simplex fuel vs (segment_part vehicles signal)
       (segment_config segs (Segment v)) = Some res ∧
     m !! ID v = res !! ID v) ∧
  (∀ id, id ∉ ID <$> vehicles → m !! id = None).
Proof.
  intros Hnd. unfold SegmentedDispatch.
  destruct (Nat.eqb_spec (length vehicles) 0) as [Hl|Hl].
  { apply nil_length_inv in Hl as ->. intros [= <-]. by split; [intros v ?%not_elem_of_nil|]. }
  intros Heq. apply dispatch_groups_lookup in Heq as [Hin Hout]; [|by apply range_groups_disjoint].
  split.
  - intros v Hv. destruct (group_of_vehicle vehicles v Hv) as (vs & Hg & Hvs).
    destruct (Hin (Segment v) vs) as (res & Hres & Hlk); [by apply elem_of_range|].
    exists vs, res. split_and!; [done..|]. rewrite Hlk by (by apply list_elem_of_fmap_2).
    by rewrite (right_id_L ∅ (∪)).
  - intros id Hid. rewrite Hout; [done|]. intros seg vs Hg%elem_of_range. contradict Hid.
    apply list_elem_of_fmap in Hid as (v & -> & Hv).
    eapply group_by_segment_elem in Hv as [Hv _]; [|done]. by apply list_elem_of_fmap_2.
Qed.
End dispatch.

(** C16. Go may visit the segments, and the weights of each, in any order: for
    vehicles with distinct identifiers the assignment is the same. *)
Theorem SegmentedDispatch_deterministic {F} `{Num F} `{!MathExp F} (R1 R2 : MapRange)
    (simplex : LPSolver F) fuel segs (vehicles : list (Vehicle F)) signal
    (Hnd : NoDup (ID <$> vehicles)) :
  SegmentedDispatch (H0 := R1) simplex fuel segs vehicles signal =
  SegmentedDispatch (H0 := R2) simplex fuel segs vehicles signal.
Proof.
  assert (is_Some (SegmentedDispatch (H0 := R1) simplex fuel segs vehicles signal) ↔
          is_Some (SegmentedDispatch (H0 := R2) simplex fuel segs vehicles signal)) as Hsome.
  { unfold SegmentedDispatch. destruct (Nat.eqb _ _); [done|].
    rewrite <- !dispatch_groups_total.
    split; intros Hall seg vs Hg; apply elem_of_range in Hg; 
      (rewrite (dispatchSegment_order simplex (R1 := R1) (R2 := R2))
       || rewrite (dispatchSegment_order simplex (R1 := R2) (R2 := R1)));
      apply Hall; by apply elem_of_range. }
  destruct (SegmentedDispatch (H0 := R1) _ _ _ _ _) as [m1|] eqn:H1,
    (SegmentedDispatch (H0 := R2) _ _ _ _ _) as [m2|] eqn:H2;
    [|by destruct (proj1 Hsome ltac:(by eexists))|by destruct (proj2 Hsome ltac:(by eexists))|done].
  f_equal. apply map_eq. intros id.
  apply SegmentedDispatch_lookup in H1 as [Hin1 Hout1], H2 as [Hin2 Hout2]; [|done..].
  destruct (decide (id ∈ ID <$> vehicles)) as [(v & -> & Hv)%list_elem_of_fmap|Hn];
    [|by rewrite Hout1, Hout2].
  destruct (Hin1 v Hv) as (vs & res & Hg & Hr & ->), (Hin2 v Hv) as (vs' & res' & Hg' & Hr' & ->).
  rewrite (dispatchSegment_order simplex (R1 := R1) (R2 := R2)) in Hr. congruence.
Qed.

(** ** Exact limits *)

#[local] Open Scope Q_scope.

Section exact.
Context `{!MathExp Q} `{!MapRange} (simplex : LPSolver Q) (Hsolver : solver_complete simplex).

Lemma dispatchSegment_limits fuel vs signal cfg :
  (10 ≤ fuel)%nat → NoDup (ID <$> vs) →
  ∃ m, dispatchSegment simplex fuel vs signal cfg = Some m ∧
    ∀ id p, m !! id = Some p → power_ok NewSmartDispatcher vs signal id p.
Proof.
  intros Hfuel Hnd. unfold dispatchSegment. rewrite applyWeights_spec.
  set (sd := with_weights _ _).
  assert (sd_MaxRounds sd = 10%Z) as Hmax by done.
  destruct (SmartDispatch_total fuel sd vs signal) as [[ms ds] Hms]; [lia..|].
  assert (∀ id p, ms !! id = Some p → power_ok NewSmartDispatcher vs signal id p) as Hsmart.
  { by destruct (SmartDispatch_limits _ _ _ _ _ _ Hnd Hms) as [Hl _]. }
  rewrite Hms. cbn [fmap option_fmap option_map fst].
  case_bool_decide; [|by eexists].
  destruct (DispatchStrict_returns simplex Hsolver sd vs signal) as [[[asn err] d1] Hs].
  assert (∀ m id p, asn = Some m → m !! id = Some p → power_ok NewSmartDispatcher vs signal id p) as Hlp.
  { intros m id p -> Hid. by eapply (DispatchStrict_power_ok simplex sd). }
  pose proof (DispatchStrict_frame _ _ _ _ _ _ _ Hs) as Hframe.
  unfold LPDispatch. rewrite Hs. cbn [mbind option_bind].
  destruct (seg_Fallback cfg), err as [e|]; try (by eexists);
    try (by exists (default ∅ asn); split; [done|]; destruct asn; [intros id p; by eapply Hlp|]).
  destruct (SmartDispatch_total fuel d1 vs signal) as [[m2 d2] Hm2]; [rewrite Hframe; cbn; lia..|].
  rewrite Hm2. exists m2. split; [done|].
  destruct (SmartDispatch_limits _ _ _ _ _ _ Hnd Hm2) as [Hl _].
  unfold power_ok in Hl. rewrite Hframe in Hl. exact Hl.
Qed.

Lemma SegmentedDispatch_limits fuel (segs : segments Q) (vehicles : list (Vehicle Q)) signal :
  (10 ≤ fuel)%nat → NoDup (ID <$> vehicles) →
  ∃ m, SegmentedDispatch simplex fuel segs vehicles signal = Some m ∧
    ∀ id p, m !! id = Some p →
      power_ok NewSmartDispatcher vehicles (segment_part vehicles signal) id p.
Proof.
  intros Hfuel Hnd.
  assert (∀ seg vs, group_by_segment vehicles !! seg = Some vs → NoDup (ID <$> vs)) as Hsub.
  { intros seg vs Hg. eapply NoDup_fmap_sublist; [by eapply group_by_segment_sublist|done]. }
  assert (is_Some (SegmentedDispatch simplex fuel segs vehicles signal)) as [m Hm].
  { unfold SegmentedDispatch. destruct (Nat.eqb _ _); [by eexists|].
    apply dispatch_groups_total. intros seg vs Hg%elem_of_range.
    edestruct (dispatchSegment_limits fuel vs) as (m & Hm & _); [done|by eapply Hsub|]. by eexists. }
  exists m. split; [done|]. apply SegmentedDispatch_lookup in Hm as [Hin Hout]; [|done].
  intros id p Hid. destruct (decide (id ∈ ID <$> vehicles)) as [(v & -> & Hv)%list_elem_of_fmap|Hn];
    [|by rewrite Hout in Hid].
  destruct (Hin v Hv) as (vs & res & Hg & Hr & Hlk).
  edestruct (dispatchSegment_limits fuel vs) as (m' & Hm' & Hok); [done|by eapply Hsub|].
  rewrite Hr in Hm'. injection Hm' as ->. rewrite Hlk in Hid.
  destruct (Hok _ _ Hid) as (w & Hw & Hrest). exists w. split; [|done].
  by eapply sublist_incl; [eapply group_by_segment_sublist|].
Qed.

(** For vehicles with distinct identifiers and a solver that returns a value
    per variable, [Dispatch] returns within the ten rounds of its dispatchers,
    and every power it assigns respects the [MaxPower] and the energy above the
    discharge floor of its vehicle and has the sign of the request. *)
Theorem SegmentedDispatch_safe fuel (segs : segments Q) (vehicles : list (Vehicle Q)) signal
    (Hfuel : (10 ≤ fuel)%nat) (Hnd : NoDup (ID <$> vehicles)) :
  ∃ m, SegmentedDispatch simplex fuel segs vehicles signal = Some m ∧
    ∀ id p, m !! id = Some p →
      power_ok NewSmartDispatcher vehicles (segment_part vehicles signal) id p.
Proof. by apply SegmentedDispatch_limits. Qed.
End exact.
