(* ===== verification/Fallback.v ===== *)
(** * Fallback strategies

    Models [core/dispatch/fallback.go], [balanced_fallback.go] and
    [probabilistic_fallback.go]: the power of failed vehicles is handed to the
    remaining ones in proportion to their effective capacity.  Log output is
    left out.  The redistribution loop has no bound in the source; the model
    takes fuel and returns [None] when it runs out. *)

From S2P Require Import Prelude Num GoTime Model PowerMap.
From stdpp Require Import base gmap strings list.
From Stdlib Require Import ZArith QArith Qabs Qminmax Lqa Lia Floats.SpecFloat.

#[local] Open Scope Z_scope.

Record alloc (F : Type) := MkAlloc { al_id : string; al_capacity : F }.
Arguments MkAlloc {F}.
Arguments al_id {F}.
Arguments al_capacity {F}.

(** Both strategies keep the vehicles of the current dispatch by identifier. *)
Abbreviation fleet F := (gmap string (Vehicle F)).

Section fallback.
Context {F : Type} `{Num F} `{!MapRange}.
#[local] Open Scope num_scope.

Definition NoopReallocate (failed : list (Vehicle F)) (current : gmap string F)
    (signal : FlexibilitySignal F) : gmap string F := current.

Definition SetVehicles (vs : list (Vehicle F)) : fleet F :=
  foldl (fun m v => <[ID v := v]> m) ∅ vs.

(** [ProbabilisticFallback] has the loop a second time, without the lock. *)
Definition ProbabilisticSetVehicles (vs : list (Vehicle F)) : fleet F :=
  foldl (fun m v => <[ID v := v]> m) ∅ vs.

(** ** [allocatePower] *)

(** The body of the outer loop: every entry gets its share of what remains,
    at most its capacity, and stays in [next] while capacity is left. *)
Fixpoint alloc_round (sign totalCap : F) (avail : list (alloc F)) (res : gmap string F)
    (remaining : F) : list (alloc F) * gmap string F * F :=
  match avail with
  | [] => ([], res, remaining)
  | a :: rest =>
    let share := remaining * (al_capacity a / totalCap) in
    let share := if share >? al_capacity a then al_capacity a else share in
    let capacity := al_capacity a - share in
    let '(next, res, remaining) :=
      alloc_round sign totalCap rest (madd res (al_id a) (sign * share)) (remaining - share) in
    (if capacity >? n0 then MkAlloc (al_id a) capacity :: next else next, res, remaining)
  end.

Definition total_capacity (avail : list (alloc F)) : F :=
  foldl (fun t a => t + al_capacity a) n0 avail.

Abbreviation alloc_state := (list (alloc F) * gmap string F * F)%type.

(** Whether the loop goes on, the [break] on an empty total included. *)
Definition alloc_running (s : alloc_state) : bool :=
  let '(avail, _, remaining) := s in
  (remaining >? n0) && negb (Nat.eqb (length avail) 0)
  && negb (total_capacity avail =? n0).

Definition alloc_step (sign : F) (s : alloc_state) : alloc_state :=
  let '(avail, res, remaining) := s in
  alloc_round sign (total_capacity avail) avail res remaining.

Fixpoint alloc_loop (fuel : nat) (sign : F) (s : alloc_state) : option alloc_state :=
  if alloc_running s then
    match fuel with
    | O => None
    | S fuel => alloc_loop fuel sign (alloc_step sign s)
    end
  else Some s.

(** Returns the power that could not be placed; [res] is updated in place. *)
Definition allocatePower (fuel : nat) (avail : list (alloc F)) (res : gmap string F)
    (residual sign : F) : option (F * gmap string F) :=
  '(_, res, remaining) ← alloc_loop fuel sign (avail, res, residual);
  Some (remaining, res).

(** ** [Reallocate] *)

(** The loop over [failed]: collects the identifiers and the power they leave. *)
Fixpoint drop_failed (failed : list (Vehicle F)) (failedIDs : gset string) (residual : F)
    (res : gmap string F) : gset string * F * gmap string F :=
  match failed with
  | [] => (failedIDs, residual, res)
  | v :: rest =>
    drop_failed rest ({[ID v]} ∪ failedIDs) (residual + nabs (mget res (ID v)))
      (<[ID v := n0]> res)
  end.

Definition BalancedAvailable (vehicles : fleet F) (current : gmap string F)
    (failed : gset string) (res : gmap string F) : list (alloc F) :=
  omap (fun '(id, _) =>
    if decide (id ∈ failed) then None else
    let cap := match vehicles !! id with
               | Some veh => EffectiveCapacity veh (mget res id)
               | None => n0
               end in
    if cap >? n0 then Some (MkAlloc id cap) else None) (range_map current).

Definition ProbabilisticAvailable (vehicles : fleet F) (current : gmap string F)
    (failed : gset string) (res : gmap string F) : list (alloc F) :=
  omap (fun '(id, _) =>
    if decide (id ∈ failed) then None else
    match vehicles !! id with
    | None => None
    | Some veh =>
      let cap := EffectiveCapacity veh (mget res id) in
      if cap >? n0 then Some (MkAlloc id cap) else None
    end) (range_map current).

(** The text of [Reallocate] is the same in both strategies up to the method
    that computes the available capacity. *)
Definition reallocate
    (available : gmap string F → gset string → gmap string F → list (alloc F))
    (fuel : nat) (failed : list (Vehicle F)) (current : gmap string F)
    (signal : FlexibilitySignal F) : option (gmap string F) :=
  let res := foldl (fun m '(id, p) => <[id := p]> m) ∅ (range_map current) in
  if Nat.eqb (length failed) 0 then Some res else
  let sign := if PowerKW signal <? n0 then nlit (-1) 1 else n1 in
  let '(failedIDs, residual, res) := drop_failed failed ∅ n0 res in
  if residual =? n0 then Some res else
  let avail := available current failedIDs res in
  '(remaining, res) ← allocatePower fuel avail res residual sign;
  Some res.

Definition BalancedReallocate (vehicles : fleet F) :=
  reallocate (BalancedAvailable vehicles).

Definition ProbabilisticReallocate (vehicles : fleet F) :=
  reallocate (ProbabilisticAvailable vehicles).
End fallback.

(** ** Facts for every arithmetic *)

Section generic.
Context {F : Type} `{NumOrder F} `{!MapRange}.
#[local] Open Scope num_scope.

(** The two strategies compute the same capacities, hence the same result. *)
Theorem Probabilistic_Balanced_equiv (vehicles : fleet F) fuel failed current signal :
  ProbabilisticReallocate vehicles fuel failed current signal =
  BalancedReallocate vehicles fuel failed current signal.
Proof.
  unfold ProbabilisticReallocate, BalancedReallocate, reallocate.
  destruct (Nat.eqb _ _); [done|].
  destruct (drop_failed _ _ _ _) as [[fids residual] res].
  destruct (residual =? n0); [done|].
  enough (ProbabilisticAvailable vehicles current fids res =
          BalancedAvailable vehicles current fids res) as -> by done.
  unfold ProbabilisticAvailable, BalancedAvailable.
  induction (range_map current) as [|[id p] l IH]; [done|]. cbn. rewrite IH.
  case_decide; [done|]. destruct (vehicles !! id); [done|]. by rewrite nltb_irrefl.
Qed.

Lemma alloc_round_frame (sign totalCap : F) avail res r next res' r' k :
  alloc_round sign totalCap avail res r = (next, res', r') →
  sublist (al_id <$> next) (al_id <$> avail) ∧
  (k ∉ al_id <$> avail → res' !! k = res !! k) ∧ dom res ⊆ dom res' ∧
  dom res' ⊆ dom res ∪ list_to_set (al_id <$> avail).
Proof.
  revert res r next res' r'. induction avail as [|a avail IH]; intros res r next res' r' Heq; cbn in Heq.
  { injection Heq as <- <- <-. split_and!; try done. set_solver. }
  destruct (alloc_round _ _ avail _ _) as [[nx res1] r1] eqn:Hrec.
  injection Heq as <- <- <-. apply IH in Hrec as (Hs & Hk & Hd1 & Hd2).
  rewrite dom_madd in *. split_and!; rewrite ?fmap_cons.
  - destruct (n0 <? _); cbn; by constructor.
  - intros [Hk1 Hk2]%not_elem_of_cons. rewrite Hk by done. unfold madd.
    by rewrite lookup_insert_ne.
  - clear -Hd1. set_solver.
  - clear -Hd2. set_solver.
Qed.

Lemma alloc_loop_frame fuel (sign : F) avail res r next res' r' k :
  alloc_loop fuel sign (avail, res, r) = Some (next, res', r') →
  (k ∉ al_id <$> avail → res' !! k = res !! k) ∧ dom res ⊆ dom res' ∧
  dom res' ⊆ dom res ∪ list_to_set (al_id <$> avail).
Proof.
  revert avail res r. induction fuel as [|fuel IH]; intros avail res r Heq; cbn [alloc_loop] in Heq;
    (destruct (alloc_running _); [|injection Heq as <- <- <-; split_and!; [done..|set_solver]]);
    [done|].
  cbn in Heq. destruct (alloc_round _ _ _ _ _) as [[nx res1] r1] eqn:Hround.
  pose proof (alloc_round_frame _ _ _ _ _ _ _ _ k Hround) as (Hs & Hk & Hd1 & Hd2).
  apply IH in Heq as (Hk' & Hd1' & Hd2').
  assert (∀ j, j ∈ al_id <$> nx → j ∈ al_id <$> avail) as Hincl by (intros j; by apply sublist_incl).
  split_and!.
  - intros Hn. rewrite Hk'; [by apply Hk|]. auto.
  - by etrans.
  - etrans; [exact Hd2'|]. intros j. rewrite !elem_of_union, !elem_of_list_to_set.
    intros [Hj|Hj]; [apply Hd2, elem_of_union in Hj; rewrite elem_of_list_to_set in Hj; tauto|auto].
Qed.

Lemma drop_failed_spec failed fids residual (res : gmap string F) fids' residual' res' :
  drop_failed failed fids residual res = (fids', residual', res') →
  fids' = list_to_set (ID <$> failed) ∪ fids ∧
  (∀ k, res' !! k = if decide (k ∈ ID <$> failed) then Some n0 else res !! k).
Proof.
  revert fids residual res. induction failed as [|v failed IH]; intros fids residual res Heq; cbn in Heq.
  { injection Heq as <- <- <-. split; [set_solver|done]. }
  apply IH in Heq as [-> Hres]. split; [cbn; clear; set_solver|].
  intros k. rewrite Hres, fmap_cons.
  destruct (decide (k ∈ ID <$> failed)) as [Hk|Hk]; [by rewrite decide_True by (by right)|].
  destruct (decide (k = ID v)) as [->|Hne].
  - by rewrite lookup_insert_eq, decide_True by left.
  - rewrite lookup_insert_ne, decide_False; [done| |done]. by apply not_elem_of_cons.
Qed.

Lemma BalancedAvailable_ids (vehicles : fleet F) current fids res k :
  k ∈ al_id <$> BalancedAvailable vehicles current fids res →
  k ∉ fids ∧ is_Some (current !! k).
Proof.
  intros (a & -> & Ha)%list_elem_of_fmap. unfold BalancedAvailable in Ha.
  apply list_elem_of_omap in Ha as ([id p] & Hin & Ha). apply elem_of_range in Hin.
  case_decide; [done|]. destruct (n0 <? _); [|done]. injection Ha as <-. cbn. eauto.
Qed.

(** When [Reallocate] returns: every failed vehicle is assigned zero, and a
    vehicle that did not fail keeps an assignment, unchanged if the vehicle is
    unknown to the fallback. *)
Theorem BalancedReallocate_failed (vehicles : fleet F) fuel failed current signal m
    (Hrun : BalancedReallocate vehicles fuel failed current signal = Some m) :
  (∀ v, v ∈ failed → m !! ID v = Some n0) ∧
  dom m = list_to_set (ID <$> failed) ∪ dom current ∧
  (∀ k, k ∉ ID <$> failed → vehicles !! k = None → m !! k = current !! k).
Proof.
  unfold BalancedReallocate, reallocate in Hrun. rewrite range_copy in Hrun.
  destruct (Nat.eqb_spec (length failed) 0) as [Hl|Hl].
  { injection Hrun as <-. apply nil_length_inv in Hl as ->. split_and!; [|set_solver|done].
    intros v Hv. by apply not_elem_of_nil in Hv. }
  destruct (drop_failed _ _ _ _) as [[fids residual] res] eqn:Hdrop.
  apply drop_failed_spec in Hdrop as [-> Hres].
  assert (∀ v, v ∈ failed → res !! ID v = Some n0) as Hzero.
  { intros v Hv. rewrite Hres, decide_True; [done|]. by apply list_elem_of_fmap_2. }
  assert (dom res = list_to_set (ID <$> failed) ∪ dom current) as Hdom.
  { apply set_eq. intros k. rewrite elem_of_dom, Hres, elem_of_union, elem_of_list_to_set, elem_of_dom.
    case_decide as Hk; split; intros Hk'; [by left|by eexists|by right|by destruct Hk']. }
  destruct (residual =? n0).
  { injection Hrun as <-. split_and!; [done..|]. intros k Hk _. by rewrite Hres, decide_False. }
  unfold allocatePower in Hrun.
  set (avail := BalancedAvailable vehicles current _ res) in *.
  assert (∀ k, k ∈ al_id <$> avail → k ∉ ID <$> failed ∧ is_Some (current !! k)) as Hav.
  { intros k [Hn Hs]%BalancedAvailable_ids. split; [|done]. clear -Hn. set_solver. }
  destruct (alloc_loop _ _ _) as [[[nx res1] r1]|] eqn:Hloop; [|done]. injection Hrun as <-.
  pose proof (λ k, alloc_loop_frame _ _ _ _ _ _ _ _ k Hloop) as Hf.
  split_and!.
  - intros v Hv. destruct (Hf (ID v)) as (Hk & _ & _). rewrite Hk; [by apply Hzero|].
    intros [Hn _]%Hav. apply Hn. by apply list_elem_of_fmap_2.
  - destruct (Hf "") as (_ & Hd1 & Hd2). apply (anti_symm (⊆)); [|by rewrite <- Hdom].
    etrans; [exact Hd2|]. rewrite Hdom. intros k. rewrite elem_of_union, (elem_of_list_to_set k (al_id <$> avail)).
    intros [Hk|[_ Hs]%Hav]; [done|]. apply elem_of_union. right. by apply elem_of_dom.
  - intros k Hk Hv. destruct (Hf k) as (Hk' & _ & _). rewrite Hk'; [by rewrite Hres, decide_False|].
    intros (a & -> & Ha)%list_elem_of_fmap. unfold avail, BalancedAvailable in Ha.
    apply list_elem_of_omap in Ha as ([id p] & Hin & Ha). case_decide; [done|].
    destruct (vehicles !! id) eqn:Hid.
    + destruct (n0 <? _); [|done]. injection Ha as <-. cbn in Hv. congruence.
    + by rewrite nltb_irrefl in Ha.
Qed.
End generic.
