(* ===== verification/FallbackDelivery.v ===== *)
(** * [allocatePower]: conservation, bounds and termination

    What the redistribution loop of the fallback strategies guarantees over
    exact arithmetic at every round, and exactly when the loop stops; then the
    same loop over binary64, where it can run for ever. *)

From S2P Require Import Prelude Num GoTime Model PowerMap Fallback.
From stdpp Require Import base gmap strings list.
From Stdlib Require Import ZArith QArith Qabs Qminmax Lqa Lia Floats.SpecFloat.

#[local] Open Scope Q_scope.

(** ** One round *)

Abbreviation caps_of l := (qsum (al_capacity <$> l)).
Abbreviation caps_pos := (Forall (fun a : alloc Q => 0 < al_capacity a)).

Lemma total_capacity_qsum (l : list (alloc Q)) : total_capacity l == caps_of l.
Proof.
  unfold total_capacity. num_Q.
  enough (∀ t, foldl (fun t a => t + al_capacity a) t l == t + caps_of l) as -> by lra.
  induction l as [|a l IH]; intros t; rewrite ?fmap_cons; cbn [foldl qsum]; [cbn; lra|].
  rewrite IH. lra.
Qed.

Lemma caps_nonneg l : caps_pos l → 0 <= caps_of l.
Proof. intros Hl. apply qsum_nonneg, Forall_fmap. eapply Forall_impl; [done|]. cbn. intros. lra. Qed.

(** What a round guarantees on the entries [l]; [B] bounds the magnitude each
    identifier may reach. *)
Record alloc_spec (sign : Q) (B : string → Q) (l : list (alloc Q)) (res : gmap string Q) (r : Q)
    (next : list (alloc Q)) (res' : gmap string Q) (r' : Q) : Prop := {
  as_rem : 0 <= r' <= r;
  as_total : sign * power_total res' + r' == sign * power_total res + r;
  as_pos : caps_pos next;
  as_caps : caps_of next == caps_of l - (r - r');
  as_ids : sublist (al_id <$> next) (al_id <$> l);
  as_cap a : a ∈ next → mag sign res' (al_id a) + al_capacity a == B (al_id a);
  as_mag a : a ∈ l → mag sign res (al_id a) <= mag sign res' (al_id a) <= B (al_id a);
  as_sat a : a ∈ l → al_id a ∉ al_id <$> next → mag sign res' (al_id a) == B (al_id a);
  as_other k : k ∉ al_id <$> l → mag sign res' k = mag sign res k
}.

(** The share of one entry: the fraction [c / T] of [r], at most [c]. *)
Definition share_of (r c T : Q) : Q :=
  if Qltb c (r * (c / T)) then c else r * (c / T).

Lemma share_of_bounds r c T :
  0 <= r → 0 < c → c <= T → 0 <= share_of r c T <= c ∧ share_of r c T <= r.
Proof.
  intros Hr Hc HT. unfold share_of.
  assert (0 <= c / T <= 1) as [H1 H2].
  { split; [apply Qle_shift_div_l; lra|apply Qle_shift_div_r; lra]. }
  q_case; nra.
Qed.

Lemma alloc_round_cons sign T a l (res : gmap string Q) r :
  alloc_round sign T (a :: l) res r =
  let sh := share_of r (al_capacity a) T in
  let '(next, res', r') :=
    alloc_round sign T l (madd res (al_id a) (sign * sh)) (r - sh) in
  (if Qltb 0 (al_capacity a - sh) then MkAlloc (al_id a) (al_capacity a - sh) :: next else next,
   res', r').
Proof. reflexivity. Qed.

Lemma alloc_round_spec sign B T l (res : gmap string Q) r next res' r' :
  sign * sign == 1 → NoDup (al_id <$> l) → caps_pos l → Forall (fun a => al_capacity a <= T) l →
  0 <= r →
  (∀ a, a ∈ l → mag sign res (al_id a) + al_capacity a == B (al_id a)) →
  alloc_round sign T l res r = (next, res', r') →
  alloc_spec sign B l res r next res' r'.
Proof.
  intros Hs. revert res r next res' r'.
  induction l as [|a l IH]; intros res r next res' r' Hnd Hpos HT Hr HB Heq.
  { cbn in Heq. injection Heq as <- <- <-. split; try done; try lra;
      by intros a ?%not_elem_of_nil. }
  rewrite alloc_round_cons in Heq. cbn zeta in Heq.
  apply Forall_cons in Hpos as [Hca Hpos]. apply Forall_cons in HT as [HTa HT].
  rewrite fmap_cons in Hnd. apply NoDup_cons in Hnd as [Ha Hnd].
  destruct (share_of_bounds r (al_capacity a) T) as [Hsh Hshr]; [done..|].
  set (sh := share_of r (al_capacity a) T) in *.
  destruct (alloc_round _ _ l _ _) as [[nx res1] r1] eqn:Hrec. injection Heq as <- <- <-.
  assert (∀ a0, a0 ∈ l → al_id a ≠ al_id a0) as Hne.
  { intros a0 Ha0 He. apply Ha. rewrite He. by apply list_elem_of_fmap_2. }
  apply IH in Hrec as [Hrem Htot Hp Hc Hids Hcap Hmag Hsat Hoth]; [|done..|lra|].
  2:{ intros a0 Ha0. rewrite mag_madd_ne by auto. apply HB. by right. }
  rewrite mag_total_madd in Htot by done.
  assert (mag sign res1 (al_id a) == mag sign res (al_id a) + sh) as Hma.
  { rewrite Hoth by done. by apply mag_madd_eq. }
  specialize (HB a ltac:(left)) as HBa.
  destruct (Qltb_spec 0 (al_capacity a - sh)) as [Hlt|Hlt]; split; rewrite ?fmap_cons; cbn [qsum al_id al_capacity];
    try lra; try done.
  - by constructor.
  - by constructor.
  - intros a0 [->|Ha0]%elem_of_cons; [cbn; lra|by apply Hcap].
  - intros a0 [->|Ha0]%elem_of_cons; [lra|]. specialize (Hmag a0 Ha0). by rewrite mag_madd_ne in Hmag by auto.
  - intros a0 [->|Ha0]%elem_of_cons [Hn1 Hn2]%not_elem_of_cons; [done|by apply Hsat].
  - intros k [Hk1 Hk2]%not_elem_of_cons. rewrite Hoth by done. by apply mag_madd_ne.
  - by constructor.
  - intros a0 [->|Ha0]%elem_of_cons; [lra|]. specialize (Hmag a0 Ha0). by rewrite mag_madd_ne in Hmag by auto.
  - intros a0 [->|Ha0]%elem_of_cons Hn; [lra|by apply Hsat].
  - intros k [Hk1 Hk2]%not_elem_of_cons. rewrite Hoth by done. by apply mag_madd_ne.
Qed.

(** A round that every entry survives leaves at most [r / (1 + C / T)], where
    [C] is the sum of the capacities. *)
Lemma alloc_round_shrinks sign T l (res : gmap string Q) r next res' r' :
  caps_pos l → Forall (fun a => al_capacity a <= T) l → 0 <= r →
  alloc_round sign T l res r = (next, res', r') → length next = length l →
  0 <= r' ∧ r' * (1 + caps_of l / T) <= r.
Proof.
  revert res r next res' r'.
  induction l as [|a l IH]; intros res r next res' r' Hpos HT Hr Heq Hlen.
  { cbn in Heq. injection Heq as <- <- <-. change (caps_of []) with 0.
    assert (0 / T == 0) as -> by (unfold Qdiv; lra). lra. }
  rewrite alloc_round_cons in Heq. cbn zeta in Heq.
  apply Forall_cons in Hpos as [Hca Hpos]. apply Forall_cons in HT as [HTa HT].
  destruct (share_of_bounds r (al_capacity a) T) as [Hsh Hshr]; [done..|].
  destruct (alloc_round _ _ l _ _) as [[nx res1] r1] eqn:Hrec. injection Heq as <- <- <-.
  assert (length nx ≤ length l)%nat as Hle.
  { apply alloc_round_frame with (k := ""%string) in Hrec as (Hsub & _).
    apply sublist_length in Hsub. by rewrite !length_fmap in Hsub. }
  destruct (Qltb_spec 0 (al_capacity a - share_of r (al_capacity a) T)) as [Hlt|Hlt];
    cbn in Hlen; [|lia].
  apply IH in Hrec as [Hr1 Hsum]; [|done..|lra|lia]. split; [done|].
  rewrite fmap_cons. cbn [qsum].
  pose proof (caps_nonneg l Hpos) as Hc0.
  assert (0 <= caps_of l / T) by (apply Qle_shift_div_l; lra).
  assert (0 <= al_capacity a / T <= 1) as Hp.
  { split; [apply Qle_shift_div_l; lra|apply Qle_shift_div_r; lra]. }
  assert ((al_capacity a + caps_of l) / T == al_capacity a / T + caps_of l / T) as ->.
  { unfold Qdiv. lra. }
  apply shrink_step; [done..|].
  enough (share_of r (al_capacity a) T == r * (al_capacity a / T)) as Heq by lra.
  unfold share_of in *. destruct (Qltb_spec (al_capacity a) (r * (al_capacity a / T))); lra.
Qed.

(** ** The loop as a step relation *)

Abbreviation alloc_st := (list (alloc Q) * gmap string Q * Q)%type.

(** One iteration of the outer loop, taken while its condition holds. *)
Definition alloc_iter (sign : Q) (s s' : alloc_st) : Prop :=
  alloc_running s = true ∧ s' = alloc_step sign s.

Record alloc_inv (sign : Q) (avail : list (alloc Q)) (res : gmap string Q) (R : Q)
    (n : nat) (s : alloc_st) : Prop := {
  ai_rem : 0 <= s.2 <= R;
  ai_rate : s.2 * pow2 (n + length s.1.1) <= R * pow2 (length avail);
  ai_total : sign * power_total s.1.2 + s.2 == sign * power_total res + R;
  ai_pos : caps_pos s.1.1;
  ai_caps : caps_of s.1.1 == caps_of avail - (R - s.2);
  ai_ids : sublist (al_id <$> s.1.1) (al_id <$> avail);
  ai_cap a : a ∈ s.1.1 → ∃ b, b ∈ avail ∧ al_id b = al_id a ∧
    mag sign s.1.2 (al_id a) + al_capacity a == mag sign res (al_id a) + al_capacity b;
  ai_mag a : a ∈ avail →
    mag sign res (al_id a) <= mag sign s.1.2 (al_id a) <= mag sign res (al_id a) + al_capacity a;
  ai_sat a : a ∈ avail → al_id a ∉ al_id <$> s.1.1 →
    mag sign s.1.2 (al_id a) == mag sign res (al_id a) + al_capacity a;
  ai_other k : k ∉ al_id <$> avail → mag sign s.1.2 k = mag sign res k
}.

Lemma alloc_inv_init sign avail res R :
  caps_pos avail → 0 <= R → alloc_inv sign avail res R 0 (avail, res, R).
Proof.
  intros Hpos HR. split; cbn [fst snd]; try done; try lra; [|..].
  - cbn [Nat.add]. lra.
  - intros a Ha. exists a. split_and!; [done..|lra].
  - intros a Ha. rewrite Forall_forall in Hpos. specialize (Hpos a Ha). cbn in Hpos. lra.
  - intros a Ha Hn. contradict Hn. by apply list_elem_of_fmap_2.
Qed.

Lemma caps_le_total l : caps_pos l → Forall (fun a => al_capacity a <= total_capacity l) l.
Proof.
  intros Hpos. apply Forall_forall. intros a Ha. rewrite total_capacity_qsum.
  apply qsum_elem_le; [|by apply list_elem_of_fmap_2].
  apply Forall_fmap. eapply Forall_impl; [done|]. cbn. intros. lra.
Qed.

(** The bound an identifier works towards in a round. *)
Definition bound_of (sign : Q) (l : list (alloc Q)) (res : gmap string Q) (k : string) : Q :=
  mag sign res k +
  match list_find (fun a => al_id a = k) l with Some (_, a) => al_capacity a | None => 0 end.

Lemma bound_of_elem sign l res a :
  NoDup (al_id <$> l) → a ∈ l → bound_of sign l res (al_id a) = mag sign res (al_id a) + al_capacity a.
Proof.
  intros Hnd Ha. unfold bound_of. f_equal.
  destruct (list_find _ l) as [[i b]|] eqn:Hfind.
  - apply list_find_Some in Hfind as (Hb & Hid & _). apply list_elem_of_lookup_2 in Hb.
    by rewrite (NoDup_fmap_in_inj al_id l b a).
  - eapply list_find_None, Forall_forall in Hfind; [|exact Ha]. done.
Qed.

Lemma alloc_running_Q l (res : gmap string Q) r :
  caps_pos l → alloc_running (l, res, r) = true ↔ 0 < r ∧ l ≠ [].
Proof.
  intros Hpos. unfold alloc_running. num_Q. rewrite !andb_true_iff, !negb_true_iff.
  destruct (Qltb_spec (0 # 1) r); [|split; [by intros [[]]|lra]].
  destruct l as [|a l]; [cbn; naive_solver|].
  destruct (Qeqb_spec (total_capacity (a :: l)) (0 # 1)) as [H0|H0]; [|cbn; naive_solver].
  exfalso. rewrite total_capacity_qsum, fmap_cons in H0. cbn [qsum] in H0.
  apply Forall_cons in Hpos as [Ha Hpos]. pose proof (caps_nonneg l Hpos). lra.
Qed.

(** A round that keeps every allocation at least halves what remains. *)
Lemma alloc_round_halves sign l (res : gmap string Q) r next res' r' :
  caps_pos l → l ≠ [] → 0 <= r → alloc_round sign (total_capacity l) l res r = (next, res', r') →
  length next = length l → r' * 2 <= r.
Proof.
  intros Hpos Hl Hr Hround Hlen.
  destruct (alloc_round_shrinks _ _ _ _ _ _ _ _ Hpos (caps_le_total l Hpos) Hr Hround Hlen)
    as [Hr2 Hle].
  enough (caps_of l / total_capacity l == 1) as He by (rewrite He in Hle; lra).
  rewrite total_capacity_qsum. apply Qmult_inv_r. destruct l as [|b l]; [done|].
  rewrite fmap_cons. cbn [qsum]. apply Forall_cons in Hpos as [Hb Hpos].
  pose proof (caps_nonneg l Hpos). lra.
Qed.

(** The allocation of an identifier still in the loop comes from [avail]. *)
Lemma alloc_inv_origin sign avail res R n s a b :
  NoDup (al_id <$> avail) → alloc_inv sign avail res R n s → a ∈ s.1.1 → b ∈ avail → al_id b = al_id a →
  mag sign s.1.2 (al_id a) + al_capacity a == mag sign res (al_id a) + al_capacity b.
Proof.
  intros Hnd Hinv Ha Hb Hid. destruct (ai_cap _ _ _ _ _ _ Hinv a Ha) as (b' & Hb' & Hid' & He).
  by rewrite (NoDup_fmap_in_inj al_id avail b b') by (done || congruence).
Qed.

Lemma alloc_inv_step sign avail res R n s s' :
  sign * sign == 1 → NoDup (al_id <$> avail) →
  alloc_inv sign avail res R n s → alloc_iter sign s s' → alloc_inv sign avail res R (S n) s'.
Proof.
  destruct s as [[l res1] r].
  intros Hs Hnd Hinv [Hrun ->]. pose proof (fun a b => alloc_inv_origin _ _ _ _ _ _ a b Hnd Hinv) as Horig.
  destruct Hinv as [Hrem Hrate Htot Hpos Hcaps Hids Hcap Hmag Hsat Hoth].
  cbn [fst snd] in *. apply alloc_running_Q in Hrun as [Hr Hl]; [|done]. unfold alloc_step.
  assert (NoDup (al_id <$> l)) as Hndl by (by eapply sublist_NoDup).
  pose proof (caps_le_total l Hpos) as HT.
  destruct (alloc_round sign (total_capacity l) l res1 r) as [[next res2] r2] eqn:Hround.
  assert (length next = length l → r2 * 2 <= r) as Hhalf
    by (intros; eapply alloc_round_halves; [done..|lra|exact Hround|done]).
  apply (alloc_round_spec _ (bound_of sign l res1)) in Hround as
    [Hrem2 Htot2 Hpos2 Hcaps2 Hids2 Hcap2 Hmag2 Hsat2 Hoth2]; [|done..|lra|].
  2:{ intros a Ha. by rewrite bound_of_elem. }
  assert (∀ a, a ∈ l → mag sign res1 (al_id a) <= mag sign res2 (al_id a) <=
            mag sign res1 (al_id a) + al_capacity a) as Hm.
  { intros a Ha. rewrite <- (bound_of_elem sign l) by done. by apply Hmag2. }
  split; cbn [fst snd]; try done; try lra.
  - eapply halve_or_leave; [| | | |exact Hhalf|exact Hrate]; [lra..|].
    apply sublist_length in Hids2. by rewrite !length_fmap in Hids2.
  - by etrans.
  - intros a Ha. pose proof (Hcap2 a Ha) as He.
    assert (∃ a1, al_id a = al_id a1 ∧ a1 ∈ l) as (a1 & Hid & Ha1).
    { apply list_elem_of_fmap. eapply sublist_incl; [exact Hids2|]. by apply list_elem_of_fmap_2. }
    rewrite Hid, bound_of_elem in He by done.
    destruct (Hcap a1 Ha1) as (b & Hb & Hid' & Heb). exists b. split_and!; [done|congruence|].
    rewrite Hid. lra.
  - intros b Hb. specialize (Hmag b Hb).
    destruct (decide (al_id b ∈ al_id <$> l)) as [(a & Hid & Ha)%list_elem_of_fmap|Hn].
    + specialize (Hm a Ha). pose proof (Horig a b Ha Hb Hid). rewrite Hid in *. lra.
    + by rewrite Hoth2.
  - intros b Hb Hn. destruct (decide (al_id b ∈ al_id <$> l)) as [(a & Hid & Ha)%list_elem_of_fmap|Hnl].
    + pose proof (Horig a b Ha Hb Hid). specialize (Hsat2 a Ha). rewrite bound_of_elem in Hsat2 by done.
      rewrite Hid in *. specialize (Hsat2 Hn). lra.
    + rewrite Hoth2 by done. by apply Hsat.
  - intros k Hk. rewrite Hoth2; [by apply Hoth|]. contradict Hk. by eapply sublist_incl.
Qed.

(** Every state the loop goes through satisfies the invariant. *)
Lemma alloc_reachable sign avail res R n s :
  sign * sign == 1 → NoDup (al_id <$> avail) → caps_pos avail → 0 <= R →
  nsteps (alloc_iter sign) n (avail, res, R) s → alloc_inv sign avail res R n s.
Proof.
  intros Hs Hnd Hpos HR. revert s. induction n as [|n IH]; intros s Hst.
  - inversion Hst; subst. by apply alloc_inv_init.
  - apply nsteps_inv_r in Hst as (s1 & Hst & Hit). eapply alloc_inv_step; [done..| |exact Hit]. by apply IH.
Qed.

(** ** When the loop stops *)

Section termination.
Context (sign : Q).

Lemma alloc_loop_None_iff fuel (s : alloc_st) :
  alloc_loop fuel sign s = None ↔ ∃ s', nsteps (alloc_iter sign) fuel s s' ∧ alloc_running s' = true.
Proof.
  revert s. induction fuel as [|fuel IH]; intros s; cbn [alloc_loop].
  - destruct (alloc_running s) eqn:Hrun; split; [|done|done|].
    + intros _. exists s. by split; [constructor|].
    + intros (s' & Hst & Hrun'). inversion Hst; subst. congruence.
  - destruct (alloc_running s) eqn:Hrun.
    + rewrite IH. split.
      * intros (s' & Hst & Hrun'). exists s'. split; [|done]. by econstructor.
      * intros (s' & Hst & Hrun'). inversion Hst as [|? ? ? ? [_ ->]]; subst. eauto.
    + split; [done|]. intros (s' & Hst & Hrun'). inversion Hst as [|? ? ? ? [Hc ->]]; subst. congruence.
Qed.

(** Below the total capacity nobody reaches capacity in a round and a
    positive remainder stays. *)
Lemma alloc_round_below T l (res : gmap string Q) r next res' r' :
  caps_pos l → Forall (fun a => al_capacity a < T) l → 0 < r → r < T →
  alloc_round sign T l res r = (next, res', r') → length next = length l ∧ 0 < r'.
Proof.
  revert res r next res' r'. induction l as [|a l IH]; intros res r next res' r' Hpos HT Hr HrT Heq.
  { cbn in Heq. by injection Heq as <- <- <-. }
  rewrite alloc_round_cons in Heq. cbn zeta in Heq.
  apply Forall_cons in Hpos as [Hca Hpos]. apply Forall_cons in HT as [HTa HT].
  assert (0 <= al_capacity a / T) as H0 by (apply Qle_shift_div_l; lra).
  assert (al_capacity a / T < 1) as H1 by (apply Qlt_shift_div_r; lra).
  assert (al_capacity a / T * T == al_capacity a) as Hdiv by (field; lra).
  assert (0 < al_capacity a / T) as H2 by (apply Qlt_shift_div_l; lra).
  assert (r * (al_capacity a / T) < al_capacity a) as Hlt by nra.
  assert (r * (al_capacity a / T) < r) as Hlt' by nra.
  assert (0 <= r * (al_capacity a / T)) by nra.
  assert (share_of r (al_capacity a) T = r * (al_capacity a / T)) as Hsh.
  { unfold share_of. destruct (Qltb_spec (al_capacity a) (r * (al_capacity a / T))); [lra|done]. }
  rewrite Hsh in Heq.
  destruct (alloc_round _ _ l _ _) as [[nx res1] r1] eqn:Hrec. injection Heq as <- <- <-.
  apply IH in Hrec as [Hlen Hr1]; [|done..|lra|lra]. q_case; [|lra]. cbn. auto.
Qed.

(** At or above it the first entry always reaches capacity. *)
Lemma alloc_round_above l (res : gmap string Q) r next res' r' :
  l ≠ [] → caps_pos l → caps_of l <= r →
  alloc_round sign (total_capacity l) l res r = (next, res', r') → (length next < length l)%nat.
Proof.
  intros Hne Hpos Hr Heq. destruct l as [|a l]; [done|].
  rewrite alloc_round_cons in Heq. cbn zeta in Heq.
  set (T := total_capacity (a :: l)) in *.
  assert (T <= r) as HT by (unfold T; by rewrite total_capacity_qsum).
  apply Forall_cons in Hpos as [Hca Hpos].
  assert (0 < T) as HT0.
  { unfold T. rewrite total_capacity_qsum, fmap_cons. cbn [qsum]. pose proof (caps_nonneg l Hpos). lra. }
  assert (al_capacity a / T * T == al_capacity a) as Hdiv by (field; lra).
  assert (0 < al_capacity a / T) as H2 by (apply Qlt_shift_div_l; lra).
  assert (al_capacity a <= share_of r (al_capacity a) T) as Hsh.
  { unfold share_of. destruct (Qltb_spec (al_capacity a) (r * (al_capacity a / T))); [lra|]. nra. }
  destruct (alloc_round _ _ l _ _) as [[nx res1] r1] eqn:Hrec. injection Heq as <- <- <-.
  apply alloc_round_frame with (k := ""%string) in Hrec as (Hsub & _).
  apply sublist_length in Hsub. rewrite !length_fmap in Hsub.
  destruct (Qltb_spec 0 (al_capacity a - share_of r (al_capacity a) T)); [lra|]. cbn. lia.
Qed.
End termination.

Section loop.
Context (sign : Q) (Hsign : sign * sign == 1).

Lemma alloc_step_spec l (res : gmap string Q) r next res' r' :
  NoDup (al_id <$> l) → caps_pos l → 0 <= r →
  alloc_step sign (l, res, r) = (next, res', r') →
  alloc_spec sign (bound_of sign l res) l res r next res' r'.
Proof.
  intros Hnd Hpos Hr Hround. eapply alloc_round_spec; [done..|by apply caps_le_total|done| |done].
  intros a Ha. by rewrite bound_of_elem.
Qed.

Lemma alloc_runs_forever fuel l (res : gmap string Q) r :
  NoDup (al_id <$> l) → caps_pos l → (2 ≤ length l)%nat → 0 < r → r < caps_of l →
  alloc_loop fuel sign (l, res, r) = None.
Proof.
  revert l res r. induction fuel as [|fuel IH]; intros l res r Hnd Hpos Hlen Hr HrT;
    cbn [alloc_loop]; rewrite (proj2 (alloc_running_Q l res r Hpos)); try done;
    try (split; [done|by destruct l; cbn in Hlen; [lia|]]).
  destruct (alloc_step sign (l, res, r)) as [[next res'] r'] eqn:Hst.
  pose proof Hst as [Hrem _ Hpos' Hcaps Hids _ _ _ _]%alloc_step_spec; [|done..|lra].
  cbn [alloc_step] in Hst. eapply alloc_round_below in Hst as [Hlen' Hr'];
    [|done| |done|by rewrite total_capacity_qsum].
  - apply IH; [by eapply sublist_NoDup|done|lia|done|lra].
  - apply Forall_forall. intros a (l1 & l2 & ->)%list_elem_of_split.
    rewrite total_capacity_qsum, fmap_app, fmap_cons, qsum_app. cbn [qsum].
    apply Forall_app in Hpos as [Hp1 [Hp0 Hp2]%Forall_cons].
    pose proof (caps_nonneg l1 Hp1). pose proof (caps_nonneg l2 Hp2).
    rewrite length_app in Hlen. cbn in Hlen.
    destruct l1 as [|b l1], l2 as [|b' l2]; cbn in Hlen; [lia|..]; rewrite ?fmap_cons; cbn [qsum].
    + apply Forall_cons in Hp2 as [? Hp2]. pose proof (caps_nonneg l2 Hp2). cbn. lra.
    + apply Forall_cons in Hp1 as [? Hp1]. pose proof (caps_nonneg l1 Hp1). cbn. lra.
    + apply Forall_cons in Hp1 as [? Hp1]. pose proof (caps_nonneg l1 Hp1). 
      rewrite fmap_cons in *. cbn [qsum] in *. lra.
Qed.

Lemma alloc_stops_above fuel l (res : gmap string Q) r :
  NoDup (al_id <$> l) → caps_pos l → caps_of l <= r → (length l ≤ fuel)%nat →
  is_Some (alloc_loop fuel sign (l, res, r)).
Proof.
  revert l res r. induction fuel as [|fuel IH]; intros l res r Hnd Hpos HrT Hlen.
  - destruct l; cbn in Hlen; [|lia]. cbn [alloc_loop].
    destruct (alloc_running _) eqn:Hrun; [|done]. by apply alloc_running_Q in Hrun as [_ ?].
  - cbn [alloc_loop]. destruct (alloc_running _) eqn:Hrun; [|done].
    apply alloc_running_Q in Hrun as [Hr Hne]; [|done].
    destruct (alloc_step sign (l, res, r)) as [[next res'] r'] eqn:Hst.
    pose proof Hst as [Hrem _ Hpos' Hcaps Hids _ _ _ _]%alloc_step_spec; [|done..|lra].
    apply alloc_round_above in Hst; [|done..].
    apply IH; [by eapply sublist_NoDup|done|lra|lia].
Qed.

Lemma alloc_stops_single a (res : gmap string Q) r :
  0 < al_capacity a → is_Some (alloc_loop 1 sign ([a], res, r)).
Proof.
  intros Ha. destruct (Qlt_le_dec r (al_capacity a)) as [Hlt|Hle].
  2:{ apply alloc_stops_above; [apply NoDup_singleton|by constructor| |done].
      rewrite fmap_cons. cbn. lra. }
  cbn [alloc_loop]. destruct (alloc_running _) eqn:Hrun; [|done].
  apply alloc_running_Q in Hrun as [Hr _]; [|by constructor].
  cbn [alloc_step]. rewrite alloc_round_cons. cbn zeta. cbn [alloc_round].
  set (T := total_capacity [a]). assert (T == al_capacity a) as HT.
  { unfold T. rewrite total_capacity_qsum, fmap_cons. cbn. lra. }
  assert (al_capacity a / T == 1) as H1 by (rewrite HT; apply Qmult_inv_r; lra).
  assert (r - share_of r (al_capacity a) T == 0) as H0.
  { unfold share_of. q_case; rewrite H1 in *; lra. }
  match goal with |- context [alloc_running ?s] => destruct (alloc_running s) eqn:Hrun end; [|done].
  apply alloc_running_Q in Hrun as [? _]; [lra|].
  q_case; [constructor; [done|constructor]|constructor].
Qed.

Lemma alloc_stops_iff l (res : gmap string Q) r :
  NoDup (al_id <$> l) → caps_pos l →
  (r <= 0 ∨ caps_of l <= r ∨ (length l ≤ 1)%nat →
     is_Some (alloc_loop (length l) sign (l, res, r))) ∧
  (¬ (r <= 0 ∨ caps_of l <= r ∨ (length l ≤ 1)%nat) →
     ∀ fuel, alloc_loop fuel sign (l, res, r) = None).
Proof.
  intros Hnd Hpos. split.
  - intros [Hr|[Hr|Hlen]]; [|by apply alloc_stops_above|].
    + destruct (length l); cbn [alloc_loop]; (destruct (alloc_running _) eqn:Hrun; [|done]);
        apply alloc_running_Q in Hrun as [? _]; (done || lra).
    + destruct l as [|a [|b l]]; cbn in Hlen; [|by apply Forall_cons in Hpos as [? _]; apply alloc_stops_single|lia].
      cbn [length alloc_loop]. destruct (alloc_running _) eqn:Hrun; [|done].
      by apply alloc_running_Q in Hrun as [_ ?].
  - intros Hn fuel. apply alloc_runs_forever; [done..|lia| |];
      apply Qnot_le_lt; intros ?; apply Hn; auto.
Qed.
End loop.

Lemma alloc_loop_reach sign fuel (s s' : alloc_st) :
  alloc_loop fuel sign s = Some s' →
  ∃ n, nsteps (alloc_iter sign) n s s' ∧ alloc_running s' = false.
Proof.
  revert s. induction fuel as [|fuel IH]; intros s; cbn [alloc_loop];
    (destruct (alloc_running s) eqn:Hrun; [|intros [= <-]; exists O; by split; [constructor|]]); [done|].
  intros (n & Hst & Hstop)%IH. exists (S n). split; [|done]. by econstructor.
Qed.

(** ** The whole reallocation *)

Lemma drop_failed_total sign failed fids residual (res : gmap string Q) fids' residual' res' :
  sign = 1 ∨ sign = -1 →
  (∀ k, 0 <= mag sign res k) →
  drop_failed failed fids residual res = (fids', residual', res') →
  sign * power_total res' + residual' == sign * power_total res + residual ∧ residual <= residual' ∧
  (∀ k, 0 <= mag sign res' k).
Proof.
  intros Hs. revert fids residual res. induction failed as [|v failed IH]; intros fids residual res Hm Heq;
    cbn [drop_failed] in Heq.
  { injection Heq as <- <- <-. split_and!; [lra|lra|done]. }
  num_Q. apply IH in Heq as (Htot & Hle & Hm').
  - pose proof (Hm (ID v)) as Hv. unfold mag in Hv.
    assert (Qabs (mget res (ID v)) == sign * mget res (ID v)) as Habs.
    { destruct Hs as [->| ->]; [rewrite Qabs_pos|rewrite Qabs_neg]; lra. }
    rewrite Habs in *. rewrite power_total_insert in Htot. split_and!; [|lra|done].
    rewrite <- (Qmult_0_r sign) in Htot. destruct Hs as [->| ->]; lra.
  - intros k. unfold mag. rewrite mget_insert. case_decide; [|apply Hm].
    destruct Hs as [->| ->]; lra.
Qed.

Lemma BalancedAvailable_spec `{!MapRange} (vehicles : fleet Q) current fids res a :
  a ∈ BalancedAvailable vehicles current fids res ↔
  al_id a ∉ fids ∧ is_Some (current !! al_id a) ∧ 0 < al_capacity a ∧
  ∃ v, vehicles !! al_id a = Some v ∧ al_capacity a = EffectiveCapacity v (mget res (al_id a)).
Proof.
  unfold BalancedAvailable. rewrite list_elem_of_omap. num_Q. split.
  - intros ([id p] & Hin%elem_of_range & Ha). case_decide; [done|].
    destruct (vehicles !! id) as [v|] eqn:Hv.
    + destruct (Qltb_spec (0 # 1) (EffectiveCapacity v (mget res id))); [|done].
      injection Ha as <-. cbn. split_and!; eauto.
    + destruct (Qltb_spec (0 # 1) (0 # 1)); [lra|done].
  - intros (Hn & [p Hp] & Hpos & v & Hv & Hc). exists (al_id a, p).
    rewrite elem_of_range. split; [done|]. rewrite decide_False, Hv by done.
    destruct a as [id c]; cbn in *. rewrite <- Hc.
    destruct (Qltb_spec (0 # 1) c); [done|lra].
Qed.

Lemma BalancedAvailable_NoDup `{!MapRange} (vehicles : fleet Q) current fids res :
  NoDup (al_id <$> BalancedAvailable vehicles current fids res).
Proof.
  enough (sublist (al_id <$> BalancedAvailable vehicles current fids res) (range_map current).*1) as Hs
    by (eapply sublist_NoDup; [apply (range_fst_NoDup current)|exact Hs]).
  unfold BalancedAvailable. induction (range_map current) as [|[id p] l IH]; [done|].
  cbn [omap list_omap fmap list_fmap fst].
  match goal with |- context [match ?x with Some _ => _ | None => _ end] =>
    destruct x as [a|] eqn:Hx end.
  - case_decide; [done|]. destruct (n0 <? _)%num; [|done]. injection Hx as <-. by constructor.
  - by constructor.
Qed.

(** What the caller of a fallback gets over exact arithmetic for a signal that
    asks for power: [final] is the value returned when the loop stops. *)
Record realloc_spec (vehicles : fleet Q) (failed : list (Vehicle Q)) (current m : gmap string Q) : Prop := {
  ra_nonneg k : 0 <= mget m k;
  ra_total : power_total m <= power_total current;
  ra_kept k : k ∉ ID <$> failed → mget current k <= mget m k;
  ra_max k v : vehicles !! k = Some v → vehicle_wf v →
    mget current k <= MaxPower v → mget m k <= MaxPower v;
  ra_full : power_total m == power_total current ∨
    ∀ k v, k ∉ ID <$> failed → is_Some (current !! k) → vehicles !! k = Some v → vehicle_wf v →
      mget m k == mget current k + EffectiveCapacity v (mget current k)
}.

Lemma mag_1 (m : gmap string Q) k : mag 1 m k == mget m k.
Proof. unfold mag. lra. Qed.

(** The invariant at the end of the loop gives the specification. *)
Lemma realloc_spec_final `{!MapRange} (vehicles : fleet Q) failed current res residual n nx m r :
  (∀ k, 0 <= mget current k) →
  (∀ k, res !! k = if decide (k ∈ ID <$> failed) then Some 0 else current !! k) →
  power_total res + residual == power_total current →
  (let avail := BalancedAvailable vehicles current (list_to_set (ID <$> failed)) res in
   alloc_inv 1 avail res residual n (nx, m, r)) →
  alloc_running (nx, m, r) = false →
  realloc_spec vehicles failed current m.
Proof.
  intros Hcur Hres Htot. set (avail := BalancedAvailable _ _ _ _). cbn zeta.
  intros [Hrem _ Htot' Hpos Hcaps Hids Hcap Hmag Hsat Hoth] Hstop. cbn [fst snd] in *.
  assert (∀ k, k ∉ ID <$> failed → mget res k = mget current k) as Hsame.
  { intros k Hk. unfold mget. by rewrite Hres, decide_False. }
  assert (∀ k, mget res k <= mget m k) as Hgrow.
  { intros k. rewrite <- !mag_1.
    destruct (decide (k ∈ al_id <$> avail)) as [(a & -> & Ha)%list_elem_of_fmap|Hn].
    - by apply Hmag.
    - rewrite Hoth by done. lra. }
  assert (∀ k, 0 <= mget res k) as Hres0.
  { intros k. unfold mget at 1. rewrite Hres. case_decide; [cbn; lra|apply Hcur]. }
  split.
  - intros k. pose proof (Hgrow k). pose proof (Hres0 k). lra.
  - lra.
  - intros k Hk. rewrite <- Hsame by done. apply Hgrow.
  - intros k v Hv Hwf Hmax.
    destruct (decide (k ∈ al_id <$> avail)) as [(a & -> & Ha)%list_elem_of_fmap|Hn].
    + apply BalancedAvailable_spec in Ha as Hs. destruct Hs as (Hnf & _ & Hp & v' & Hv' & Hc).
      assert (v' = v) as -> by congruence.
      destruct (EffectiveCapacity_bounds v (mget res (al_id a)) Hwf) as [_ [H0|Hb]]; rewrite <- Hc in *; [lra|].
      specialize (Hmag a Ha). rewrite !mag_1 in Hmag. lra.
    + assert (mget m k == mget res k) as -> by (rewrite <- !mag_1; by rewrite Hoth).
      unfold mget at 1. rewrite Hres. case_decide; [|done]. destruct Hwf as (_ & ? & _). by cbn.
  - destruct (Qlt_le_dec 0 r) as [Hr|Hr]; [right|left; lra].
    destruct nx as [|a0 nx]; [|by rewrite (proj2 (alloc_running_Q (a0 :: nx) m r Hpos)) in Hstop].
    intros k v Hk Hs Hv Hwf. rewrite <- (Hsame k Hk).
    destruct (EffectiveCapacity_bounds v (mget res k) Hwf) as [Hc0 _].
    destruct (Qlt_le_dec 0 (EffectiveCapacity v (mget res k))) as [Hc|Hc].
    + assert (MkAlloc k (EffectiveCapacity v (mget res k)) ∈ avail) as Ha.
      { apply BalancedAvailable_spec. cbn. split_and!; [set_solver|done|done|]. by exists v. }
      specialize (Hsat _ Ha). cbn in Hsat. rewrite !mag_1 in Hsat. apply Hsat, not_elem_of_nil.
    + assert (mget m k == mget res k) as ->; [|lra].
      rewrite <- !mag_1, Hoth; [done|]. intros (a & -> & Ha)%list_elem_of_fmap.
      apply BalancedAvailable_spec in Ha as (_ & _ & Hp & v' & Hv' & Hc').
      assert (v' = v) as -> by congruence. rewrite <- Hc' in *. lra.
Qed.

(** Nothing to redistribute: the failed vehicles had no power. *)
Lemma realloc_spec_drop (vehicles : fleet Q) failed (current res : gmap string Q) :
  (∀ k, 0 <= mget current k) →
  (∀ k, res !! k = if decide (k ∈ ID <$> failed) then Some 0 else current !! k) →
  power_total res == power_total current →
  realloc_spec vehicles failed current res.
Proof.
  intros Hcur Hres Htot.
  assert (∀ k, mget res k = if decide (k ∈ ID <$> failed) then 0 else mget current k) as Hget.
  { intros k. unfold mget. rewrite Hres. by case_decide. }
  split; [| lra | | |by left]; intros k *; rewrite Hget; case_decide as Hk; try done; try lra.
  by intros _ (_ & ? & _).
Qed.

(** ** The properties over exact arithmetic *)

(** Every round of the loop conserves power: what the vehicles gain is what
    leaves [remaining], which stays between 0 and the residual and is at most
    [residual * 2^(vehicles - rounds)]; each vehicle gains between 0 and its
    capacity, and nobody else changes. *)
Theorem allocatePower_rounds sign avail (res : gmap string Q) residual n avail' res' remaining
    (Hsign : sign * sign == 1) (Hids : NoDup (al_id <$> avail))
    (Hcaps : caps_pos avail) (Hresidual : 0 <= residual)
    (Hrounds : nsteps (alloc_iter sign) n (avail, res, residual) (avail', res', remaining)) :
  sign * power_total res' + remaining == sign * power_total res + residual ∧
  0 <= remaining <= residual ∧
  remaining * pow2 n <= residual * pow2 (length avail) ∧
  (∀ a, a ∈ avail → 0 <= sign * mget res' (al_id a) - sign * mget res (al_id a) <= al_capacity a) ∧
  (∀ k, k ∉ al_id <$> avail → sign * mget res' k = sign * mget res k).
Proof.
  apply alloc_reachable in Hrounds as [Hrem Hrate Htot _ _ _ _ Hmag _ Hoth]; [|done..].
  cbn [fst snd] in *. split_and!; try lra; try done.
  - rewrite pow2_add in Hrate. pose proof (pow2_mono 0 (length avail') ltac:(lia)) as H1.
    cbn [pow2] in H1. pose proof (pow2_pos n). 
    assert (0 <= remaining * pow2 n) by (apply Qmult_le_0_compat; lra). nra.
  - intros a Ha. specialize (Hmag a Ha). unfold mag in Hmag. lra.
Qed.


