(* ===== verification/FallbackFloat.v ===== *)
(** * The redistribution loop over binary64

    [allocatePower] on the numbers the compiled program uses.  The loop only
    looks at the capacities and the remainder, so a state whose capacities and
    remainder a round leaves unchanged is a state the loop never leaves: the
    remainder becomes the smallest positive number and stays there. *)

From S2P Require Import Prelude Num GoTime Model PowerMap Fallback.
From stdpp Require Import base gmap strings list.
From Stdlib Require Import ZArith Lia Floats.SpecFloat.

#[local] Open Scope Z_scope.

Section core.
Context {F : Type} `{Num F}.
#[local] Open Scope num_scope.

(** The capacities and the remainder after a round. *)
Fixpoint cap_round (totalCap : F) (caps : list F) (remaining : F) : list F * F :=
  match caps with
  | [] => ([], remaining)
  | c :: rest =>
    let share := remaining * (c / totalCap) in
    let share := if share >? c then c else share in
    let '(next, remaining) := cap_round totalCap rest (remaining - share) in
    (if c - share >? n0 then (c - share) :: next else next, remaining)
  end.

Definition cap_total (caps : list F) : F := foldl nadd n0 caps.

Definition cap_step (s : list F * F) : list F * F := cap_round (cap_total s.1) s.1 s.2.

Definition cap_running (s : list F * F) : bool :=
  (s.2 >? n0) && negb (Nat.eqb (length s.1) 0) && negb (cap_total s.1 =? n0).

(** [n] rounds, each of which finds the loop condition true. *)
Fixpoint cap_run (n : nat) (s : list F * F) : option (list F * F) :=
  if cap_running s then
    match n with O => Some s | S n => cap_run n (cap_step s) end
  else None.

(** The part of the loop's state its control flow depends on. *)
Definition core_of (s : list (alloc F) * gmap string F * F) : list F * F :=
  (al_capacity <$> s.1.1, s.2).

Lemma core_round sign T avail (res : gmap string F) r :
  core_of (alloc_round sign T avail res r) = cap_round T (al_capacity <$> avail) r.
Proof.
  revert res r. induction avail as [|a avail IH]; intros res r; [done|].
  rewrite fmap_cons. cbn [alloc_round cap_round].
  match goal with |- context [alloc_round sign T avail ?x ?y] => specialize (IH x y);
    destruct (alloc_round sign T avail x y) as [[nx res1] r1] end.
  unfold core_of in IH |- *. cbn [fst snd] in *. rewrite <- IH.
  f_equal. match goal with |- context [if ?c then _ else _] => by destruct c end.
Qed.

Lemma cap_total_core (avail : list (alloc F)) :
  total_capacity avail = cap_total (al_capacity <$> avail).
Proof.
  unfold total_capacity, cap_total. generalize (n0 : F).
  induction avail as [|a avail IH]; intros t; [done|]. rewrite fmap_cons. cbn. apply IH.
Qed.

Lemma core_step sign s : core_of (alloc_step sign s) = cap_step (core_of s).
Proof. destruct s as [[avail res] r]. cbn [alloc_step]. by rewrite core_round, cap_total_core. Qed.

Lemma core_running s : alloc_running s = cap_running (core_of s).
Proof.
  destruct s as [[avail res] r]. unfold alloc_running, cap_running, core_of. cbn [fst snd].
  by rewrite cap_total_core, length_fmap.
Qed.

(** A state in the fixpoint [t] of the rounds is never left. *)
Lemma core_stuck sign t fuel s :
  cap_step t = t → cap_running t = true → core_of s = t → alloc_loop fuel sign s = None.
Proof.
  intros Hfix Hrun. revert s. induction fuel as [|fuel IH]; intros s Ht; cbn [alloc_loop];
    rewrite core_running, Ht, Hrun; [done|].
  apply IH. by rewrite core_step, Ht.
Qed.

(** Nor is a state from which the fixpoint is reached. *)
Lemma core_diverges n sign t fuel s :
  cap_run n (core_of s) = Some t → cap_step t = t → alloc_loop fuel sign s = None.
Proof.
  revert fuel s. induction n as [|n IH]; intros fuel s Hrun Hfix; cbn [cap_run] in Hrun.
  - destruct (cap_running (core_of s)) eqn:Hr; [|done]. injection Hrun as <-.
    by eapply core_stuck.
  - destruct (cap_running (core_of s)) eqn:Hr; [|done].
    destruct fuel as [|fuel]; cbn [alloc_loop]; rewrite core_running, Hr; [done|].
    apply IH; [|done]. by rewrite core_step.
Qed.
End core.

(** ** Four cars, one of which does not answer *)

(** A fleet of four identical vehicles that share a request of 16 kW. *)
Definition kw (n : Z) : spec_float := nofZ n.

Definition car (id : string) : Vehicle spec_float :=
  MkVehicle id n1 true (kw 14) (kw 50) true false false time_zero n0
    (MkUserProfile time_zero []) ∅ "" n1 n0.

Definition cars : list (Vehicle spec_float) := car <$> ["v1"; "v2"; "v3"; "v4"].

Definition shares : gmap string spec_float :=
  list_to_map ((fun v => (ID v, kw 4)) <$> cars).

Definition request : FlexibilitySignal spec_float := MkSignal SignalFCR (kw 16) Minute time_zero.


(** Where the rounds end up: the remainder is the smallest positive number, and
    every share of it rounds to zero. *)
Definition stuck : list spec_float * spec_float :=
  ([S754_finite false 4578007929330880 (-49);
    S754_finite false 4912177310530452 (-49);
    S754_finite false 5146513549092776 (-49)], S754_finite false 1 (-1074)).

Lemma stuck_reached : cap_run 700 ([kw 10; kw 10; kw 10], kw 4) = Some stuck.
Proof. vm_compute. reflexivity. Qed.

Lemma stuck_step : cap_step stuck = stuck.
Proof. vm_compute. reflexivity. Qed.

(** The capacities of the survivors are the same in every iteration order. *)
Lemma survivors_caps `{!MapRange} (res : gmap string spec_float) :
  res = <["v4" := n0]> shares →
  al_capacity <$> BalancedAvailable (SetVehicles cars) shares {["v4"]} res = [kw 10; kw 10; kw 10].
Proof.
  intros ->. unfold BalancedAvailable.
  change [kw 10; kw 10; kw 10] with (replicate 3 (kw 10)). symmetry. apply replicate_Permutation.
  rewrite range_map_perm. vm_compute. reflexivity.
Qed.

(** C13. A fallback that never returns.  Four identical cars of 14 kW serve a 16 kW
    request with 4 kW each and one of them fails: whatever the order in which
    Go iterates over the map, the loop of [allocatePower] never stops, because
    the remainder sticks at the smallest positive number, whose shares all
    round to zero. *)
Theorem BalancedReallocate_diverges `{!MapRange} fuel :
  BalancedReallocate (SetVehicles cars) fuel [car "v4"] shares request = None.
Proof.
  unfold BalancedReallocate, reallocate. rewrite range_copy. cbn [length Nat.eqb].
  change (drop_failed [car "v4"] ∅ n0 shares) with
    ({["v4"]} ∪ (∅ : gset string), (n0 + nabs (mget shares "v4"))%num, <["v4" := n0]> shares).
  assert (n0 + nabs (mget shares "v4") = kw 4)%num as -> by (vm_compute; reflexivity).
  cbn [neqb Num_B64]. replace (SFeqb (kw 4) n0) with false by (vm_compute; reflexivity).
  rewrite (right_id_L ∅ (∪)). unfold allocatePower.
  rewrite (core_diverges 700 _ stuck); [done| |apply stuck_step].
  unfold core_of. cbn [fst snd]. rewrite survivors_caps by done. apply stuck_reached.
Qed.

(** ** A negative request *)

Definition charger (id : string) : Vehicle spec_float :=
  MkVehicle id n1 true (kw 10) (kw 50) true true false time_zero n0
    (MkUserProfile time_zero []) ∅ "" n1 n0.

(** [EffectiveCapacity] subtracts the signed assignment, so for a negative
    request the capacity grows with the load: two vehicles of 10 kW both serve
    -10 kW; when the first fails the second is sent -20 kW, twice its
    [MaxPower]. *)
Theorem BalancedReallocate_overcommits :
  BalancedReallocate (SetVehicles [charger "v1"; charger "v2"]) 1 [charger "v1"]
    {["v1" := kw (-10); "v2" := kw (-10)]}
    (MkSignal SignalNEBEF (kw (-20)) Hour time_zero) =
  Some {["v1" := n0; "v2" := kw (-20)]}.
Proof. vm_compute. reflexivity. Qed.
