(* ===== verification/VehicleStatus.v ===== *)
(** * The vehicle status store

    Models [core/vehiclestatus/store.go] and the query of
    [api/vehicles/handler.go]: what is known of every vehicle, by identifier. *)

From S2P Require Import Prelude Num GoTime Model PowerMap.
From stdpp Require Import base gmap strings list sorting.
From Stdlib Require Import ZArith.

Record TimeWindow := MkWindow { tw_Start : Time; tw_End : Time }.

Record LastDispatch (F : Type) := MkLastDispatch {
  ld_SignalType : string;
  ld_TargetPower : F;
  ld_VehiclesSelected : list string;
  ld_Timestamp : Time
}.
Arguments MkLastDispatch {F}.
Arguments ld_SignalType {F}.
Arguments ld_TargetPower {F}.
Arguments ld_VehiclesSelected {F}.
Arguments ld_Timestamp {F}.

Record Status (F : Type) := MkStatus {
  st_VehicleID : string;
  st_FleetID : string;
  st_Site : string;
  st_Cluster : string;
  st_CurrentStatus : string;
  st_ForecastedPluginWindow : TimeWindow;
  st_ForecastedSoC : gmap string F;
  st_NextDispatchWindow : TimeWindow;
  st_LastDispatchDecision : LastDispatch F
}.
Arguments MkStatus {F}.
Arguments st_VehicleID {F}.
Arguments st_FleetID {F}.
Arguments st_Site {F}.
Arguments st_Cluster {F}.
Arguments st_CurrentStatus {F}.
Arguments st_ForecastedPluginWindow {F}.
Arguments st_ForecastedSoC {F}.
Arguments st_NextDispatchWindow {F}.
Arguments st_LastDispatchDecision {F}.

Record StatusFilter := MkStatusFilter { sf_FleetID : string; sf_Site : string; sf_Cluster : string }.

(** [MemoryStore.data]; the lock makes every operation atomic. *)
Abbreviation MemoryStore F := (gmap string (Status F)).

Section store.
Context {F : Type} `{Num F} `{!MapRange}.

Definition NewMemoryStore : MemoryStore F := ∅.

Definition status_zero : Status F :=
  let w := MkWindow time_zero time_zero in
  MkStatus "" "" "" "" "" w ∅ w (MkLastDispatch "" n0 [] time_zero).

Definition StatusSet (s : MemoryStore F) (st : Status F) : MemoryStore F :=
  <[st_VehicleID st := st]> s.

Definition RecordDispatch (s : MemoryStore F) (id : string) (dec : LastDispatch F) :
    MemoryStore F :=
  let st := default status_zero (s !! id) in
  let vid := if bool_decide (st_VehicleID st = "") then id else st_VehicleID st in
  <[id := MkStatus vid (st_FleetID st) (st_Site st) (st_Cluster st) "dispatched"
            (st_ForecastedPluginWindow st) (st_ForecastedSoC st)
            (st_NextDispatchWindow st) dec]> s.

(** The three [continue] guards: a field that is set must match. *)
Definition status_match (f : StatusFilter) (st : Status F) : bool :=
  (bool_decide (sf_FleetID f = "") || bool_decide (st_FleetID st = sf_FleetID f)) &&
  (bool_decide (sf_Site f = "") || bool_decide (st_Site st = sf_Site f)) &&
  (bool_decide (sf_Cluster f = "") || bool_decide (st_Cluster st = sf_Cluster f)).

Definition StatusList (s : MemoryStore F) (f : StatusFilter) : list (Status F) :=
  sort_by st_VehicleID (List.filter (status_match f) (range_map s).*2).

(** Every entry is stored under its own identifier. *)
Definition store_wf (s : MemoryStore F) : Prop :=
  ∀ k st, s !! k = Some st → st_VehicleID st = k.

Lemma store_wf_new : store_wf NewMemoryStore.
Proof. by intros k st. Qed.

Lemma store_wf_set s st : store_wf s → store_wf (StatusSet s st).
Proof.
  intros Hs k st'. unfold StatusSet. rewrite lookup_insert. case_decide; [by intros [= <-]|apply Hs].
Qed.

Lemma store_wf_record s id dec : store_wf s → store_wf (RecordDispatch s id dec).
Proof.
  intros Hs k st'. unfold RecordDispatch. rewrite lookup_insert. case_decide; [|apply Hs].
  subst k. intros [= <-]. cbn. case_bool_decide as Hid; [done|].
  destruct (s !! id) as [st|] eqn:Hst; [by apply Hs|done].
Qed.

Lemma elem_of_StatusList s f st :
  st ∈ StatusList s f ↔ (∃ k, s !! k = Some st) ∧ status_match f st = true.
Proof.
  unfold StatusList. rewrite sort_key_perm, elem_of_List_filter, list_elem_of_fmap. split.
  - intros [([k st'] & -> & Hin%elem_of_range) Hm]. eauto.
  - intros [[k Hk] Hm]. split; [|done]. exists (k, st). by rewrite elem_of_range.
Qed.
End store.

(** ** Reachable stores *)

Section reachable.
Context {F : Type} `{Num F}.

Inductive store_step : MemoryStore F → MemoryStore F → Prop :=
| step_Set s st : store_step s (StatusSet s st)
| step_RecordDispatch s id dec : store_step s (RecordDispatch s id dec).

Lemma store_wf_reachable s : rtc store_step NewMemoryStore s → store_wf s.
Proof.
  revert s. apply rtc_ind_r; [apply store_wf_new|].
  intros s1 s2 _ Hst IH. destruct Hst; auto using store_wf_set, store_wf_record.
Qed.

Lemma status_keys_NoDup `{!MapRange} (s : MemoryStore F) (g : Status F → bool) :
  store_wf s → NoDup (st_VehicleID <$> List.filter g (range_map s).*2).
Proof.
  intros Hs. eapply NoDup_fmap_sublist; [apply List_filter_sublist|].
  assert (st_VehicleID <$> (range_map s).*2 = (range_map s).*1) as ->;
    [|auto with v2g].
  rewrite <- list_fmap_compose. apply list_fmap_ext.
  intros i [k st] Hi%list_elem_of_lookup_2. apply elem_of_range in Hi. by apply Hs.
Qed.

(** Whatever was stored, [List] returns every status that matches the filter
    exactly once, sorted by vehicle, and the same list for every order in
    which Go iterates over the map. *)
Theorem StatusList_spec (R1 R2 : MapRange) (s : MemoryStore F) (f : StatusFilter)
    (Hreach : rtc store_step NewMemoryStore s) :
  NoDup (st_VehicleID <$> StatusList (H0 := R1) s f) ∧
  StronglySorted (fun x y => String.le (st_VehicleID x) (st_VehicleID y))
    (StatusList (H0 := R1) s f) ∧
  (∀ st, st ∈ StatusList (H0 := R1) s f ↔
     s !! st_VehicleID st = Some st ∧ status_match f st = true) ∧
  StatusList (H0 := R1) s f = StatusList (H0 := R2) s f.
Proof.
  apply store_wf_reachable in Hreach as Hs. split_and!.
  - unfold StatusList. rewrite sort_key_perm. by apply status_keys_NoDup.
  - apply (sort_key_sorted String.le).
  - intros st. rewrite elem_of_StatusList. split.
    + intros [[k Hk] Hm]. by rewrite (Hs k st Hk).
    + intros [Hk Hm]. eauto.
  - apply (sort_key_unique String.le); [by apply status_keys_NoDup|].
    apply List_filter_perm. by rewrite !range_map_perm.
Qed.
End reachable.
