(* ===== verification/DispatchLog.v ===== *)
(** * The dispatch log

    Models [core/dispatch/logging]: the records, the JSON-lines stores and the
    SQLite store.  A file is a list of lines, each with its length in bytes and
    the record it decodes to ([None] for a line [json.Unmarshal] rejects); the
    table is the list of inserted rows.  [LogFiles] has the stores around them,
    with their files and failures. *)

From S2P Require Import Prelude Num GoTime Model PowerMap.
From stdpp Require Import base gmap strings list sorting.
From Stdlib Require Import ZArith Lia.

#[local] Open Scope Z_scope.

Record Result (F : Type) := MkLogResult {
  lr_Assignments : gmap string F;
  lr_FallbackAssignments : option (gmap string F);   (* None: a nil map *)
  lr_Errors : gmap string string;
  lr_Acknowledged : gmap string bool;
  lr_Signal : FlexibilitySignal F;
  lr_MarketPrice : F;
  lr_Scores : gmap string F
}.
Arguments MkLogResult {F}.
Arguments lr_Assignments {F}.
Arguments lr_FallbackAssignments {F}.
Arguments lr_Errors {F}.
Arguments lr_Acknowledged {F}.
Arguments lr_Signal {F}.
Arguments lr_MarketPrice {F}.
Arguments lr_Scores {F}.

Record LogRecord (F : Type) := MkLogRecord {
  log_Timestamp : Time;
  log_Signal : FlexibilitySignal F;
  log_TargetPower : F;
  log_VehiclesSelected : list string;
  log_Response : Result F
}.
Arguments MkLogRecord {F}.
Arguments log_Timestamp {F}.
Arguments log_Signal {F}.
Arguments log_TargetPower {F}.
Arguments log_VehiclesSelected {F}.
Arguments log_Response {F}.

Record LogQuery := MkQuery {
  q_Start : Time;
  q_End : Time;
  q_VehicleID : string;
  q_SignalType : SignalType
}.

(** A line of a JSON-lines file. *)
Record log_line (F : Type) := MkLine { ln_bytes : Z; ln_record : option (LogRecord F) }.
Arguments MkLine {F}.
Arguments ln_bytes {F}.
Arguments ln_record {F}.

Section stores.
Context {F : Type}.
Implicit Types (r : LogRecord F) (q : LogQuery).

Definition recordMatchesVehicle r (id : string) : bool :=
  if bool_decide (id = "") then true
  else if existsb (fun vid => bool_decide (vid = id)) (log_VehiclesSelected r) then true
  else if bool_decide (is_Some (lr_Assignments (log_Response r) !! id)) then true
  else bool_decide (is_Some (default ∅ (lr_FallbackAssignments (log_Response r)) !! id)).

(** The guards of the [continue]s of both JSON-lines stores. *)
Definition line_matches q r : bool :=
  negb (negb (IsZero (q_Start q)) && Before (log_Timestamp r) (q_Start q)) &&
  negb (negb (IsZero (q_End q)) && After (log_Timestamp r) (q_End q)) &&
  negb (negb (q_SignalType q =? 0) && negb (sig_Type (log_Signal r) =? q_SignalType q)) &&
  recordMatchesVehicle r (q_VehicleID q).

(** [bufio.MaxScanTokenSize]: a line that does not fit ends the scan. *)
Definition max_token : Z := 65536.

(** The scanner loop: the matching records of the lines it reads, and whether
    it stopped with [bufio.ErrTooLong]. *)
Fixpoint scan_lines q (lines : list (log_line F)) : list (LogRecord F) * bool :=
  match lines with
  | [] => ([], false)
  | l :: lines =>
    if max_token <=? ln_bytes l then ([], true) else
    let '(res, long) := scan_lines q lines in
    match ln_record l with
    | None => (res, long)
    | Some r => (if line_matches q r then r :: res else res, long)
    end
  end.

(** [Append]: [bytes] is the length of the encoding, [None] an encoding error
    (a NaN or an infinity), after which nothing is written. *)
Definition JSONLAppend (file : list (log_line F)) (bytes : option Z) r : option (list (log_line F)) :=
  n ← bytes; Some (file ++ [MkLine n (Some r)]).

(** [None] is the scanner's error. *)
Definition JSONLQuery (file : list (log_line F)) q : option (list (LogRecord F)) :=
  let '(res, long) := scan_lines q file in
  if long then None else Some res.

(** The files [Glob] finds, in its order; an error of the scanner ends the file
    but not the query. *)
Definition RotatingQuery (files : list (list (log_line F))) q : list (LogRecord F) :=
  mbind (fun file => (scan_lines q file).1) files.

(** ** SQLite *)

Record row := MkRow { row_ts : Z; row_signal_type : string; row_record : LogRecord F }.

Definition SQLiteAppend (table : list row) r : list row :=
  table ++ [MkRow (Unix (log_Timestamp r)) (SignalType_String (sig_Type (log_Signal r))) r].

(** The [WHERE] clause. *)
Definition row_selected q (x : row) : bool :=
  (IsZero (q_Start q) || (Unix (q_Start q) <=? row_ts x)) &&
  (IsZero (q_End q) || (row_ts x <=? Unix (q_End q))) &&
  ((q_SignalType q =? 0) || bool_decide (row_signal_type x = SignalType_String (q_SignalType q))).

Definition row_le (x y : row) : Prop := row_ts x <= row_ts y.

#[export] Instance row_le_dec : RelDecision row_le.
Proof. intros x y. unfold row_le. apply _. Defined.

(** [ORDER BY ts] and the loop over the rows. *)
Definition SQLiteQuery (table : list row) q : list (LogRecord F) :=
  List.filter (fun r => recordMatchesVehicle r (q_VehicleID q))
    (row_record <$> merge_sort row_le
       (List.filter (row_selected q) table)).
End stores.

Arguments row : clear implicits.

Section facts.
Context {F : Type}.
Implicit Types (r : LogRecord F) (q : LogQuery).

Lemma recordMatchesVehicle_spec r id :
  recordMatchesVehicle r id = true ↔
  id = "" ∨ id ∈ log_VehiclesSelected r ∨ is_Some (lr_Assignments (log_Response r) !! id) ∨
  ∃ m, lr_FallbackAssignments (log_Response r) = Some m ∧ is_Some (m !! id).
Proof.
  unfold recordMatchesVehicle. case_bool_decide as He; [tauto|].
  destruct (existsb _ _) eqn:Hv.
  { apply existsb_exists in Hv as (vid & Hin & Hb%bool_decide_eq_true). subst.
    apply list_elem_of_In in Hin. tauto. }
  assert (id ∉ log_VehiclesSelected r) as Hn.
  { intros Hin. apply not_true_iff_false in Hv. apply Hv, existsb_exists. exists id.
    rewrite <- list_elem_of_In. by rewrite bool_decide_eq_true. }
  case_bool_decide as Ha; [tauto|].
  rewrite bool_decide_eq_true. split.
  - intros Hs. right; right; right. destruct (lr_FallbackAssignments _) as [m|]; [eauto|].
    by destruct Hs.
  - intros [?|[?|[?|(m & -> & Hs)]]]; done.
Qed.

Lemma scan_lines_short q (file : list (log_line F)) :
  Forall (fun l => ln_bytes l < max_token) file →
  scan_lines q file = (List.filter (line_matches q) (omap ln_record file), false).
Proof.
  induction 1 as [|l file Hl _ IH]; [done|]. cbn [scan_lines omap list_omap].
  destruct (Z.leb_spec max_token (ln_bytes l)); [lia|]. rewrite IH.
  destruct (ln_record l) as [r|]; [|done]. cbn. by destruct (line_matches q r).
Qed.

Lemma scan_lines_long q (file : list (log_line F)) :
  (scan_lines q file).2 = true ↔ Exists (fun l => max_token <= ln_bytes l) file.
Proof.
  induction file as [|l file IH]; cbn [scan_lines]; [by rewrite Exists_nil|].
  rewrite Exists_cons, <- IH.
  destruct (Z.leb_spec max_token (ln_bytes l)); cbn; [tauto|].
  destruct (scan_lines q file) as [res long].
  destruct (ln_record l); cbn; (split; [tauto|intros [?|?]; [lia|done]]).
Qed.

(** The records appended by a run of [Append]s, with the lengths of their
    lines, starting from an empty file. *)
Definition file_of (recs : list (Z * LogRecord F)) : option (list (log_line F)) :=
  foldl (fun file '(n, r) => f ← file; JSONLAppend f (Some n) r) (Some []) recs.

Lemma file_of_spec recs : file_of recs = Some ((fun '(n, r) => MkLine n (Some r)) <$> recs).
Proof.
  unfold file_of. enough (∀ f, foldl (fun file '(n, r) => f ← file; JSONLAppend f (Some n) r) (Some f) recs
    = Some (f ++ ((fun '(n, r) => MkLine n (Some r)) <$> recs))) as -> by done.
  induction recs as [|[n r] recs IH]; intros f; cbn [foldl]; [by rewrite app_nil_r|].
  cbn [mbind option_bind JSONLAppend]. rewrite IH, <- app_assoc. done.
Qed.

Lemma JSONLQuery_short recs file q :
  file_of recs = Some file → Forall (fun x => x.1 < max_token) recs →
  JSONLQuery file q = Some (List.filter (line_matches q) recs.*2).
Proof.
  rewrite file_of_spec. intros [= <-] Hshort. unfold JSONLQuery. rewrite scan_lines_short.
  - f_equal. f_equal. clear. induction recs as [|[n r] recs IH]; [done|]. cbn. by rewrite IH.
  - apply Forall_fmap. eapply Forall_impl; [exact Hshort|]. by intros [n r].
Qed.

(** Records that were appended come back: as long as every line fits the
    scanner's buffer of 64 KiB, [Query] returns exactly the appended records
    that match, in the order of the appends; one line that does not fit makes
    every query fail. *)
Theorem JSONL_roundtrip (recs : list (Z * LogRecord F)) q :
  ∃ file, file_of recs = Some file ∧
    (Forall (fun x => x.1 < max_token) recs →
       JSONLQuery file q = Some (List.filter (line_matches q) recs.*2)) ∧
    (Exists (fun x => max_token <= x.1) recs → JSONLQuery file q = None).
Proof.
  rewrite file_of_spec. eexists. split; [done|]. split.
  - apply JSONLQuery_short. apply file_of_spec.
  - intros Hlong. unfold JSONLQuery. destruct (scan_lines _ _) as [res long] eqn:Hs.
    enough (long = true) as -> by done.
    change long with (res, long).2. rewrite <- Hs. apply scan_lines_long.
    apply Exists_fmap. eapply Exists_impl; [exact Hlong|]. by intros [n r].
Qed.

(** ** The two kinds of store compared *)

Definition row_of r : row F :=
  MkRow (Unix (log_Timestamp r)) (SignalType_String (sig_Type (log_Signal r))) r.

Lemma table_of (recs : list (LogRecord F)) : foldl SQLiteAppend [] recs = row_of <$> recs.
Proof.
  enough (∀ t, foldl SQLiteAppend t recs = t ++ (row_of <$> recs)) as -> by done.
  induction recs as [|r recs IH]; intros t; cbn [foldl]; [by rewrite app_nil_r|].
  rewrite IH. unfold SQLiteAppend. by rewrite <- app_assoc.
Qed.

Lemma elem_of_SQLiteQuery recs q r :
  r ∈ SQLiteQuery (foldl SQLiteAppend [] recs) q ↔
  r ∈ recs ∧ row_selected q (row_of r) = true ∧ recordMatchesVehicle r (q_VehicleID q) = true.
Proof.
  unfold SQLiteQuery. rewrite elem_of_List_filter, table_of, list_elem_of_fmap.
  setoid_rewrite merge_sort_Permutation. setoid_rewrite elem_of_List_filter.
  setoid_rewrite list_elem_of_fmap. split.
  - intros [(x & -> & (r' & -> & Hr) & Hsel) Hv]. done.
  - intros (Hr & Hsel & Hv). split; [|done]. exists (row_of r). eauto.
Qed.

Lemma Unix_mono t u : t_ns t <= t_ns u → Unix t <= Unix u.
Proof.
  intros Hle. unfold Unix. pose proof (Z.div_le_mono (t_ns t) (t_ns u) Second ltac:(done) Hle). lia.
Qed.

Lemma Unix_slack t u : Unix t <= Unix u → t_ns t < t_ns u + Second.
Proof.
  unfold Unix. intros Hle.
  pose proof (Z.mul_div_le (t_ns u) Second ltac:(done)).
  pose proof (Z.mul_succ_div_gt (t_ns t) Second ltac:(done)).
  assert (Second * Z.succ (t_ns t / Second) <= Second * (t_ns u / Second + 1))
    by (apply Z.mul_le_mono_nonneg_l; [done|lia]). lia.
Qed.

Lemma SignalType_String_inj t u :
  0 <= t <= 4 → 0 <= u <= 4 → SignalType_String t = SignalType_String u → t = u.
Proof.
  intros Ht Hu. unfold SignalType_String.
  repeat match goal with |- context [?x =? ?y] => destruct (Z.eqb_spec x y); [subst; try done|] end;
    unfold SignalFCR, SignalAFRR, SignalMA, SignalNEBEF, SignalEcoWatt in *; lia.
Qed.

Lemma line_matches_spec q r :
  line_matches q r = true ↔
  (IsZero (q_Start q) = true ∨ t_ns (q_Start q) <= t_ns (log_Timestamp r)) ∧
  (IsZero (q_End q) = true ∨ t_ns (log_Timestamp r) <= t_ns (q_End q)) ∧
  (q_SignalType q = 0 ∨ sig_Type (log_Signal r) = q_SignalType q) ∧
  recordMatchesVehicle r (q_VehicleID q) = true.
Proof.
  unfold line_matches, Before, After. rewrite !andb_true_iff, !negb_true_iff, !andb_false_iff, !negb_false_iff.
  rewrite !Z.ltb_ge, !Z.eqb_eq. tauto.
Qed.

Lemma row_selected_spec q r :
  row_selected q (row_of r) = true ↔
  (IsZero (q_Start q) = true ∨ Unix (q_Start q) <= Unix (log_Timestamp r)) ∧
  (IsZero (q_End q) = true ∨ Unix (log_Timestamp r) <= Unix (q_End q)) ∧
  (q_SignalType q = 0 ∨
   SignalType_String (sig_Type (log_Signal r)) = SignalType_String (q_SignalType q)).
Proof.
  unfold row_selected. rewrite !andb_true_iff, !orb_true_iff, !Z.leb_le, Z.eqb_eq, bool_decide_eq_true.
  cbn. tauto.
Qed.

Lemma SQLiteQuery_complete (recs : list (LogRecord F)) q r :
  r ∈ recs → line_matches q r = true → r ∈ SQLiteQuery (foldl SQLiteAppend [] recs) q.
Proof.
  intros Hr (Hs & He & Ht & Hv)%line_matches_spec.
  apply elem_of_SQLiteQuery. split_and!; [done| |done]. apply row_selected_spec. split_and!.
  - destruct Hs; [by left|right; by apply Unix_mono].
  - destruct He; [by left|right; by apply Unix_mono].
  - destruct Ht as [|Ht]; [by left|right; by rewrite Ht].
Qed.

Lemma SQLiteQuery_sound (recs : list (LogRecord F)) q r :
  0 <= q_SignalType q <= 4 → Forall (fun r => 0 <= sig_Type (log_Signal r) <= 4) recs →
  r ∈ SQLiteQuery (foldl SQLiteAppend [] recs) q →
  r ∈ recs ∧ recordMatchesVehicle r (q_VehicleID q) = true ∧
  (q_SignalType q = 0 ∨ sig_Type (log_Signal r) = q_SignalType q) ∧
  (IsZero (q_Start q) = false → t_ns (q_Start q) < t_ns (log_Timestamp r) + Second) ∧
  (IsZero (q_End q) = false → t_ns (log_Timestamp r) < t_ns (q_End q) + Second).
Proof.
  rewrite Forall_forall. intros Hq Hrecs (Hr & (Hs & He & Ht)%row_selected_spec & Hv)%elem_of_SQLiteQuery.
  split_and!; [done..| | |].
  - destruct Ht as [|Ht]; [by left|right]. by apply SignalType_String_inj; [apply Hrecs|..].
  - intros Hz. destruct Hs as [?|Hs]; [congruence|]. by apply Unix_slack.
  - intros Hz. destruct He as [?|He]; [congruence|]. by apply Unix_slack.
Qed.

(** C28. The SQLite store compares whole seconds, the JSON-lines store compares
    nanoseconds: SQLite returns every record the other would, and what it
    returns besides lies less than a second outside the window; its answer is
    ordered by second. *)
Theorem SQLite_agrees (recs : list (LogRecord F)) q
    (Hq : 0 <= q_SignalType q <= 4) (Hrecs : Forall (fun r => 0 <= sig_Type (log_Signal r) <= 4) recs) :
  (∀ r, r ∈ List.filter (line_matches q) recs → r ∈ SQLiteQuery (foldl SQLiteAppend [] recs) q) ∧
  (∀ r, r ∈ SQLiteQuery (foldl SQLiteAppend [] recs) q →
     r ∈ recs ∧ recordMatchesVehicle r (q_VehicleID q) = true ∧
     (q_SignalType q = 0 ∨ sig_Type (log_Signal r) = q_SignalType q) ∧
     (IsZero (q_Start q) = false → t_ns (q_Start q) < t_ns (log_Timestamp r) + Second) ∧
     (IsZero (q_End q) = false → t_ns (log_Timestamp r) < t_ns (q_End q) + Second)).
Proof.
  split.
  - intros r [Hr Hm]%elem_of_List_filter. by apply SQLiteQuery_complete.
  - intros r Hr. by apply SQLiteQuery_sound in Hr.
Qed.
End facts.
