(* ===== verification/Tuner.v ===== *)
(** * Dispatch results and the learning tuner

    Models the [DispatchResult] of [core/dispatch/types.go], the errors an order
    can end with ([core/mqtt/errors.go]), and the tuners of
    [core/dispatch/tuner.go] and [ack_tuner.go]. *)

From S2P Require Import Prelude Num GoTime Model PowerMap MathExp SmartDispatcher.
From stdpp Require Import base gmap strings list.
From Stdlib Require Import ZArith QArith Qminmax Lqa Lia.

#[local] Open Scope Z_scope.

(** ** Errors *)

(** [errors.New], the sentinel [mqtt.ErrAckTimeout], and an error that wraps
    another one with [%w]. *)
Inductive go_error :=
| ErrorString (msg : string)
| ErrAckTimeout
| Wrapped (msg : string) (err : go_error).

#[export] Instance go_error_eq_dec : EqDecision go_error.
Proof. solve_decision. Defined.

(** [err.Error()]. *)
Definition Error (err : go_error) : string :=
  match err with
  | ErrorString msg => msg
  | ErrAckTimeout => "timeout waiting for ack"
  | Wrapped msg _ => msg
  end.

(** [errors.Is(err, mqtt.ErrAckTimeout)] walks the chain of wrapped errors. *)
Fixpoint is_ack_timeout (err : go_error) : bool :=
  match err with
  | ErrorString _ => false
  | ErrAckTimeout => true
  | Wrapped _ err => is_ack_timeout err
  end.

(** ** Results *)

Record DispatchResult (F : Type) := MkResult {
  dr_Assignments : gmap string F;
  dr_FallbackAssignments : option (gmap string F);   (* None: a nil map *)
  dr_Errors : gmap string go_error;
  dr_Acknowledged : gmap string bool;
  dr_Signal : FlexibilitySignal F;
  dr_MarketPrice : F;
  dr_Scores : gmap string F
}.
Arguments MkResult {F}.
Arguments dr_Assignments {F}.
Arguments dr_FallbackAssignments {F}.
Arguments dr_Errors {F}.
Arguments dr_Acknowledged {F}.
Arguments dr_Signal {F}.
Arguments dr_MarketPrice {F}.
Arguments dr_Scores {F}.

(** [m\[id\]] of a map of booleans. *)
Definition bget (m : gmap string bool) (id : string) : bool := default false (m !! id).

(** ** [AckBasedTuner] *)

(** The tuner without its pointer to the dispatcher, which the operations take
    and return instead. *)
Record AckBasedTuner (F : Type) := MkTuner {
  tn_IncreaseStep : F;
  tn_DecreaseStep : F;
  tn_MaxWeight : F;
  tn_MinWeight : F;
  tn_Threshold : F
}.
Arguments MkTuner {F}.
Arguments tn_IncreaseStep {F}.
Arguments tn_DecreaseStep {F}.
Arguments tn_MaxWeight {F}.
Arguments tn_MinWeight {F}.
Arguments tn_Threshold {F}.

Definition set_AvailabilityWeight {F} (w : F) (d : SmartDispatcher F) : SmartDispatcher F :=
  MkSmart (sd_SocWeight d) (sd_TimeWeight d) (sd_PriorityWeight d) (sd_PriceWeight d)
    (sd_WearWeight d) (sd_FairnessWeight d) w (sd_MarketPrice d)
    (sd_Participation d) (sd_MaxRounds d) (sd_scores d) (sd_EnableSoCConstraints d)
    (sd_MinSoC d) (sd_SafeDischargeFloor d).

Section tuner.
Context {F : Type} `{Num F} `{!MapRange}.
#[local] Open Scope num_scope.

Definition DefaultAckThreshold : F := 9 // 10.

(** [None] for the dispatcher is a nil pointer; the result [None] is the nil
    tuner of failed validation. *)
Definition NewAckBasedTunerWithConfig (d : option (SmartDispatcher F))
    (increaseStep decreaseStep maxWeight minWeight threshold : F) : option (AckBasedTuner F) :=
  match d with
  | None => None
  | Some _ =>
    if (increaseStep <=? n0) || (decreaseStep <=? n0) || (maxWeight <? minWeight) then None
    else Some (MkTuner increaseStep decreaseStep maxWeight minWeight threshold)
  end.

Definition NewAckBasedTuner (d : option (SmartDispatcher F)) : option (AckBasedTuner F) :=
  NewAckBasedTunerWithConfig d (5 // 100) (5 // 100) n1 n0 DefaultAckThreshold.

(** The counters [total], [success] (both [float64]) and [timeouts]. *)
Definition tune_count_result (c : F * F * Z) (h : DispatchResult F) : F * F * Z :=
  foldl (fun '(total, success, timeouts) '(id, _) =>
    (total + n1,
     if bget (dr_Acknowledged h) id then success + n1 else success,
     match dr_Errors h !! id with
     | Some err => if is_ack_timeout err then (timeouts + 1)%Z else timeouts
     | None => timeouts
     end)) c (range_map (dr_Assignments h)).

Definition tune_counts (history : list (DispatchResult F)) : F * F * Z :=
  foldl tune_count_result (n0, n0, 0%Z) history.

(** [t.Dispatcher.AvailabilityWeight += delta] and the two clamps. *)
Definition shift_weight (t : AckBasedTuner F) (w delta : F) : F :=
  let w := w + delta in
  let w := if w >? tn_MaxWeight t then tn_MaxWeight t else w in
  if w <? tn_MinWeight t then tn_MinWeight t else w.

(** [Tune] on a tuner that is not nil and its dispatcher. *)
Definition Tune (t : AckBasedTuner F) (d : SmartDispatcher F) (history : list (DispatchResult F)) :
    SmartDispatcher F :=
  if Nat.eqb (length history) 0 then d else
  let '(total, success, timeouts) := tune_counts history in
  if total =? n0 then d else
  let rate := success / total in
  let delta :=
    if rate >=? tn_Threshold t then tn_IncreaseStep t
    else if (0 <? timeouts)%Z then - tn_DecreaseStep t
    else n0 in
  if negb (delta =? n0)
  then set_AvailabilityWeight (shift_weight t (sd_AvailabilityWeight d) delta) d
  else d.

Definition NoopTune (d : SmartDispatcher F) (history : list (DispatchResult F)) :
    SmartDispatcher F := d.
End tuner.

(** ** Bounds in every arithmetic *)

Section bounds.
Context {F : Type} `{NumOrder F} `{!MapRange}.
#[local] Open Scope num_scope.

Definition weight_in_range (t : AckBasedTuner F) (w : F) : Prop :=
  (w >? tn_MaxWeight t) = false ∧ (w <? tn_MinWeight t) = false.

Lemma shift_weight_range t w delta :
  (tn_MaxWeight t <? tn_MinWeight t) = false → weight_in_range t (shift_weight t w delta).
Proof.
  intros Hord. unfold weight_in_range, shift_weight.
  destruct (tn_MaxWeight t <? w + delta) eqn:Hmax.
  - rewrite Hord. by rewrite nltb_irrefl, Hord.
  - destruct (w + delta <? tn_MinWeight t) eqn:Hmin; [by rewrite Hord, nltb_irrefl|done].
Qed.

Lemma NewAckBasedTuner_ordered d inc dec mx mn th t :
  NewAckBasedTunerWithConfig d inc dec mx mn th = Some t →
  (tn_MaxWeight t <? tn_MinWeight t) = false.
Proof.
  unfold NewAckBasedTunerWithConfig. destruct d; [|done].
  destruct (_ || _) eqn:Hv; [done|]. intros [= <-]. by bool_simpl.
Qed.

Lemma Tune_cases t (d : SmartDispatcher F) history :
  Tune t d history = d ∨
  ∃ delta, Tune t d history =
    set_AvailabilityWeight (shift_weight t (sd_AvailabilityWeight d) delta) d.
Proof.
  unfold Tune. destruct (Nat.eqb _ _); [by left|].
  destruct (tune_counts history) as [[total success] timeouts].
  destruct (total =? n0); [by left|].
  match goal with |- context [negb (?x =? n0)] => generalize x end. intros delta.
  destruct (negb (delta =? n0)); [right|by left]. by exists delta.
Qed.

Lemma set_AvailabilityWeight_id (d : SmartDispatcher F) :
  set_AvailabilityWeight (sd_AvailabilityWeight d) d = d.
Proof. by destruct d. Qed.

(** C27. A tuner that passed validation, in every arithmetic.  Tuning changes no
    other parameter of the dispatcher than [AvailabilityWeight]; a weight that
    is not outside [MinWeight, MaxWeight] stays so through any number of
    tunings, and whenever a tuning changes the weight the new one is not
    outside. *)
Theorem Tune_bounds d0 inc dec mx mn th t (d : SmartDispatcher F) (histories : list (list (DispatchResult F)))
    (Hnew : NewAckBasedTunerWithConfig d0 inc dec mx mn th = Some t) :
  let d' := foldl (Tune t) d histories in
  d' = set_AvailabilityWeight (sd_AvailabilityWeight d') d ∧
  (weight_in_range t (sd_AvailabilityWeight d) → weight_in_range t (sd_AvailabilityWeight d')) ∧
  (d' = d ∨ weight_in_range t (sd_AvailabilityWeight d')).
Proof.
  apply NewAckBasedTuner_ordered in Hnew. cbn zeta.
  enough (foldl (Tune t) d histories = d ∨
    ∃ w, weight_in_range t w ∧ foldl (Tune t) d histories = set_AvailabilityWeight w d)
    as [->|(w & Hw & ->)].
  - rewrite set_AvailabilityWeight_id. auto.
  - cbn. auto.
  - revert d. induction histories as [|h hs IH]; intros d; cbn [foldl]; [by left|].
    destruct (Tune_cases t d h) as [->|[delta ->]]; [apply IH|].
    destruct (IH (set_AvailabilityWeight (shift_weight t (sd_AvailabilityWeight d) delta) d))
      as [->|(w & Hw & ->)]; right; eauto using shift_weight_range.
Qed.
End bounds.

(** ** The direction of a tuning, over exact arithmetic *)

#[local] Open Scope Q_scope.

Section direction.
Context `{!MapRange}.
Implicit Types (h : DispatchResult Q) (history : list (DispatchResult Q)).

(** How many orders of the history were sent, acknowledged and timed out. *)
Definition timed_out h (id : string) : bool :=
  match dr_Errors h !! id with Some err => is_ack_timeout err | None => false end.

Definition count_ids (p : DispatchResult Q → string → bool) history : nat :=
  sum_list_with (fun h => length (List.filter (p h) (map_to_list (dr_Assignments h)).*1)) history.

Definition n_orders := count_ids (fun _ _ => true).
Definition n_acked := count_ids (fun h id => bget (dr_Acknowledged h) id).
Definition n_timeouts := count_ids timed_out.

Abbreviation qnat n := (inject_Z (Z.of_nat n)).

Lemma qnat_add n m : qnat (n + m) == qnat n + qnat m.
Proof. by rewrite Nat2Z.inj_add, inject_Z_plus. Qed.

Lemma tune_count_result_spec t s o h t' s' o' :
  tune_count_result (t, s, o) h = (t', s', o') →
  t' == t + qnat (n_orders [h]) ∧ s' == s + qnat (n_acked [h]) ∧
  o' = (o + Z.of_nat (n_timeouts [h]))%Z.
Proof.
  unfold tune_count_result, n_orders, n_acked, n_timeouts, count_ids. cbn [sum_list_with].
  rewrite !Nat.add_0_r.
  rewrite <- !(List_filter_perm _ _ _ (fmap_Permutation fst _ _ (range_map_perm (dr_Assignments h)))).
  revert t s o. induction (range_map (dr_Assignments h)) as [|[id p] l IH]; intros t s o Heq;
    cbn [foldl fmap list_fmap fst List.filter] in Heq |- *.
  { injection Heq as <- <- <-. cbn [length]. change (qnat 0) with 0. split_and!; [lra..|lia]. }
  apply IH in Heq as (-> & -> & ->). fold (timed_out h id). num_Q. cbn [length].
  change (S ?n) with (1 + n)%nat. rewrite !qnat_add. change (qnat 1) with 1.
  unfold timed_out. split_and!; [lra|..].
  - destruct (bget _ _); cbn [length]; [|lra]. change (S ?n) with (1 + n)%nat.
    rewrite qnat_add. change (qnat 1) with 1. lra.
  - destruct (dr_Errors h !! id) as [e|]; [destruct (is_ack_timeout e)|]; cbn [length]; lia.
Qed.

Lemma tune_counts_spec history total success timeouts :
  tune_counts history = (total, success, timeouts) →
  total == qnat (n_orders history) ∧ success == qnat (n_acked history) ∧
  timeouts = Z.of_nat (n_timeouts history).
Proof.
  unfold tune_counts. num_Q.
  enough (∀ t s o, foldl tune_count_result (t, s, o) history = (total, success, timeouts) →
    total == t + qnat (n_orders history) ∧ success == s + qnat (n_acked history) ∧
    timeouts = (o + Z.of_nat (n_timeouts history))%Z) as Hgen.
  { intros Heq%Hgen. destruct Heq as (-> & -> & ->). split_and!; [lra..|lia]. }
  induction history as [|h history IH]; intros t s o Heq; cbn [foldl] in Heq.
  { injection Heq as <- <- <-.
    change (n_orders []) with 0%nat. change (n_acked []) with 0%nat. change (qnat 0) with 0.
    split_and!; [lra..|cbn; lia]. }
  destruct (tune_count_result (t, s, o) h) as [[t1 s1] o1] eqn:Hh.
  apply tune_count_result_spec in Hh as (Ht & Hs & ->). apply IH in Heq as (-> & -> & ->).
  rewrite Ht, Hs. unfold n_orders, n_acked, n_timeouts, count_ids.
  cbn [sum_list_with]. rewrite !Nat.add_0_r, !qnat_add. split_and!; [lra..|lia].
Qed.

Lemma shift_weight_Q t w delta :
  (tn_MinWeight t <= tn_MaxWeight t) →
  shift_weight t w delta == Qmax (tn_MinWeight t) (Qmin (tn_MaxWeight t) (w + delta)).
Proof.
  intros Hord. unfold shift_weight. num_Q.
  destruct (Qltb_spec (tn_MaxWeight t) (w + delta)).
  - rewrite Q.min_l by lra. q_case; [lra|]. rewrite Q.max_r; lra.
  - rewrite Q.min_r by lra. q_case; [rewrite Q.max_l|rewrite Q.max_r]; lra.
Qed.

(** Over exact arithmetic [Tune] counts all orders of the history.  Without an
    order nothing changes; with an acknowledgment rate of at least the
    threshold the weight goes up by [IncreaseStep]; below it the weight goes
    down by [DecreaseStep] if an order timed out and stays otherwise; always
    within [MinWeight, MaxWeight]. *)
Theorem Tune_direction (d0 : option (SmartDispatcher Q)) inc dec mx mn th t
    (d : SmartDispatcher Q) history
    (Hnew : NewAckBasedTunerWithConfig d0 inc dec mx mn th = Some t) :
  let w := sd_AvailabilityWeight d in
  let w' := sd_AvailabilityWeight (Tune t d history) in
  let within x := Qmax mn (Qmin mx x) in
  (n_orders history = 0%nat → Tune t d history = d) ∧
  ((0 < n_orders history)%nat →
     (th * qnat (n_orders history) <= qnat (n_acked history) → w' == within (w + inc)) ∧
     (qnat (n_acked history) < th * qnat (n_orders history) →
        ((0 < n_timeouts history)%nat → w' == within (w - dec)) ∧
        (n_timeouts history = 0%nat → Tune t d history = d))).
Proof.
  unfold NewAckBasedTunerWithConfig in Hnew. destruct d0; [|done]. num_Q.
  destruct (_ || _) eqn:Hv; [done|]. injection Hnew as <-. bool_simpl. q_bool.
  cbn zeta. unfold Tune. num_Q. cbn [tn_Threshold tn_IncreaseStep tn_DecreaseStep].
  destruct history as [|h hs]; [split; [done|cbn; lia]|]. cbn [length Nat.eqb].
  set (history := h :: hs) in *.
  destruct (tune_counts history) as [[total success] timeouts] eqn:Hc.
  apply tune_counts_spec in Hc as (Ht & Hs & ->).
  destruct (Qeqb_spec total (0 # 1)) as [H0|H0].
  { split; [done|]. intros Hpos. exfalso. rewrite Ht in H0.
    assert (0 < qnat (n_orders history)); [|lra]. change 0 with (inject_Z 0). rewrite <- Zlt_Qlt. lia. }
  split. { intros Hz. exfalso. apply H0. rewrite Ht, Hz. reflexivity. }
  intros Hpos.
  assert (0 < total) as Hpt.
  { rewrite Ht. change 0 with (inject_Z 0). rewrite <- Zlt_Qlt. lia. }
  assert (success / total * total == success) as Hdiv by (field; lra).
  assert (th <= success / total ↔ th * qnat (n_orders history) <= qnat (n_acked history)) as Hrate.
  { rewrite <- Ht, <- Hs. split; intros; [nra|]. apply Qle_shift_div_l; lra. }
  destruct (Qleb_spec th (success / total)) as [Hth|Hth]; rewrite Hrate in Hth.
  - split; [|lra]. intros _.
    destruct (Qeqb_spec inc (0 # 1)); [lra|]. cbn. by apply shift_weight_Q; cbn; lra.
  - split; [lra|]. intros _. destruct (Z.ltb_spec 0 (Z.of_nat (n_timeouts history))).
    + split; [|lia]. intros _. destruct (Qeqb_spec (- dec) (0 # 1)); [lra|]. cbn.
      unfold Qminus. by apply shift_weight_Q; cbn; lra.
    + split; [lia|done].
Qed.
End direction.
