(* ===== verification/EventBus.v ===== *)
(** * The event bus

    Models [internal/eventbus/typed.go] and [eventbus.go], whose text is that of
    the typed bus at the type of events.  Channels live in a store and are
    buffered; sending on or closing a closed channel is a panic ([None]).

    The operations run concurrently: [Publish] holds the read lock while it
    visits the subscribers, so publishers interleave with each other and with
    receivers, but not with [Subscribe], [Unsubscribe] and [Close], which hold
    the write lock. *)

From S2P Require Import Prelude.
From stdpp Require Import base gmap list.
From Stdlib Require Import ZArith Lia.

(** [make(chan T, 8)]. *)
Definition chan_cap : nat := 8.

Record chan (T : Type) := MkChan { ch_buf : list T; ch_closed : bool }.
Arguments MkChan {T}.
Arguments ch_buf {T}.
Arguments ch_closed {T}.

(** The bus, the channels allocated so far, and the publishers that hold the
    read lock: the event of each and the subscribers it has still to visit. *)
Record TypedBus (T : Type) := MkBus {
  b_subs : list nat;
  b_closed : bool;
  b_chans : gmap nat (chan T);
  b_next : nat;
  b_readers : list (T * list nat)
}.
Arguments MkBus {T}.
Arguments b_subs {T}.
Arguments b_closed {T}.
Arguments b_chans {T}.
Arguments b_next {T}.
Arguments b_readers {T}.

Section bus.
Context {T : Type}.
Implicit Types (b : TypedBus T) (chans : gmap nat (chan T)).

Definition NewTyped : TypedBus T := MkBus [] false ∅ 0 [].

(** ** Channels *)

(** [close(ch)]. *)
Definition chan_close chans (ch : nat) : option (gmap nat (chan T)) :=
  c ← chans !! ch;
  if ch_closed c then None else Some (<[ch := MkChan (ch_buf c) true]> chans).

(** [select { case ch <- e: default: }]. *)
Definition chan_try_send chans (ch : nat) (e : T) : option (gmap nat (chan T)) :=
  c ← chans !! ch;
  if ch_closed c then None
  else if Nat.ltb (length (ch_buf c)) chan_cap
  then Some (<[ch := MkChan (ch_buf c ++ [e]) false]> chans)
  else Some chans.

(** [<-ch] on a channel that is not empty. *)
Definition chan_recv chans (ch : nat) : option (T * gmap nat (chan T)) :=
  c ← chans !! ch;
  match ch_buf c with
  | [] => None
  | e :: buf => Some (e, <[ch := MkChan buf (ch_closed c)]> chans)
  end.

Definition set_chans b chans : TypedBus T :=
  MkBus (b_subs b) (b_closed b) chans (b_next b) (b_readers b).

(** ** [Publish] *)

(** The loop over the subscribers, run without interleaving. *)
Fixpoint publish_loop (e : T) (subs : list nat) chans : option (gmap nat (chan T)) :=
  match subs with
  | [] => Some chans
  | ch :: subs => chans ← chan_try_send chans ch e; publish_loop e subs chans
  end.

Definition Publish b (e : T) : option (TypedBus T) :=
  if b_closed b then Some b else set_chans b <$> publish_loop e (b_subs b) (b_chans b).

(** ** [Subscribe], [Unsubscribe], [Close] *)

Definition Subscribe b : option (nat * TypedBus T) :=
  let ch := b_next b in
  let chans := <[ch := MkChan [] false]> (b_chans b) in
  if b_closed b then
    chans ← chan_close chans ch;
    Some (ch, MkBus (b_subs b) true chans (S ch) (b_readers b))
  else
    Some (ch, MkBus (b_subs b ++ [ch]) false chans (S ch) (b_readers b)).

(** The loop finds the first index whose channel is [sub]. *)
Definition Unsubscribe b (sub : nat) : option (TypedBus T) :=
  match list_find (eq sub) (b_subs b) with
  | None => Some b
  | Some (i, ch) =>
    let subs := take i (b_subs b) ++ drop (S i) (b_subs b) in
    if b_closed b then Some (MkBus subs true (b_chans b) (b_next b) (b_readers b))
    else
      chans ← chan_close (b_chans b) ch;
      Some (MkBus subs false chans (b_next b) (b_readers b))
  end.

Fixpoint close_loop (subs : list nat) chans : option (gmap nat (chan T)) :=
  match subs with
  | [] => Some chans
  | ch :: subs => chans ← chan_close chans ch; close_loop subs chans
  end.

Definition Close b : option (TypedBus T) :=
  if b_closed b then Some b else
  chans ← close_loop (b_subs b) (b_chans b);
  Some (MkBus [] true chans (b_next b) (b_readers b)).

(** ** Interleavings *)

Definition set_readers b rs : TypedBus T :=
  MkBus (b_subs b) (b_closed b) (b_chans b) (b_next b) rs.

(** One step of some goroutine; [None] when the step panics.  A publisher
    acquires the read lock, sends to one subscriber at a time and releases the
    lock when it has visited all; the writers need the lock to themselves. *)
Inductive bus_step : TypedBus T → option (TypedBus T) → Prop :=
| step_lock b e :
    bus_step b (Some (if b_closed b then b
                      else set_readers b ((e, b_subs b) :: b_readers b)))
| step_send b rs1 rs2 e ch todo :
    b_readers b = rs1 ++ (e, ch :: todo) :: rs2 →
    bus_step b ((fun chans => set_readers (set_chans b chans) (rs1 ++ (e, todo) :: rs2))
                  <$> chan_try_send (b_chans b) ch e)
| step_unlock b rs1 rs2 e :
    b_readers b = rs1 ++ (e, []) :: rs2 →
    bus_step b (Some (set_readers b (rs1 ++ rs2)))
| step_recv b ch e chans :
    chan_recv (b_chans b) ch = Some (e, chans) →
    bus_step b (Some (set_chans b chans))
| step_subscribe b : b_readers b = [] → bus_step b (snd <$> Subscribe b)
| step_unsubscribe b sub : b_readers b = [] → bus_step b (Unsubscribe b sub)
| step_close b : b_readers b = [] → bus_step b (Close b).

Definition bus_next b b' : Prop := bus_step b (Some b').

(** ** The invariant *)

Definition chan_open chans (ch : nat) : Prop := ∃ buf, chans !! ch = Some (MkChan buf false).

Record bus_inv b : Prop := {
  bi_nodup : NoDup (b_subs b);
  bi_open ch : ch ∈ b_subs b → chan_open (b_chans b) ch;
  bi_closed : b_closed b = true → b_subs b = [];
  bi_readers e todo : (e, todo) ∈ b_readers b → ∀ ch, ch ∈ todo → ch ∈ b_subs b;
  bi_fresh ch : is_Some (b_chans b !! ch) → (ch < b_next b)%nat;
  bi_only ch : chan_open (b_chans b) ch → ch ∈ b_subs b;
  bi_cap ch c : b_chans b !! ch = Some c → (length (ch_buf c) ≤ chan_cap)%nat
}.
End bus.

Arguments bus_step {T}.

(** [eventbus.Bus]: the same operations on the type of events. *)
Section event_bus.
Context {Event : Type}.

Definition New : TypedBus Event := NewTyped.
Definition BusPublish : TypedBus Event → Event → option (TypedBus Event) := Publish.
Definition BusSubscribe : TypedBus Event → option (nat * TypedBus Event) := Subscribe.
Definition BusUnsubscribe : TypedBus Event → nat → option (TypedBus Event) := Unsubscribe.
Definition BusClose : TypedBus Event → option (TypedBus Event) := Close.
End event_bus.

(** ** No interleaving panics *)

Section safety.
Context {T : Type}.
Implicit Types (b : TypedBus T) (chans : gmap nat (chan T)).

(** Two channel stores with the same channels, the same open ones, and
    buffers within the capacity. *)
Record chans_like chans chans' : Prop := {
  cl_some ch : is_Some (chans !! ch) ↔ is_Some (chans' !! ch);
  cl_open ch : chan_open chans ch ↔ chan_open chans' ch;
  cl_cap ch c : chans' !! ch = Some c → (length (ch_buf c) ≤ chan_cap)%nat
}.

Lemma chans_like_insert chans ch c buf :
  chans !! ch = Some c → (length buf ≤ chan_cap)%nat →
  (∀ k c, chans !! k = Some c → (length (ch_buf c) ≤ chan_cap)%nat) →
  chans_like chans (<[ch := MkChan buf (ch_closed c)]> chans).
Proof.
  intros Hc Hlen Hcap. split; intros k.
  - rewrite lookup_insert. case_decide; [subst; by rewrite Hc|done].
  - unfold chan_open. rewrite lookup_insert. case_decide; [subst k|done]. rewrite Hc.
    destruct c as [b0 [|]]; cbn; split; intros [? [=]]; eauto.
  - intros c'. rewrite lookup_insert. case_decide; [by intros [= <-]|apply Hcap].
Qed.

Lemma chans_like_refl chans :
  (∀ k c, chans !! k = Some c → (length (ch_buf c) ≤ chan_cap)%nat) → chans_like chans chans.
Proof. by split. Qed.

Lemma chan_try_send_like chans ch e :
  chan_open chans ch → (∀ k c, chans !! k = Some c → (length (ch_buf c) ≤ chan_cap)%nat) →
  ∃ chans', chan_try_send chans ch e = Some chans' ∧ chans_like chans chans'.
Proof.
  intros [buf Hc] Hcap. unfold chan_try_send. rewrite Hc. cbn [mbind option_bind ch_closed ch_buf].
  destruct (Nat.ltb_spec (length buf) chan_cap); [|eauto using chans_like_refl].
  eexists. split; [done|]. apply (chans_like_insert _ _ (MkChan buf false)); [done| |done].
  rewrite length_app. cbn. lia.
Qed.

Lemma chan_recv_like chans ch e chans' :
  (∀ k c, chans !! k = Some c → (length (ch_buf c) ≤ chan_cap)%nat) →
  chan_recv chans ch = Some (e, chans') → chans_like chans chans'.
Proof.
  intros Hcap. unfold chan_recv. destruct (chans !! ch) as [[[|x buf] cl]|] eqn:Hc; try done.
  cbn. intros [= -> <-]. apply (chans_like_insert _ _ (MkChan (e :: buf) cl)); [done| |done].
  apply Hcap in Hc. cbn in Hc. lia.
Qed.

Lemma bus_inv_chans b chans :
  bus_inv b → chans_like (b_chans b) chans → bus_inv (set_chans b chans).
Proof.
  intros [? Hopen ? ? Hfresh Honly ?] [Hsome Ho Hcap]. split; cbn; try done.
  - intros ch Hch. by apply Ho, Hopen.
  - intros ch Hch. by apply Hfresh, Hsome.
  - intros ch Hch. by apply Honly, Ho.
Qed.

Lemma bus_inv_readers b rs :
  bus_inv b → (∀ e todo, (e, todo) ∈ rs → ∀ ch, ch ∈ todo → ch ∈ b_subs b) →
  bus_inv (set_readers b rs).
Proof. by intros []. Qed.

(** Closing one open channel. *)
Lemma chan_close_spec chans ch :
  chan_open chans ch → ∃ chans', chan_close chans ch = Some chans' ∧
    ¬ chan_open chans' ch ∧
    (∀ k, k ≠ ch → chans' !! k = chans !! k) ∧
    (∃ buf, chans !! ch = Some (MkChan buf false) ∧ chans' !! ch = Some (MkChan buf true)).
Proof.
  intros [buf Hc]. unfold chan_close. rewrite Hc. cbn. eexists. split_and!; [done|..].
  - intros [? Ho]. by rewrite lookup_insert_eq in Ho.
  - intros k Hk. by rewrite lookup_insert_ne.
  - exists buf. by rewrite lookup_insert_eq.
Qed.

Lemma close_loop_spec subs chans :
  NoDup subs → (∀ ch, ch ∈ subs → chan_open chans ch) →
  ∃ chans', close_loop subs chans = Some chans' ∧
    (∀ ch, ch ∈ subs → ¬ chan_open chans' ch) ∧
    (∀ ch, ch ∉ subs → chans' !! ch = chans !! ch) ∧
    (∀ ch, ch_buf <$> chans' !! ch = ch_buf <$> chans !! ch).
Proof.
  revert chans. induction subs as [|ch subs IH]; intros chans Hnd Ho; cbn [close_loop].
  { exists chans. split_and!; [done|by intros ? ?%not_elem_of_nil|done..]. }
  apply NoDup_cons in Hnd as [Hch Hnd].
  destruct (chan_close_spec chans ch) as (c1 & -> & Hn & Hk & buf & Hb & Hb'); [apply Ho; left|].
  cbn [mbind option_bind]. destruct (IH c1 Hnd) as (c2 & -> & Hcl & Hout & Hbuf).
  { intros k Hin. destruct (Ho k ltac:(by right)) as [bk Hbk]. exists bk. rewrite Hk; [done|].
    by intros ->. }
  exists c2. split_and!; [done|..].
  - intros k [->|Hin]%elem_of_cons; [|by apply Hcl]. unfold chan_open. by rewrite Hout.
  - intros k [Hne Hin]%not_elem_of_cons. by rewrite Hout, Hk.
  - intros k. rewrite Hbuf. destruct (decide (k = ch)) as [->|Hne]; [by rewrite Hb, Hb'|by rewrite Hk].
Qed.

Lemma bus_inv_new : bus_inv (NewTyped : TypedBus T).
Proof.
  split; cbn; try done; try constructor; try (intros ? ?%not_elem_of_nil; done).
  - by intros ? ? ?%not_elem_of_nil.
  - intros ch [? Hc]. by rewrite lookup_empty in Hc.
  - intros ch [? Hc]. by rewrite lookup_empty in Hc.
Qed.

Lemma bus_inv_subscribe b :
  bus_inv b → b_readers b = [] →
  ∃ ch b', Subscribe b = Some (ch, b') ∧ bus_inv b' ∧
    b_chans b' !! ch = Some (MkChan [] (b_closed b)).
Proof.
  intros [Hnd Hopen Hcl Hrd Hfresh Honly Hcap] Hr. unfold Subscribe.
  assert (b_chans b !! b_next b = None) as Hnew.
  { destruct (b_chans b !! b_next b) eqn:Hc; [|done].
    assert (b_next b < b_next b)%nat; [|lia]. by apply Hfresh; eexists. }
  destruct (b_closed b) eqn:Hclosed; cbn [chan_close].
  - unfold chan_close. rewrite lookup_insert_eq. cbn. eexists _, _. split; [done|].
    split; [|cbn; by rewrite lookup_insert_eq]. rewrite insert_insert_eq.
    split; cbn; rewrite ?Hcl by done; try done.
    + constructor.
    + by intros ? ?%not_elem_of_nil.
    + rewrite Hr. by intros ? ? ?%not_elem_of_nil.
    + intros ch. rewrite lookup_insert. case_decide; [lia|]. intros Hs%Hfresh. lia.
    + intros ch [buf Ho]. rewrite lookup_insert in Ho. case_decide; [done|].
      rewrite <- Hcl by done. apply Honly. by exists buf.
    + intros ch c. rewrite lookup_insert. case_decide; [|apply Hcap]. intros [= <-]. cbn. lia.
  - eexists _, _. split; [done|]. split; [|cbn; by rewrite lookup_insert_eq].
    split; cbn; try done.
    + apply NoDup_app. split_and!; [done| |apply NoDup_singleton].
      intros ch Hch Hch'. apply list_elem_of_singleton in Hch' as ->. apply Hopen in Hch as [? Hch]. congruence.
    + intros ch [Hch|Hch]%elem_of_app; [|apply list_elem_of_singleton in Hch as ->].
      * apply Hopen in Hch as [buf Hb]. exists buf. rewrite lookup_insert_ne; [done|].
        intros <-. congruence.
      * exists []. by rewrite lookup_insert_eq.
    + rewrite Hr. by intros ? ? ?%not_elem_of_nil.
    + intros ch. rewrite lookup_insert. case_decide; [lia|]. intros Hs%Hfresh. lia.
    + intros ch [buf Ho]. rewrite elem_of_app, list_elem_of_singleton.
      rewrite lookup_insert in Ho. case_decide; [by right|]. left. apply Honly. by exists buf.
    + intros ch c. rewrite lookup_insert. case_decide; [|apply Hcap]. intros [= <-]. cbn. lia.
Qed.

Lemma elem_of_take_drop (l : list nat) i x :
  NoDup l → l !! i = Some x → ∀ k, k ∈ take i l ++ drop (S i) l ↔ k ∈ l ∧ k ≠ x.
Proof.
  intros Hnd Hi k. rewrite <- (take_drop_middle l i x Hi) at 3. rewrite <- (take_drop_middle l i x Hi) in Hnd.
  apply NoDup_app in Hnd as (_ & Hd & [Hx _]%NoDup_cons).
  rewrite !elem_of_app, elem_of_cons. split; [|naive_solver].
  intros [Hk|Hk]; split; try tauto; intros ->; [|done]. eapply Hd; [exact Hk|]. left.
Qed.

Lemma bus_inv_unsubscribe b sub :
  bus_inv b → b_readers b = [] → ∃ b', Unsubscribe b sub = Some b' ∧ bus_inv b' ∧ sub ∉ b_subs b'.
Proof.
  intros [Hnd Hopen Hcl Hrd Hfresh Honly Hcap] Hr. unfold Unsubscribe.
  destruct (list_find (eq sub) (b_subs b)) as [[i ch]|] eqn:Hf.
  2:{ exists b. split_and!; [done..|]. apply list_find_None in Hf. rewrite Forall_forall in Hf.
      intros Hin. by apply (Hf sub Hin). }
  apply list_find_Some in Hf as (Hi & -> & _).
  assert (ch ∈ b_subs b) as Hch by (by eapply list_elem_of_lookup_2).
  destruct (b_closed b) eqn:Hclosed; [by rewrite Hcl, elem_of_nil in Hch|].
  destruct (chan_close_spec (b_chans b) ch) as (c1 & -> & Hn & Hk & buf & Hb & Hb'); [by apply Hopen|].
  pose proof (elem_of_take_drop _ _ _ Hnd Hi) as Hel.
  eexists. split; [done|]. split; [|cbn; rewrite Hel; tauto].
  split; cbn; try done.
  - eapply sublist_NoDup; [exact Hnd|]. rewrite <- (take_drop_middle _ _ _ Hi) at 3.
    apply sublist_app; [done|]. by constructor.
  - intros k [Hin Hne]%Hel. unfold chan_open. rewrite Hk by done. by apply Hopen.
  - rewrite Hr. by intros ? ? ?%not_elem_of_nil.
  - intros k Hs. destruct (decide (k = ch)) as [->|Hne]; [apply Hfresh; by rewrite Hb|].
    rewrite Hk in Hs by done. by apply Hfresh.
  - intros k Ho. apply Hel. destruct (decide (k = ch)) as [->|Hne]; [done|].
    split; [|done]. apply Honly. unfold chan_open in *. by rewrite Hk in Ho.
  - intros k c Hc. destruct (decide (k = ch)) as [->|Hne]; [|rewrite Hk in Hc by done; by eapply Hcap].
    rewrite Hb' in Hc. injection Hc as <-. by apply (Hcap _ _ Hb).
Qed.

Lemma bus_inv_close b :
  bus_inv b → b_readers b = [] →
  ∃ b', Close b = Some b' ∧ bus_inv b' ∧ b_closed b' = true ∧ ∀ ch, ¬ chan_open (b_chans b') ch.
Proof.
  intros Hinv Hr. pose proof Hinv as [Hnd Hopen Hcl Hrd Hfresh Honly Hcap]. unfold Close.
  destruct (b_closed b) eqn:Hclosed.
  { exists b. split_and!; [done..|]. intros ch Ho%Honly. by rewrite Hcl, elem_of_nil in Ho. }
  destruct (close_loop_spec (b_subs b) (b_chans b) Hnd Hopen) as (c1 & -> & Hc & Hout & Hbuf).
  assert (∀ ch, ¬ chan_open c1 ch) as Hnone.
  { intros ch Ho. destruct (decide (ch ∈ b_subs b)) as [Hin|Hin]; [by apply (Hc ch)|].
    apply Hin, Honly. unfold chan_open in *. by rewrite Hout in Ho. }
  eexists. split_and!; [done| |done..]. split; cbn; try done.
  - constructor.
  - by intros ? ?%not_elem_of_nil.
  - rewrite Hr. by intros ? ? ?%not_elem_of_nil.
  - intros ch [c Hs]. specialize (Hbuf ch). rewrite Hs in Hbuf. cbn in Hbuf. symmetry in Hbuf.
    apply fmap_Some in Hbuf as (c' & Hc' & _). apply Hfresh. by eexists.
  - intros ch Ho. by apply Hnone in Ho.
  - intros ch c Hs. specialize (Hbuf ch). rewrite Hs in Hbuf. cbn in Hbuf. symmetry in Hbuf.
    apply fmap_Some in Hbuf as (c' & Hc' & ->). by eapply Hcap.
Qed.

(** Every step of every interleaving succeeds and keeps the invariant. *)
Lemma bus_step_inv b o : bus_inv b → bus_step b o → ∃ b', o = Some b' ∧ bus_inv b'.
Proof.
  intros Hinv Hst. destruct Hst as [b e|b rs1 rs2 e ch todo Hr|b rs1 rs2 e Hr|b ch e chans Hr|b Hr|b sub Hr|b Hr].
  - destruct (b_closed b); [by exists b|]. eexists. split; [done|]. apply bus_inv_readers; [done|].
    intros e' todo [[= -> ->]|Hin]%elem_of_cons; [done|by eapply bi_readers].
  - assert (∀ k, k ∈ ch :: todo → k ∈ b_subs b) as Hsub.
    { eapply bi_readers; [done|]. rewrite Hr. apply elem_of_app. right. left. }
    destruct (chan_try_send_like (b_chans b) ch e) as (c & Hc & Hlike);
      [apply (bi_open _ Hinv), Hsub; left|apply (bi_cap _ Hinv)|]. rewrite Hc.
    eexists. split; [done|]. apply bus_inv_readers; [by apply bus_inv_chans|].
    intros e' todo' Hin k Hk. cbn. apply elem_of_app in Hin as [Hin|[[= -> ->]|Hin]%elem_of_cons].
    + eapply bi_readers; [done| |done]. rewrite Hr. apply elem_of_app. by left.
    + apply Hsub. by right.
    + eapply bi_readers; [done| |done]. rewrite Hr. apply elem_of_app. by right; right.
  - eexists. split; [done|]. apply bus_inv_readers; [done|]. intros e' todo Hin.
    eapply bi_readers; [done|]. rewrite Hr.
    apply elem_of_app in Hin as [Hin|Hin]; apply elem_of_app; [by left|by right; right].
  - eexists. split; [done|]. apply bus_inv_chans; [done|].
    eapply chan_recv_like; [apply (bi_cap _ Hinv)|done].
  - destruct (bus_inv_subscribe b Hinv Hr) as (ch & b' & -> & Hb & _). by exists b'.
  - destruct (bus_inv_unsubscribe b sub Hinv Hr) as (b' & -> & Hb & _). by exists b'.
  - destruct (bus_inv_close b Hinv Hr) as (b' & -> & Hb & _). by exists b'.
Qed.

Lemma bus_inv_reachable b : rtc bus_next NewTyped b → bus_inv b.
Proof.
  revert b. apply rtc_ind_r; [apply bus_inv_new|]. intros b1 b2 _ Hst IH.
  destruct (bus_step_inv _ _ IH Hst) as (b' & [= <-] & Hb). done.
Qed.
End safety.

Section properties.
Context {T : Type}.
Implicit Types (b : TypedBus T) (chans : gmap nat (chan T)).

(** A buffer after a non-blocking send. *)
Definition offered (e : T) (buf : list T) : list T :=
  if Nat.ltb (length buf) chan_cap then buf ++ [e] else buf.

Lemma chan_try_send_offered chans ch e buf :
  chans !! ch = Some (MkChan buf false) →
  chan_try_send chans ch e = Some (<[ch := MkChan (offered e buf) false]> chans).
Proof.
  intros Hc. unfold chan_try_send, offered. rewrite Hc. cbn [mbind option_bind ch_closed ch_buf].
  destruct (Nat.ltb (length buf) chan_cap); [done|]. by rewrite insert_id.
Qed.

Lemma publish_loop_spec e subs chans :
  NoDup subs → (∀ ch, ch ∈ subs → chan_open chans ch) →
  ∃ chans', publish_loop e subs chans = Some chans' ∧
    (∀ ch buf, ch ∈ subs → chans !! ch = Some (MkChan buf false) →
       chans' !! ch = Some (MkChan (offered e buf) false)) ∧
    (∀ ch, ch ∉ subs → chans' !! ch = chans !! ch).
Proof.
  revert chans. induction subs as [|ch subs IH]; intros chans Hnd Ho; cbn [publish_loop].
  { exists chans. split_and!; [done| |done]. by intros ? ? ?%not_elem_of_nil. }
  apply NoDup_cons in Hnd as [Hch Hnd]. destruct (Ho ch ltac:(left)) as [buf Hb].
  rewrite (chan_try_send_offered _ _ _ _ Hb). cbn [mbind option_bind].
  destruct (IH (<[ch := MkChan (offered e buf) false]> chans) Hnd) as (c & -> & Hin & Hout).
  { intros k Hk. destruct (Ho k ltac:(by right)) as [bk Hbk]. exists bk.
    rewrite lookup_insert_ne; [done|]. by intros ->. }
  exists c. split_and!; [done|..].
  - intros k bk [->|Hk]%elem_of_cons Hbk.
    + rewrite Hout, lookup_insert_eq by done. congruence.
    + apply Hin; [done|]. rewrite lookup_insert_ne; [done|]. by intros ->.
  - intros k [Hne Hk]%not_elem_of_cons. by rewrite Hout, lookup_insert_ne.
Qed.

(** The sends of one publisher, one step each. *)
Lemma publish_loop_steps e todo b chans rs :
  publish_loop e todo (b_chans b) = Some chans → b_readers b = (e, todo) :: rs →
  rtc bus_next b (set_readers (set_chans b chans) ((e, []) :: rs)).
Proof.
  revert b. induction todo as [|ch todo IH]; intros b Hloop Hr; cbn [publish_loop] in Hloop.
  - injection Hloop as <-. rewrite <- Hr. by destruct b.
  - destruct (chan_try_send (b_chans b) ch e) as [c|] eqn:Hc; [|done]. cbn in Hloop.
    eapply rtc_l.
    + pose proof (step_send b [] rs e ch todo Hr) as Hst. rewrite Hc in Hst. exact Hst.
    + by apply (IH (set_readers (set_chans b c) ((e, todo) :: rs))).
Qed.

(** C25. In every interleaving of publishers, receivers and writers from a new bus,
    no step sends on a closed channel or closes one twice, and no buffer ever
    holds more than its eight events. *)
Theorem bus_never_panics b o
    (Hreach : rtc bus_next (NewTyped : TypedBus T) b) (Hstep : bus_step b o) :
  (∃ b', o = Some b') ∧
  ∀ ch c, b_chans b !! ch = Some c → (length (ch_buf c) ≤ 8)%nat.
Proof.
  apply bus_inv_reachable in Hreach. split; [|apply (bi_cap _ Hreach)].
  destruct (bus_step_inv _ _ Hreach Hstep) as (b' & -> & _). by exists b'.
Qed.

(** An uninterrupted [Publish] on a reachable open bus is one of the
    interleavings, offers the event to every subscriber, which gets it unless
    its buffer is full, and touches no other channel. *)
Theorem Publish_delivers b e
    (Hreach : rtc bus_next (NewTyped : TypedBus T) b) (Hopen : b_closed b = false) :
  ∃ b', Publish b e = Some b' ∧ rtc bus_next b b' ∧ b_subs b' = b_subs b ∧
    (∀ ch, ch ∈ b_subs b → ∃ buf, b_chans b !! ch = Some (MkChan buf false) ∧
       b_chans b' !! ch = Some (MkChan (offered e buf) false)) ∧
    (∀ ch, ch ∉ b_subs b → b_chans b' !! ch = b_chans b !! ch).
Proof.
  apply bus_inv_reachable in Hreach as Hinv. unfold Publish. rewrite Hopen.
  destruct (publish_loop_spec e (b_subs b) (b_chans b)) as (c & Hc & Hin & Hout);
    [apply Hinv|apply Hinv|]. rewrite Hc. exists (set_chans b c). split_and!; try done.
  - eapply rtc_l; [pose proof (step_lock b e) as Hst; rewrite Hopen in Hst; exact Hst|].
    eapply rtc_r; [by eapply (publish_loop_steps e (b_subs b) (set_readers b _))|].
    pose proof (step_unlock (set_readers (set_chans b c) ((e, []) :: b_readers b))
      [] (b_readers b) e eq_refl) as Hst. cbn in Hst. destruct b. exact Hst.
  - intros ch Hch. destruct (bi_open _ Hinv ch Hch) as [buf Hb]. exists buf. split; [done|].
    by apply Hin.
Qed.

(** [Close] is final: afterwards every channel is closed, [Publish], [Close]
    and [Unsubscribe] do nothing, and [Subscribe] returns a closed, empty
    channel that is not registered. *)
Theorem Close_final b (Hreach : rtc bus_next (NewTyped : TypedBus T) b)
    (Hidle : b_readers b = []) :
  ∃ b', Close b = Some b' ∧
    (∀ ch c, b_chans b' !! ch = Some c → ch_closed c = true) ∧
    (∀ e, Publish b' e = Some b') ∧ Close b' = Some b' ∧
    (∀ sub, Unsubscribe b' sub = Some b') ∧
    ∃ ch b2, Subscribe b' = Some (ch, b2) ∧ b_subs b2 = [] ∧
      b_chans b2 !! ch = Some (MkChan [] true).
Proof.
  apply bus_inv_reachable in Hreach as Hinv.
  destruct (bus_inv_close b Hinv Hidle) as (b' & Hc & Hinv' & Hcl & Hnone).
  assert (b_subs b' = []) as Hsubs by (by apply (bi_closed _ Hinv')).
  exists b'. split_and!; [done|..].
  - intros ch [buf [|]] Hch; [done|]. exfalso. apply (Hnone ch). by exists buf.
  - intros e. unfold Publish. by rewrite Hcl.
  - unfold Close. by rewrite Hcl.
  - intros sub. unfold Unsubscribe. by rewrite Hsubs.
  - unfold Subscribe. rewrite Hcl. unfold chan_close. rewrite lookup_insert_eq. cbn.
    eexists _, _. split; [done|]. cbn. rewrite insert_insert_eq, lookup_insert_eq. done.
Qed.
End properties.
