(* ===== verification/BusDelivery.v ===== *)
(** * Delivery on the event bus

    Infinite executions of the bus of [EventBus], whose steps are those of its
    goroutines in any order, and what a subscriber that keeps receiving can rely
    on: the events a publisher put into its buffer reach it, in that order. *)

From S2P Require Import Prelude EventBus.
From stdpp Require Import base gmap list.
From Stdlib Require Import ZArith Lia.

Section delivery.
Context {T : Type}.
Implicit Types (b : TypedBus T) (chans : gmap nat (chan T)) (tr : nat → TypedBus T).

(** An execution: at every time some goroutine makes a step or nothing
    happens. *)
Definition bus_execution tr : Prop :=
  tr 0%nat = NewTyped ∧ ∀ n, tr (S n) = tr n ∨ bus_next (tr n) (tr (S n)).

(** The step at time [n] is a receive of [e] from [ch]. *)
Definition receives tr (ch : nat) (n : nat) (e : T) : Prop :=
  ∃ chans, chan_recv (b_chans (tr n)) ch = Some (e, chans) ∧ tr (S n) = set_chans (tr n) chans.

Definition buffer b (ch : nat) : list T := default [] (ch_buf <$> b_chans b !! ch).

(** The subscriber of [ch] does not stop receiving: whenever there is something
    in its buffer it receives at some later time. *)
Definition keeps_receiving tr (ch : nat) : Prop :=
  ∀ n, buffer (tr n) ch ≠ [] → ∃ m e, (n ≤ m)%nat ∧ receives tr ch m e.

(** ** How a step changes a buffer *)

(** Events are added at the end. *)
Definition extended b b' (ch : nat) : Prop := ∃ l, buffer b' ch = buffer b ch ++ l.

Lemma extended_same b b' ch : buffer b' ch = buffer b ch → extended b b' ch.
Proof. intros Heq. exists []. by rewrite app_nil_r. Qed.

Lemma extended_send b ch ch' e chans rs :
  chan_try_send (b_chans b) ch' e = Some chans →
  extended b (set_readers (set_chans b chans) rs) ch.
Proof.
  unfold chan_try_send, extended, buffer. cbn [set_readers set_chans b_chans].
  destruct (b_chans b !! ch') as [c|] eqn:Hc; [|done]. cbn [mbind option_bind].
  destruct (ch_closed c); [done|]. case_match; intros [= <-].
  - rewrite lookup_insert. case_decide as Heq; [subst; rewrite Hc; by exists [e]|].
    exists []. by rewrite app_nil_r.
  - exists []. by rewrite app_nil_r.
Qed.

Lemma buffer_close_chan chans ch chans' :
  chan_close chans ch = Some chans' →
  ∀ k, default [] (ch_buf <$> chans' !! k) = default [] (ch_buf <$> chans !! k).
Proof.
  unfold chan_close. destruct (chans !! ch) as [c|] eqn:Hc; [|done]. cbn.
  destruct (ch_closed c); intros [= <-] k. rewrite lookup_insert.
  case_decide as Heq; [subst; by rewrite Hc|done].
Qed.

Lemma buffer_close_loop subs chans chans' :
  close_loop subs chans = Some chans' →
  ∀ k, default [] (ch_buf <$> chans' !! k) = default [] (ch_buf <$> chans !! k).
Proof.
  revert chans. induction subs as [|ch subs IH]; intros chans Hl k; cbn in Hl; [by injection Hl as <-|].
  destruct (chan_close chans ch) as [c1|] eqn:Hc; [|done]. cbn in Hl.
  by rewrite (IH c1 Hl k), (buffer_close_chan _ _ _ Hc k).
Qed.

Lemma buffer_subscribe b p ch :
  bus_inv b → Subscribe b = Some p → buffer p.2 ch = buffer b ch.
Proof.
  intros Hinv. unfold Subscribe, buffer.
  assert (b_chans b !! b_next b = None) as Hnew.
  { destruct (b_chans b !! b_next b) eqn:Hc; [|done].
    assert (b_next b < b_next b)%nat by (apply (bi_fresh _ Hinv); eauto). lia. }
  assert (∀ k, default [] (ch_buf <$> <[b_next b := MkChan [] false]> (b_chans b) !! k) =
    default [] (ch_buf <$> b_chans b !! k)) as Hins.
  { intros k. rewrite lookup_insert. case_decide as Heq; [subst; by rewrite Hnew|done]. }
  destruct (b_closed b); [|intros [= <-]; apply Hins].
  destruct (chan_close _ _) as [c|] eqn:Hc; [|done]. intros [= <-]. cbn.
  by rewrite (buffer_close_chan _ _ _ Hc), Hins.
Qed.

(** Every step leaves a buffer, adds to its end or takes its first event. *)
Lemma bus_next_buffer b b' ch :
  bus_inv b → bus_next b b' →
  extended b b' ch ∨
  ∃ e chans, chan_recv (b_chans b) ch = Some (e, chans) ∧ b' = set_chans b chans ∧
    buffer b ch = e :: buffer b' ch.
Proof.
  intros Hinv Hst. unfold bus_next in Hst. remember (Some b') as o eqn:Ho.
  destruct Hst as [b e|b rs1 rs2 e ch' todo Hr|b rs1 rs2 e Hr|b ch' e chans Hr|b Hr|b sub Hr|b Hr].
  - left. apply extended_same. injection Ho as <-. by destruct (b_closed b).
  - left. apply fmap_Some in Ho as (chans & Hc & ->). by eapply extended_send.
  - left. apply extended_same. by injection Ho as <-.
  - injection Ho as <-. unfold chan_recv in Hr.
    destruct (b_chans b !! ch') as [[[|x buf] cl]|] eqn:Hc; try done.
    cbn in Hr. injection Hr as -> <-. destruct (decide (ch' = ch)) as [->|Hne].
    + right. exists e, (<[ch := MkChan buf cl]> (b_chans b)). unfold chan_recv, buffer.
      cbn. by rewrite Hc, lookup_insert_eq.
    + left. apply extended_same. unfold buffer. cbn. by rewrite lookup_insert_ne.
  - left. apply extended_same. apply fmap_Some in Ho as (p & Hp & ->). by apply buffer_subscribe.
  - left. apply extended_same. unfold Unsubscribe in Ho.
    destruct (list_find _ _) as [[i k]|]; [|by injection Ho as <-].
    destruct (b_closed b); [by injection Ho as <-|].
    destruct (chan_close _ _) as [c|] eqn:Hc; [|done]. injection Ho as <-.
    unfold buffer. cbn. apply (buffer_close_chan _ _ _ Hc).
  - left. apply extended_same. unfold Close in Ho.
    destruct (b_closed b); [by injection Ho as <-|].
    destruct (close_loop _ _) as [c|] eqn:Hc; [|done]. injection Ho as <-.
    unfold buffer. cbn. apply (buffer_close_loop _ _ _ Hc).
Qed.

(** ** Delivery *)

Lemma execution_inv tr : bus_execution tr → ∀ n, bus_inv (tr n).
Proof.
  intros [H0 Hst] n. induction n as [|n IH]; [rewrite H0; apply bus_inv_new|].
  destruct (Hst n) as [->|Hn]; [done|]. destruct (bus_step_inv _ _ IH Hn) as (b' & [= ->] & Hb). done.
Qed.

(** Up to the next receive a buffer only grows. *)
Lemma until_receive tr ch n m e :
  bus_execution tr → (n ≤ m)%nat → receives tr ch m e →
  ∃ k e', (n ≤ k ≤ m)%nat ∧ receives tr ch k e' ∧ extended (tr n) (tr k) ch.
Proof.
  intros Hex Hle Hr. remember (m - n)%nat as d eqn:Hd. revert n Hle Hd.
  induction d as [|d IH]; intros n Hle Hd.
  { exists m, e. replace n with m by lia. split_and!; [lia..|done|by apply extended_same]. }
  pose proof (execution_inv tr Hex n) as Hinv. destruct Hex as [H0 Hst].
  assert (extended (tr n) (tr (S n)) ch ∨ ∃ e', receives tr ch n e') as [Hext|[e' Hre]].
  { destruct (Hst n) as [Heq|Hn]; [left; apply extended_same; by rewrite Heq|].
    destruct (bus_next_buffer _ _ ch Hinv Hn) as [|(e' & chans & Hc & Heq & _)]; [by left|].
    right. exists e', chans. done. }
  - destruct (IH (S n)) as (k & e' & Hk & Hrk & l2 & Hl2); [lia..|].
    exists k, e'. destruct Hext as [l1 Hl1]. split_and!; [lia..|done|]. exists (l1 ++ l2).
    by rewrite Hl2, Hl1, app_assoc.
  - exists n, e'. split_and!; [lia..|done|by apply extended_same].
Qed.

(** A receive takes the first event. *)
Lemma receives_head tr ch n e : receives tr ch n e → buffer (tr n) ch = e :: buffer (tr (S n)) ch.
Proof.
  intros (chans & Hc & ->). unfold chan_recv in Hc. unfold buffer. cbn.
  destruct (b_chans (tr n) !! ch) as [[[|x buf] cl]|]; try done. cbn in Hc.
  injection Hc as -> <-. by rewrite lookup_insert_eq.
Qed.

End delivery.
