(* ===== verification/Monitoring.v ===== *)
(** * Error monitoring

    Models [core/monitoring/monitoring.go] and [infra/monitoring/sentry.go]: the
    global monitor, its initialisation, and what reaches Sentry.  The Sentry
    library is outside: whether it initialises is an argument, and the events
    handed to it are recorded.

    Go's [recover] gives the value of a panic only to a function that is itself
    deferred; a call from any other function gives nil.  The depth of a call below
    the deferred one is kept explicit here. *)

From S2P Require Import Prelude Num PowerMap.
From stdpp Require Import base gmap strings list.
From Stdlib Require Import ZArith Lia.

#[local] Open Scope Z_scope.

Record SentryConfig (F : Type) := MkSentryConfig {
  sn_DSN : string;
  sn_Environment : string;
  sn_TracesSampleRate : F;
  sn_Release : string
}.
Arguments MkSentryConfig {F}.
Arguments sn_DSN {F}.
Arguments sn_Environment {F}.
Arguments sn_TracesSampleRate {F}.
Arguments sn_Release {F}.

Inductive Monitor := NopMonitor | SentryMonitor.

#[export] Instance Monitor_eq_dec : EqDecision Monitor.
Proof. solve_decision. Defined.

(** What Sentry is given. *)
Inductive sentry_event :=
| Captured (err : string) (tags : gmap string string)
| Recovered (panic : string).

(** A nil monitor is [None]. *)
Definition NewSentryMonitor {F} `{Num F} (cfg : SentryConfig F) (sentryInit : option string) :
    option Monitor * option string :=
  if bool_decide (sn_DSN cfg = "") then (Some NopMonitor, None)
  else if nltb (sn_TracesSampleRate cfg) n0 || nltb n1 (sn_TracesSampleRate cfg)
  then (None, Some "sentry traces_sample_rate must be between 0 and 1")
  else match sentryInit with
       | Some err => (None, Some err)
       | None => (Some SentryMonitor, None)
       end.

(** [Init]: the new value of [current]. *)
Definition Init (current : Monitor) (m : option Monitor) : Monitor := default current m.

(** [CaptureException]; a nil error is [None]. *)
Definition CaptureException `{!MapRange} (current : Monitor) (err : option string)
    (tags : gmap string string) : list sentry_event :=
  match current, err with
  | NopMonitor, _ | _, None => []
  | SentryMonitor, Some err =>
    if Nat.eqb (size tags) 0 then [Captured err ∅]
    else [Captured err (foldl (fun m '(k, v) => <[k := v]> m) ∅ (range_map tags))]
  end.

(** [recover()] called [depth] calls below the panicking function's deferred call,
    which is itself at depth 0. *)
Definition recover (depth : nat) (panic : option string) : option string :=
  match depth with O => panic | S _ => None end.

(** [Recover] of a monitor called at [depth]: the events, and the panic that goes
    on. *)
Definition monitor_Recover (m : Monitor) (depth : nat) (panic : option string) :
    list sentry_event * option string :=
  match m with
  | NopMonitor => ([], panic)
  | SentryMonitor =>
    match recover depth panic with
    | None => ([], panic)
    | Some r => ([Recovered r], Some r)
    end
  end.

(** [defer monitoring.Recover()]: the package's function is the deferred one and
    calls the method of the monitor. *)
Definition Recover (current : Monitor) (panic : option string) : list sentry_event * option string :=
  monitor_Recover current 1 panic.

(** The monitor of a process: what [run] installs at start. *)
Definition start_monitor {F} `{Num F} (cfg : SentryConfig F) (sentryInit : option string) : Monitor :=
  Init NopMonitor (NewSentryMonitor cfg sentryInit).1.

(** ** Facts *)

(** A configuration Sentry refuses leaves the no-op monitor; one it accepts gets
    every error with all its tags, whatever order they are set in. *)
Theorem monitor_captures {F} `{Num F} `{!MapRange} (cfg : SentryConfig F) sentryInit err tags :
  CaptureException (start_monitor cfg sentryInit) (Some err) tags =
  (if bool_decide (start_monitor cfg sentryInit = SentryMonitor) then [Captured err tags] else []) ∧
  (start_monitor cfg sentryInit = SentryMonitor ↔
   sn_DSN cfg ≠ "" ∧ nltb (sn_TracesSampleRate cfg) n0 = false ∧
   nltb n1 (sn_TracesSampleRate cfg) = false ∧ sentryInit = None).
Proof.
  split.
  - destruct (start_monitor cfg sentryInit); [done|]. cbn [CaptureException].
    rewrite bool_decide_eq_true_2 by done. destruct (Nat.eqb_spec (size tags) 0) as [Hs|Hs].
    + by apply map_size_empty_inv in Hs as ->.
    + by rewrite range_merge, map_union_empty.
  - unfold start_monitor, NewSentryMonitor. case_bool_decide; [naive_solver|].
    destruct (nltb _ n0), (nltb n1 _), sentryInit; naive_solver.
Qed.

(** A panic is never reported: [recover] is called one function too deep. *)
Theorem Recover_reports_nothing (current : Monitor) (panic : option string) :
  Recover current panic = ([], panic).
Proof. by destruct current. Qed.
