(* ===== verification/MqttClient.v ===== *)
(** * The MQTT client of the dispatcher

    Models [infra/mqtt/client.go]: how an order is published with retries, how
    acknowledgments reach the goroutine that waits for them, and the races
    between the two.  The broker is outside: whether a publish attempt succeeds
    is an argument, as is the command identifier ([uuid.NewString]) and the
    outcome of decoding a payload.  Logging and error reporting are left out. *)

From S2P Require Import Prelude Num GoTime Model PowerMap MathExp SmartDispatcher Tuner.
From stdpp Require Import base gmap strings list.
From Stdlib Require Import ZArith Lia.

#[local] Open Scope Z_scope.

(** The part of [PahoClient] the operations change: [ackChans] maps a command to
    its channel of capacity 1, [true] when it holds a signal. *)
Record PahoClient := MkPaho {
  pc_ackChans : gmap string bool;
  pc_maxRetries : Z;
  pc_backoff : Duration
}.

Definition set_ackChans (p : PahoClient) (m : gmap string bool) : PahoClient :=
  MkPaho m (pc_maxRetries p) (pc_backoff p).

(** The message of [json.Unmarshal]: [None] when the payload does not decode. *)
Definition onAck (p : PahoClient) (m : option string) : PahoClient :=
  match m with
  | None => p
  | Some cmdID =>
    match pc_ackChans p !! cmdID with
    | Some _ => set_ackChans p (<[cmdID := true]> (pc_ackChans p))
    | None => p
    end
  end.

(** [1 << attempt] as a 64-bit integer, then the product of two [Duration]s. *)
Definition backoff_delay (backoff : Duration) (attempt : nat) : Duration :=
  wrap64 (backoff * wrap64 (Z.shiftl 1 (Z.of_nat attempt))).

(** The retry loop: [publish attempt] is the error of [token.Error()], if any.
    Returns the last error, the number of attempts and the sleeps. *)
Fixpoint publish_retry (publish : nat → option go_error) (backoff : Duration)
    (budget attempt : nat) (publishErr : option go_error) : option go_error * nat * list Duration :=
  match budget with
  | O => (publishErr, attempt, [])
  | S budget =>
    match publish attempt with
    | None => (None, S attempt, [])
    | Some err =>
      let '(e, n, sleeps) := publish_retry publish backoff budget (S attempt) (Some err) in
      (e, n, backoff_delay backoff attempt :: sleeps)
    end
  end.

(** The defaults [SendOrder] writes into the client on first use. *)
Definition send_defaults (p : PahoClient) : PahoClient :=
  MkPaho (pc_ackChans p)
    (if pc_maxRetries p <=? 0 then 3 else pc_maxRetries p)
    (if pc_backoff p <=? 0 then 100 * Millisecond else pc_backoff p).

(** The registration of the acknowledgment channel, after the publish. *)
Definition register_ack (p : PahoClient) (cmdID : string) : PahoClient :=
  set_ackChans p (<[cmdID := false]> (pc_ackChans p)).

(** The whole of [SendOrder] when no acknowledgment arrives in between:
    [marshal] is the error of [json.Marshal], which rejects NaN and infinities. *)
Definition SendOrder (p : PahoClient) (cmdID : string) (marshal : option go_error)
    (publish : nat → option go_error) : PahoClient * (go_error + string) :=
  match marshal with
  | Some err => (p, inl err)
  | None =>
    let p := send_defaults p in
    match publish_retry publish (pc_backoff p) (S (Z.to_nat (pc_maxRetries p))) 0 None with
    | (Some err, _, _) => (p, inl err)
    | (None, _, _) => (register_ack p cmdID, inr cmdID)
    end
  end.

(** The two cases of the [select] of [WaitForAck]. *)
Inductive wait_case := case_ack | case_timer.

Definition err_unknown_command : go_error := ErrorString "unknown command".

(** [fmt.Errorf("%w", coremqtt.ErrAckTimeout)]. *)
Definition err_timeout : go_error := Wrapped "timeout waiting for ack" ErrAckTimeout.

(** [c] is the case the runtime picks; [case_ack] is only enabled when the
    channel holds a signal, else the call is still blocked ([None]). *)
Definition WaitForAck (p : PahoClient) (cmdID : string) (c : wait_case) :
    option (PahoClient * bool * option go_error) :=
  match (pc_ackChans p !! cmdID : option bool) with
  | None => Some (p, false, Some err_unknown_command)
  | Some full =>
    match c with
    | case_ack =>
      if full then Some (set_ackChans p (delete cmdID (pc_ackChans p)), true, None) else None
    | case_timer =>
      Some (set_ackChans p (delete cmdID (pc_ackChans p)), false, Some err_timeout)
    end
  end.

(** ** Retries *)

Lemma publish_retry_spec publish backoff budget attempt e0 e n sleeps :
  publish_retry publish backoff budget attempt e0 = (e, n, sleeps) →
  (attempt ≤ n ≤ attempt + budget)%nat ∧
  (e = None ↔ (∃ i, (attempt ≤ i < attempt + budget)%nat ∧ publish i = None) ∨ (budget = 0%nat ∧ e0 = None)) ∧
  sleeps = backoff_delay backoff <$> seq attempt (length sleeps) ∧
  (length sleeps ≤ budget)%nat ∧ (∀ i, (attempt ≤ i < attempt + length sleeps)%nat → publish i ≠ None).
Proof.
  revert attempt e0 e n sleeps. induction budget as [|budget IH]; intros attempt e0 e n sleeps Heq;
    cbn [publish_retry] in Heq.
  { injection Heq as <- <- <-. cbn. split_and!; try done; try lia.
    split; [by right|]. intros [(i & ? & _)|[_ ?]]; [lia|done]. }
  destruct (publish attempt) as [err|] eqn:Hp.
  - destruct (publish_retry _ _ budget _ _) as [[e1 n1] s1] eqn:Hrec. injection Heq as <- <- <-.
    apply IH in Hrec as (Hn & He & Hs & Hl & Hf). cbn [length]. split_and!; [lia|lia| | |lia|].
    + rewrite He. split.
      * intros [(i & Hi & Hpi)|[_ [=]]]. left. exists i. split; [lia|done].
      * intros [(i & Hi & Hpi)|[[=] _]]. left. exists i. split; [|done].
        destruct (decide (i = attempt)) as [->|]; [congruence|lia].
    + cbn. by rewrite <- Hs.
    + intros i Hi. destruct (decide (i = attempt)) as [->|]; [congruence|]. apply Hf. lia.
  - injection Heq as <- <- <-. cbn. split_and!; [lia|lia| |done|lia|intros; lia].
    split; [|done]. intros _. left. exists attempt. split; [lia|done].
Qed.

(** [SendOrder] succeeds exactly if the order marshals and one of the first
    [maxRetries + 1] attempts is accepted by the broker (4 attempts with the
    default settings); it then registers a fresh channel for the command, and
    otherwise leaves the channels as they were. *)
Theorem SendOrder_outcome p cmdID marshal publish p' r
    (Hsend : SendOrder p cmdID marshal publish = (p', r)) :
  let retries := if pc_maxRetries p <=? 0 then 3 else pc_maxRetries p in
  ((∃ id, r = inr id) ↔ marshal = None ∧ ∃ i : nat, Z.of_nat i <= retries ∧ publish i = None) ∧
  (∀ id, r = inr id → id = cmdID ∧ pc_ackChans p' = <[cmdID := false]> (pc_ackChans p)) ∧
  (∀ err, r = inl err → pc_ackChans p' = pc_ackChans p).
Proof.
  cbn zeta. unfold SendOrder in Hsend. destruct marshal as [err|].
  { injection Hsend as <- <-. split_and!; [|done|done]. split; [by intros [? ?]|by intros [? _]]. }
  destruct (publish_retry _ _ _ _ _) as [[e n] sleeps] eqn:Hp.
  apply publish_retry_spec in Hp as (_ & He & _). cbn [send_defaults pc_maxRetries] in He.
  set (retries := if _ <=? 0 then 3 else _) in *.
  assert (0 <= retries) as Hpos by (unfold retries; destruct (Z.leb_spec (pc_maxRetries p) 0); lia).
  assert (e = None ↔ ∃ i : nat, Z.of_nat i <= retries ∧ publish i = None) as He'.
  { rewrite He. split.
    - intros [(i & Hi & Hpi)|[[=] _]]. exists i. split; [lia|done].
    - intros (i & Hi & Hpi). left. exists i. split; [lia|done]. }
  destruct e as [err|]; injection Hsend as <- <-; split_and!; try done.
  - split; [by intros [? ?]|]. intros [_ Hi%He']. done.
  - split; [|by eauto]. intros _. split; [done|]. by apply He'.
  - by intros id [= <-].
Qed.

(** ** Orders and acknowledgments, interleaved *)

(** Where the goroutine of an order is: before the publish returns, between the
    publish and the registration, after [SendOrder], and at the end. *)
Inductive order_phase :=
| Published       (* the broker has the order, the channel does not exist yet *)
| Registered      (* [SendOrder] has returned, [WaitForAck] blocks on the channel *)
| Acked           (* [WaitForAck] returned true *)
| TimedOut.       (* [WaitForAck] returned an [ErrAckTimeout] *)

#[export] Instance order_phase_eq_dec : EqDecision order_phase.
Proof. solve_decision. Defined.

(** The client, the phase of each order, and two ghost sets: the orders an
    acknowledgment arrived for, and those it arrived for while registered. *)
Record mqtt_world := MkWorld {
  w_client : PahoClient;
  w_phase : gmap string order_phase;
  w_acks : gset string;
  w_heard : gset string
}.

(** The steps of all goroutines: identifiers are fresh ([uuid]); an
    acknowledgment may arrive for any command at any time. *)
Inductive mqtt_step : mqtt_world → mqtt_world → Prop :=
| m_publish p ph acks heard id :
    ph !! id = None → id ∉ acks →
    mqtt_step (MkWorld p ph acks heard) (MkWorld (send_defaults p) (<[id := Published]> ph) acks heard)
| m_register p ph acks heard id :
    ph !! id = Some Published →
    mqtt_step (MkWorld p ph acks heard) (MkWorld (register_ack p id) (<[id := Registered]> ph) acks heard)
| m_ack p ph acks heard id :
    is_Some (ph !! id) →
    mqtt_step (MkWorld p ph acks heard)
      (MkWorld (onAck p (Some id)) ph ({[id]} ∪ acks)
         (if decide (is_Some (pc_ackChans p !! id)) then {[id]} ∪ heard else heard))
| m_garbage p ph acks heard : mqtt_step (MkWorld p ph acks heard) (MkWorld (onAck p None) ph acks heard)
| m_wait p ph acks heard id c p' ack err :
    ph !! id = Some Registered → WaitForAck p id c = Some (p', ack, err) →
    mqtt_step (MkWorld p ph acks heard)
      (MkWorld p' (<[id := if ack then Acked else TimedOut]> ph) acks heard).

Definition mqtt_init (p : PahoClient) : Prop := pc_ackChans p = ∅.

(** A channel exists exactly while its order waits, and holds a signal exactly
    if an acknowledgment arrived in that time; only such orders end as acked. *)
Record mqtt_inv (w : mqtt_world) : Prop := {
  mi_chans id : is_Some (pc_ackChans (w_client w) !! id) ↔ w_phase w !! id = Some Registered;
  mi_signal id : pc_ackChans (w_client w) !! id = Some true → id ∈ w_heard w;
  mi_quiet id : pc_ackChans (w_client w) !! id = Some false → id ∉ w_heard w;
  mi_acked id : w_phase w !! id = Some Acked → id ∈ w_heard w;
  mi_heard : w_heard w ⊆ w_acks w;
  mi_early id : w_phase w !! id = Some Published → id ∉ w_heard w;
  mi_known id : id ∈ w_acks w → is_Some (w_phase w !! id)
}.

Lemma mqtt_inv_init p : mqtt_init p → mqtt_inv (MkWorld p ∅ ∅ ∅).
Proof.
  intros Hp. split; cbn; rewrite ?Hp; intros *; try done; try set_solver;
    rewrite ?lookup_empty; try done.
Qed.

Lemma mqtt_inv_step w w' : mqtt_inv w → mqtt_step w w' → mqtt_inv w'.
Proof.
  intros [Hch Hsig Hq Hack Hheard Hearly Hknown] Hst.
  destruct Hst as [p ph acks heard id Hid Hfr|p ph acks heard id Hid|p ph acks heard id Hid
                  |p ph acks heard|p ph acks heard id c p' ack err Hid Hw]; cbn in *.
  - assert (id ∉ heard) by set_solver.
    split; cbn; try done; intros k; rewrite ?lookup_insert; (try case_decide; [subst k|]); eauto; try done.
    rewrite Hch, Hid. done.
  - assert (id ∉ heard) by eauto.
    split; cbn; try done; intros k; rewrite ?lookup_insert; (try case_decide; [subst k|]); eauto; try done.
  - destruct (pc_ackChans p !! id) as [b|] eqn:Hb.
    + rewrite decide_True by (by eexists).
      assert (ph !! id = Some Registered) as Hr by (apply Hch; by rewrite Hb).
      split; cbn; intros *; rewrite ?lookup_insert; try case_decide; subst; try set_solver.
    + rewrite decide_False by (by intros []).
      split; cbn; eauto; set_solver.
  - done.
  - unfold WaitForAck in Hw.
    destruct (pc_ackChans p !! id) as [full|] eqn:Hb.
    2:{ exfalso. apply Hch in Hid as [? ?]. congruence. }
    assert (p' = set_ackChans p (delete id (pc_ackChans p)) ∧ (ack = true → full = true)) as [-> Ha].
    { destruct c; [destruct full; [|done]|]; injection Hw as <- <- <-; done. }
    split; cbn; try done; intros k; rewrite ?lookup_insert, ?lookup_delete; try case_decide; subst; eauto; try done.
    + destruct ack; by split; [intros []|].
    + destruct ack; [|done]. intros _. apply Hsig. by rewrite Hb, Ha.
    + by destruct ack.
Qed.

Lemma mqtt_inv_reachable p w :
  mqtt_init p → rtc mqtt_step (MkWorld p ∅ ∅ ∅) w → mqtt_inv w.
Proof.
  intros Hp. revert w. apply rtc_ind_r; [by apply mqtt_inv_init|].
  intros w1 w2 _ Hst IH. by eapply mqtt_inv_step.
Qed.

(** C22. In every interleaving: [WaitForAck] returns true only for an order whose
    acknowledgment arrived while its channel existed, and then it can; while no
    such acknowledgment has arrived the only way out is the timeout, reported as
    an [ErrAckTimeout]; a waiting order is never an unknown command, and a
    finished order leaves no channel behind. *)
Theorem WaitForAck_correct p w id
    (Hp : mqtt_init p) (Hreach : rtc mqtt_step (MkWorld p ∅ ∅ ∅) w) :
  (w_phase w !! id = Some Acked → id ∈ w_heard w ∧ id ∈ w_acks w) ∧
  (w_phase w !! id = Some Registered →
     (id ∈ w_heard w → ∃ p', WaitForAck (w_client w) id case_ack = Some (p', true, None)) ∧
     (id ∉ w_heard w → WaitForAck (w_client w) id case_ack = None) ∧
     ∃ p', WaitForAck (w_client w) id case_timer = Some (p', false, Some err_timeout) ∧
           is_ack_timeout err_timeout = true) ∧
  (w_phase w !! id = Some Acked ∨ w_phase w !! id = Some TimedOut →
     pc_ackChans (w_client w) !! id = None).
Proof.
  apply mqtt_inv_reachable in Hreach as [Hch Hsig Hq Hack Hheard _ _]; [|done]. split_and!.
  - intros Ha%Hack. split; [done|]. by apply Hheard.
  - intros Hr. pose proof Hr as [full Hf]%Hch. unfold WaitForAck. rewrite Hf. split_and!.
    + intros Hh. destruct full; [by eexists|]. by apply Hq in Hf.
    + intros Hn. destruct full; [|done]. by apply Hsig in Hf.
    + by eexists.
  - intros Hd. apply eq_None_not_Some. rewrite Hch. destruct Hd as [-> | ->]; congruence.
Qed.

