(* ===== verification/MqttSetup.v ===== *)
(** * Connecting to the broker

    Models the rest of [infra/mqtt/client.go] (the configuration, the options of
    the Paho client and the TLS configuration), the constructor and [Close] of
    [infra/mqtt/discovery.go], and the connection part of [NewManager] in
    [infra/telemetry/manager.go].  The Paho and TLS libraries are outside: the
    options are the record of what the code sets, and whether a connection, a
    key pair or a file loads is an argument.  Identifiers that end in a fresh
    UUID take it as an argument. *)

From S2P Require Import Prelude Num GoTime GoText MqttClient.
From stdpp Require Import base gmap strings list.
From Stdlib Require Import ZArith Lia.

#[local] Open Scope Z_scope.

(** What the code looks at in a [tls.Config]. *)
Record TLSConfig := MkTLS { tls_Certificates : nat; tls_GetCertificate : bool }.

(** [TLSConfig] has the JSON name ["-"]: the decoder never sets it. *)
Record MqttConfig := MkMqttConfig {
  mq_Broker : string;
  mq_ClientID : string;
  mq_Username : string;
  mq_Password : string;
  mq_AckTopic : string;
  mq_UseTLS : bool;
  mq_ClientCert : string;
  mq_ClientKey : string;
  mq_CABundle : string;
  mq_AuthMethod : string;
  mq_QoS : gmap string Z;
  mq_LWTTopic : string;
  mq_LWTPayload : string;
  mq_LWTQoS : Z;
  mq_LWTRetain : bool;
  mq_MaxRetries : Z;
  mq_BackoffMS : Z;
  mq_TLSConfig : option TLSConfig
}.

(** [paho.ClientOptions]: what the code sets. *)
Record ClientOptions := MkOptions {
  op_Broker : string;
  op_ClientID : string;
  op_AutoReconnect : bool;
  op_Username : string;
  op_Password : string;
  op_TLS : option TLSConfig;
  op_Will : option (string * string * Z * bool)
}.

(** Loading files: the error, if any. *)
Record TLSFiles := MkTLSFiles {
  tf_keyPair : string → string → option string;
  tf_read : string → option string
}.

Definition LoadTLSConfig (files : TLSFiles) (c : MqttConfig) : string + TLSConfig :=
  match mq_TLSConfig c with
  | Some t => inr t
  | None =>
    if bool_decide (mq_ClientCert c = "") || bool_decide (mq_ClientKey c = "")
       || bool_decide (mq_CABundle c = "")
    then inl "tls config requires client_cert, client_key and ca_bundle" else
    match tf_keyPair files (mq_ClientCert c) (mq_ClientKey c) with
    | Some err => inl ("load cert: " +:+ err)
    | None =>
      match tf_read files (mq_CABundle c) with
      | Some err => inl ("read ca: " +:+ err)
      | None => inr (MkTLS 1 false)
      end
    end
  end.

(** Whether the authentication method uses the user name and the password. *)
Definition password_auth (c : MqttConfig) : bool :=
  bool_decide (mq_AuthMethod c = "username_password") || bool_decide (mq_AuthMethod c = "both")
  || bool_decide (mq_AuthMethod c = "").

(** An unset option is the empty string, as in a new [ClientOptions]. *)
Definition NewClientOptions (files : TLSFiles) (c : MqttConfig) : string + ClientOptions :=
  let user := if password_auth c then mq_Username c else "" in
  let pass := if password_auth c then mq_Password c else "" in
  match (if mq_UseTLS c then
           match LoadTLSConfig files c with inl err => inl err | inr t => inr (Some t) end
         else inr None) with
  | inl err => inl err
  | inr tls =>
    inr (MkOptions (mq_Broker c) (mq_ClientID c) true user pass tls
      (if bool_decide (mq_LWTTopic c = "") then None
       else Some (mq_LWTTopic c, mq_LWTPayload c, mq_LWTQoS c, mq_LWTRetain c)))
  end.

(** ** The dispatcher's client *)

(** The handler [OnConnect]: the subscription it makes. *)
Definition ack_subscription (c : MqttConfig) : string * Z :=
  (mq_AckTopic c, default 0 (mq_QoS c !! "ack")).

(** [connect] is the error of the connection.  The client's state, its options
    and the subscription it makes whenever it connects. *)
Definition NewPahoClient (files : TLSFiles) (connect : ClientOptions → option string) (c : MqttConfig) :
    string + (PahoClient * ClientOptions * (string * Z)) :=
  match NewClientOptions files c with
  | inl err => inl err
  | inr opts =>
    match connect opts with
    | Some err => inl err
    | None =>
      inr (MkPaho ∅ (mq_MaxRetries c) (wrap64 (mq_BackoffMS c * Millisecond)), opts, ack_subscription c)
    end
  end.

(** [Disconnect] and the discovery's [Close]: whether they call the client's
    [Disconnect(250)]. *)
Definition Disconnect (hasClient connected : bool) : bool := hasClient && connected.

(** ** The discovery's client *)

Definition discovery_id (c : MqttConfig) (uuid : string) : string :=
  if bool_decide (mq_ClientID c = "") then "discovery-" +:+ uuid else mq_ClientID c +:+ "-discovery".

Definition discovery_options (c : MqttConfig) (uuid : string) : string + ClientOptions :=
  if mq_UseTLS c then
    match mq_TLSConfig c with
    | None => inl "mqtt tls enabled but TLSConfig is nil"
    | Some t =>
      if Nat.eqb (tls_Certificates t) 0 && negb (tls_GetCertificate t)
      then inl "tls config missing certificate"
      else inr (MkOptions (mq_Broker c) (discovery_id c uuid) true (mq_Username c) (mq_Password c)
                  (Some t) None)
    end
  else inr (MkOptions (mq_Broker c) (discovery_id c uuid) true (mq_Username c) (mq_Password c) None None).

Record FleetDiscovery := MkPahoDiscovery {
  dv_broadcastTopic : string;
  dv_responseTopic : string;
  dv_magicWord : string
}.

Definition NewPahoFleetDiscovery (connect : ClientOptions → option string) (c : MqttConfig)
    (uuid broadcast response magic : string) : string + (FleetDiscovery * ClientOptions) :=
  match discovery_options c uuid with
  | inl err => inl err
  | inr opts =>
    match connect opts with
    | Some err => inl ("mqtt connect " +:+ mq_Broker c +:+ ": " +:+ err)
    | None => inr (MkPahoDiscovery broadcast response magic, opts)
    end
  end.

(** ** The telemetry's client *)

Definition telemetry_id (c : MqttConfig) (uuid : string) : string :=
  if bool_decide (mq_ClientID c = "") then "telemetry-" +:+ uuid else mq_ClientID c +:+ "-telemetry".

Definition set_ClientID (id : string) (o : ClientOptions) : ClientOptions :=
  MkOptions (op_Broker o) id (op_AutoReconnect o) (op_Username o) (op_Password o) (op_TLS o) (op_Will o).

Definition telemetry_connect (files : TLSFiles) (connect : ClientOptions → option string)
    (c : MqttConfig) (uuid : string) : string + ClientOptions :=
  match NewClientOptions files c with
  | inl err => inl err
  | inr opts =>
    let opts := set_ClientID (telemetry_id c uuid) opts in
    match connect opts with
    | Some err => inl err
    | None => inr opts
    end
  end.

(** ** Facts *)

(** What the options of the client say: the credentials are there only under an
    authentication method that uses them, TLS exactly when it is asked for,
    with the certificate of the configuration, and the will when it has a
    topic. *)
Theorem NewClientOptions_spec files c opts (Hopts : NewClientOptions files c = inr opts) :
  op_Broker opts = mq_Broker c ∧ op_ClientID opts = mq_ClientID c ∧ op_AutoReconnect opts = true ∧
  (password_auth c = false → op_Username opts = "" ∧ op_Password opts = "") ∧
  (password_auth c = true → op_Username opts = mq_Username c ∧ op_Password opts = mq_Password c) ∧
  (is_Some (op_TLS opts) ↔ mq_UseTLS c = true) ∧
  (is_Some (op_Will opts) ↔ mq_LWTTopic c ≠ "").
Proof.
  unfold NewClientOptions in Hopts.
  destruct (mq_UseTLS c) eqn:Htls;
    [destruct (LoadTLSConfig files c) as [err|t] eqn:Hl; [done|]|];
    injection Hopts as <-; cbn; destruct (password_auth c); split_and!; try done;
    case_bool_decide; split; try done; intros [? [=]] || eauto.
Qed.

Lemma suffix_neq (s t : string) (a : Ascii.ascii) (u : string) :
  s +:+ String a u = s +:+ t → t = String a u.
Proof. induction s as [|b s IH]; cbn; [done|]. intros [= Heq]. by apply IH. Qed.

Lemma append_neq (s : string) (a : Ascii.ascii) (u : string) : s ≠ s +:+ String a u.
Proof. induction s as [|b s IH]; cbn; [done|]. intros [= Heq]. by apply IH. Qed.

(** The three connections of the service use pairwise different client
    identifiers, so the broker does not drop one for another. *)
Lemma client_ids_distinct c uuid uuid' :
  NoDup [mq_ClientID c; discovery_id c uuid; telemetry_id c uuid'].
Proof.
  unfold discovery_id, telemetry_id. case_bool_decide as He.
  - rewrite He. repeat constructor; rewrite ?elem_of_cons, ?elem_of_nil;
      intros Hin; repeat destruct Hin as [Hin|Hin]; done.
  - repeat constructor; rewrite ?elem_of_cons, ?elem_of_nil; intros Hin;
      repeat destruct Hin as [Hin|Hin]; try done.
    + by apply append_neq in Hin.
    + by apply append_neq in Hin.
    + apply suffix_neq in Hin. done.
Qed.

(** With TLS, a configuration read from a file connects the dispatcher but
    never the discovery: the first loads the files it names, the second wants a
    [TLSConfig] that nothing sets. *)
Lemma discovery_needs_TLSConfig connect c uuid broadcast response magic :
  mq_UseTLS c = true → mq_TLSConfig c = None →
  NewPahoFleetDiscovery connect c uuid broadcast response magic =
  inl "mqtt tls enabled but TLSConfig is nil".
Proof. intros Ht Hn. unfold NewPahoFleetDiscovery, discovery_options. by rewrite Ht, Hn. Qed.

(** The discovery sends the password whatever the authentication method; the
    dispatcher's client does not. *)
Theorem discovery_leaks_password files c uuid opts dopts
    (Hauth : mq_AuthMethod c = "tls") (Hpass : mq_Password c ≠ "")
    (Hopts : NewClientOptions files c = inr opts) (Hdisc : discovery_options c uuid = inr dopts) :
  op_Password opts = "" ∧ op_Password dopts = mq_Password c.
Proof.
  unfold NewClientOptions, password_auth in Hopts. rewrite Hauth in Hopts. cbn in Hopts.
  split.
  - destruct (mq_UseTLS c); [destruct (LoadTLSConfig files c); [done|]|]; by injection Hopts as <-.
  - unfold discovery_options in Hdisc.
    destruct (mq_UseTLS c); [destruct (mq_TLSConfig c); [|done]; destruct (_ && _); [done|]|];
      by injection Hdisc as <-.
Qed.
