(* ===== verification/Manager.v ===== *)
(** * [DispatchManager]

    Models [core/dispatch/manager.go]: the whole handler of a flexibility signal,
    from discovery to tuning.  What the outside answers in one call (discovery,
    the MQTT client, the clock) is the argument [Env]; what the manager does to
    the outside is the list of effects it returns.  The goroutines of
    [dispatchAssignments] finish in the order [env_order] gives, in which their
    locked updates run.  Log output is left out; the Prometheus collectors are in
    [Collectors].  [None] is a panic of the LP code or exhausted fuel. *)

From S2P Require Import Prelude Num GoTime Model PowerMap Candidates MathExp EqualDispatcher.
From S2P Require Import SmartDispatcher SmartDelivery LPDispatcher SegmentedDispatcher.
From S2P Require Import VehicleStatus DispatchLog Tuner Fallback.
From stdpp Require Import base gmap strings list.
From Stdlib Require Import ZArith QArith Qabs Lqa Lia.

#[local] Open Scope Z_scope.

(** ** Collaborators *)

(** The implementations of the interface [Dispatcher]. *)
Inductive Dispatcher (F : Type) :=
| DEqual
| DSmart (d : SmartDispatcher F)
| DLP (d : SmartDispatcher F)
| DSegmented (segs : segments F).
Arguments DEqual {F}.
Arguments DSmart {F}.
Arguments DLP {F}.
Arguments DSegmented {F}.

(** [lpDispatcher]: nil, the same object as [dispatcher], or one of its own. *)
Inductive lp_ref (F : Type) := LPNone | LPShared | LPOwn (d : SmartDispatcher F).
Arguments LPNone {F}.
Arguments LPShared {F}.
Arguments LPOwn {F}.

(** The implementations of [FallbackStrategy], with the vehicles they hold. *)
Inductive FallbackStrategy (F : Type) :=
| FNoop
| FBalanced (vehicles : fleet F)
| FProbabilistic (vehicles : fleet F).
Arguments FNoop {F}.
Arguments FBalanced {F}.
Arguments FProbabilistic {F}.

(** The optional interfaces a [MetricsSink] implements. *)
Record SinkCaps := MkCaps {
  cap_FleetSize : bool;
  cap_Availability : bool;
  cap_Latency : bool;
  cap_Order : bool
}.

(** [prediction.PredictionEngine]. *)
Record PredictionEngine (F : Type) := MkPrediction {
  PredictAvailability : string → Time → F;
  ForecastSoC : string → Duration → list F
}.
Arguments MkPrediction {F}.
Arguments PredictAvailability {F}.
Arguments ForecastSoC {F}.

(** [mqtt.Client]: what its calls return during one dispatch, in which every
    vehicle is sent at most one order. *)
Record Client (F : Type) := MkClient {
  cl_SendOrder : string → F → go_error + string;
  cl_WaitForAck : string → Duration → bool * option go_error
}.
Arguments MkClient {F}.
Arguments cl_SendOrder {F}.
Arguments cl_WaitForAck {F}.

Record Env (F : Type) := MkEnv {
  env_discover : go_error + list (Vehicle F);
  env_client : Client F;
  env_latency : string → Duration;
  env_order : list (string * F) → list (string * F);
  env_now : Time
}.
Arguments MkEnv {F}.
Arguments env_discover {F}.
Arguments env_client {F}.
Arguments env_latency {F}.
Arguments env_order {F}.
Arguments env_now {F}.

(** Any order of completion may occur. *)
Definition env_fair {F} (env : Env F) : Prop := ∀ l, env_order env l ≡ₚ l.

(** ** Effects *)

Record DispatchLatency := MkLatency {
  dl_VehicleID : string;
  dl_Signal : SignalType;
  dl_Acknowledged : bool;
  dl_Latency : Duration
}.

Record DispatchOrderEvent (F : Type) := MkOrderEvent {
  oe_OrderID : string;
  oe_VehicleID : string;
  oe_Signal : SignalType;
  oe_PowerKW : F;
  oe_Score : F;
  oe_MarketPrice : F;
  oe_Accepted : bool;
  oe_Time : Time
}.
Arguments MkOrderEvent {F}.
Arguments oe_OrderID {F}.
Arguments oe_VehicleID {F}.
Arguments oe_Signal {F}.
Arguments oe_PowerKW {F}.
Arguments oe_Score {F}.
Arguments oe_MarketPrice {F}.
Arguments oe_Accepted {F}.
Arguments oe_Time {F}.

Record AckEvent := MkAckEvent {
  ae_OrderID : string;
  ae_VehicleID : string;
  ae_Signal : SignalType;
  ae_Acknowledged : bool;
  ae_Err : option go_error;
  ae_Latency : Duration
}.

Record StrategyEvent := MkStrategyEvent {
  se_Signal : SignalType;
  se_Action : string;
  se_Err : option lp_error
}.

(** [metrics.DispatchResult]. *)
Record MetricResult (F : Type) := MkMetricResult {
  mr_Signal : FlexibilitySignal F;
  mr_StartTime : Time;
  mr_EndTime : Time;
  mr_VehicleID : string;
  mr_PowerKW : F;
  mr_Score : F;
  mr_MarketPrice : F;
  mr_Acknowledged : bool;
  mr_DispatchTime : Time
}.
Arguments MkMetricResult {F}.
Arguments mr_Signal {F}.
Arguments mr_StartTime {F}.
Arguments mr_EndTime {F}.
Arguments mr_VehicleID {F}.
Arguments mr_PowerKW {F}.
Arguments mr_Score {F}.
Arguments mr_MarketPrice {F}.
Arguments mr_Acknowledged {F}.
Arguments mr_DispatchTime {F}.

Record VehicleAvailability (F : Type) := MkAvailability {
  va_VehicleID : string;
  va_Probability : F;
  va_Time : Time
}.
Arguments MkAvailability {F}.
Arguments va_VehicleID {F}.
Arguments va_Probability {F}.
Arguments va_Time {F}.

Inductive effect (F : Type) :=
| ESendOrder (id : string) (power : F)                 (* publisher.SendOrder *)
| ESignal (s : FlexibilitySignal F)                    (* bus.Publish *)
| EStrategy (ev : StrategyEvent)
| EAck (ev : AckEvent)
| EFleetSize (n : Z)                                   (* the metrics sink *)
| EAvailability (recs : list (VehicleAvailability F))
| EOrder (ev : DispatchOrderEvent F)
| EResults (recs : list (MetricResult F))
| ELatency (recs : list DispatchLatency).
Arguments ESendOrder {F}.
Arguments ESignal {F}.
Arguments EStrategy {F}.
Arguments EAck {F}.
Arguments EFleetSize {F}.
Arguments EAvailability {F}.
Arguments EOrder {F}.
Arguments EResults {F}.
Arguments ELatency {F}.

(** ** State *)

(** [tuner] is an [AckBasedTuner] bound to the manager's own dispatcher. *)
Record DispatchManager (F : Type) := MkManager {
  m_dispatcher : Dispatcher F;
  m_lpDispatcher : lp_ref F;
  m_lpFirst : gmap SignalType bool;
  m_fallback : FallbackStrategy F;
  m_discovery : bool;
  m_ackTimeout : Duration;
  m_metrics : option SinkCaps;
  m_bus : bool;
  m_tuner : option (AckBasedTuner F);
  m_prediction : option (PredictionEngine F);
  m_store : option (list (LogRecord F));
  m_statusStore : option (MemoryStore F);
  m_history : list (DispatchResult F)
}.
Arguments MkManager {F}.
Arguments m_dispatcher {F}.
Arguments m_lpDispatcher {F}.
Arguments m_lpFirst {F}.
Arguments m_fallback {F}.
Arguments m_discovery {F}.
Arguments m_ackTimeout {F}.
Arguments m_metrics {F}.
Arguments m_bus {F}.
Arguments m_tuner {F}.
Arguments m_prediction {F}.
Arguments m_store {F}.
Arguments m_statusStore {F}.
Arguments m_history {F}.

(** Which dispatcher [dispatchStrategy] returns as the one used. *)
Inductive used_ref := UsedDispatcher | UsedLP.

Section manager.
Context {F : Type} `{Num F} `{!MathExp F} `{!MapRange} (simplex : LPSolver F).
#[local] Open Scope num_scope.
Implicit Types (m : DispatchManager F) (env : Env F) (signal : FlexibilitySignal F).

(** ** Construction and settings *)

(** [filter] and [publisher] are [false] for nil; the dispatcher and the
    fallback are [None] for nil. *)
Definition NewDispatchManager (filter publisher : bool) (dispatcher : option (Dispatcher F))
    (fallback : option (FallbackStrategy F)) (ackTimeout : Duration) (sink : option SinkCaps)
    (bus disc : bool) (tuner : option (AckBasedTuner F)) (pred : option (PredictionEngine F)) :
    string + DispatchManager F :=
  match filter, dispatcher, fallback, publisher with
  | true, Some dispatcher, Some fallback, true =>
    let ackTimeout := if (ackTimeout <=? 0)%Z then (5 * Second)%Z else ackTimeout in
    let lp := match dispatcher with
              | DLP _ => LPShared
              | DSmart d => LPOwn d
              | _ => LPNone
              end in
    inr (MkManager dispatcher lp ∅ fallback disc ackTimeout sink bus tuner pred None None [])
  | _, _, _, _ => inl "dispatch: nil parameter provided to NewDispatchManager"
  end.

Definition set_lpFirst (l : gmap SignalType bool) m : DispatchManager F :=
  MkManager (m_dispatcher m) (m_lpDispatcher m) l (m_fallback m) (m_discovery m) (m_ackTimeout m)
    (m_metrics m) (m_bus m) (m_tuner m) (m_prediction m) (m_store m) (m_statusStore m) (m_history m).

Definition set_dispatchers (d : Dispatcher F) (lp : lp_ref F) m : DispatchManager F :=
  MkManager d lp (m_lpFirst m) (m_fallback m) (m_discovery m) (m_ackTimeout m)
    (m_metrics m) (m_bus m) (m_tuner m) (m_prediction m) (m_store m) (m_statusStore m) (m_history m).

Definition set_fallback (f : FallbackStrategy F) m : DispatchManager F :=
  MkManager (m_dispatcher m) (m_lpDispatcher m) (m_lpFirst m) f (m_discovery m) (m_ackTimeout m)
    (m_metrics m) (m_bus m) (m_tuner m) (m_prediction m) (m_store m) (m_statusStore m) (m_history m).

Definition set_stores (st : option (list (LogRecord F))) (ss : option (MemoryStore F)) m :
    DispatchManager F :=
  MkManager (m_dispatcher m) (m_lpDispatcher m) (m_lpFirst m) (m_fallback m) (m_discovery m)
    (m_ackTimeout m) (m_metrics m) (m_bus m) (m_tuner m) (m_prediction m) st ss (m_history m).

Definition set_history (h : list (DispatchResult F)) m : DispatchManager F :=
  MkManager (m_dispatcher m) (m_lpDispatcher m) (m_lpFirst m) (m_fallback m) (m_discovery m)
    (m_ackTimeout m) (m_metrics m) (m_bus m) (m_tuner m) (m_prediction m) (m_store m)
    (m_statusStore m) h.

(** A nil map ([None]) is ignored; another one is copied. *)
Definition SetLPFirst m (cfg : option (gmap SignalType bool)) : DispatchManager F :=
  match cfg with
  | None => m
  | Some cfg => set_lpFirst (foldl (fun l '(k, v) => <[k := v]> l) ∅ (range_map cfg)) m
  end.

Definition SetLogStore m (store : list (LogRecord F)) : DispatchManager F :=
  set_stores (Some store) (m_statusStore m) m.

Definition SetStatusStore m (store : MemoryStore F) : DispatchManager F :=
  set_stores (m_store m) (Some store) m.

(** ** Strategy *)

(** [Dispatch] through the interface: the result and the object afterwards. *)
Definition dispatcher_Dispatch (fuel : nat) (d : Dispatcher F) (vs : list (Vehicle F)) signal :
    option (gmap string F * Dispatcher F) :=
  match d with
  | DEqual => a ← EqualDispatch vs signal; Some (a, DEqual)
  | DSmart sd => '(a, sd) ← SmartDispatch fuel sd vs signal; Some (a, DSmart sd)
  | DLP sd => '(a, sd) ← LPDispatch simplex fuel sd vs signal; Some (a, DLP sd)
  | DSegmented segs => a ← SegmentedDispatch simplex fuel segs vs signal; Some (a, DSegmented segs)
  end.

(** The object [m.lpDispatcher] points to. *)
Definition lp_object m : option (SmartDispatcher F) :=
  match m_lpDispatcher m with
  | LPNone => None
  | LPOwn d => Some d
  | LPShared => match m_dispatcher m with DLP d => Some d | _ => None end
  end.

(** The manager after a call changed that object. *)
Definition lp_update m (d : SmartDispatcher F) : DispatchManager F :=
  match m_lpDispatcher m with
  | LPNone => m
  | LPOwn _ => set_dispatchers (m_dispatcher m) (LPOwn d) m
  | LPShared => set_dispatchers (DLP d) LPShared m
  end.

Definition bus_event m (e : effect F) : list (effect F) := if m_bus m then [e] else [].

Definition strategy_event m (t : SignalType) (action : string) (err : option lp_error) :
    list (effect F) := bus_event m (EStrategy (MkStrategyEvent t action err)).

Definition dispatchStrategy (fuel : nat) m (vs : list (Vehicle F)) signal :
    option (gmap string F * used_ref * DispatchManager F * list (effect F)) :=
  let lpFirst := default false (m_lpFirst m !! sig_Type signal) in
  match lp_object m with
  | Some lp =>
    if lpFirst then
      let attempt := strategy_event m (sig_Type signal) "lp_attempt" None in
      '(asn, err, lp) ← DispatchStrict simplex lp vs signal;
      let m := lp_update m lp in
      match err with
      | None => Some (default ∅ asn, UsedLP, m, attempt)
      | Some err =>
        let failure := strategy_event m (sig_Type signal) "lp_failure" (Some err) in
        '(a, d) ← dispatcher_Dispatch fuel (m_dispatcher m) vs signal;
        Some (a, UsedDispatcher, set_dispatchers d (m_lpDispatcher m) m,
              attempt ++ failure ++ strategy_event m (sig_Type signal) "smart_fallback" None)
      end
    else
      '(a, d) ← dispatcher_Dispatch fuel (m_dispatcher m) vs signal;
      Some (a, UsedDispatcher, set_dispatchers d (m_lpDispatcher m) m, [])
  | None =>
    '(a, d) ← dispatcher_Dispatch fuel (m_dispatcher m) vs signal;
    Some (a, UsedDispatcher, set_dispatchers d (m_lpDispatcher m) m, [])
  end.

(** The type assertions to [ScoringDispatcher] and [MarketPriceProvider]. *)
Definition used_smart m (used : used_ref) : option (SmartDispatcher F) :=
  match used with
  | UsedLP => lp_object m
  | UsedDispatcher => match m_dispatcher m with DSmart d | DLP d => Some d | _ => None end
  end.

(** ** Orders *)

(** [sendAndWait]: the order identifier, the acknowledgment, the latency and
    the error. *)
Definition sendAndWait m env (id : string) (power : F) :
    string * bool * Duration * option go_error :=
  match cl_SendOrder (env_client env) id power with
  | inl err => ("", false, env_latency env id, Some err)
  | inr cmdID =>
    let '(ack, err) := cl_WaitForAck (env_client env) cmdID (m_ackTimeout m) in
    (cmdID, ack, env_latency env id, err)
  end.

Definition ok_ack (ack : bool) (err : option go_error) : bool :=
  match err with None => ack | Some _ => false end.

(** What the goroutines share: [res.Errors], [res.Acknowledged], [lat] and
    [ackCount]. *)
Record order_state := MkOrderState {
  os_Errors : gmap string go_error;
  os_Acknowledged : gmap string bool;
  os_lat : list DispatchLatency;
  os_ackCount : Z
}.

(** The closure [update]. *)
Definition update m signal (recordLatency : bool) (st : order_state) (id orderID : string)
    (ack : bool) (err : option go_error) (dur : Duration) : order_state * list (effect F) :=
  (MkOrderState
     (match err with Some e => <[id := e]> (os_Errors st) | None => os_Errors st end)
     (<[id := ok_ack ack err]> (os_Acknowledged st))
     (if recordLatency
      then os_lat st ++ [MkLatency id (sig_Type signal) (ok_ack ack err) dur] else os_lat st)
     (if ok_ack ack err then (os_ackCount st + 1)%Z else os_ackCount st),
   bus_event m (EAck (MkAckEvent orderID id (sig_Type signal) (ok_ack ack err) err dur))).

Definition sink_has (cap : SinkCaps → bool) m : bool :=
  match m_metrics m with Some c => cap c | None => false end.

(** The body of a goroutine. *)
Definition order_goroutine m env (res : DispatchResult F) signal (recordLatency : bool)
    (acc : order_state * list (effect F)) (idp : string * F) : order_state * list (effect F) :=
  let '(st, eff) := acc in
  let '(id, p) := idp in
  let '(orderID, ack, d, err) := sendAndWait m env id p in
  let '(st, ev) := update m signal recordLatency st id orderID ack err d in
  let rec := if sink_has cap_Order m
             then [EOrder (MkOrderEvent orderID id (sig_Type signal) p (mget (dr_Scores res) id)
                             (dr_MarketPrice res) (ok_ack ack err) (env_now env))]
             else [] in
  (st, eff ++ ESendOrder id p :: ev ++ rec).

Definition dispatchAssignments m env (res : DispatchResult F) signal (recordLatency : bool) :
    DispatchResult F * list DispatchLatency * list (effect F) :=
  let '(st, eff) :=
    foldl (order_goroutine m env res signal recordLatency)
      (MkOrderState (dr_Errors res) (dr_Acknowledged res) [] 0, [])
      (env_order env (range_map (dr_Assignments res))) in
  (MkResult (dr_Assignments res) (dr_FallbackAssignments res) (os_Errors st) (os_Acknowledged st)
     (dr_Signal res) (dr_MarketPrice res) (dr_Scores res), os_lat st, eff).

Definition unacknowledged (all : list (Vehicle F)) (acks : gmap string bool) : list (Vehicle F) :=
  List.filter (fun v => negb (bget acks (ID v))) all.

(** ** The steps of [Dispatch] *)

(** Discovery, when no vehicles are given. *)
Definition discover_vehicles m env (vehicles : list (Vehicle F)) : list (Vehicle F) * list (effect F) :=
  if Nat.eqb (length vehicles) 0 && m_discovery m then
    match env_discover env with
    | inr vs => (vs, if sink_has cap_FleetSize m then [EFleetSize (Z.of_nat (length vs))] else [])
    | inl _ => (vehicles, [])
    end
  else (vehicles, []).

(** The prediction loop: availability and the last forecast SoC. *)
Definition predict_vehicle (pred : PredictionEngine F) signal (horizon : Duration) (v : Vehicle F) :
    Vehicle F :=
  let v := set_AvailabilityProb
             (PredictAvailability pred (ID v) (GoTime.Add (Timestamp signal) horizon)) v in
  match last (ForecastSoC pred (ID v) horizon) with
  | Some soc => set_SoC soc v
  | None => v
  end.

Definition apply_prediction m env signal (filtered : list (Vehicle F)) :
    list (Vehicle F) * list (effect F) :=
  match m_prediction m with
  | None => (filtered, [])
  | Some pred =>
    let horizon := if (sig_Duration signal <=? 0)%Z then Hour else sig_Duration signal in
    let vs := predict_vehicle pred signal horizon <$> filtered in
    let avrecs := (fun v => MkAvailability (ID v) (AvailabilityProb v) (env_now env)) <$> vs in
    (vs, if sink_has cap_Availability m && negb (Nat.eqb (length avrecs) 0)
         then [EAvailability avrecs] else [])
  end.

(** [VehicleAwareFallback.SetVehicles]. *)
Definition fallback_SetVehicles (f : FallbackStrategy F) (vs : list (Vehicle F)) : FallbackStrategy F :=
  match f with
  | FNoop => FNoop
  | FBalanced _ => FBalanced (SetVehicles vs)
  | FProbabilistic _ => FProbabilistic (ProbabilisticSetVehicles vs)
  end.

Definition fallback_Reallocate (fuel : nat) (f : FallbackStrategy F) (failed : list (Vehicle F))
    (current : gmap string F) signal : option (gmap string F) :=
  match f with
  | FNoop => Some (NoopReallocate failed current signal)
  | FBalanced vs => BalancedReallocate vs fuel failed current signal
  | FProbabilistic vs => ProbabilisticReallocate vs fuel failed current signal
  end.

Definition recordMetrics m (res : DispatchResult F) (lat : list DispatchLatency)
    (hasLatency : bool) : list (effect F) :=
  match m_metrics m with
  | None => []
  | Some _ =>
    let recs := (fun '(vid, p) =>
      MkMetricResult (dr_Signal res) (Timestamp (dr_Signal res))
        (GoTime.Add (Timestamp (dr_Signal res)) (sig_Duration (dr_Signal res))) vid p
        (mget (dr_Scores res) vid) (dr_MarketPrice res) (bget (dr_Acknowledged res) vid)
        (Timestamp (dr_Signal res))) <$> range_map (dr_Assignments res) in
    EResults recs :: if hasLatency then [ELatency lat] else []
  end.

Definition log_record env (res : DispatchResult F) signal (filtered : list (Vehicle F)) : LogRecord F :=
  MkLogRecord (env_now env) signal (PowerKW signal) (ID <$> filtered)
    (MkLogResult (dr_Assignments res) (dr_FallbackAssignments res)
       (foldl (fun errs '(id, err) => <[id := Error err]> errs) ∅ (range_map (dr_Errors res)))
       (dr_Acknowledged res) (dr_Signal res) (dr_MarketPrice res) (dr_Scores res)).

Definition record_status (res : DispatchResult F) signal (s : MemoryStore F) : MemoryStore F :=
  let ids := (range_map (dr_Assignments res)).*1 in
  let dec := MkLastDispatch (SignalType_String (sig_Type signal)) (PowerKW signal) ids
               (Timestamp signal) in
  foldl (fun s id => RecordDispatch s id dec) s ids.

(** [m.tuner.Tune(hist)] on the manager's dispatcher. *)
Definition tune_manager m : DispatchManager F :=
  match m_tuner m with
  | None => m
  | Some t =>
    match m_dispatcher m with
    | DSmart d => set_dispatchers (DSmart (Tune t d (m_history m))) (m_lpDispatcher m) m
    | DLP d => set_dispatchers (DLP (Tune t d (m_history m))) (m_lpDispatcher m) m
    | _ => m
    end
  end.

Definition Dispatch (fuel : nat) m env signal (vehicles : list (Vehicle F)) :
    option (DispatchResult F * DispatchManager F * list (effect F)) :=
  let '(vehicles, eff1) := discover_vehicles m env vehicles in
  let filtered := Candidates.Filter vehicles signal in
  let '(filtered, eff2) := apply_prediction m env signal filtered in
  let m := set_fallback (fallback_SetVehicles (m_fallback m) filtered) m in
  let eff3 := bus_event m (ESignal signal) in
  '(assignments, used, m, eff4) ← dispatchStrategy fuel m filtered signal;
  let result :=
    MkResult (foldl (fun a '(id, p) => <[id := p]> a) ∅ (range_map assignments)) None ∅ ∅
      (MkSignal 0 n0 0 time_zero) n0
      (match used_smart m used with
       | Some d => foldl (fun a '(id, s) => <[id := s]> a) ∅ (range_map (SmartGetScores d))
       | None => ∅
       end) in
  let recordLatency := sink_has cap_Latency m in
  let '(result, latencies, eff5) := dispatchAssignments m env result signal recordLatency in
  let failed := unacknowledged filtered (dr_Acknowledged result) in
  fa ← (if negb (Nat.eqb (length failed) 0)
        then Some <$> fallback_Reallocate fuel (m_fallback m) failed (dr_Assignments result) signal
        else Some None);
  let result :=
    MkResult (dr_Assignments result) fa (dr_Errors result) (dr_Acknowledged result) signal
      (match used_smart m used with Some d => SmartGetMarketPrice d | None => dr_MarketPrice result end)
      (dr_Scores result) in
  let eff6 := recordMetrics m result latencies recordLatency in
  let m := set_history (m_history m ++ [result]) m in
  let m := set_stores ((fun st => st ++ [log_record env result signal filtered]) <$> m_store m)
             (record_status result signal <$> m_statusStore m) m in
  Some (result, tune_manager m, eff1 ++ eff2 ++ eff3 ++ eff4 ++ eff5 ++ eff6).

(** ** [Run] and [Close] *)

(** The signals [Run] receives before the context is cancelled. *)
Fixpoint Run (fuel : nat) m (inputs : list (Env F * FlexibilitySignal F)) :
    option (list (DispatchResult F) * DispatchManager F) :=
  match inputs with
  | [] => Some ([], m)
  | (env, sig) :: inputs =>
    '(res, m, _) ← Dispatch fuel m env sig [];
    '(results, m) ← Run fuel m inputs;
    Some (res :: results, m)
  end.

(** [Close]: the error of [discovery.Close], and what was closed. *)
Definition Close m (discovery_err : option go_error) : option go_error * list string :=
  match (if m_discovery m then discovery_err else None) with
  | Some err => (Some err, ["discovery"])
  | None =>
    (None, (if m_discovery m then ["discovery"] else []) ++ (if m_bus m then ["bus"] else []) ++
           (match m_store m with Some _ => ["store"] | None => [] end))
  end.
End manager.
