(* ===== verification/ManagerFacts.v ===== *)
(** * [DispatchManager]: what a dispatch guarantees

    Orders, acknowledgments and the fallback in every arithmetic and for every
    order in which the goroutines finish; then the physical limits of every
    order of a run over exact arithmetic. *)

From S2P Require Import Prelude Num GoTime Model PowerMap Candidates MathExp EqualDispatcher.
From S2P Require Import SmartDispatcher SmartDelivery LPDispatcher SegmentedDispatcher.
From S2P Require Import VehicleStatus DispatchLog Tuner Fallback Manager.
From stdpp Require Import base gmap strings list.
From Stdlib Require Import ZArith QArith Qabs Lqa Lia.

#[local] Open Scope Z_scope.

(** The orders among the effects, and the order events. *)
Definition sent_order {F} (e : effect F) : option (string * F) :=
  match e with ESendOrder id p => Some (id, p) | _ => None end.

Definition sent {F} (eff : list (effect F)) : list (string * F) := omap sent_order eff.

Lemma sent_app {F} (e1 e2 : list (effect F)) : sent (e1 ++ e2) = sent e1 ++ sent e2.
Proof. apply omap_app. Qed.

Section facts.
Context {F : Type} `{Num F} `{!MathExp F} `{!MapRange} (simplex : LPSolver F).
Implicit Types (m : DispatchManager F) (env : Env F) (signal : FlexibilitySignal F).

(** ** The goroutines *)

(** The outcome of the order of one vehicle. *)
Definition outcome_ack m env (id : string) (p : F) : bool :=
  let '(_, ack, _, err) := sendAndWait m env id p in ok_ack ack err.

Definition outcome_err m env (id : string) (p : F) : option go_error :=
  let '(_, _, _, err) := sendAndWait m env id p in err.

Lemma goroutines_spec m env res signal rl l st eff st' eff' :
  NoDup l.*1 →
  foldl (order_goroutine m env res signal rl) (st, eff) l = (st', eff') →
  (∀ id, os_Acknowledged st' !! id =
     match (list_to_map l : gmap string F) !! id with
     | Some p => Some (outcome_ack m env id p) | None => os_Acknowledged st !! id end) ∧
  (∀ id, os_Errors st' !! id =
     match (list_to_map l : gmap string F) !! id with
     | Some p => match outcome_err m env id p with Some e => Some e | None => os_Errors st !! id end
     | None => os_Errors st !! id end) ∧
  sent eff' = sent eff ++ l ∧
  (∀ ev, EOrder ev ∈ eff' → EOrder ev ∈ eff ∨ oe_MarketPrice ev = dr_MarketPrice res).
Proof.
  revert st eff. induction l as [|[id p] l IH]; intros st eff Hnd Heq; cbn [foldl] in Heq.
  { injection Heq as <- <-. split_and!; [done..|by rewrite app_nil_r|tauto]. }
  rewrite fmap_cons in Hnd. apply NoDup_cons in Hnd as [Hid Hnd].
  apply not_elem_of_list_to_map_1 in Hid. cbn [fst] in Hid.
  destruct (order_goroutine m env res signal rl (st, eff) (id, p)) as [st1 eff1] eqn:Hg.
  apply IH in Heq as (Hack & Herr & Hsent & Hev); [|done]. clear IH.
  unfold order_goroutine in Hg.
  destruct (sendAndWait m env id p) as [[[orderID ack] d] err] eqn:Hs.
  cbn [update] in Hg. injection Hg as <- <-. cbn [os_Acknowledged os_Errors] in *.
  cbn [list_to_map foldr curry uncurry fst snd].
  assert (outcome_ack m env id p = ok_ack ack err) as Hoa by (unfold outcome_ack; by rewrite Hs).
  assert (outcome_err m env id p = err) as Hoe by (unfold outcome_err; by rewrite Hs).
  split_and!.
  - intros k. rewrite Hack. destruct (decide (k = id)) as [->|Hne].
    + by rewrite Hid, !lookup_insert_eq, Hoa.
    + by rewrite !lookup_insert_ne by done.
  - intros k. rewrite Herr. destruct (decide (k = id)) as [->|Hne].
    + rewrite Hid, lookup_insert_eq, Hoe. destruct err; [by rewrite lookup_insert_eq|done].
    + rewrite (lookup_insert_ne _ id k) by done. destruct err; [|done].
      by rewrite lookup_insert_ne by done.
  - rewrite Hsent. unfold sent. rewrite omap_app. cbn [omap list_omap sent_order].
    rewrite <- app_assoc. f_equal. cbn. f_equal. rewrite omap_app.
    unfold bus_event. destruct (m_bus m), (sink_has cap_Order m); done.
  - intros ev [Hin|Hin]%Hev; [|by right]. apply elem_of_app in Hin as [Hin|Hin]; [by left|].
    right. apply elem_of_cons in Hin as [[=]|Hin]. apply elem_of_app in Hin as [Hin|Hin].
    + unfold bus_event in Hin. destruct (m_bus m); [|by apply not_elem_of_nil in Hin].
      apply list_elem_of_singleton in Hin as [=].
    + destruct (sink_has cap_Order m); [|by apply not_elem_of_nil in Hin].
      apply list_elem_of_singleton in Hin as [= ->]. done.
Qed.

Lemma range_list_to_map (a : gmap string F) l : l ≡ₚ range_map a → (list_to_map l : gmap string F) = a.
Proof.
  intros Hp. rewrite <- (list_to_map_to_list a). apply list_to_map_proper.
  - rewrite Hp. auto with v2g.
  - by rewrite Hp, range_map_perm.
Qed.

Lemma dispatchAssignments_spec m env res signal rl res' lat eff :
  env_fair env → dr_Errors res = ∅ → dr_Acknowledged res = ∅ →
  dispatchAssignments m env res signal rl = (res', lat, eff) →
  dr_Assignments res' = dr_Assignments res ∧
  dr_Acknowledged res' = map_imap (fun id p => Some (outcome_ack m env id p)) (dr_Assignments res) ∧
  dr_Errors res' = map_imap (outcome_err m env) (dr_Assignments res) ∧
  dr_Scores res' = dr_Scores res ∧ dr_MarketPrice res' = dr_MarketPrice res ∧
  sent eff ≡ₚ map_to_list (dr_Assignments res) ∧
  (∀ ev, EOrder ev ∈ eff → oe_MarketPrice ev = dr_MarketPrice res).
Proof.
  intros Hfair He Ha Heq. unfold dispatchAssignments in Heq.
  destruct (foldl _ _ _) as [st eff'] eqn:Hf. injection Heq as <- <- <-.
  assert (env_order env (range_map (dr_Assignments res)) ≡ₚ range_map (dr_Assignments res)) as Hp
    by apply Hfair.
  apply goroutines_spec in Hf as (Hack & Herr & Hsent & Hev); [|rewrite Hp; auto with v2g].
  rewrite (range_list_to_map _ _ Hp) in *. cbn [os_Errors os_Acknowledged] in *.
  cbn. split_and!; try done.
  - apply map_eq. intros id. rewrite map_lookup_imap, Hack, Ha.
    by destruct (dr_Assignments res !! id).
  - apply map_eq. intros id. rewrite map_lookup_imap, Herr, He.
    destruct (dr_Assignments res !! id); [|done]. cbn. by destruct (outcome_err _ _ _ _).
  - rewrite Hsent. cbn. by rewrite Hp, range_map_perm.
  - intros ev [Hin|?]%Hev; [by apply not_elem_of_nil in Hin|done].
Qed.

(** ** The handler *)

(** The vehicles a dispatch considers. *)
Definition considered m env signal (vehicles : list (Vehicle F)) : list (Vehicle F) :=
  (apply_prediction m env signal
     (Candidates.Filter (discover_vehicles m env vehicles).1 signal)).1.

Definition armed m env signal vehicles : DispatchManager F :=
  set_fallback (fallback_SetVehicles (m_fallback m) (considered m env signal vehicles)) m.

Lemma lp_update_frame m d : ∃ d' lp', lp_update m d = set_dispatchers d' lp' m.
Proof. unfold lp_update. destruct m as [? lp]; destruct lp; cbn; by eexists _, _. Qed.

Lemma dispatchStrategy_frame fuel m vs signal asn used m' eff :
  dispatchStrategy simplex fuel m vs signal = Some (asn, used, m', eff) →
  (∃ d lp, m' = set_dispatchers d lp m) ∧ sent eff = [] ∧ ∀ ev, EOrder ev ∉ eff.
Proof.
  assert (∀ m t a e, sent (strategy_event (F:=F) m t a e) = [] ∧
            ∀ ev, EOrder ev ∉ strategy_event (F:=F) m t a e) as Hev.
  { intros m0 t a e. unfold strategy_event, bus_event. destruct (m_bus m0); [|set_solver].
    split; [done|]. intros ev Hin%list_elem_of_singleton. done. }
  unfold dispatchStrategy. intros Heq.
  assert (∀ r, (let '(a, d) := r in Some (a, UsedDispatcher, set_dispatchers d (m_lpDispatcher m) m, []))
            = Some (asn, used, m', eff) → (∃ d lp, m' = set_dispatchers d lp m) ∧ sent eff = [] ∧ ∀ ev, EOrder ev ∉ eff)
    as Hplain.
  { intros [a d] [= <- <- <- <-]. split_and!; [by eexists _, _|done|set_solver]. }
  destruct (lp_object m) as [lp|]; [destruct (default false _)|].
  2,3: by destruct (dispatcher_Dispatch _ _ _ _ _) as [r|]; [apply (Hplain r)|].
  destruct (DispatchStrict _ _ _ _) as [[[a err] lp']|]; [|done]. cbn [mbind option_bind] in Heq.
  destruct (lp_update_frame m lp') as (d1 & lp1 & Hm). rewrite Hm in Heq. destruct err as [e|].
  - destruct (dispatcher_Dispatch _ _ _ _ _) as [[a' d']|]; [|done]. cbn [mbind option_bind] in Heq.
    injection Heq as <- <- <- <-. split_and!.
    + by eexists _, _.
    + by rewrite !sent_app, !(proj1 (Hev _ _ _ _)).
    + intros ev. rewrite !elem_of_app. intros [?|[?|?]]; by eapply (proj2 (Hev _ _ _ _)).
  - injection Heq as <- <- <- <-. split_and!; [by eexists _, _|apply Hev..].
Qed.

(** What [Dispatch] returns, part by part. *)
Record dispatched (fuel : nat) m env signal (vehicles : list (Vehicle F))
    (res : DispatchResult F) (m' : DispatchManager F) (eff : list (effect F)) : Prop := {
  di_strategy : ∃ used d lp eff4,
    dispatchStrategy simplex fuel (armed m env signal vehicles) (considered m env signal vehicles)
      signal = Some (dr_Assignments res, used, set_dispatchers d lp (armed m env signal vehicles), eff4) ∧
    m' = tune_manager (set_stores
           ((fun st => st ++ [log_record env res signal (considered m env signal vehicles)]) <$> m_store m)
           (record_status res signal <$> m_statusStore m)
           (set_history (m_history m ++ [res])
              (set_dispatchers d lp (armed m env signal vehicles))));
  di_acks : dr_Acknowledged res =
    map_imap (fun id p => Some (outcome_ack m env id p)) (dr_Assignments res);
  di_errors : dr_Errors res = map_imap (outcome_err m env) (dr_Assignments res);
  di_signal : dr_Signal res = signal;
  di_fallback :
    let failed := unacknowledged (considered m env signal vehicles) (dr_Acknowledged res) in
    match dr_FallbackAssignments res with
    | None => failed = []
    | Some fa => failed ≠ [] ∧
        fallback_Reallocate fuel (m_fallback (armed m env signal vehicles)) failed
          (dr_Assignments res) signal = Some fa
    end;
  di_sent : sent eff ≡ₚ map_to_list (dr_Assignments res);
  di_orders ev : EOrder ev ∈ eff → oe_MarketPrice ev = n0
}.

Lemma outcome_set_dispatchers m env d lp f :
  outcome_ack (set_dispatchers d lp (set_fallback f m)) env = outcome_ack m env ∧
  outcome_err (set_dispatchers d lp (set_fallback f m)) env = outcome_err m env.
Proof. done. Qed.

Lemma recordMetrics_effects m res lat b :
  sent (recordMetrics m res lat b) = [] ∧ ∀ ev, EOrder ev ∉ recordMetrics m res lat b.
Proof.
  unfold recordMetrics. destruct (m_metrics m); [|set_solver]. destruct b; split; try done;
    intros ev Hin; repeat (apply elem_of_cons in Hin as [[=]|Hin]); by apply not_elem_of_nil in Hin.
Qed.

(** The effects before the orders send nothing. *)
Lemma discover_effects m env vehicles :
  sent (discover_vehicles m env vehicles).2 = [] ∧ ∀ ev, EOrder ev ∉ (discover_vehicles m env vehicles).2.
Proof.
  unfold discover_vehicles. destruct (_ && _); [destruct (env_discover env); [|destruct (sink_has _ _)]|];
    cbn; (split; [done|]); intros ev Hin; repeat (apply elem_of_cons in Hin as [[=]|Hin]);
    by apply not_elem_of_nil in Hin.
Qed.

Lemma prediction_effects m env signal vs :
  sent (apply_prediction m env signal vs).2 = [] ∧ ∀ ev, EOrder ev ∉ (apply_prediction m env signal vs).2.
Proof.
  unfold apply_prediction. destruct (m_prediction m); [destruct (sink_has _ _ && _)|];
    cbn; (split; [done|]); intros ev Hin; repeat (apply elem_of_cons in Hin as [[=]|Hin]);
    by apply not_elem_of_nil in Hin.
Qed.

Lemma Dispatch_inv fuel m env signal vehicles res m' eff :
  env_fair env → Dispatch simplex fuel m env signal vehicles = Some (res, m', eff) →
  dispatched fuel m env signal vehicles res m' eff.
Proof.
  intros Hfair. unfold Dispatch.
  pose proof (discover_effects m env vehicles) as [Hs1 He1].
  pose proof (prediction_effects m env signal
    (Candidates.Filter (discover_vehicles m env vehicles).1 signal)) as [Hs2 He2].
  assert (considered m env signal vehicles = (apply_prediction m env signal
    (Candidates.Filter (discover_vehicles m env vehicles).1 signal)).1) as Hcons by done.
  destruct (discover_vehicles m env vehicles) as [vs eff1] eqn:Hd. cbn [fst snd] in *.
  destruct (apply_prediction m env signal _) as [filtered eff2] eqn:Hp. cbn [fst snd] in *.
  rewrite <- Hcons. fold (armed m env signal vehicles). clear Hcons Hp Hd filtered vs.
  destruct (dispatchStrategy _ _ _ _ _) as [[[[asn used] m2] eff4]|] eqn:Hst; [|done].
  cbn [mbind option_bind]. rewrite range_copy.
  pose proof (dispatchStrategy_frame _ _ _ _ _ _ _ _ Hst) as ((d & lp & ->) & Hs4 & He4).
  match goal with |- context [dispatchAssignments ?a ?b ?c ?d ?e] =>
    destruct (dispatchAssignments a b c d e) as [[res1 lat] eff5] eqn:Hda end.
  apply dispatchAssignments_spec in Hda as (Has & Hack & Herr & _ & Hmp & Hsent & Hev); [|done..].
  cbn [dr_Assignments dr_MarketPrice] in *.
  match goal with |- context [mbind _ ?o] => destruct o as [fa|] eqn:Hfa; [|done] end.
  cbn [mbind option_bind]. intros [= <- <- <-].
  split; cbn [dr_Assignments dr_Acknowledged dr_Errors dr_Signal dr_FallbackAssignments].
  - rewrite Has. by eexists used, d, lp, eff4.
  - by rewrite Has, Hack.
  - by rewrite Has, Herr.
  - done.
  - cbn zeta. destruct (Nat.eqb_spec (length (unacknowledged (considered m env signal vehicles)
      (dr_Acknowledged res1))) 0) as [Hl|Hl]; cbn [negb] in Hfa.
    + injection Hfa as <-. by apply nil_length_inv.
    + apply fmap_Some in Hfa as (fa' & Hfa' & ->). split; [by intros Hn; rewrite Hn in Hl|done].
  - rewrite !sent_app, Hs1, Hs2, Hs4, (proj1 (recordMetrics_effects _ _ _ _)), app_nil_r.
    unfold bus_event. by destruct (m_bus _); cbn; rewrite Hsent, Has.
  - intros ev. rewrite !elem_of_app. intros [Hin|[Hin|[Hin|[Hin|[Hin|Hin]]]]].
    + by apply He1 in Hin.
    + by apply He2 in Hin.
    + unfold bus_event in Hin. destruct (m_bus _); [|by apply not_elem_of_nil in Hin].
      by apply list_elem_of_singleton in Hin.
    + by apply He4 in Hin.
    + by apply Hev.
    + by apply recordMetrics_effects in Hin.
Qed.

(** ** Selected effects *)

(** What the goroutine of one order does to the outside. *)
Definition order_effects m env (scores : gmap string F) (price : F) signal (idp : string * F) :
    list (effect F) :=
  let '(id, p) := idp in
  let '(orderID, ack, d, err) := sendAndWait m env id p in
  ESendOrder id p ::
  bus_event m (EAck (MkAckEvent orderID id (sig_Type signal) (ok_ack ack err) err d)) ++
  (if sink_has cap_Order m
   then [EOrder (MkOrderEvent orderID id (sig_Type signal) p (mget scores id) price
                   (ok_ack ack err) (env_now env))]
   else []).

Lemma goroutine_effects m env res signal rl l st eff :
  (foldl (order_goroutine m env res signal rl) (st, eff) l).2 =
  eff ++ concat (order_effects m env (dr_Scores res) (dr_MarketPrice res) signal <$> l).
Proof.
  revert st eff. induction l as [|[id p] l IH]; intros st eff; [by rewrite app_nil_r|].
  cbn [foldl]. unfold order_goroutine at 2. rewrite fmap_cons. cbn [concat order_effects].
  destruct (sendAndWait m env id p) as [[[o ack] d] err]. cbn [update].
  by rewrite IH, <- app_assoc.
Qed.

(** The effects before the orders, other than the signal event. *)
Definition preparing (e : effect F) : Prop :=
  match e with
  | EStrategy _ | EFleetSize _ | EAvailability _ => True
  | _ => False
  end.

(** The effects of all steps around the orders. *)
Definition bookkeeping (e : effect F) : Prop :=
  match e with
  | EResults _ | ELatency _ => True
  | _ => preparing e
  end.

Lemma omap_none {A} (P : effect F → Prop) (f : effect F → option A) (eff : list (effect F)) :
  (∀ e, P e → f e = None) → Forall P eff → omap f eff = [].
Proof. intros Hf. induction 1 as [|e eff He _ IH]; [done|]. cbn. by rewrite (Hf e He). Qed.

Lemma dispatchStrategy_preparing fuel m vs signal asn used m' eff :
  dispatchStrategy simplex fuel m vs signal = Some (asn, used, m', eff) → Forall preparing eff.
Proof.
  assert (∀ m t a e, Forall preparing (strategy_event (F:=F) m t a e)) as Hev.
  { intros m0 t a e. unfold strategy_event, bus_event. destruct (m_bus m0); by repeat constructor. }
  unfold dispatchStrategy. intros Heq.
  assert (∀ o : option (gmap string F * Dispatcher F),
    ('(a, d) ← o; Some (a, UsedDispatcher, set_dispatchers d (m_lpDispatcher m) m, []))
    = Some (asn, used, m', eff) → Forall preparing eff) as Hplain.
  { intros [[a d]|]; [|done]. intros [= _ _ _ <-]. constructor. }
  destruct (lp_object m) as [lp|]; [destruct (default false _)|]; try by apply Hplain in Heq.
  destruct (DispatchStrict _ _ _ _) as [[[a err] lp']|]; [|done]. cbn [mbind option_bind] in Heq.
  destruct err as [e|].
  - destruct (dispatcher_Dispatch _ _ _ _ _) as [[a' d']|]; [|done]. injection Heq as _ _ _ <-.
    by repeat (apply Forall_app_2; [apply Hev|]).
  - injection Heq as _ _ _ <-. apply Hev.
Qed.

(** The effects of a dispatch, in order: preparations around the signal event,
    the effects of the orders, the records handed to the metrics sink. *)
Lemma Dispatch_shape fuel m env signal vehicles res m' eff :
  Dispatch simplex fuel m env signal vehicles = Some (res, m', eff) →
  ∃ pre post lat, Forall preparing pre ∧ Forall preparing post ∧
    eff = pre ++ bus_event m (ESignal signal) ++ post ++
      concat (order_effects m env (dr_Scores res) n0 signal <$>
              env_order env (range_map (dr_Assignments res))) ++
      recordMetrics m res lat (sink_has cap_Latency m).
Proof.
  unfold Dispatch.
  destruct (discover_vehicles m env vehicles) as [vs eff1] eqn:H1.
  destruct (apply_prediction m env signal _) as [filtered eff2] eqn:H2.
  destruct (dispatchStrategy _ _ _ _ _) as [[[[asn used] m2] eff4]|] eqn:H4; [|done].
  cbn [mbind option_bind]. rewrite range_copy.
  destruct (dispatchAssignments _ _ _ _ _) as [[res1 lat] eff5] eqn:H5.
  match goal with |- context [mbind _ ?o] => destruct o as [fa|]; [|done] end.
  cbn [mbind option_bind]. intros [= <- _ <-]. cbn [dr_Scores dr_Assignments].
  exists (eff1 ++ eff2), eff4, lat. split_and!.
  - apply Forall_app_2.
    + clear -H1. unfold discover_vehicles in H1. destruct (_ && _); [destruct (env_discover env)|];
        injection H1 as <- <-; try by constructor. destruct (sink_has _ _); by repeat constructor.
    + clear -H2. unfold apply_prediction in H2. destruct (m_prediction m); injection H2 as <- <-;
        [|constructor]. case_match; by repeat constructor.
  - by eapply dispatchStrategy_preparing.
  - pose proof (dispatchStrategy_frame _ _ _ _ _ _ _ _ H4) as ((d & lp & ->) & _).
    unfold dispatchAssignments in H5.
    match type of H5 with context [foldl (order_goroutine ?m ?e ?r ?s ?b) (?st, ?ef) ?l] =>
      pose proof (goroutine_effects m e r s b l st ef) as Hg;
      destruct (foldl (order_goroutine m e r s b) (st, ef) l) as [st' eff'] end.
    injection H5 as <- _ <-. cbn [snd app dr_Scores dr_Assignments dr_MarketPrice] in *. subst eff'.
    by rewrite <- !app_assoc.
Qed.

(** The effects of a dispatch other than bookkeeping, in order: the signal
    event, then those of the orders. *)
Lemma Dispatch_effects {A} (f : effect F → option A) fuel m env signal vehicles res m' eff :
  (∀ e, bookkeeping e → f e = None) →
  Dispatch simplex fuel m env signal vehicles = Some (res, m', eff) →
  omap f eff =
    (if m_bus m then option_list (f (ESignal signal)) else []) ++
    concat ((fun idp => omap f (order_effects m env (dr_Scores res) n0 signal idp)) <$>
            env_order env (range_map (dr_Assignments res))).
Proof.
  intros Hf Hd. apply Dispatch_shape in Hd as (pre & post & lat & Hpre & Hpost & ->).
  assert (Forall bookkeeping (recordMetrics m res lat (sink_has cap_Latency m))) as Hrec.
  { unfold recordMetrics. destruct (m_metrics m); [|constructor].
    destruct (sink_has _ _); by repeat constructor. }
  assert (∀ e, preparing e → f e = None) as Hf' by (intros e He; apply Hf; by destruct e).
  rewrite !omap_app, (omap_none preparing f pre), (omap_none preparing f post),
    (omap_none bookkeeping f (recordMetrics _ _ _ _)) by done.
  cbn [app]. rewrite app_nil_r. f_equal.
  - unfold bus_event. destruct (m_bus m); [|done]. cbn. by destruct (f _).
  - generalize (env_order env (range_map (dr_Assignments res))). intros l.
    induction l as [|x l IH]; [done|]. rewrite !fmap_cons. cbn [concat]. by rewrite omap_app, IH.
Qed.

(** ** Properties of every dispatch *)

(** C7. Every assigned vehicle is sent exactly one order, with the assigned power,
    and nobody else is; [Acknowledged] has an entry for exactly the assigned
    vehicles, true if and only if the order was sent, acknowledged and ended
    without an error; [Errors] holds exactly the errors of the orders. *)
Theorem Dispatch_orders fuel m env signal vehicles res m' eff
    (Hfair : env_fair env)
    (Hrun : Dispatch simplex fuel m env signal vehicles = Some (res, m', eff)) :
  sent eff ≡ₚ map_to_list (dr_Assignments res) ∧
  dom (dr_Acknowledged res) = dom (dr_Assignments res) ∧
  dom (dr_Errors res) ⊆ dom (dr_Assignments res) ∧
  ∀ id p, dr_Assignments res !! id = Some p →
    dr_Acknowledged res !! id = Some (outcome_ack m env id p) ∧
    dr_Errors res !! id = outcome_err m env id p ∧
    (outcome_ack m env id p = true ↔ ∃ cmdID, cl_SendOrder (env_client env) id p = inr cmdID ∧
       cl_WaitForAck (env_client env) cmdID (m_ackTimeout m) = (true, None)).
Proof.
  apply Dispatch_inv in Hrun as [_ Hack Herr _ _ Hsent _]; [|done]. split_and!; [done|..].
  - apply set_eq. intros id. rewrite Hack, !elem_of_dom, map_lookup_imap.
    destruct (dr_Assignments res !! id); cbn; [|done]. split; intros _; eauto.
  - intros id. rewrite Herr, !elem_of_dom, map_lookup_imap.
    destruct (dr_Assignments res !! id); [intros _; eauto|by intros []].
  - intros id p Hp. rewrite Hack, Herr, !map_lookup_imap, Hp. split_and!; [done..|].
    unfold outcome_ack, sendAndWait. destruct (cl_SendOrder _ _ _) as [err|cmdID].
    + split; [done|]. by intros (? & [=] & _).
    + destruct (cl_WaitForAck _ _ _) as [ack [err|]] eqn:Hw; cbn; split; try done.
      * intros (? & [= <-] & Hw'). congruence.
      * intros ->. eauto.
      * intros (? & [= <-] & Hw'). congruence.
Qed.

Definition with_order env (order : list (string * F) → list (string * F)) : Env F :=
  MkEnv (env_discover env) (env_client env) (env_latency env) order (env_now env).

Lemma dispatchAssignments_order m env order res signal rl :
  env_fair env → env_fair (with_order env order) → dr_Errors res = ∅ → dr_Acknowledged res = ∅ →
  (dispatchAssignments m env res signal rl).1.1 =
    (dispatchAssignments m (with_order env order) res signal rl).1.1 ∧
  sent (dispatchAssignments m env res signal rl).2 ≡ₚ
    sent (dispatchAssignments m (with_order env order) res signal rl).2.
Proof.
  intros Hf1 Hf2 He Ha.
  assert (∀ e r lat eff, dispatchAssignments m e res signal rl = (r, lat, eff) →
    dr_FallbackAssignments r = dr_FallbackAssignments res ∧ dr_Signal r = dr_Signal res) as Hrest.
  { intros e r lat eff. unfold dispatchAssignments. destruct (foldl _ _ _). by intros [= <- <- <-]. }
  destruct (dispatchAssignments m env _ _ _) as [[[] lat1] eff1] eqn:H1,
    (dispatchAssignments m (with_order env order) _ _ _) as [[[] lat2] eff2] eqn:H2.
  pose proof (Hrest _ _ _ _ H1) as []. pose proof (Hrest _ _ _ _ H2) as [].
  apply dispatchAssignments_spec in H1 as (? & ? & ? & ? & ? & Hs1 & _); [|done..].
  apply dispatchAssignments_spec in H2 as (? & ? & ? & ? & ? & Hs2 & _); [|done..].
  cbn in *. split; [|by rewrite Hs1, Hs2]. by simplify_eq.
Qed.

(** C8. The goroutines may finish in any order: the result and the manager
    afterwards are the same, and the same orders are sent. *)
Theorem Dispatch_order_independent fuel m env order signal vehicles
    (Hfair : env_fair env) (Hfair' : env_fair (with_order env order)) :
  match Dispatch simplex fuel m env signal vehicles,
        Dispatch simplex fuel m (with_order env order) signal vehicles with
  | Some (res, m1, eff), Some (res', m1', eff') => res = res' ∧ m1 = m1' ∧ sent eff ≡ₚ sent eff'
  | None, None => True
  | _, _ => False
  end.
Proof.
  unfold Dispatch.
  change (discover_vehicles m (with_order env order) vehicles) with (discover_vehicles m env vehicles).
  destruct (discover_vehicles m env vehicles) as [vs eff1].
  change (apply_prediction m (with_order env order)) with (apply_prediction m env).
  destruct (apply_prediction m env _ _) as [filtered eff2].
  destruct (dispatchStrategy _ _ _ _ _) as [[[[asn used] m2] eff4]|]; [|done].
  cbn [mbind option_bind].
  match goal with |- context [dispatchAssignments ?a env ?c ?d ?e] =>
    pose proof (dispatchAssignments_order a env order c d e Hfair Hfair' eq_refl eq_refl) as [Hres Hsent];
    destruct (dispatchAssignments a env c d e) as [[res1 lat1] eff5],
      (dispatchAssignments a (with_order env order) c d e) as [[res2 lat2] eff5'] end.
  cbn [fst snd] in Hres, Hsent. subst res2.
  match goal with |- context [mbind _ ?o] => destruct o as [fa|]; [|done] end.
  cbn [mbind option_bind]. split_and!; [done..|].
  rewrite !sent_app, Hsent. by rewrite !(proj1 (recordMetrics_effects _ _ _ _)).
Qed.

(** C11. The fallback runs if and only if some considered vehicle has no positive
    acknowledgment, and it is given exactly those vehicles, assigned or not,
    and the original assignments. *)
Theorem Dispatch_fallback fuel m env signal vehicles res m' eff
    (Hfair : env_fair env)
    (Hrun : Dispatch simplex fuel m env signal vehicles = Some (res, m', eff)) :
  let considered := considered m env signal vehicles in
  let failed := List.filter (fun v => negb (bget (dr_Acknowledged res) (ID v))) considered in
  (dr_FallbackAssignments res = None ↔
     ∀ v, v ∈ considered → dr_Acknowledged res !! ID v = Some true) ∧
  (∀ fa, dr_FallbackAssignments res = Some fa →
     fallback_Reallocate fuel (fallback_SetVehicles (m_fallback m) considered) failed
       (dr_Assignments res) signal = Some fa) ∧
  (∀ v, v ∈ considered → dr_Assignments res !! ID v = None → v ∈ failed).
Proof.
  cbn zeta. apply Dispatch_inv in Hrun as [_ Hack _ _ Hfb _ _]; [|done]. cbn zeta in Hfb.
  fold (unacknowledged (considered m env signal vehicles) (dr_Acknowledged res)) in Hfb |- *.
  split_and!.
  - assert (unacknowledged (considered m env signal vehicles) (dr_Acknowledged res) = [] ↔
      ∀ v, v ∈ considered m env signal vehicles → dr_Acknowledged res !! ID v = Some true) as <-.
    { split.
      - intros Hnil v Hv. destruct (bget (dr_Acknowledged res) (ID v)) eqn:Hb.
        + unfold bget in Hb. destruct (_ !! ID v) as [[]|]; done.
        + assert (v ∈ []) as ?%not_elem_of_nil; [|done]. rewrite <- Hnil.
          apply elem_of_List_filter. by rewrite Hb.
      - intros Hall. destruct (unacknowledged _ _) as [|v l] eqn:Hu; [done|].
        assert (v ∈ v :: l) as Hin by left. rewrite <- Hu in Hin.
        apply elem_of_List_filter in Hin as [Hin Hb]. unfold bget in Hb. by rewrite Hall in Hb. }
    destruct (dr_FallbackAssignments res) as [fa|]; [|done].
    split; [done|]. intros Hnil. by destruct Hfb.
  - intros fa Hfa. rewrite Hfa in Hfb. by destruct Hfb.
  - intros v Hv Hn. apply elem_of_List_filter. split; [done|]. unfold bget.
    by rewrite Hack, map_lookup_imap, Hn.
Qed.

(** The order events handed to the metrics sink always carry a market price of
    0: the price of the dispatcher is only stored in the result after the
    orders were recorded. *)
Theorem Dispatch_order_price fuel m env signal vehicles res m' eff ev
    (Hfair : env_fair env)
    (Hrun : Dispatch simplex fuel m env signal vehicles = Some (res, m', eff))
    (Hev : EOrder ev ∈ eff) :
  oe_MarketPrice ev = n0.
Proof. apply Dispatch_inv in Hrun as [_ _ _ _ _ _ Hprice]; [|done]. by apply Hprice. Qed.

Lemma tune_manager_frame m : ∃ d, tune_manager m = set_dispatchers d (m_lpDispatcher m) m.
Proof. unfold tune_manager. destruct m as [d ? ? ? ? ? ? ? t]. destruct t, d; cbn; by eexists. Qed.

(** A dispatch appends its result to the history and one record to the log
    store, registers every assigned vehicle as dispatched in the status store,
    and changes neither the settings nor the tuner of the manager. *)
Theorem Dispatch_records fuel m env signal vehicles res m' eff
    (Hfair : env_fair env)
    (Hrun : Dispatch simplex fuel m env signal vehicles = Some (res, m', eff)) :
  m_history m' = m_history m ++ [res] ∧
  m_store m' = (fun st => st ++ [log_record env res signal (considered m env signal vehicles)])
                 <$> m_store m ∧
  m_statusStore m' = record_status res signal <$> m_statusStore m ∧
  m_lpFirst m' = m_lpFirst m ∧ m_ackTimeout m' = m_ackTimeout m ∧ m_tuner m' = m_tuner m ∧
  m_metrics m' = m_metrics m ∧ m_prediction m' = m_prediction m ∧
  m_discovery m' = m_discovery m ∧ m_bus m' = m_bus m.
Proof.
  apply Dispatch_inv in Hrun as [(used & d & lp & eff4 & _ & ->) _ _ _ _ _ _]; [|done].
  match goal with |- context [tune_manager ?x] => destruct (tune_manager_frame x) as [d' ->] end.
  cbn. done.
Qed.
End facts.
