(* ===== verification/Prediction.v ===== *)
(** * Predictions

    Models [core/prediction/mock.go] and what the manager makes of a prediction
    engine: which vehicles it considers and with which availability and SoC. *)

From S2P Require Import Prelude Num GoTime Model PowerMap Candidates MathExp LPDispatcher Tuner.
From S2P Require Import Manager ManagerFacts.
From stdpp Require Import base gmap strings list.
From Stdlib Require Import ZArith Lia.

#[local] Open Scope Z_scope.

(** Nil maps are [None]. *)
Record MockPredictionEngine (F : Type) := MkMockPrediction {
  mk_Availability : option (gmap string F);
  mk_SoCForecasts : option (gmap string (list F))
}.
Arguments MkMockPrediction {F}.
Arguments mk_Availability {F}.
Arguments mk_SoCForecasts {F}.

Section mock.
Context {F : Type} `{Num F}.

Definition MockPredictAvailability (e : MockPredictionEngine F) (id : string) (t : Time) : F :=
  match mk_Availability e with
  | None => n1
  | Some m => match m !! id with Some v => v | None => n1 end
  end.

(** The slice is a copy: the caller cannot change the configuration. *)
Definition MockForecastSoC (e : MockPredictionEngine F) (id : string) (h : Duration) : list F :=
  match mk_SoCForecasts e with
  | None => []
  | Some m => match m !! id with Some s => s | None => [] end
  end.

Definition mock_engine (e : MockPredictionEngine F) : PredictionEngine F :=
  MkPrediction (MockPredictAvailability e) (MockForecastSoC e).
End mock.

Section considered.
Context {F : Type} `{Num F} `{!MathExp F} `{!MapRange}.
Implicit Types m : DispatchManager F.

Lemma predict_vehicle_spec pred (signal : FlexibilitySignal F) h (v : Vehicle F) :
  let v' := predict_vehicle pred signal h v in
  ID v' = ID v ∧ MaxPower v' = MaxPower v ∧ BatteryKWh v' = BatteryKWh v ∧ IsV2G v' = IsV2G v ∧
  AvailabilityProb v' = PredictAvailability pred (ID v) (GoTime.Add (Timestamp signal) h) ∧
  SoC v' = default (SoC v) (last (ForecastSoC pred (ID v) h)).
Proof. unfold predict_vehicle. cbn. by destruct (last _). Qed.

(** What a prediction changes: the vehicles are those of the filter, in its
    order, with their limits; only the probability and the SoC are predicted.
    The filter has already run: a forecast below its threshold removes nobody. *)
Theorem prediction_frame m env signal vehicles (e : MockPredictionEngine F)
    (Hpred : m_prediction m = Some (mock_engine e)) :
  Forall2 (fun v v' =>
      ID v' = ID v ∧ MaxPower v' = MaxPower v ∧ BatteryKWh v' = BatteryKWh v ∧ IsV2G v' = IsV2G v ∧
      AvailabilityProb v' = default n1 (m ← mk_Availability e; m !! ID v) ∧
      SoC v' = default (SoC v) (m ← mk_SoCForecasts e; s ← m !! ID v; last s))
    (Candidates.Filter (discover_vehicles m env vehicles).1 signal) (considered m env signal vehicles).
Proof.
  unfold considered, apply_prediction. rewrite Hpred. cbn [fst].
  apply Forall2_fmap_r, Forall_Forall2_diag, Forall_forall. intros v _.
  destruct (predict_vehicle_spec (mock_engine e) signal
    (if sig_Duration signal <=? 0 then Hour else sig_Duration signal) v) as (? & ? & ? & ? & Hp & Hs).
  split_and!; [done..| |].
  - rewrite Hp. cbn. unfold MockPredictAvailability. destruct (mk_Availability e) as [a|]; [|done].
    cbn. by destruct (a !! ID v).
  - rewrite Hs. cbn. unfold MockForecastSoC. destruct (mk_SoCForecasts e) as [f|]; [|done].
    cbn. by destruct (f !! ID v).
Qed.
End considered.
