(* ===== verification/Concurrent.v ===== *)
(** * Concurrent dispatches

    [DispatchManager.Dispatch] is called from several goroutines: the manager's
    own loop, the handlers of the signal endpoint and the generator.  It holds no
    lock over its whole body, so the calls interleave.  This file cuts the handler
    of [core/dispatch/manager.go] at the accesses to what the calls share (the
    fallback's vehicles, the dispatcher, the history, the stores), shows that one
    call alone is [Manager.Dispatch], and studies all interleavings. *)

From S2P Require Import Prelude Num GoTime Model PowerMap Candidates MathExp EqualDispatcher.
From S2P Require Import SmartDispatcher LPDispatcher Fallback VehicleStatus DispatchLog Tuner Manager.
From S2P Require Import ManagerFacts.
From stdpp Require Import base gmap strings list relations.
From Stdlib Require Import ZArith QArith Lia Floats.SpecFloat.

#[local] Open Scope Z_scope.

(** A call of [Dispatch]: its local variables between two accesses to the shared
    state.  [hist] is the copy of the history. *)
Inductive thread (F : Type) :=
| TStart (env : Env F) (signal : FlexibilitySignal F) (vehicles : list (Vehicle F))
| TArmed (env : Env F) (signal : FlexibilitySignal F) (filtered : list (Vehicle F))
    (eff : list (effect F))
| TAssigned (env : Env F) (signal : FlexibilitySignal F) (filtered : list (Vehicle F))
    (assignments : gmap string F) (used : used_ref) (eff : list (effect F))
| TSent (env : Env F) (signal : FlexibilitySignal F) (filtered : list (Vehicle F)) (used : used_ref)
    (result : DispatchResult F) (latencies : list DispatchLatency) (eff : list (effect F))
| TReallocated (env : Env F) (signal : FlexibilitySignal F) (filtered : list (Vehicle F))
    (result : DispatchResult F) (eff : list (effect F))
| TRecorded (env : Env F) (signal : FlexibilitySignal F) (filtered : list (Vehicle F))
    (result : DispatchResult F) (hist : list (DispatchResult F)) (eff : list (effect F))
| TDone (result : DispatchResult F) (eff : list (effect F)).
Arguments TStart {F}.
Arguments TArmed {F}.
Arguments TAssigned {F}.
Arguments TSent {F}.
Arguments TReallocated {F}.
Arguments TRecorded {F}.
Arguments TDone {F}.

Section concurrent.
Context {F : Type} `{Num F} `{!MathExp F} `{!MapRange} (simplex : LPSolver F).
#[local] Open Scope num_scope.
Implicit Types (m : DispatchManager F) (t : thread F) (ts : list (thread F)).

(** [m.tuner.Tune(hist)]. *)
Definition tune_with (hist : list (DispatchResult F)) m : DispatchManager F :=
  match m_tuner m with
  | None => m
  | Some tn =>
    match m_dispatcher m with
    | DSmart d => set_dispatchers (DSmart (Tune tn d hist)) (m_lpDispatcher m) m
    | DLP d => set_dispatchers (DLP (Tune tn d hist)) (m_lpDispatcher m) m
    | _ => m
    end
  end.

(** The result before the orders; the scores are read from the dispatcher. *)
Definition initial_result m (used : used_ref) (assignments : gmap string F) : DispatchResult F :=
  MkResult (foldl (fun a '(id, p) => <[id := p]> a) ∅ (range_map assignments)) None ∅ ∅
    (MkSignal 0 n0 0 time_zero) n0
    (match used_smart m used with
     | Some d => foldl (fun a '(id, s) => <[id := s]> a) ∅ (range_map (SmartGetScores d))
     | None => ∅
     end).

(** One step of a call; [None] when it panics or does not return. *)
Definition thread_step (fuel : nat) m t : option (DispatchManager F * thread F) :=
  match t with
  | TStart env signal vehicles =>
    let '(vehicles, eff1) := discover_vehicles m env vehicles in
    let '(filtered, eff2) := apply_prediction m env signal (Candidates.Filter vehicles signal) in
    Some (set_fallback (fallback_SetVehicles (m_fallback m) filtered) m,
          TArmed env signal filtered (eff1 ++ eff2 ++ bus_event m (ESignal signal)))
  | TArmed env signal filtered eff =>
    '(assignments, used, m, eff4) ← dispatchStrategy simplex fuel m filtered signal;
    Some (m, TAssigned env signal filtered assignments used (eff ++ eff4))
  | TAssigned env signal filtered assignments used eff =>
    let '(result, latencies, eff5) :=
      dispatchAssignments m env (initial_result m used assignments) signal (sink_has cap_Latency m) in
    Some (m, TSent env signal filtered used result latencies (eff ++ eff5))
  | TSent env signal filtered used result latencies eff =>
    let failed := unacknowledged filtered (dr_Acknowledged result) in
    fa ← (if negb (Nat.eqb (length failed) 0)
          then Some <$> fallback_Reallocate fuel (m_fallback m) failed (dr_Assignments result) signal
          else Some None);
    let result :=
      MkResult (dr_Assignments result) fa (dr_Errors result) (dr_Acknowledged result) signal
        (match used_smart m used with Some d => SmartGetMarketPrice d | None => dr_MarketPrice result end)
        (dr_Scores result) in
    Some (m, TReallocated env signal filtered result
               (eff ++ recordMetrics m result latencies (sink_has cap_Latency m)))
  | TReallocated env signal filtered result eff =>
    let m := set_history (m_history m ++ [result]) m in
    Some (m, TRecorded env signal filtered result (m_history m) eff)
  | TRecorded env signal filtered result hist eff =>
    let m := set_stores ((fun st => st ++ [log_record env result signal filtered]) <$> m_store m)
               (record_status result signal <$> m_statusStore m) m in
    Some (tune_with hist m, TDone result eff)
  | TDone _ _ => None
  end.

Definition done t : bool := match t with TDone _ _ => true | _ => false end.

(** A call run alone for at most [n] steps. *)
Fixpoint run_alone (fuel n : nat) m t : option (DispatchManager F * thread F) :=
  match n with
  | O => Some (m, t)
  | S n => if done t then Some (m, t)
           else '(m, t) ← thread_step fuel m t; run_alone fuel n m t
  end.

(** A call that nothing interleaves with is the sequential handler. *)
Lemma run_alone_Dispatch fuel m env signal vehicles :
  run_alone fuel 6 m (TStart env signal vehicles) =
  '(res, m', eff) ← Dispatch simplex fuel m env signal vehicles; Some (m', TDone res eff).
Proof.
  unfold Dispatch. cbn [run_alone done thread_step].
  destruct (discover_vehicles m env vehicles) as [vs eff1].
  destruct (apply_prediction m env signal (Candidates.Filter vs signal)) as [filtered eff2].
  cbn [mbind option_bind done thread_step].
  destruct (dispatchStrategy _ _ _ _ _) as [[[[asn used] m2] eff4]|]; [|done].
  cbn [mbind option_bind done thread_step]. unfold initial_result.
  match goal with |- context [dispatchAssignments ?a ?b ?c ?d ?e] =>
    destruct (dispatchAssignments a b c d e) as [[res1 lat] eff5] end.
  cbn [mbind option_bind done thread_step].
  match goal with |- context [mbind _ ?o] => destruct o as [fa|]; [|done] end.
  cbn [mbind option_bind done thread_step].
  match goal with |- Some (tune_with ?h ?x, TDone ?r ?e) = Some (tune_manager ?y, TDone ?r' ?e') =>
    assert (e = e') as -> by (by rewrite <- !app_assoc); done end.
Qed.

(** ** Interleavings *)

(** The manager and the calls that run on it. *)
Abbreviation pool := (DispatchManager F * list (thread F))%type.

Inductive pool_step (fuel : nat) : pool → pool → Prop :=
| pool_thread i m ts t m' t' :
    ts !! i = Some t → thread_step fuel m t = Some (m', t') →
    pool_step fuel (m, ts) (m', <[i := t']> ts).

(** A schedule: the calls in the order in which they make their steps. *)
Fixpoint run_schedule (fuel : nat) (p : pool) (schedule : list nat) : option pool :=
  match schedule with
  | [] => Some p
  | i :: schedule =>
    t ← p.2 !! i;
    '(m', t') ← thread_step fuel p.1 t;
    run_schedule fuel (m', <[i := t']> p.2) schedule
  end.

Lemma run_schedule_steps fuel p schedule p' :
  run_schedule fuel p schedule = Some p' → rtc (pool_step fuel) p p'.
Proof.
  revert p. induction schedule as [|i schedule IH]; intros [m ts] Hrun; [by injection Hrun as <-|].
  cbn in Hrun. destruct (ts !! i) as [t|] eqn:Ht; [|done]. cbn in Hrun.
  destruct (thread_step fuel m t) as [[m1 t1]|] eqn:Hs; [|done]. cbn in Hrun.
  eapply rtc_l; [by eapply pool_thread|]. by apply IH.
Qed.

(** ** The service's manager *)

(** An equal dispatcher without reallocation or tuner, as the service builds it. *)
Definition stateless m : Prop :=
  m_dispatcher m = DEqual ∧ m_lpDispatcher m = LPNone ∧ m_fallback m = FNoop ∧ m_tuner m = None.

(** What the calls read of the manager: everything but the history and stores. *)
Definition settings m : DispatchManager F := set_history [] (set_stores None None m).

(** Threads that agree up to their copy of the history. *)
Definition erase t : thread F :=
  match t with
  | TRecorded env signal filtered result _ eff => TRecorded env signal filtered result [] eff
  | _ => t
  end.

Definition recorded t : option (DispatchResult F) :=
  match t with TRecorded _ _ _ res _ _ | TDone res _ => Some res | _ => None end.

Lemma stateless_strategy fuel m vs signal :
  stateless m →
  dispatchStrategy simplex fuel m vs signal =
  a ← EqualDispatch vs signal; Some (a, UsedDispatcher, m, []).
Proof.
  intros (Hd & Hl & _). unfold dispatchStrategy, lp_object. rewrite Hl, Hd. cbn [dispatcher_Dispatch].
  destruct (EqualDispatch vs signal); [|done]. cbn. repeat f_equal. destruct m. cbn in *. by subst.
Qed.

Lemma stateless_fallback m vs :
  stateless m → set_fallback (fallback_SetVehicles (m_fallback m) vs) m = m.
Proof. intros (_ & _ & Hf & _). rewrite Hf. destruct m. cbn in *. by subst. Qed.

Lemma stateless_used m used : stateless m → used_smart m used = None.
Proof. intros (Hd & Hl & _). unfold used_smart, lp_object. rewrite Hd, Hl. by destruct used. Qed.

Lemma stateless_settings m m0 : stateless m → settings m0 = settings m → stateless m0.
Proof.
  intros Hm Hs. unfold stateless in *.
  assert (∀ {A} (f : DispatchManager F → A), f (settings m0) = f (settings m)) as Hf by (by intros; rewrite Hs).
  pose proof (Hf _ m_dispatcher). pose proof (Hf _ m_lpDispatcher). pose proof (Hf _ m_fallback).
  pose proof (Hf _ m_tuner). cbn in *. intuition congruence.
Qed.

(** A step of a call on the service's manager: it succeeds, changes only the
    history and the stores, and appends to the history exactly when it records. *)
Lemma stateless_step fuel m t :
  stateless m → done t = false →
  ∃ m' t', thread_step fuel m t = Some (m', t') ∧ settings m' = settings m ∧
    m_history m' ++ option_list (recorded t) = m_history m ++ option_list (recorded t').
Proof.
  intros Hm Hd. destruct t as [env sg vs|env sg fl eff|env sg fl a u eff|env sg fl u res lat eff
    |env sg fl res eff|env sg fl res hist eff|res eff]; cbn [thread_step done] in *; [..|done].
  - destruct (discover_vehicles m env vs) as [vs' eff1]. destruct (apply_prediction _ _ _ _) as [fl eff2].
    rewrite stateless_fallback by done. by eexists _, _.
  - rewrite stateless_strategy by done. destruct (EqualDispatch_total fl sg) as [a ->]. cbn.
    by eexists _, _.
  - destruct (dispatchAssignments _ _ _ _ _) as [[res lat] eff5]. by eexists _, _.
  - destruct Hm as (_ & _ & -> & _). cbn [fallback_Reallocate].
    destruct (negb _); cbn [fmap option_fmap option_map mbind option_bind]; by eexists _, _.
  - eexists _, _. split; [done|]. split; [done|]. cbn. by rewrite app_nil_r.
  - unfold tune_with. destruct Hm as (_ & _ & _ & Ht). cbn [set_stores m_tuner]. rewrite Ht.
    by eexists _, _.
Qed.

(** What a call does depends on the settings only. *)
Lemma step_settings fuel m t :
  stateless m →
  erase ∘ snd <$> thread_step fuel m t = erase ∘ snd <$> thread_step fuel (settings m) (erase t).
Proof.
  intros Hm. assert (stateless (settings m)) as Hs by done.
  destruct t as [env sg vs|env sg fl eff|env sg fl a u eff|env sg fl u res lat eff
    |env sg fl res eff|env sg fl res hist eff|res eff]; cbn [thread_step erase]; try done.
  - change (discover_vehicles (settings m) env vs) with (discover_vehicles m env vs).
    destruct (discover_vehicles m env vs) as [vs' eff1].
    change (apply_prediction (settings m)) with (apply_prediction m).
    by destruct (apply_prediction m env sg (Candidates.Filter vs' sg)).
  - rewrite !stateless_strategy by done. by destruct (EqualDispatch fl sg).
  - unfold initial_result. rewrite !stateless_used by done.
    change (dispatchAssignments (settings m)) with (dispatchAssignments m).
    change (sink_has cap_Latency (settings m)) with (sink_has cap_Latency m).
    by destruct (dispatchAssignments _ _ _ _ _) as [[? ?] ?].
  - rewrite !stateless_used by done. change (m_fallback (settings m)) with (m_fallback m).
    match goal with |- context [mbind _ ?o] => by destruct o end.
Qed.

Lemma stateless_alone fuel n m1 m2 t1 t2 :
  stateless m1 → settings m1 = settings m2 → erase t1 = erase t2 →
  erase ∘ snd <$> run_alone fuel n m1 t1 = erase ∘ snd <$> run_alone fuel n m2 t2.
Proof.
  revert m1 m2 t1 t2. induction n as [|n IH]; intros m1 m2 t1 t2 Hm Hs He; cbn [run_alone]; [by cbn; f_equal|].
  assert (done t1 = done t2) as Hd by (by destruct t1, t2).
  assert (stateless m2) as Hm2 by (by eapply stateless_settings).
  rewrite <- Hd. destruct (done t1) eqn:Hdone; [by cbn; f_equal|].
  destruct (stateless_step fuel m1 t1) as (m1' & t1' & E1 & Hs1 & _); [done..|].
  destruct (stateless_step fuel m2 t2) as (m2' & t2' & E2 & Hs2 & _); [done..|].
  pose proof (step_settings fuel m1 t1 Hm) as H1. pose proof (step_settings fuel m2 t2 Hm2) as H2.
  rewrite He, Hs, <- H2, E1, E2 in H1. injection H1 as H1.
  rewrite E1, E2. cbn [mbind option_bind]. apply IH; [exact (stateless_settings _ _ Hm Hs1)|congruence|done].
Qed.

(** The steps a call has left. *)
Definition remaining t : nat :=
  match t with
  | TStart _ _ _ => 6 | TArmed _ _ _ _ => 5 | TAssigned _ _ _ _ _ _ => 4 | TSent _ _ _ _ _ _ _ => 3
  | TReallocated _ _ _ _ _ => 2 | TRecorded _ _ _ _ _ _ => 1 | TDone _ _ => 0
  end.

Lemma thread_step_remaining fuel m t m' t' :
  thread_step fuel m t = Some (m', t') → remaining t = S (remaining t').
Proof.
  destruct t; cbn [thread_step]; intros Hst; [..|done].
  - destruct (discover_vehicles _ _ _), (apply_prediction _ _ _ _). by injection Hst as <- <-.
  - destruct (dispatchStrategy _ _ _ _ _) as [[[[? ?] ?] ?]|]; [|done]. by injection Hst as <- <-.
  - destruct (dispatchAssignments _ _ _ _ _) as [[? ?] ?]. by injection Hst as <- <-.
  - match type of Hst with mbind _ ?o = _ => destruct o; [|done] end. by injection Hst as <- <-.
  - by injection Hst as <- <-.
  - by injection Hst as <- <-.
Qed.

(** The thread a call ends as when it runs on alone. *)
Definition finish (fuel : nat) m t : option (thread F) := snd <$> run_alone fuel (remaining t) m t.

Lemma erase_done t : remaining t = 0%nat → erase t = t.
Proof. by destruct t. Qed.

Lemma run_alone_done fuel n m t m' t' :
  (remaining t ≤ n)%nat → run_alone fuel n m t = Some (m', t') → remaining t' = 0%nat.
Proof.
  revert m t. induction n as [|n IH]; intros m t Hn Hrun; cbn [run_alone] in Hrun.
  { injection Hrun as <- <-. lia. }
  destruct (done t) eqn:Hd; [injection Hrun as <- <-; by destruct t|].
  destruct (thread_step fuel m t) as [[m1 t1]|] eqn:Hs; [|done].
  apply thread_step_remaining in Hs. eapply IH; [|exact Hrun]. lia.
Qed.

Lemma finish_settings fuel m1 m2 t :
  stateless m1 → settings m1 = settings m2 → finish fuel m1 t = finish fuel m2 t.
Proof.
  intros Hm Hs. pose proof (stateless_alone fuel (remaining t) m1 m2 t t Hm Hs eq_refl) as Heq.
  unfold finish. destruct (run_alone fuel _ m1 t) as [[m1' t1]|] eqn:E1,
    (run_alone fuel _ m2 t) as [[m2' t2]|] eqn:E2; try done.
  apply run_alone_done in E1; [|done]. apply run_alone_done in E2; [|done].
  injection Heq as Heq. cbn. by rewrite <- (erase_done t1), <- (erase_done t2), Heq.
Qed.

Lemma finish_step fuel m t m' t' :
  thread_step fuel m t = Some (m', t') → finish fuel m t = finish fuel m' t'.
Proof.
  intros Hst. unfold finish. rewrite (thread_step_remaining _ _ _ _ _ Hst). cbn [run_alone].
  rewrite Hst. by destruct t.
Qed.

Lemma finish_start fuel m env sg vs :
  finish fuel m (TStart env sg vs) =
  '(res, _, eff) ← Dispatch simplex fuel m env sg vs; Some (TDone res eff).
Proof.
  unfold finish. cbn [remaining]. rewrite run_alone_Dispatch.
  by destruct (Dispatch _ _ _ _ _ _) as [[[? ?] ?]|].
Qed.

(** ** All interleavings *)

Definition start '((env, sg, vs) : Env F * FlexibilitySignal F * list (Vehicle F)) : thread F :=
  TStart env sg vs.

Record pool_inv (fuel : nat) m0 (inputs : list (Env F * FlexibilitySignal F * list (Vehicle F))) (p : pool) :
    Prop := {
  pv_settings : settings p.1 = settings m0;
  pv_threads : Forall2 (fun x t => finish fuel m0 t = finish fuel m0 (start x)) inputs p.2;
  pv_history : m_history p.1 ≡ₚ m_history m0 ++ omap recorded p.2
}.

Lemma omap_recorded ts i t : ts !! i = Some t →
  ∀ t', omap recorded (<[i := t']> ts) =
    omap recorded (take i ts) ++ option_list (recorded t') ++ omap recorded (drop (S i) ts).
Proof.
  intros Ht t'. rewrite insert_take_drop by (by eapply lookup_lt_Some).
  rewrite omap_app. cbn. by destruct (recorded t').
Qed.

Lemma pool_inv_step fuel m0 inputs p p' :
  stateless m0 → pool_inv fuel m0 inputs p → pool_step fuel p p' → pool_inv fuel m0 inputs p'.
Proof.
  intros Hm0 Hinv Hp. destruct Hp as [i m ts t m' t' Ht Hst]. destruct Hinv as [Hs Hts Hh]. cbn [fst snd] in *.
  assert (stateless m) as Hm by exact (stateless_settings _ _ Hm0 Hs).
  assert (done t = false) as Hd by (by destruct t).
  destruct (stateless_step fuel m t Hm Hd) as (m1 & t1 & E & Hs1 & Hh1).
  rewrite Hst in E. injection E as <- <-. split; cbn [fst snd].
  - congruence.
  - destruct (Forall2_lookup_r _ _ _ _ _ Hts Ht) as (x & Hx & Hf).
    rewrite <- (list_insert_id inputs i x Hx). apply Forall2_insert; [done|].
    rewrite <- Hf, (finish_settings fuel m0 m t) by done. rewrite (finish_step _ _ _ _ _ Hst).
    apply finish_settings; [done|congruence].
  - rewrite (omap_recorded ts i t Ht t').
    rewrite <- (list_insert_id ts i t Ht), (omap_recorded ts i t Ht t) in Hh.
    apply (Permutation_app_inv_r (option_list (recorded t))). rewrite Hh1, Hh. solve_Permutation.
Qed.

Lemma pool_inv_reachable fuel m0 inputs p :
  stateless m0 → rtc (pool_step fuel) (m0, start <$> inputs) p → pool_inv fuel m0 inputs p.
Proof.
  intros Hm0 Hreach. remember (m0, start <$> inputs) as p0 eqn:Hp.
  assert (pool_inv fuel m0 inputs p0) as Hinv.
  { subst p0. split; cbn [fst snd]; [done|by apply Forall2_fmap_r, Forall_Forall2_diag, Forall_true|].
    assert (omap recorded (start <$> inputs) = []) as ->; [|by rewrite app_nil_r].
    clear. induction inputs as [|[[env sg] vs] inputs IH]; [done|]. apply IH. }
  clear Hp. induction Hreach as [|p0 p1 p Hst _ IH]; [done|]. apply IH. by eapply pool_inv_step.
Qed.

(** A call that returned, against the same call alone. *)
Lemma pool_inv_done fuel m0 inputs p i env sg vs res eff :
  pool_inv fuel m0 inputs p → inputs !! i = Some (env, sg, vs) → p.2 !! i = Some (TDone res eff) →
  ∃ m', Dispatch simplex fuel m0 env sg vs = Some (res, m', eff).
Proof.
  intros [_ Hts _] Hi Ht. pose proof (Forall2_lookup_lr _ _ _ _ _ _ Hts Hi Ht) as Hf. cbn [start] in Hf.
  rewrite finish_start in Hf. cbn in Hf.
  destruct (Dispatch _ _ _ _ _ _) as [[[res' m'] eff']|]; [|done]. injection Hf as <- <-. eauto.
Qed.

End concurrent.

(** ** Shared fallbacks *)

Section race.
#[local] Open Scope num_scope.

#[local] Instance spec_float_eq_dec : EqDecision spec_float.
Proof. solve_decision. Defined.

Definition race_vehicle (id : string) : Vehicle spec_float :=
  MkVehicle id n1 true (10 // 1) (40 // 1) true false false time_zero n0
    (MkUserProfile time_zero []) ∅ "" n0 n0.

(** [a1] does not acknowledge its order. *)
Definition race_env : Env spec_float :=
  MkEnv (inr []) (MkClient (fun id _ => inr id)
    (fun cmd _ => if bool_decide (cmd = "a1") then (false, Some ErrAckTimeout) else (true, None)))
    (fun _ => 0%Z) (fun l => l) time_zero.

Definition race_manager : DispatchManager spec_float :=
  MkManager DEqual LPNone ∅ (FBalanced ∅) false Second None false None None None None [].

(** A call for [a1] and [a2], another for [b]. *)
Definition race_inputs : list (Env spec_float * FlexibilitySignal spec_float * list (Vehicle spec_float)) :=
  [(race_env, MkSignal SignalFCR (10 // 1) Minute time_zero, [race_vehicle "a1"; race_vehicle "a2"]);
   (race_env, MkSignal SignalFCR (4 // 1) Minute time_zero, [race_vehicle "b"])].

Definition fallback_of (id : string) (res : DispatchResult spec_float) : option spec_float :=
  fa ← dr_FallbackAssignments res; fa !! id.

(** With a fallback that keeps the vehicles of a dispatch, two calls disturb each
    other: the second call sets its vehicles before the first reallocates.  The
    5 kW of [a1] are then lost, although [a2] has 5 kW to spare and takes them when
    the call runs alone. *)
Theorem fallback_race (simplex : LPSolver spec_float) :
  (∃ m ts res eff,
     rtc (pool_step simplex 10) (race_manager, start <$> race_inputs) (m, ts) ∧
     ts !! 0%nat = Some (TDone res eff) ∧ fallback_of "a2" res = Some (5 // 1)) ∧
  (∃ res m eff,
     Dispatch simplex 10 race_manager race_env (MkSignal SignalFCR (10 // 1) Minute time_zero)
       [race_vehicle "a1"; race_vehicle "a2"] = Some (res, m, eff) ∧
     fallback_of "a2" res = Some (10 // 1)).
Proof.
  split.
  - assert (match run_schedule simplex 10 (race_manager, start <$> race_inputs) [0; 1; 0; 0; 0; 0; 0]%nat with
      | Some (m, TDone res eff :: _) => bool_decide (fallback_of "a2" res = Some (5 // 1))
      | _ => false
      end = true) as Hrun by (vm_compute; reflexivity).
    destruct (run_schedule _ _ _ _) as [[m ts]|] eqn:Hs; [|discriminate Hrun].
    destruct ts as [|[| | | | | |res eff] ts]; try discriminate Hrun.
    apply bool_decide_eq_true in Hrun. apply run_schedule_steps in Hs. exists m, (TDone res eff :: ts), res, eff.
    split; [exact Hs|]. split; [reflexivity|exact Hrun].
  - assert (match Dispatch simplex 10 race_manager race_env (MkSignal SignalFCR (10 // 1) Minute time_zero)
      [race_vehicle "a1"; race_vehicle "a2"] with
      | Some (res, _, _) => bool_decide (fallback_of "a2" res = Some (10 // 1))
      | None => false
      end = true) as Hrun by (vm_compute; reflexivity).
    destruct (Dispatch _ _ _ _ _ _) as [[[res m] eff]|]; [|discriminate Hrun].
    apply bool_decide_eq_true in Hrun. exists res, m, eff. split; [reflexivity|exact Hrun].
Qed.
End race.
