(* ===== verification/ManagerRun.v ===== *)
(** * Runs of the manager

    What the manager relies on from the dispatcher it was given, as an interface
    ([DispatchContract]), the theorem that a manager around anything that keeps
    the contract handles every sequence of signals, and the instances for the
    four dispatchers of [core/dispatch]. *)

From S2P Require Import Prelude Num GoTime Model PowerMap Candidates MathExp EqualDispatcher.
From S2P Require Import SmartDispatcher SmartDelivery LPDispatcher SegmentedDispatcher.
From S2P Require Import VehicleStatus DispatchLog Tuner Fallback Manager ManagerFacts.
From stdpp Require Import base gmap strings list.
From Stdlib Require Import ZArith QArith Qabs Lqa Lia.

#[local] Open Scope Q_scope.

(** ** The interface *)

(** [I] is an invariant of the manager, [ok vs signal id p] what an assignment of
    [p] to vehicle [id] for the candidates [vs] has to satisfy.  The strategy
    returns, keeps the invariant and makes only such assignments; the rest of
    the handler does not disturb the invariant. *)
Class DispatchContract `{!MathExp Q} `{!MapRange} (simplex : LPSolver Q) (fuel : nat)
    (I : DispatchManager Q → Prop)
    (ok : list (Vehicle Q) → FlexibilitySignal Q → string → Q → Prop) : Prop := {
  dc_fallback m : I m → m_fallback m = FNoop;
  dc_prediction m : I m → m_prediction m = None;
  dc_strategy m vs signal : NoDup (ID <$> vs) → I m →
    ∃ asn used m' eff, dispatchStrategy simplex fuel m vs signal = Some (asn, used, m', eff) ∧
      I m' ∧ ∀ id p, asn !! id = Some p → ok vs signal id p;
  dc_frame m h st ss : I m → I (set_stores st ss (set_history h m));
  dc_refit m : I m → I (set_fallback FNoop m);
  dc_tune m : I m → I (tune_manager m)
}.

(** ** The client *)

Section client.
Context `{!MathExp Q} `{!MapRange} (simplex : LPSolver Q) (fuel : nat).
Context (I : DispatchManager Q → Prop) (ok : list (Vehicle Q) → FlexibilitySignal Q → string → Q → Prop).
Context `{!DispatchContract simplex fuel I ok}.
Implicit Types (m : DispatchManager Q) (env : Env Q).

(** One signal. *)
Lemma contract_dispatch m env signal vehicles :
  NoDup (ID <$> (discover_vehicles m env vehicles).1) → env_fair env → I m →
  ∃ res m' eff, Dispatch simplex fuel m env signal vehicles = Some (res, m', eff) ∧
    I m' ∧ m_discovery m' = m_discovery m ∧
    ∀ id p, dr_Assignments res !! id = Some p →
      ok (Candidates.Filter (discover_vehicles m env vehicles).1 signal) signal id p.
Proof.
  intros Hnd Hfair HI. pose proof (dc_fallback m HI) as Hfb. pose proof (dc_prediction m HI) as Hpr.
  unfold Dispatch. destruct (discover_vehicles m env vehicles) as [vs eff1]. cbn [fst] in *.
  unfold apply_prediction. rewrite Hpr, Hfb. cbn [fallback_SetVehicles].
  assert (NoDup (ID <$> Candidates.Filter vs signal)) as Hnd'.
  { eapply NoDup_fmap_sublist; [apply List_filter_sublist|done]. }
  destruct (dc_strategy (set_fallback FNoop m) _ signal Hnd' (dc_refit m HI))
    as (asn & used & m2 & eff4 & Hst & HI2 & Hok).
  rewrite Hst. cbn [mbind option_bind]. rewrite range_copy.
  apply dispatchStrategy_frame in Hst as ((d2 & lp2 & Hm2) & _).
  assert (m_discovery m2 = m_discovery m) as Hdisc by (by rewrite Hm2). clear Hm2.
  match goal with |- context [dispatchAssignments ?a ?b ?c ?d ?e] =>
    destruct (dispatchAssignments a b c d e) as [[res1 lat] eff5] eqn:Hda end.
  apply dispatchAssignments_spec in Hda as (Has & _); [|done..]. cbn in Has.
  rewrite (dc_fallback m2 HI2).
  match goal with |- context [mbind _ ?o] =>
    assert (∃ fa, o = Some fa) as [fa ->] by (destruct (negb _); by eexists) end.
  cbn [mbind option_bind]. eexists _, _, _. split; [done|]. split_and!.
  - by apply dc_tune, dc_frame.
  - match goal with |- context [tune_manager ?x] => destruct (tune_manager_frame x) as [d' ->] end. done.
  - cbn [dr_Assignments]. by rewrite Has.
Qed.

(** Vehicles a run finds for a signal. *)
Definition discovered (disc : bool) env : list (Vehicle Q) :=
  if disc then match env_discover env with inr vs => vs | inl _ => [] end else [].

(** Every sequence of signals. *)
Lemma contract_run m disc (inputs : list (Env Q * FlexibilitySignal Q)) :
  I m → m_discovery m = disc →
  Forall (fun '(env, _) => env_fair env ∧ NoDup (ID <$> discovered disc env)) inputs →
  ∃ results m', Run simplex fuel m inputs = Some (results, m') ∧
    Forall2 (fun '(env, signal) res => ∀ id p, dr_Assignments res !! id = Some p →
      ok (Candidates.Filter (discovered disc env) signal) signal id p) inputs results.
Proof.
  intros HI Hd Hinputs. revert m HI Hd.
  induction Hinputs as [|[env signal] inputs [Hfair Hnd] _ IH]; intros m HI Hd; cbn [Run].
  { eexists _, _. split; [done|]. constructor. }
  assert ((discover_vehicles m env []).1 = discovered disc env) as Hdisc.
  { unfold discover_vehicles, discovered. rewrite Hd. destruct disc; [|done]. cbn.
    by destruct (env_discover env). }
  destruct (contract_dispatch m env signal []) as (res & m1 & eff & -> & HI1 & Hd1 & Hok);
    [by rewrite Hdisc|done|done|].
  cbn [mbind option_bind]. destruct (IH m1) as (results & m2 & -> & Hall); [done|congruence|].
  cbn. eexists _, _. split; [done|]. constructor; [|done]. by rewrite Hdisc in Hok.
Qed.
End client.

(** ** The implementations *)

Section implementations.
Context `{!MathExp Q} `{!MapRange} (simplex : LPSolver Q) (Hsolver : solver_complete simplex).
Implicit Types (m : DispatchManager Q) (d : SmartDispatcher Q) (vs : list (Vehicle Q)).

(** The settings of a dispatcher the limits depend on. *)
Definition same_limits d d' : Prop :=
  sd_MaxRounds d' = sd_MaxRounds d ∧
  sd_EnableSoCConstraints d' = sd_EnableSoCConstraints d ∧
  sd_SafeDischargeFloor d' = sd_SafeDischargeFloor d.

Lemma power_ok_limits d d' vs signal id p :
  same_limits d d' → power_ok d' vs signal id p → power_ok d vs signal id p.
Proof. intros (_ & He & Hf). unfold power_ok. by rewrite He, Hf. Qed.

Lemma same_limits_scores d d' s : same_limits d d' → same_limits d (set_scores s d').
Proof. done. Qed.

Lemma same_limits_tune d d' t h : same_limits d d' → same_limits d (Tune t d' h).
Proof. intros Hl. destruct (Tune_cases t d' h) as [->|[delta ->]]; done. Qed.

(** What the construction fixes: no reallocation, no prediction. *)
Definition plain m : Prop := m_fallback m = FNoop ∧ m_prediction m = None.

(** The weighted dispatcher with its LP copy, the LP dispatcher, and the two
    dispatchers without LP. *)
Definition ready (dd : Dispatcher Q) m : Prop :=
  plain m ∧
  match dd with
  | DSmart d => (∃ sd, m_dispatcher m = DSmart sd ∧ same_limits d sd) ∧
                (∃ lp, m_lpDispatcher m = LPOwn lp ∧ same_limits d lp)
  | DLP d => (∃ sd, m_dispatcher m = DLP sd ∧ same_limits d sd) ∧ m_lpDispatcher m = LPShared
  | DEqual | DSegmented _ => m_dispatcher m = dd ∧ m_lpDispatcher m = LPNone
  end.

(** What each dispatcher promises for an assignment. *)
Definition assignment_ok (dd : Dispatcher Q) vs (signal : FlexibilitySignal Q) (id : string) (p : Q) : Prop :=
  match dd with
  | DSmart d | DLP d => power_ok d vs signal id p
  | DSegmented _ => power_ok NewSmartDispatcher vs (segment_part vs signal) id p
  | DEqual => Forall (fun v => 0 <= MaxPower v) vs → 0 <= PowerKW signal →
      ∃ v, v ∈ vs ∧ ID v = id ∧ 0 <= p <= MaxPower v
  end.

(** The rounds a dispatcher may need. *)
Definition enough_fuel (dd : Dispatcher Q) (fuel : nat) : Prop :=
  match dd with
  | DSmart d | DLP d => sd_MaxRounds d ≠ 0%Z ∧ (sd_MaxRounds d <= Z.of_nat fuel)%Z
  | DSegmented _ => (10 ≤ fuel)%nat
  | DEqual => True
  end.

Lemma smart_call fuel d sd vs signal :
  sd_MaxRounds d ≠ 0%Z → (sd_MaxRounds d <= Z.of_nat fuel)%Z → NoDup (ID <$> vs) →
  same_limits d sd →
  ∃ a sd', SmartDispatch fuel sd vs signal = Some (a, sd') ∧ same_limits d sd' ∧
    ∀ id p, a !! id = Some p → power_ok d vs signal id p.
Proof.
  intros Hmax Hfuel Hnd Hls.
  destruct (SmartDispatch_total fuel sd vs signal) as [[a sd'] Ha]; [by destruct Hls as [-> _]..|].
  exists a, sd'. split_and!; [done| |].
  - apply SmartDispatch_inv in Ha as [(_ & -> & _)|(_ & _ & -> & _)]; [done|].
    by apply same_limits_scores.
  - intros id p Hid. apply (power_ok_limits d sd); [done|].
    destruct (SmartDispatch_limits _ _ _ _ _ _ Hnd Ha) as [Hl _]. by apply Hl.
Qed.

Lemma strict_call d lp vs signal :
  NoDup (ID <$> vs) → same_limits d lp →
  ∃ asn err lp', DispatchStrict simplex lp vs signal = Some (asn, err, lp') ∧ same_limits d lp' ∧
    ∀ id p, default ∅ asn !! id = Some p → power_ok d vs signal id p.
Proof.
  intros Hnd Hll. destruct (DispatchStrict_returns simplex Hsolver lp vs signal) as [[[asn err] lp'] Hs].
  exists asn, err, lp'. split_and!; [done| |].
  - rewrite (DispatchStrict_frame _ _ _ _ _ _ _ Hs). by apply same_limits_scores.
  - intros id p Hid. apply (power_ok_limits d lp); [done|].
    destruct asn as [asn|]; [|done]. by eapply DispatchStrict_power_ok.
Qed.

(** The LP dispatcher's own [Dispatch]. *)
Lemma lp_call fuel d sd vs signal :
  sd_MaxRounds d ≠ 0%Z → (sd_MaxRounds d <= Z.of_nat fuel)%Z → NoDup (ID <$> vs) →
  same_limits d sd →
  ∃ a sd', LPDispatch simplex fuel sd vs signal = Some (a, sd') ∧ same_limits d sd' ∧
    ∀ id p, a !! id = Some p → power_ok d vs signal id p.
Proof.
  intros Hmax Hfuel Hnd Hls. unfold LPDispatch.
  destruct (strict_call d sd vs signal) as (asn & err & sd1 & -> & Hl1 & Hok); [done..|].
  cbn [mbind option_bind]. destruct err; [|by eexists _, _].
  destruct (smart_call fuel d sd1 vs signal) as (a & sd2 & -> & _ & Ha); [done..|]. by eexists _, _.
Qed.

Lemma equal_call fuel m vs signal :
  NoDup (ID <$> vs) → ready DEqual m →
  ∃ a, dispatcher_Dispatch simplex fuel (m_dispatcher m) vs signal = Some (a, DEqual) ∧
    ready DEqual (set_dispatchers DEqual (m_lpDispatcher m) m) ∧
    ∀ id p, a !! id = Some p → assignment_ok DEqual vs signal id p.
Proof.
  intros Hnd [Hplain [Hd Hlp]]. rewrite Hd. cbn [dispatcher_Dispatch].
  destruct (EqualDispatch_total vs signal) as [a Ha]. rewrite Ha. eexists. split; [done|].
  split; [by split; cbn|]. intros id p Hid Hmax HP.
  destruct (EqualDispatch_exact vs signal a) as (Hdom & Hb & _); [done..|].
  assert (id ∈ ID <$> vs) as (v & -> & Hv)%list_elem_of_fmap.
  { rewrite <- (elem_of_list_to_set (C := gset string)), <- Hdom. by apply elem_of_dom. }
  exists v. split; [done|]. split; [done|]. rewrite <- (lookup_mget _ _ _ Hid). by apply Hb.
Qed.

(** The dispatchers behind the interface [Dispatcher]: each call returns,
    keeps the settings and assigns what it promises. *)
Lemma dispatcher_call fuel dd m vs signal :
  enough_fuel dd fuel → NoDup (ID <$> vs) → ready dd m →
  ∃ a dd', dispatcher_Dispatch simplex fuel (m_dispatcher m) vs signal = Some (a, dd') ∧
    ready dd (set_dispatchers dd' (m_lpDispatcher m) m) ∧
    ∀ id p, a !! id = Some p → assignment_ok dd vs signal id p.
Proof.
  intros Hfuel Hnd [Hplain Hr]. destruct dd as [|d|d|segs]; cbn [enough_fuel ready] in *.
  - destruct (equal_call fuel m vs signal) as (a & Ha & Hr' & Hok); [done|by split|].
    by eexists _, _.
  - destruct Hr as [(sd & Hd & Hls) Hlp], Hfuel as [Hmax Hf]. rewrite Hd. cbn [dispatcher_Dispatch].
    destruct (smart_call fuel d sd vs signal) as (a & sd' & -> & Hls' & Ha); [done..|].
    eexists _, _. split; [done|]. split; [|done]. split; [done|]. cbn. eauto.
  - destruct Hr as [(sd & Hd & Hls) Hlp], Hfuel as [Hmax Hf]. rewrite Hd. cbn [dispatcher_Dispatch].
    destruct (lp_call fuel d sd vs signal) as (a & sd' & -> & Hls' & Ha); [done..|].
    eexists _, _. split; [done|]. split; [|done]. split; [done|]. cbn. eauto.
  - destruct Hr as [Hd Hlp]. rewrite Hd. cbn [dispatcher_Dispatch].
    destruct (SegmentedDispatch_limits simplex Hsolver fuel segs vs signal) as (a & -> & Ha); [done..|].
    eexists _, _. split; [done|]. split; [by split; cbn|done].
Qed.

Lemma ready_strategy fuel dd m vs signal :
  enough_fuel dd fuel → NoDup (ID <$> vs) → ready dd m →
  ∃ asn used m' eff, dispatchStrategy simplex fuel m vs signal = Some (asn, used, m', eff) ∧
    ready dd m' ∧ ∀ id p, asn !! id = Some p → assignment_ok dd vs signal id p.
Proof.
  intros Hfuel Hnd Hr. unfold dispatchStrategy.
  assert (∀ m' (ev : list (effect Q)), ready dd m' → ∃ asn used m2 eff,
    ('(a, dd') ← dispatcher_Dispatch simplex fuel (m_dispatcher m') vs signal;
     Some (a, UsedDispatcher, set_dispatchers dd' (m_lpDispatcher m') m', ev)) =
    Some (asn, used, m2, eff) ∧ ready dd m2 ∧
    ∀ id p, asn !! id = Some p → assignment_ok dd vs signal id p) as Hcall.
  { intros m' ev Hr'. destruct (dispatcher_call fuel dd m' vs signal) as (a & d' & -> & Hr2 & Ha); [done..|].
    by eexists _, _, _, _. }
  destruct (lp_object m) as [lp|] eqn:Hlp; [|by apply Hcall].
  destruct (default false _); [|by apply Hcall].
  assert (∃ d, (dd = DSmart d ∨ dd = DLP d) ∧ same_limits d lp ∧
    ∀ lp', same_limits d lp' → ready dd (lp_update m lp')) as (d & Hdd & Hll & Hup).
  { destruct Hr as [Hplain Hr]. unfold lp_object in Hlp. destruct dd as [|d|d|segs].
    - destruct Hr as [_ Hn]. by rewrite Hn in Hlp.
    - destruct Hr as [Hsd (lp0 & Hl & Hls)]. rewrite Hl in Hlp. injection Hlp as ->.
      exists d. split_and!; [by left|done|]. intros lp' Hl'. unfold lp_update. rewrite Hl.
      split; [done|]. cbn. eauto.
    - destruct Hr as [(sd & Hd & Hls) Hl]. rewrite Hl, Hd in Hlp. injection Hlp as ->.
      exists d. split_and!; [by right|done|]. intros lp' Hl'. unfold lp_update. rewrite Hl.
      split; [done|]. cbn. eauto.
    - destruct Hr as [_ Hn]. by rewrite Hn in Hlp. }
  destruct (strict_call d lp vs signal) as (asn & err & lp' & -> & Hl' & Hok); [done..|].
  cbn [mbind option_bind]. destruct err as [e|]; [by apply Hcall, Hup|].
  eexists _, _, _, _. split; [done|]. split; [by apply Hup|].
  intros id p Hid. destruct Hdd as [-> | ->]; by apply Hok.
Qed.

(** The equal dispatcher keeps the contract whatever the solver is. *)
Lemma equal_contract fuel : DispatchContract simplex fuel (ready DEqual) (assignment_ok DEqual).
Proof.
  split.
  - by intros m [[? _] _].
  - by intros m [[_ ?] _].
  - intros m vs signal Hnd Hr. unfold dispatchStrategy, lp_object.
    destruct (equal_call fuel m vs signal Hnd Hr) as (a & -> & Hr' & Hok).
    destruct Hr as [_ [_ Hl]]. rewrite Hl in *. cbn [mbind option_bind]. by eexists _, _, _, _.
  - by intros m h st ss [? ?].
  - by intros m [[? ?] ?].
  - intros m [Hp [Hd Hl]]. unfold tune_manager. destruct (m_tuner m) as [t|]; [|by split].
    rewrite Hd. by split.
Qed.

(** Every dispatcher of the program keeps the contract. *)
#[export] Instance dispatcher_contract fuel dd (Hfuel : enough_fuel dd fuel) :
  DispatchContract simplex fuel (ready dd) (assignment_ok dd).
Proof.
  split.
  - by intros m [[? _] _].
  - by intros m [[_ ?] _].
  - intros m vs signal. by apply ready_strategy.
  - intros m h st ss [Hp Hr]. by split.
  - intros m [[Hf Hp] Hr]. by split.
  - intros m [Hp Hr]. unfold tune_manager. destruct (m_tuner m) as [t|]; [|by split].
    destruct dd as [|d|d|segs].
    + destruct Hr as [Hd Hl]. rewrite Hd. by split.
    + destruct Hr as [(sd & Hd & Hls) Hl]. rewrite Hd. split; [done|]. cbn.
      eauto using same_limits_tune.
    + destruct Hr as [(sd & Hd & Hls) Hl]. rewrite Hd. split; [done|]. cbn.
      eauto using same_limits_tune.
    + destruct Hr as [Hd Hl]. rewrite Hd. by split.
Qed.

(** A new manager starts in a state its dispatcher is ready in. *)
Lemma ready_new dd ackTimeout sink bus disc tuner lpFirst m0 :
  NewDispatchManager true true (Some dd) (Some FNoop) ackTimeout sink bus disc tuner None = inr m0 →
  ready dd (SetLPFirst m0 lpFirst) ∧ m_discovery (SetLPFirst m0 lpFirst) = disc.
Proof.
  intros [= <-]. split; [|by destruct lpFirst].
  destruct lpFirst; (split; [done|]); destruct dd; cbn; try done;
    (split; [eexists; (split; [done|]); done|]); try done; eexists; (split; [done|]); done.
Qed.

End implementations.
