(* ===== verification/Collectors.v ===== *)
(** * The collectors of the dispatch manager

    Models the values of the Prometheus collectors of [core/dispatch/metrics.go]
    and the places of [manager.go] that change them: the publish counters of
    [sendAndWait], the counter and the histogram of [update], the gauge set when
    all goroutines of [dispatchAssignments] are done, and the errors the
    goroutines hand to the monitor.  Counters are integers, a histogram is the
    list of its observations.  The theorems relate the collectors to the results
    of the dispatches, which are what the manager itself keeps. *)

From S2P Require Import Prelude Num GoTime Model PowerMap MathExp LPDispatcher.
From S2P Require Import Monitoring Tuner Manager ManagerFacts.
From stdpp Require Import base gmap strings list.
From Stdlib Require Import ZArith QArith Lqa Lia.

#[local] Open Scope Z_scope.

(** The package variables; the vectors by the label [signal_type]. *)
Record Collectors (F : Type) := MkCollectors {
  co_dispatchLatency : gmap string (list F);
  co_vehiclesDispatched : gmap string Z;
  co_ackRate : gmap string F;
  co_mqttSuccess : Z;
  co_mqttFailure : Z
}.
Arguments MkCollectors {F}.
Arguments co_dispatchLatency {F}.
Arguments co_vehiclesDispatched {F}.
Arguments co_ackRate {F}.
Arguments co_mqttSuccess {F}.
Arguments co_mqttFailure {F}.

Section collectors.
Context {F : Type} `{Num F} `{!MathExp F} `{!MapRange} (simplex : LPSolver F).
Implicit Types (m : DispatchManager F) (env : Env F) (signal : FlexibilitySignal F).
Implicit Types (c : Collectors F).

(** The values of fresh collectors. *)
Definition newCollectors : Collectors F := MkCollectors ∅ ∅ ∅ 0 0.

(** The counters in [sendAndWait]. *)
Definition count_publish env (id : string) (power : F) c : Collectors F :=
  match cl_SendOrder (env_client env) id power with
  | inl _ => MkCollectors (co_dispatchLatency c) (co_vehiclesDispatched c) (co_ackRate c)
               (co_mqttSuccess c) (co_mqttFailure c + 1)
  | inr _ => MkCollectors (co_dispatchLatency c) (co_vehiclesDispatched c) (co_ackRate c)
               (co_mqttSuccess c + 1) (co_mqttFailure c)
  end.

(** The collectors in the closure [update]. *)
Definition count_update signal (dur : Duration) c : Collectors F :=
  let t := SignalType_String (sig_Type signal) in
  MkCollectors
    (<[t := default [] (co_dispatchLatency c !! t) ++ [Seconds dur]]> (co_dispatchLatency c))
    (<[t := default 0 (co_vehiclesDispatched c !! t) + 1]> (co_vehiclesDispatched c))
    (co_ackRate c) (co_mqttSuccess c) (co_mqttFailure c).

(** A goroutine. *)
Definition count_order m env signal c (idp : string * F) : Collectors F :=
  let '(id, p) := idp in
  let '(_, _, d, _) := sendAndWait m env id p in
  count_update signal d (count_publish env id p c).

(** After [wg.Wait()]. *)
Definition set_ack_rate signal (ackCount total : Z) c : Collectors F :=
  if total >? 0 then
    MkCollectors (co_dispatchLatency c) (co_vehiclesDispatched c)
      (<[SignalType_String (sig_Type signal) := ndiv (nofZ ackCount) (nofZ total)]> (co_ackRate c))
      (co_mqttSuccess c) (co_mqttFailure c)
  else c.

(** What [dispatchAssignments] does to the collectors: the goroutines finish in
    the order of [dispatchAssignments], and [ackCount] is the one they share. *)
Definition count_assignments m env (res : DispatchResult F) signal (recordLatency : bool) c : Collectors F :=
  let order := env_order env (range_map (dr_Assignments res)) in
  let '(st, _) := foldl (order_goroutine m env res signal recordLatency)
                    (MkOrderState (dr_Errors res) (dr_Acknowledged res) [] 0, []) order in
  set_ack_rate signal (os_ackCount st) (Z.of_nat (size (dr_Assignments res)))
    (foldl (count_order m env signal) c order).

(** [Dispatch] with its collectors. *)
Definition DispatchCollected (fuel : nat) m env signal (vehicles : list (Vehicle F)) c :
    option (DispatchResult F * DispatchManager F * Collectors F) :=
  '(res, m', _) ← Dispatch simplex fuel m env signal vehicles;
  Some (res, m', count_assignments m env res signal (sink_has cap_Latency m) c).

(** [Run] with its collectors. *)
Fixpoint RunCollected (fuel : nat) m c (inputs : list (Env F * FlexibilitySignal F)) :
    option (list (DispatchResult F) * DispatchManager F * Collectors F) :=
  match inputs with
  | [] => Some ([], m, c)
  | (env, sig) :: inputs =>
    '(res, m, c) ← DispatchCollected fuel m env sig [] c;
    '(results, m, c) ← RunCollected fuel m c inputs;
    Some (res :: results, m, c)
  end.

(** What the goroutine of an order hands to the monitor. *)
Definition order_capture (current : Monitor) m env signal (idp : string * F) : list sentry_event :=
  let '(id, p) := idp in
  let '(_, _, _, err) := sendAndWait m env id p in
  match err with
  | Some e => CaptureException current (Some (Error e))
      (<["vehicle_id" := id]> (<["signal_type" := SignalType_String (sig_Type signal)]>
        {["module" := "dispatch_manager"]}))
  | None => []
  end.

Definition captures (current : Monitor) m env (res : DispatchResult F) signal : list sentry_event :=
  mbind (order_capture current m env signal) (env_order env (range_map (dr_Assignments res))).

(** ** Orders *)

(** The orders of a dispatch the client could not send. *)
Definition unsent env (l : list (string * F)) : list (string * F) :=
  List.filter (fun '(id, p) => match cl_SendOrder (env_client env) id p with inl _ => true | inr _ => false end) l.

Definition acked_orders m env (l : list (string * F)) : list (string * F) :=
  List.filter (fun '(id, p) => outcome_ack m env id p) l.

Abbreviation nat_len l := (Z.of_nat (length l)).

Lemma sendAndWait_latency m env id p :
  ∃ o ack err, sendAndWait m env id p = (o, ack, env_latency env id, err).
Proof.
  unfold sendAndWait. destruct (cl_SendOrder _ _ _); [by eexists _, _, _|].
  destruct (cl_WaitForAck _ _ _). by eexists _, _, _.
Qed.

Lemma ackCount_spec m env res signal rl l st eff :
  os_ackCount (foldl (order_goroutine m env res signal rl) (st, eff) l).1 =
  os_ackCount st + nat_len (acked_orders m env l).
Proof.
  revert st eff. induction l as [|[id p] l IH]; intros st eff; [cbn; lia|].
  cbn [foldl acked_orders List.filter]. unfold order_goroutine at 2.
  unfold outcome_ack. destruct (sendAndWait m env id p) as [[[o ack] d] err].
  cbn [update]. rewrite IH. cbn [os_ackCount fst]. unfold acked_orders, outcome_ack.
  destruct (ok_ack ack err); cbn [length]; lia.
Qed.

(** What a list of finished orders adds. *)
Record counted_orders m env signal (l : list (string * F)) c c' : Prop := {
  cto_published : co_mqttSuccess c' + co_mqttFailure c' =
    co_mqttSuccess c + co_mqttFailure c + nat_len l;
  cto_failed : co_mqttFailure c' = co_mqttFailure c + nat_len (unsent env l);
  cto_dispatched t : default 0 (co_vehiclesDispatched c' !! t) =
    default 0 (co_vehiclesDispatched c !! t) +
    (if bool_decide (t = SignalType_String (sig_Type signal)) then nat_len l else 0);
  cto_latency t : default [] (co_dispatchLatency c' !! t) =
    default [] (co_dispatchLatency c !! t) ++
    (if bool_decide (t = SignalType_String (sig_Type signal))
     then (fun idp => Seconds (env_latency env idp.1)) <$> l else []);
  cto_rate : co_ackRate c' = co_ackRate c
}.

Lemma count_order_spec m env signal c idp :
  counted_orders m env signal [idp] c (count_order m env signal c idp).
Proof.
  destruct idp as [id p]. unfold count_order.
  destruct (sendAndWait_latency m env id p) as (o & ack & err & ->).
  unfold count_publish, count_update, unsent. cbn [List.filter].
  destruct (cl_SendOrder (env_client env) id p) eqn:Hs; split; cbn; rewrite ?Hs; cbn; try lia; try done; intros t;
    rewrite lookup_insert; case_decide; case_bool_decide; subst; try done; cbn; try lia;
    by rewrite ?app_nil_r.
Qed.

Lemma counted_orders_app m env signal l k c1 c2 c3 :
  counted_orders m env signal l c1 c2 → counted_orders m env signal k c2 c3 →
  counted_orders m env signal (l ++ k) c1 c3.
Proof.
  intros [P1 F1 D1 L1 R1] [P2 F2 D2 L2 R2].
  split; unfold unsent in *; rewrite ?List.filter_app, ?length_app, ?R2, ?R1; try lia; try done; intros t.
  - rewrite D2, D1. case_bool_decide; lia.
  - rewrite L2, L1, fmap_app. case_bool_decide; by rewrite <- ?app_assoc, ?app_nil_r.
Qed.

Lemma count_orders_spec m env signal l c :
  counted_orders m env signal l c (foldl (count_order m env signal) c l).
Proof.
  revert c. induction l as [|x l IH]; intros c.
  - split; cbn; try lia; try done; intros t; case_bool_decide; by rewrite ?app_nil_r, ?Z.add_0_r.
  - cbn [foldl]. change (x :: l) with ([x] ++ l).
    eapply counted_orders_app; [apply count_order_spec|apply IH].
Qed.

(** ** One dispatch *)

(** The share of acknowledged orders in a result. *)
Definition ack_rate_of (res : DispatchResult F) : F :=
  ndiv (nofZ (nat_len (List.filter (fun x => x.2) (map_to_list (dr_Acknowledged res)))))
    (nofZ (Z.of_nat (size (dr_Assignments res)))).

(** What the collectors say about one result. *)
Record counted_result (res : DispatchResult F) c c' : Prop := {
  ctr_published : co_mqttSuccess c' + co_mqttFailure c' =
    co_mqttSuccess c + co_mqttFailure c + Z.of_nat (size (dr_Assignments res));
  ctr_failed : co_mqttFailure c <= co_mqttFailure c' <=
    co_mqttFailure c + Z.of_nat (size (dr_Errors res));
  ctr_dispatched t : default 0 (co_vehiclesDispatched c' !! t) =
    default 0 (co_vehiclesDispatched c !! t) +
    (if bool_decide (t = SignalType_String (sig_Type (dr_Signal res)))
     then Z.of_nat (size (dr_Assignments res)) else 0);
  ctr_observed t : nat_len (default [] (co_dispatchLatency c' !! t)) =
    nat_len (default [] (co_dispatchLatency c !! t)) +
    (if bool_decide (t = SignalType_String (sig_Type (dr_Signal res)))
     then Z.of_nat (size (dr_Assignments res)) else 0);
  ctr_rate : co_ackRate c' =
    if bool_decide (dr_Assignments res = ∅) then co_ackRate c
    else <[SignalType_String (sig_Type (dr_Signal res)) := ack_rate_of res]> (co_ackRate c)
}.

(** Filtering the entries of a map made by [map_imap]. *)
Lemma length_imap_entries {B} (f : string → F → option B) (a : gmap string F) (P : B → bool) :
  length (List.filter (fun x => P x.2) (map_to_list (map_imap f a))) =
  length (List.filter (fun '(id, p) => match f id p with Some b => P b | None => false end) (map_to_list a)).
Proof.
  induction a as [|id p a Hid IH] using map_ind; [by rewrite map_imap_empty, !map_to_list_empty|].
  rewrite (List_filter_perm _ _ _ (map_to_list_insert a id p Hid)). cbn [List.filter].
  assert (map_imap f a !! id = None) as Hn by (rewrite map_lookup_imap, Hid; done).
  destruct (f id p) as [b|] eqn:Hf.
  - rewrite (map_imap_insert_Some f id p a b Hf).
    rewrite (List_filter_perm _ _ _ (map_to_list_insert _ id b Hn)). cbn [List.filter snd].
    destruct (P b); cbn [length]; by rewrite IH.
  - rewrite (map_imap_insert_None f id p a Hf), delete_id by done. done.
Qed.

Lemma size_imap {B} (f : string → F → option B) (a : gmap string F) :
  size (map_imap f a) =
  length (List.filter (fun '(id, p) => match f id p with Some _ => true | None => false end) (map_to_list a)).
Proof.
  rewrite <- (length_imap_entries f a (fun _ => true)), <- length_map_to_list.
  f_equal. symmetry. by apply List_filter_all.
Qed.

Lemma unsent_errors m env (l : list (string * F)) :
  (length (unsent env l) ≤
   length (List.filter (fun '(id, p) => match outcome_err m env id p with Some _ => true | None => false end) l))%nat.
Proof.
  induction l as [|[id p] l IH]; [done|]. unfold unsent in *. cbn [List.filter].
  unfold outcome_err at 1, sendAndWait. destruct (cl_SendOrder _ _ _); cbn [length]; [lia|].
  destruct (cl_WaitForAck _ _ _) as [ack [e|]]; cbn [length]; lia.
Qed.

Lemma DispatchCollected_counted fuel m env signal vehicles c res m' c' :
  env_fair env → DispatchCollected fuel m env signal vehicles c = Some (res, m', c') →
  (∃ eff, Dispatch simplex fuel m env signal vehicles = Some (res, m', eff)) ∧ counted_result res c c'.
Proof.
  intros Hfair Hrun. unfold DispatchCollected in Hrun.
  destruct (Dispatch _ _ _ _ _ _) as [[[res0 m0] eff]|] eqn:Hd; [|done].
  cbn [mbind option_bind] in Hrun. injection Hrun as <- <- <-. split; [by eexists|].
  apply Dispatch_inv in Hd as [_ Hack Herr Hsig _ _ _]; [|done].
  unfold count_assignments. set (l := env_order env (range_map (dr_Assignments res0))).
  assert (l ≡ₚ map_to_list (dr_Assignments res0)) as Hl by (unfold l; by rewrite (Hfair _), range_map_perm).
  assert (length l = size (dr_Assignments res0)) as Hlen by (by rewrite Hl, length_map_to_list).
  match goal with |- context [foldl (order_goroutine ?a ?b ?d ?e ?f) (?st, ?ef) l] =>
    pose proof (ackCount_spec a b d e f l st ef) as Hcount;
    destruct (foldl (order_goroutine a b d e f) (st, ef) l) as [st' eff'] end.
  cbn [fst os_ackCount] in Hcount. rewrite Z.add_0_l in Hcount. rewrite Hcount.
  destruct (count_orders_spec m env signal l c) as [HP HF HD HL HR].
  set (c1 := foldl (count_order m env signal) c l) in *.
  unfold set_ack_rate. rewrite Hlen in *.
  assert (nat_len (unsent env l) <= Z.of_nat (size (dr_Errors res0))) as Hun.
  { rewrite Herr, size_imap, <- (List_filter_perm _ _ _ Hl).
    pose proof (unsent_errors m env l). lia. }
  assert (nat_len (acked_orders m env l) =
    nat_len (List.filter (fun x => x.2) (map_to_list (dr_Acknowledged res0)))) as Hack'.
  { rewrite Hack, (length_imap_entries _ _ (fun b => b)), <- (List_filter_perm _ _ _ Hl). done. }
  assert (∀ t, nat_len (default [] (co_dispatchLatency c1 !! t)) =
    nat_len (default [] (co_dispatchLatency c !! t)) +
    (if bool_decide (t = SignalType_String (sig_Type signal)) then Z.of_nat (size (dr_Assignments res0)) else 0)) as HL'.
  { intros t. rewrite HL, length_app. case_bool_decide; rewrite ?length_fmap, ?Hlen; cbn; lia. }
  destruct (decide (dr_Assignments res0 = ∅)) as [He|He].
  - assert (size (dr_Assignments res0) = 0%nat) as Hsz by (by rewrite He, map_size_empty).
    rewrite Hsz in *. change (Z.of_nat 0 >? 0) with false. cbv iota.
    split; rewrite ?Hsig, ?Hsz, ?(bool_decide_eq_true_2 _ He); try done; lia.
  - assert (size (dr_Assignments res0) ≠ 0%nat) as Hsz by (by rewrite map_size_empty_iff).
    destruct (Z.gtb_spec (Z.of_nat (size (dr_Assignments res0))) 0); [|lia].
    split; cbn; rewrite ?Hsig, ?bool_decide_eq_false_2 by done; try done; [lia|].
    unfold ack_rate_of. by rewrite HR, Hack'.
Qed.

(** ** Runs *)

(** The number of orders of a signal type, and its last acknowledgment rate,
    read off the results. *)
Definition orders_of (t : string) (results : list (DispatchResult F)) : Z :=
  foldr (fun res n => (if bool_decide (t = SignalType_String (sig_Type (dr_Signal res)))
                       then Z.of_nat (size (dr_Assignments res)) else 0) + n) 0 results.

Definition all_orders (results : list (DispatchResult F)) : Z :=
  foldr (fun res n => Z.of_nat (size (dr_Assignments res)) + n) 0 results.

Definition all_errors (results : list (DispatchResult F)) : Z :=
  foldr (fun res n => Z.of_nat (size (dr_Errors res)) + n) 0 results.

Definition last_rate (t : string) (results : list (DispatchResult F)) (old : option F) : option F :=
  foldl (fun r res => if bool_decide (t = SignalType_String (sig_Type (dr_Signal res))) &&
                         negb (bool_decide (dr_Assignments res = ∅))
                      then Some (ack_rate_of res) else r) old results.

Lemma RunCollected_counted fuel m c inputs results m' c' :
  Forall (fun '(env, _) => env_fair env) inputs →
  RunCollected fuel m c inputs = Some (results, m', c') →
  Run simplex fuel m inputs = Some (results, m') ∧
  co_mqttSuccess c' + co_mqttFailure c' = co_mqttSuccess c + co_mqttFailure c + all_orders results ∧
  co_mqttFailure c <= co_mqttFailure c' <= co_mqttFailure c + all_errors results ∧
  ∀ t, default 0 (co_vehiclesDispatched c' !! t) =
         default 0 (co_vehiclesDispatched c !! t) + orders_of t results ∧
       nat_len (default [] (co_dispatchLatency c' !! t)) =
         nat_len (default [] (co_dispatchLatency c !! t)) + orders_of t results ∧
       co_ackRate c' !! t = last_rate t results (co_ackRate c !! t).
Proof.
  intros Hfair. revert m c results m' c'.
  induction Hfair as [|[env sig] inputs He _ IH]; intros m c results m' c' Hrun; cbn [RunCollected] in Hrun.
  { injection Hrun as <- <- <-. cbn. split_and!; [done|lia..|]. intros t. split_and!; [lia|lia|done]. }
  destruct (DispatchCollected fuel m env sig [] c) as [[[res m1] c1]|] eqn:Hd; [|done].
  cbn [mbind option_bind] in Hrun.
  destruct (RunCollected fuel m1 c1 inputs) as [[[rs m2] c2]|] eqn:Hr; [|done]. injection Hrun as <- <- <-.
  apply IH in Hr as (Hrun & HP & HF & Ht).
  apply DispatchCollected_counted in Hd as ([eff Hd] & [P1 F1 D1 L1 R1]); [|done].
  cbn [Run]. rewrite Hd. cbn [mbind option_bind]. rewrite Hrun. cbn [mbind option_bind].
  cbn [all_orders all_errors orders_of last_rate foldr foldl]. fold (all_orders rs) (all_errors rs).
  split_and!; [done|lia|lia|lia|]. intros t. destruct (Ht t) as (Htd & Htl & Htr).
  fold (orders_of t rs). rewrite Htd, Htl, Htr, D1, L1, R1. split_and!; [lia|lia|].
  unfold last_rate. f_equal. case_bool_decide as Ha; cbn [negb]; [by rewrite andb_false_r|].
  rewrite andb_true_r, lookup_insert. case_decide; case_bool_decide; by subst.
Qed.

(** C10. The collectors are a function of what the manager returns: after any run of
    signals from fresh collectors, the publish counters add up to the number of
    orders of all results, and the failures are not more than the recorded
    errors; for every signal type, the counter of dispatched vehicles and the
    number of observed latencies are the number of its orders, failed ones
    included, and the gauge is the share of acknowledged orders of the last
    result of that type that had any. *)
Theorem Run_collectors fuel m inputs results m' c
    (Hfair : Forall (fun '(env, _) => env_fair env) inputs)
    (Hrun : RunCollected fuel m newCollectors inputs = Some (results, m', c)) :
  Run simplex fuel m inputs = Some (results, m') ∧
  co_mqttSuccess c + co_mqttFailure c = all_orders results ∧
  0 <= co_mqttFailure c <= all_errors results ∧
  ∀ t, default 0 (co_vehiclesDispatched c !! t) = orders_of t results ∧
       nat_len (default [] (co_dispatchLatency c !! t)) = orders_of t results ∧
       co_ackRate c !! t = last_rate t results None.
Proof.
  destruct (RunCollected_counted _ _ _ _ _ _ _ Hfair Hrun) as (Hr & HP & HF & Ht).
  split_and!; [done|exact HP|apply HF|apply HF|]. intros t. exact (Ht t).
Qed.

(** ** Monitoring *)

(** A service that reports to Sentry reports the error of every order once, with
    the vehicle, the signal type and the module as tags; without a monitor
    nothing is reported. *)
Theorem Dispatch_captures fuel m env signal vehicles res m' eff
    (Hfair : env_fair env)
    (Hrun : Dispatch simplex fuel m env signal vehicles = Some (res, m', eff)) :
  captures NopMonitor m env res signal = [] ∧
  captures SentryMonitor m env res signal ≡ₚ
    (fun '(id, e) => Captured (Error e)
       (<["vehicle_id" := id]> (<["signal_type" := SignalType_String (sig_Type signal)]>
          {["module" := "dispatch_manager"]}))) <$> map_to_list (dr_Errors res).
Proof.
  apply Dispatch_inv in Hrun as [_ _ Herr _ _ _ _]; [|done]. unfold captures. split.
  - induction (env_order env _) as [|[id p] l IH]; [done|]. cbn [mbind list_bind]. rewrite IH, app_nil_r.
    unfold order_capture. destruct (sendAndWait m env id p) as [[[o ack] d] [e|]]; done.
  - rewrite (Hfair _), range_map_perm, Herr. clear Herr.
    induction (dr_Assignments res) as [|id p a Hid IH] using map_ind;
      [by rewrite map_imap_empty, !map_to_list_empty|].
    rewrite (map_to_list_insert a id p Hid). cbn [mbind list_bind]. rewrite IH.
    assert (map_imap (outcome_err m env) a !! id = None) as Hn by (rewrite map_lookup_imap, Hid; done).
    unfold order_capture, outcome_err at 1.
    destruct (outcome_err m env id p) as [e|] eqn:Ho.
    + rewrite (map_imap_insert_Some _ id p a e Ho), (map_to_list_insert _ id e Hn), fmap_cons.
      unfold outcome_err in Ho. destruct (sendAndWait m env id p) as [[[o ack] d] err]. subst err.
      cbn [CaptureException]. rewrite range_copy. done.
    + rewrite (map_imap_insert_None _ id p a Ho), delete_id by done.
      unfold outcome_err in Ho. destruct (sendAndWait m env id p) as [[[o ack] d] err]. by subst err.
Qed.
End collectors.

(** ** The gauge *)

Lemma length_filter_all {A} (f : A → bool) (l : list A) :
  length (List.filter f l) = length l ↔ ∀ x, x ∈ l → f x = true.
Proof.
  rewrite <- Forall_forall. induction l as [|y l IH]; [done|]. cbn. rewrite Forall_cons, <- IH.
  pose proof (sublist_length _ _ (List_filter_sublist f l)). destruct (f y); cbn; intuition (congruence || lia).
Qed.

(** The share of the elements of a list that pass a test. *)
Lemma filter_share {A} (f : A → bool) (l : list A) :
  l ≠ [] →
  (0 <= ndiv (nofZ (Z.of_nat (length (List.filter f l)))) (nofZ (Z.of_nat (length l))) <= 1)%Q ∧
  ((ndiv (nofZ (Z.of_nat (length (List.filter f l)))) (nofZ (Z.of_nat (length l))) == 1)%Q ↔
   ∀ x, x ∈ l → f x = true).
Proof.
  intros Hne. num_Q.
  assert (length (List.filter f l) ≤ length l)%nat as Hle
    by apply sublist_length, List_filter_sublist.
  assert (0 < length l)%nat as Hpos by (destruct l; [done|cbn; lia]).
  assert (0 < inject_Z (Z.of_nat (length l)))%Q as Hq by (change 0%Q with (inject_Z 0); rewrite <- Zlt_Qlt; lia).
  pose proof (length_filter_all f l) as Hall.
  rewrite <- Hall. split; [split|split].
  - apply Qle_shift_div_l; [done|]. rewrite Qmult_0_l. change 0%Q with (inject_Z 0). rewrite <- Zle_Qle. lia.
  - apply Qle_shift_div_r; [done|]. rewrite Qmult_1_l, <- Zle_Qle. lia.
  - intros He. assert (inject_Z (Z.of_nat (length (List.filter f l))) == inject_Z (Z.of_nat (length l)))%Q as Hi.
    { rewrite <- (Qmult_1_l (inject_Z (Z.of_nat (length l)))), <- He. field. lra. }
    rewrite inject_Z_injective in Hi. lia.
  - intros ->. field. lra.
Qed.

(** Over exact arithmetic the gauge is a share: between 0 and 1, and 1 exactly
    when every order was acknowledged. *)
Theorem ack_rate_share `{!MathExp Q} `{!MapRange} (simplex : LPSolver Q) fuel m env signal vehicles res m' eff
    (Hfair : env_fair env)
    (Hrun : Dispatch simplex fuel m env signal vehicles = Some (res, m', eff))
    (Hsome : dr_Assignments res ≠ ∅) :
  (0 <= ack_rate_of res <= 1)%Q ∧
  ((ack_rate_of res == 1)%Q ↔ ∀ id p, dr_Assignments res !! id = Some p → dr_Acknowledged res !! id = Some true).
Proof.
  apply Dispatch_inv in Hrun as [_ Hack _ _ _ _ _]; [|done]. unfold ack_rate_of.
  set (f := fun id p => Some (outcome_ack m env id p)) in Hack.
  rewrite Hack, (length_imap_entries f _ (fun b => b)), <- length_map_to_list.
  assert (∀ id p, dr_Assignments res !! id = Some p ↔ (id, p) ∈ map_to_list (dr_Assignments res)) as Hin.
  { intros id p. by rewrite elem_of_map_to_list. }
  setoid_rewrite map_lookup_imap. setoid_rewrite Hin.
  assert (map_to_list (dr_Assignments res) ≠ []) as Hne by (by rewrite map_to_list_empty_iff).
  assert (∀ id p, (id, p) ∈ map_to_list (dr_Assignments res) →
    (dr_Assignments res !! id ≫= f id = Some true ↔ outcome_ack m env id p = true)) as Hf.
  { intros id p Hp%Hin. rewrite Hp. unfold f. cbn. split; congruence. }
  destruct (filter_share (fun '(id, p) => outcome_ack m env id p) _ Hne) as [Hb He].
  split; [exact Hb|]. etransitivity; [exact He|]. split.
  - intros Hall id p Hp. apply (Hf id p Hp). exact (Hall (id, p) Hp).
  - intros Hall [id p] Hp. apply (Hf id p Hp). by eapply Hall.
Qed.
