(* ===== verification/Discovery.v ===== *)
(** * Fleet discovery and the test doubles of the MQTT layer

    Models [infra/mqtt/discovery.go]: how the responses of the fleet are
    collected, and [infra/mqtt/publisher.go], the publisher the tests use.  The
    paho client is outside: the errors of its tokens and the payloads it
    delivers are arguments. *)

From S2P Require Import Prelude Num GoTime Model PowerMap Candidates MathExp EqualDispatcher.
From S2P Require Import SmartDispatcher LPDispatcher SegmentedDispatcher Tuner Fallback.
From S2P Require Import Manager MqttClient.
From stdpp Require Import base gmap strings list.
From Stdlib Require Import ZArith Lia.

#[local] Open Scope Z_scope.

(** ** [PahoFleetDiscovery] *)

(** What the message handler shares with [Discover]. *)
Record discovery_state (F : Type) := MkDiscovery {
  ds_vehicles : list (Vehicle F);
  ds_errs : list go_error;
  ds_ids : gset string
}.
Arguments MkDiscovery {F}.
Arguments ds_vehicles {F}.
Arguments ds_errs {F}.
Arguments ds_ids {F}.

Section discovery.
Context {F : Type}.

(** The handler: a payload is [inl err] when [json.Unmarshal] fails. *)
Definition discovery_handler (s : discovery_state F) (payload : go_error + Vehicle F) :
    discovery_state F :=
  match payload with
  | inl err =>
    MkDiscovery (ds_vehicles s)
      (ds_errs s ++ [Wrapped ("invalid discovery payload: " +:+ Error err) err]) (ds_ids s)
  | inr v =>
    if decide (ID v ∈ ds_ids s) then s
    else MkDiscovery (ds_vehicles s ++ [v]) (ds_errs s) ({[ID v]} ∪ ds_ids s)
  end.

(** [errors.Join]: nil if there is none; the messages on one line each. *)
Definition errors_Join (errs : list go_error) : option go_error :=
  match errs with
  | [] => None
  | e :: errs => Some (ErrorString (foldl (fun s e => s +:+ String (Ascii.ascii_of_nat 10) (Error e)) (Error e) errs))
  end.

(** [Discover]: the errors of [Subscribe] and of [Publish], then the responses
    that arrive before the timeout.  The slice is returned with the error. *)
Definition Discover (subscribeErr publishErr : option go_error)
    (payloads : list (go_error + Vehicle F)) : list (Vehicle F) * option go_error :=
  match subscribeErr, publishErr with
  | Some err, _ => ([], Some err)
  | None, Some err => ([], Some err)
  | None, None =>
    let s := foldl discovery_handler (MkDiscovery [] [] ∅) payloads in
    (ds_vehicles s, errors_Join (ds_errs s))
  end.

(** [PahoFleetDiscovery.Close]: whether the client is connected, [None] for a nil
    client; closing twice disconnects once. *)
Definition PahoDiscoveryClose (cli : option bool) : option bool * option go_error :=
  (if cli is Some true then Some false else cli, None).

(** The discovery of the tests, which answers with a fixed fleet. *)
Definition MockDiscover (fleet : list (Vehicle F)) : list (Vehicle F) * option go_error := (fleet, None).

Definition MockDiscoveryClose : option go_error := None.

(** What the manager sees of it: on an error the vehicles are not used. *)
Definition discover_result (r : list (Vehicle F) * option go_error) : go_error + list (Vehicle F) :=
  match r with (vs, None) => inr vs | (_, Some err) => inl err end.

Lemma discovery_fold (payloads : list (go_error + Vehicle F)) s :
  list_to_set (ID <$> ds_vehicles s) = ds_ids s → NoDup (ID <$> ds_vehicles s) →
  let s' := foldl discovery_handler s payloads in
  list_to_set (ID <$> ds_vehicles s') = ds_ids s' ∧ NoDup (ID <$> ds_vehicles s') ∧
  (∀ v, v ∈ ds_vehicles s' → v ∈ ds_vehicles s ∨ inr v ∈ payloads) ∧
  (∀ id, id ∈ ID <$> ds_vehicles s' ↔
     id ∈ ID <$> ds_vehicles s ∨ ∃ v, inr v ∈ payloads ∧ ID v = id) ∧
  (ds_errs s' = [] ↔ ds_errs s = [] ∧ ∀ e, inl e ∉ payloads).
Proof.
  revert s. induction payloads as [|p payloads IH]; intros s Hids Hnd; cbn [foldl].
  { split_and!; try done; set_solver. }
  assert (∀ id, id ∈ ds_ids s ↔ id ∈ ID <$> ds_vehicles s) as Hel.
  { intros id. rewrite <- Hids. apply elem_of_list_to_set. }
  destruct p as [err|v]; cbn [discovery_handler].
  - destruct (IH (MkDiscovery (ds_vehicles s)
      (ds_errs s ++ [Wrapped ("invalid discovery payload: " +:+ Error err) err]) (ds_ids s)))
      as (H1 & H2 & H3 & H4 & H5); [done..|]. cbn in *. split_and!; try done.
    + intros v Hv. destruct (H3 v Hv); [by left|right; by right].
    + intros id. rewrite H4. split; [set_solver|]. intros [?|(v & [[=]|Hv]%elem_of_cons & Hid)]; eauto.
    + rewrite H5. split; [|intros [_ Hn]; exfalso; apply (Hn err); left].
      intros [Hnil _]. by destruct (ds_errs s).
  - case_decide as Hin.
    + destruct (IH s Hids Hnd) as (H1 & H2 & H3 & H4 & H5). split_and!; try done.
      * intros v' Hv. destruct (H3 v' Hv); [by left|right; by right].
      * intros id. rewrite H4. apply Hel in Hin. split.
        -- intros [?|(v' & ? & ?)]; [by left|right; exists v'; split; [by right|done]].
        -- intros [?|(v' & [[= ->]|?]%elem_of_cons & <-)]; [by left|by left|eauto].
      * rewrite H5. split; intros [? Hn]; (split; [done|]); intros e; specialize (Hn e);
          [by intros [[=]|?]%elem_of_cons|contradict Hn; by right].
    + destruct (IH (MkDiscovery (ds_vehicles s ++ [v]) (ds_errs s) ({[ID v]} ∪ ds_ids s)))
        as (H1 & H2 & H3 & H4 & H5); cbn in *.
      * rewrite fmap_app, list_to_set_app_L, Hids. cbn. set_solver.
      * rewrite fmap_app. apply NoDup_app. split_and!; [done| |apply NoDup_singleton].
        intros id Hid Hid'. apply list_elem_of_singleton in Hid' as ->. by apply Hin, Hel.
      * split_and!; try done.
        -- intros v' Hv. destruct (H3 v' Hv) as [[?|Hv']%elem_of_app|?]; [by left| |right; by right].
           apply list_elem_of_singleton in Hv' as ->. right. left.
        -- intros id. rewrite H4, fmap_app, elem_of_app. cbn [fmap list_fmap]. rewrite list_elem_of_singleton. split.
           ++ intros [[?| ->]|(v' & ? & ?)]; [by left|right; exists v; split; [left|done]|].
              right. exists v'. split; [by right|done].
           ++ intros [?|(v' & [[= ->]|?]%elem_of_cons & <-)]; [tauto|tauto|eauto].
        -- rewrite H5. split; intros [? Hn]; (split; [done|]); intros e; specialize (Hn e);
             [by intros [[=]|?]%elem_of_cons|contradict Hn; by right].
Qed.
End discovery.

Section discovery_facts.
Context {F : Type}.

(** A discovery without an error. *)
Lemma Discover_success subscribeErr publishErr (payloads : list (go_error + Vehicle F)) vs :
  Discover subscribeErr publishErr payloads = (vs, None) →
  NoDup (ID <$> vs) ∧ (∀ v, v ∈ vs → inr v ∈ payloads) ∧
  (∀ v, inr v ∈ payloads → ID v ∈ ID <$> vs) ∧ (∀ e, inl e ∉ payloads).
Proof.
  unfold Discover. destruct subscribeErr, publishErr; try done. cbn zeta.
  destruct (discovery_fold payloads (MkDiscovery [] [] ∅)) as (_ & Hnd & Hin & Hid & Herr);
    [done|constructor|]. cbn in *.
  destruct (ds_errs _) as [|e errs] eqn:He; cbn; intros [= <-].
  destruct (proj1 Herr eq_refl) as [_ Hn]. split_and!; [done|..|done].
  - intros v Hv. by destruct (Hin v Hv) as [?%not_elem_of_nil|?].
  - intros v Hv. apply Hid. eauto.
Qed.

(** C33. The fleet a successful discovery hands to the manager: each identifier
    that answered appears exactly once, with one of the states it sent.  A
    single payload that does not decode fails the whole discovery. *)
Theorem Discover_fleet (payloads : list (go_error + Vehicle F)) :
  match discover_result (Discover None None payloads) with
  | inr vs =>
    NoDup (ID <$> vs) ∧ (∀ v, v ∈ vs → inr v ∈ payloads) ∧
    (∀ v, inr v ∈ payloads → ID v ∈ ID <$> vs) ∧ (∀ e, inl e ∉ payloads)
  | inl _ => ∃ e, inl e ∈ payloads
  end.
Proof.
  destruct (Discover None None payloads) as [vs [err|]] eqn:Hd;
    [|by apply Discover_success in Hd].
  cbn [discover_result]. unfold Discover in Hd. cbn zeta in Hd.
  destruct (discovery_fold payloads (MkDiscovery [] [] ∅)) as (_ & _ & _ & _ & Herr);
    [done|constructor|]. cbn in *.
  destruct (ds_errs _) as [|e errs] eqn:He; [done|].
  clear -Herr.
  assert (¬ Forall (fun p => is_Some (match p with inr v => Some v | inl _ => None end)) payloads) as Hn.
  { intros Hall. enough (e :: errs = []) by done. apply Herr. split; [done|].
    intros e' Hin. rewrite Forall_forall in Hall. by destruct (Hall _ Hin). }
  apply not_Forall_Exists, Exists_exists in Hn as (p & Hp & Hs).
  - destruct p as [e'|v]; [by exists e'|]. exfalso. apply Hs. by eexists.
  - intros [|]; apply _.
Qed.
End discovery_facts.

(** ** [MockPublisher] *)

Record MockPublisher (F : Type) := MkMock {
  mp_Messages : gmap string F;
  mp_FailIDs : gmap string bool;
  mp_AckResults : gmap string bool
}.
Arguments MkMock {F}.
Arguments mp_Messages {F}.
Arguments mp_FailIDs {F}.
Arguments mp_AckResults {F}.

Section mock.
Context {F : Type}.

Definition NewMockPublisher : MockPublisher F := MkMock ∅ ∅ ∅.

Definition MockSendOrder (mp : MockPublisher F) (vehicleID : string) (powerKW : F) :
    MockPublisher F * (go_error + string) :=
  if bget (mp_FailIDs mp) vehicleID then (mp, inl (ErrorString "publish failed")) else
  let commandID := "cmd-" +:+ vehicleID in
  (MkMock (<[vehicleID := powerKW]> (mp_Messages mp)) (mp_FailIDs mp)
     (<[commandID := negb (bget (mp_FailIDs mp) vehicleID)]> (mp_AckResults mp)),
   inr commandID).

Definition MockWaitForAck (mp : MockPublisher F) (commandID : string) : bool * option go_error :=
  match (mp_AckResults mp !! commandID : option bool) with
  | Some ok => (ok, None)
  | None => (false, Some err_unknown_command)
  end.

(** The publisher as the client of one dispatch: [mp] after all orders. *)
Definition mock_client (mp : MockPublisher F) : Client F :=
  MkClient (fun id p => (MockSendOrder mp id p).2) (fun cmd _ => MockWaitForAck mp cmd).

(** Orders sent in any sequence to a publisher. *)
Definition mock_send_all (mp : MockPublisher F) (orders : list (string * F)) : MockPublisher F :=
  foldl (fun mp '(id, p) => (MockSendOrder mp id p).1) mp orders.

Lemma mock_send_all_spec mp (orders : list (string * F)) :
  mp_FailIDs (mock_send_all mp orders) = mp_FailIDs mp ∧
  ∀ id, bget (mp_FailIDs mp) id = false → (∃ p, (id, p) ∈ orders) ∨
    mp_AckResults mp !! ("cmd-" +:+ id) = Some true →
    mp_AckResults (mock_send_all mp orders) !! ("cmd-" +:+ id) = Some true.
Proof.
  unfold mock_send_all. revert mp. induction orders as [|[id0 p0] orders IH]; intros mp; cbn [foldl].
  { split; [done|]. intros id _ [[p ?%not_elem_of_nil]|?]; done. }
  destruct (IH (MockSendOrder mp id0 p0).1) as [Hf Ha].
  assert (mp_FailIDs (MockSendOrder mp id0 p0).1 = mp_FailIDs mp) as Hf0.
  { unfold MockSendOrder. by destruct (bget _ _). }
  rewrite Hf, Hf0. split; [done|]. intros id Hid Hor. apply Ha; [by rewrite Hf0|].
  destruct (decide (id = id0)) as [->|Hne].
  - right. unfold MockSendOrder. rewrite Hid. cbn. by rewrite lookup_insert_eq.
  - destruct Hor as [[p [[= -> ->]|Hin]%elem_of_cons]|Hack]; [done|left; by exists p|right].
    unfold MockSendOrder. destruct (bget _ id0) eqn:Hb; [done|]. cbn.
    rewrite lookup_insert_ne; [done|]. by intros [= ->]%(inj _).
Qed.

(** With the mock publisher an order of a dispatch is acknowledged if and only
    if its vehicle is not among [FailIDs], whatever was sent before it. *)
Theorem MockPublisher_acks (mp : MockPublisher F) orders id p
    (Hsent : (id, p) ∈ orders) :
  let mp' := mock_send_all mp orders in
  match (MockSendOrder mp' id p).2 with
  | inr cmd => bget (mp_FailIDs mp) id = false ∧ MockWaitForAck mp' cmd = (true, None)
  | inl _ => bget (mp_FailIDs mp) id = true
  end.
Proof.
  cbn zeta. destruct (mock_send_all_spec mp orders) as [Hf Ha].
  unfold MockSendOrder. rewrite Hf. destruct (bget (mp_FailIDs mp) id) eqn:Hb; cbn; [done|].
  split; [done|]. unfold MockWaitForAck. rewrite Ha; [done|done|]. left. by exists p.
Qed.
End mock.
