(* ===== verification/Scheduler.v ===== *)
(** * The day-ahead scheduler

    Models [core/scheduler/scheduler.go]: plug-in windows, the distribution of a
    slot's power over the available vehicles, and the plan of a day with its
    energy backlog.  [sort.Slice] is not stable, so the order of vehicles with
    equal power is left to a function [sortSlice] that returns a permutation. *)

From S2P Require Import Prelude Num GoTime Model PowerMap.
From stdpp Require Import base gmap strings list.
From Stdlib Require Import ZArith QArith Qabs Qminmax Lqa Lia.

#[local] Open Scope Z_scope.

Record AvailabilityWindow := MkAvWindow { aw_Start : Time; aw_End : Time }.

Record SchedulerConfig (F : Type) := MkSchedConfig {
  SlotDurationMinutes : Z;
  TargetEnergyKWh : F
}.
Arguments MkSchedConfig {F}.
Arguments SlotDurationMinutes {F}.
Arguments TargetEnergyKWh {F}.

Record Scheduler (F : Type) := MkScheduler {
  sch_Config : SchedulerConfig F;
  sch_Vehicles : list (Vehicle F);
  sch_Availability : gmap string (list AvailabilityWindow)
}.
Arguments MkScheduler {F}.
Arguments sch_Config {F}.
Arguments sch_Vehicles {F}.
Arguments sch_Availability {F}.

Record EffacementEntry (F : Type) := MkEntry {
  ee_VehicleID : string;
  ee_TimeSlot : Time;
  ee_PowerKW : F
}.
Arguments MkEntry {F}.
Arguments ee_VehicleID {F}.
Arguments ee_TimeSlot {F}.
Arguments ee_PowerKW {F}.

Section scheduler.
Context {F : Type} `{Num F} (sortSlice : list (Vehicle F) → list (Vehicle F)).
#[local] Open Scope num_scope.
Implicit Types s : Scheduler F.

Definition vehicleAvailable s (id : string) (t : Time) (d : Duration) : bool :=
  let windows := default [] (sch_Availability s !! id) in
  let fin := GoTime.Add t d in
  existsb (fun w => (TimeEqual t (aw_Start w) || After t (aw_Start w)) &&
                    negb (After fin (aw_End w))) windows.

Definition availableVehicles s (ts : Time) (d : Duration) : list (Vehicle F) :=
  List.filter (fun v => vehicleAvailable s (ID v) ts d) (sch_Vehicles s).

(** ** [distribute] *)

Definition epsilon : F := 1 // 1000000.

(** A vehicle with the power allocated to it so far. *)
Abbreviation slot := (Vehicle F * F)%type.

Definition slot_active (x : slot) : bool := snd x <? MaxPower (fst x).

Definition count_active (l : list slot) : Z := Z.of_nat (length (List.filter slot_active l)).

(** The inner loop, with its [continue]s and its [break]. *)
Fixpoint distribute_round (share : F) (l : list slot) (remaining : F) (progress : bool) :
    list slot * F * bool :=
  match l with
  | [] => ([], remaining, progress)
  | (v, a) :: rest =>
    if a >=? MaxPower v then
      let '(rest, remaining, progress) := distribute_round share rest remaining progress in
      ((v, a) :: rest, remaining, progress)
    else
      let give := if a + share >? MaxPower v then MaxPower v - a else share in
      if give <=? n0 then
        let '(rest, remaining, progress) := distribute_round share rest remaining progress in
        ((v, a) :: rest, remaining, progress)
      else
        let remaining := remaining - give in
        if remaining <=? epsilon then ((v, a + give) :: rest, remaining, true)
        else
          let '(rest, remaining, progress) := distribute_round share rest remaining true in
          ((v, a + give) :: rest, remaining, progress)
  end.

(** The outer loop; [None] when the fuel runs out. *)
Fixpoint distribute_loop (fuel : nat) (l : list slot) (remaining : F) : option (list slot * F) :=
  if remaining >? epsilon then
    let active := count_active l in
    if (active =? 0)%Z then Some (l, remaining) else
    match fuel with
    | O => None
    | S fuel =>
      let share := remaining / nofZ active in
      let '(l, remaining, progress) := distribute_round share l remaining false in
      if progress then distribute_loop fuel l remaining else Some (l, remaining)
    end
  else Some (l, remaining).

Definition slot_entries (ts : Time) (l : list slot) : list (EffacementEntry F) :=
  omap (fun '(v, a) => if a >? n0 then Some (MkEntry (ID v) ts a) else None) l.

Definition distribute (fuel : nat) (ts : Time) (vehicles : list (Vehicle F)) (target : F) :
    option (list (EffacementEntry F)) :=
  let vehicles := sortSlice vehicles in
  '(l, _) ← distribute_loop fuel ((fun v => (v, n0)) <$> vehicles) target;
  Some (slot_entries ts l).

(** ** [GeneratePlan] *)

(** The loop over the slots [i], [i + 1], ...: the entries, the backlog and
    [hadAvail]. *)
Fixpoint plan_slots (fuel : nat) s (startOfDay : Time) (slotDur : Duration) (powerPerSlot : F)
    (slots : nat) (i : Z) (backlog : F) (hadAvail : bool) :
    option (list (EffacementEntry F) * F * bool) :=
  match slots with
  | O => Some ([], backlog, hadAvail)
  | S slots =>
    let ts := GoTime.Add startOfDay (wrap64 (i * slotDur)) in
    let available := availableVehicles s ts slotDur in
    let slotEnergy := powerPerSlot * Hours slotDur in
    if Nat.eqb (length available) 0 then
      plan_slots fuel s startOfDay slotDur powerPerSlot slots (i + 1) (backlog + slotEnergy) hadAvail
    else
      let totalCap := foldl (fun t v => t + MaxPower v) n0 available in
      let targetEnergy := slotEnergy + backlog in
      let maxEnergy := totalCap * Hours slotDur in
      let allocEnergy := if targetEnergy >? maxEnergy then maxEnergy else targetEnergy in
      let backlog := targetEnergy - allocEnergy in
      let targetPower := allocEnergy / Hours slotDur in
      es ← distribute fuel ts available targetPower;
      '(rest, backlog, hadAvail) ←
        plan_slots fuel s startOfDay slotDur powerPerSlot slots (i + 1) backlog true;
      Some (es ++ rest, backlog, hadAvail)
  end.

(** [inl] is the error; [None] a division by zero or exhausted fuel. *)
Definition GeneratePlan (fuel : nat) s (date : Time) :
    option (string + list (EffacementEntry F)) :=
  if (SlotDurationMinutes (sch_Config s) <=? 0)%Z
  then Some (inl "slot_duration_minutes must be positive") else
  let slotDur := wrap64 (SlotDurationMinutes (sch_Config s) * Minute) in
  if (slotDur =? 0)%Z then None else
  let totalSlots := Z.quot (wrap64 (wrap64 (24 * Hour + slotDur) - 1)) slotDur in
  if (totalSlots =? 0)%Z then Some (inl "slot duration too long") else
  let powerPerSlot := TargetEnergyKWh (sch_Config s) / (nofZ totalSlots * Hours slotDur) in
  if powerPerSlot <=? n0 then Some (inl "target energy must be positive") else
  if Nat.eqb (length (sch_Vehicles s)) 0 then Some (inl "no vehicles configured") else
  '(entries, backlog, hadAvail) ←
    plan_slots fuel s (midnight_utc date) slotDur powerPerSlot (Z.to_nat totalSlots) 0 n0 false;
  if (backlog >? epsilon) || negb hadAvail
  then Some (inl "insufficient capacity for target energy")
  else Some (inr entries).
End scheduler.

(** ** Distribution over exact arithmetic *)

#[local] Open Scope Q_scope.

Abbreviation slots_total l := (qsum (snd <$> l)).
Abbreviation slots_caps l := (qsum ((fun x => MaxPower x.1) <$> l)).
Abbreviation slots_ok := (Forall (fun x : Vehicle Q * Q => 0 <= x.2 <= MaxPower x.1)).
Abbreviation qactive l := (inject_Z (count_active l)).

Lemma count_active_cons (x : Vehicle Q * Q) l :
  count_active (x :: l) = ((if slot_active x then 1 else 0) + count_active l)%Z.
Proof. unfold count_active. cbn [List.filter]. destruct (slot_active x); cbn [length]; lia. Qed.

Lemma count_active_nonneg (l : list (Vehicle Q * Q)) : (0 <= count_active l)%Z.
Proof. unfold count_active. lia. Qed.

Lemma qactive_cons (x : Vehicle Q * Q) l : qactive (x :: l) == (if slot_active x then 1 else 0) + qactive l.
Proof. rewrite count_active_cons, inject_Z_plus. by destruct (slot_active x). Qed.

Lemma qactive_nonneg (l : list (Vehicle Q * Q)) : 0 <= qactive l.
Proof. change 0 with (inject_Z 0). rewrite <- Zle_Qle. apply count_active_nonneg. Qed.

Lemma epsilon_pos : 0 < (epsilon : Q).
Proof. done. Qed.

(** What a round of the inner loop guarantees. *)
Record dist_round (share : Q) (l : list (Vehicle Q * Q)) (r : Q) (l' : list (Vehicle Q * Q))
    (r' : Q) : Prop := {
  dr_vs : l'.*1 = l.*1;
  dr_ok : slots_ok l';
  dr_low : r - share * qactive l <= r' <= r;
  dr_sum : slots_total l' + r' == slots_total l + r;
  dr_less : r' <= epsilon ∨ (count_active l' < count_active l)%Z ∨ r' == r - share * qactive l
}.

Lemma slot_active_spec (v : Vehicle Q) a : slot_active (v, a) = true ↔ a < MaxPower v.
Proof. unfold slot_active. num_Q. cbn [fst snd]. destruct (Qltb_spec a (MaxPower v)); naive_solver lra. Qed.

(** One entry of a round is given [g]: nothing if it is at its maximum, else
    either the whole share or what brings it to its maximum. *)
Lemma dist_step share v a a' g l r r1 l' r' :
  0 < share → 0 <= a → 0 <= g → a' == a + g → a' <= MaxPower v → r1 == r - g →
  (¬ a < MaxPower v ∧ g == 0 ∨ a < MaxPower v ∧ (g == share ∨ g < share ∧ a' == MaxPower v)) →
  dist_round share l r1 l' r' → (count_active l' <= count_active l)%Z →
  dist_round share ((v, a) :: l) r ((v, a') :: l') r' ∧
  (count_active ((v, a') :: l') <= count_active ((v, a) :: l))%Z.
Proof.
  intros Hsh Ha Hg Ha' Hmax Hr1 Hcase [Hvs Hok Hlow Hsum Hless] Hcnt.
  pose proof (slot_active_spec v a) as Hs. pose proof (slot_active_spec v a') as Hs'.
  pose proof (qactive_nonneg l) as Hq.
  assert (slot_active (v, a') = true → slot_active (v, a) = true) as Hmono.
  { rewrite Hs, Hs'. lra. }
  assert (slot_active (v, a) = false → ¬ a < MaxPower v) as Hn1.
  { rewrite <- Hs. by intros ->. }
  assert (slot_active (v, a') = false → ¬ a' < MaxPower v) as Hn2.
  { rewrite <- Hs'. by intros ->. }
  split; [|rewrite !count_active_cons; destruct (slot_active (v, a)), (slot_active (v, a'));
           try lia; by discriminate Hmono].
  split; rewrite ?fmap_cons; cbn [qsum fst snd].
  - by rewrite Hvs.
  - constructor; [cbn; lra|done].
  - rewrite qactive_cons. destruct (slot_active (v, a)) eqn:E; destruct Hcase as [[? ?]|[? [?|[? ?]]]];
      try (specialize (Hn1 eq_refl)); try lra.
  - lra.
  - rewrite !count_active_cons, inject_Z_plus.
    destruct (slot_active (v, a)) eqn:E1, (slot_active (v, a')) eqn:E2; try (by discriminate Hmono);
      change (inject_Z 1) with 1; change (inject_Z 0) with 0.
    + assert (a' < MaxPower v) by (by apply Hs').
      destruct Hcase as [[? ?]|[? [?|[? ?]]]]; try lra.
      destruct Hless as [?|[?|?]]; [by left|right; left; lia|right; right; lra].
    + right; left. lia.
    + specialize (Hn1 eq_refl). destruct Hcase as [[? ?]|[? _]]; [|lra].
      destruct Hless as [?|[?|?]]; [by left|right; left; lia|right; right; lra].
Qed.

Lemma dist_stop share v a g l r :
  0 < share → 0 <= a → 0 <= g → a + g <= MaxPower v → a < MaxPower v → g <= share → slots_ok l →
  share * qactive ((v, a) :: l) <= r → r - g <= epsilon →
  dist_round share ((v, a) :: l) r ((v, a + g) :: l) (r - g) ∧
  (count_active ((v, (a + g)%Q) :: l) <= count_active ((v, a) :: l))%Z.
Proof.
  intros Hsh Ha Hg Hmax Hact Hgs Hok Hr Heps. pose proof (qactive_nonneg l).
  apply slot_active_spec in Hact. rewrite qactive_cons, Hact in Hr.
  split; [|rewrite !count_active_cons, Hact; destruct (slot_active (v, (a + g)%Q)); cbn; lia].
  split; rewrite ?fmap_cons; cbn [qsum fst snd]; try done; try lra; [by constructor; [cbn; lra|]|].
  rewrite qactive_cons, Hact. split; [|lra].
  assert (0 <= share * qactive l) by (apply Qmult_le_0_compat; lra). lra.
Qed.

Lemma distribute_round_spec share l r p l' r' p' :
  0 < share → slots_ok l → share * qactive l <= r →
  distribute_round share l r p = (l', r', p') →
  dist_round share l r l' r' ∧ (count_active l' <= count_active l)%Z ∧
  ((0 < count_active l)%Z ∨ p = true → p' = true).
Proof.
  intros Hsh. revert r p l' r' p'. induction l as [|[v a] l IH]; intros r p l' r' p' Hok Hr Heq;
    cbn [distribute_round] in Heq.
  { injection Heq as <- <- <-. split_and!; [|done|by intros [?|?]].
    change (qactive []) with 0 in *. split; try done; [|right; right]; change (qactive []) with 0; lra. }
  apply Forall_cons in Hok as [Hva Hok]. cbn [fst snd] in Hva. num_Q.
  pose proof Hr as Hr0. rewrite qactive_cons in Hr. pose proof (slot_active_spec v a) as Hs.
  pose proof (qactive_nonneg l) as Hq.
  destruct (Qleb_spec (MaxPower v) a) as [Hsat|Hact].
  { destruct (distribute_round share l r p) as [[l1 r1] p1] eqn:Hrec. injection Heq as <- <- <-.
    assert (slot_active (v, a) = false) as Hf by (apply not_true_iff_false; rewrite Hs; lra).
    rewrite Hf in Hr. apply IH in Hrec as (Hround & Hcnt & Hp); [|done|lra].
    destruct (dist_step share v a a 0 l r r l1 r1) as [Hd Hc]; try lra; try done.
    split_and!; [done..|]. intros Hor. apply Hp. rewrite count_active_cons, Hf in Hor.
    destruct Hor; [left; lia|by right]. }
  assert (slot_active (v, a) = true) as Ht by (apply Hs; lra). rewrite Ht in Hr.
  set (give := if Qltb (MaxPower v) (a + share) then MaxPower v - a else share) in *.
  assert (0 < give <= share ∧ a + give <= MaxPower v ∧
          (give == share ∨ give < share ∧ a + give == MaxPower v)) as (Hg & Hgm & Hgc).
  { unfold give. q_case; split_and!; lra. }
  destruct (Qleb_spec give (0 # 1)) as [?|_]; [lra|].
  destruct (Qleb_spec (r - give) epsilon) as [Heps|Heps].
  { injection Heq as <- <- <-. destruct (dist_stop share v a give l r) as [Hd Hc]; try lra; try done. }
  destruct (distribute_round share l (r - give) true) as [[l1 r1] p1] eqn:Hrec. injection Heq as <- <- <-.
  apply IH in Hrec as (Hround & Hcnt & Hp); [|done|lra].
  destruct (dist_step share v a (a + give) give l r (r - give) l1 r1) as [Hd Hc]; try lra; try done.
  split_and!; [done..|]. intros _. apply Hp. by right.
Qed.

Lemma count_active_length (l : list (Vehicle Q * Q)) : (count_active l <= Z.of_nat (length l))%Z.
Proof.
  induction l as [|x l IH]; [done|]. rewrite count_active_cons. cbn [length].
  destruct (slot_active x); lia.
Qed.

Lemma count_active_zero (l : list (Vehicle Q * Q)) :
  slots_ok l → count_active l = 0%Z → slots_total l == slots_caps l.
Proof.
  induction 1 as [|[v a] l Hva Hok IH]; [done|]. rewrite count_active_cons, !fmap_cons. cbn [qsum fst snd].
  pose proof (count_active_nonneg l). destruct (slot_active (v, a)) eqn:E; intros Hc; [lia|].
  assert (¬ a < MaxPower v) by (rewrite <- slot_active_spec, E; done). cbn in Hva.
  rewrite IH by lia. lra.
Qed.

(** As many rounds as there are vehicles below their maximum suffice. *)
Lemma distribute_loop_spec fuel (l : list (Vehicle Q * Q)) r :
  slots_ok l → 0 <= r → (count_active l <= Z.of_nat fuel)%Z →
  ∃ l' r', distribute_loop fuel l r = Some (l', r') ∧ l'.*1 = l.*1 ∧ slots_ok l' ∧ 0 <= r' ∧
    slots_total l' + r' == slots_total l + r ∧ (r' <= epsilon ∨ count_active l' = 0%Z).
Proof.
  revert l r. induction fuel as [|fuel IH]; intros l r Hok Hr Hfuel; cbn [distribute_loop]; num_Q;
    (destruct (Qltb_spec epsilon r) as [Heps|Heps];
      [|exists l, r; split_and!; [done..|lra|left; lra]]);
    pose proof (count_active_nonneg l);
    (destruct (Z.eqb_spec (count_active l) 0) as [H0|H0];
      [exists l, r; split_and!; [done..|lra|by right]|]); [lia|].
  pose proof epsilon_pos.
  assert (0 < qactive l) as Hq by (change 0 with (inject_Z 0); rewrite <- Zlt_Qlt; lia).
  set (share := r / qactive l).
  assert (share * qactive l == r) as Hshare by (unfold share; field; lra).
  assert (0 < share) as Hpos by (unfold share; apply Qlt_shift_div_l; lra).
  destruct (distribute_round share l r false) as [[l1 r1] p1] eqn:Hround.
  apply distribute_round_spec in Hround as ([Hvs Hok1 Hlow Hsum Hless] & Hcnt & Hp); [|done..|lra].
  rewrite Hp by (left; lia).
  destruct (decide (count_active l1 < count_active l)%Z) as [Hlt|Hge].
  - destruct (IH l1 r1) as (l2 & r2 & -> & Hvs2 & Hok2 & Hr2 & Hsum2 & Hend); [done|lra|lia|].
    exists l2, r2. split_and!; [done|congruence|done|done|lra|done].
  - assert (r1 <= epsilon) as Hsmall by (destruct Hless as [?|[?|?]]; [done|lia|lra]).
    exists l1, r1. split_and!; [|done..|lra|lra|by left].
    destruct fuel; cbn [distribute_loop]; num_Q; (destruct (Qltb_spec epsilon r1); [lra|done]).
Qed.

Abbreviation entries_total es := (qsum (ee_PowerKW <$> es)).

Lemma slot_entries_total ts (l : list (Vehicle Q * Q)) :
  slots_ok l → entries_total (slot_entries ts l) == slots_total l.
Proof.
  induction 1 as [|[v a] l Hva Hok IH]; [done|]. unfold slot_entries in *. cbn [omap list_omap].
  num_Q. rewrite !fmap_cons. cbn [qsum fst snd] in *.
  destruct (Qltb_spec (0 # 1) a); [rewrite fmap_cons; cbn [qsum ee_PowerKW]|]; rewrite IH; lra.
Qed.

Section exact.
Context (sortSlice : list (Vehicle Q) → list (Vehicle Q)) (Hsort : ∀ l, sortSlice l ≡ₚ l).

(** The vehicle an entry is for. *)
Definition entry_ok (vehicles : list (Vehicle Q)) (ts : Time) (e : EffacementEntry Q) : Prop :=
  ∃ v, v ∈ vehicles ∧ ee_VehicleID e = ID v ∧ ee_TimeSlot e = ts ∧ 0 < ee_PowerKW e <= MaxPower v.

Lemma distribute_total fuel ts (vehicles : list (Vehicle Q)) target :
  (length vehicles ≤ fuel)%nat → Forall (fun v => 0 <= MaxPower v) vehicles →
  0 <= target <= qsum (MaxPower <$> vehicles) →
  ∃ es, distribute sortSlice fuel ts vehicles target = Some es ∧
    target - epsilon <= entries_total es <= target ∧ Forall (entry_ok vehicles ts) es.
Proof.
  intros Hlen Hmax Htarget. unfold distribute. num_Q.
  set (l0 := (fun v => (v, 0 # 1)) <$> sortSlice vehicles).
  assert (slots_ok l0) as Hok.
  { apply Forall_fmap. rewrite Hsort. eapply Forall_impl; [exact Hmax|]. cbn. intros. lra. }
  assert (slots_total l0 == 0) as H0.
  { unfold l0. clear. induction (sortSlice vehicles) as [|v l IH]; [done|].
    rewrite !fmap_cons. cbn [qsum fst snd]. rewrite IH. lra. }
  assert (l0.*1 = sortSlice vehicles) as Hfst.
  { unfold l0. rewrite <- list_fmap_compose. apply list_fmap_id. }
  destruct (distribute_loop_spec fuel l0 target) as (l & r & -> & Hvs & Hokl & Hr & Hsum & Hend); [done|lra| |].
  { pose proof (count_active_length l0) as Hc. unfold l0 in Hc at 2.
    rewrite length_fmap, (Permutation_length (Hsort vehicles)) in Hc. lia. }
  cbn [mbind option_bind]. eexists. split; [done|]. rewrite slot_entries_total by done.
  assert (slots_caps l == qsum (MaxPower <$> vehicles)) as Hcaps.
  { change (fun x : Vehicle Q * Q => MaxPower x.1) with (MaxPower ∘ fst (A:=Vehicle Q) (B:=Q)).
    rewrite list_fmap_compose, Hvs, Hfst. by rewrite Hsort. }
  pose proof epsilon_pos. split; [|].
  - destruct Hend as [?|Hz]; [lra|]. apply count_active_zero in Hz; [|done]. lra.
  - apply Forall_forall. intros e He. unfold slot_entries in He.
    apply list_elem_of_omap in He as ([v a] & Hin & He). num_Q.
    destruct (Qltb_spec (0 # 1) a); [|done]. injection He as <-.
    exists v. rewrite Forall_forall in Hokl. specialize (Hokl _ Hin). cbn in Hokl |- *.
    split_and!; [|done|done|lra|lra]. rewrite <- (Hsort vehicles), <- Hfst, <- Hvs.
    by apply (list_elem_of_fmap_2 fst) in Hin.
Qed.

(** A vehicle that is available for a slot is plugged in during all of it. *)
Lemma elem_of_availableVehicles (s : Scheduler Q) ts d v :
  v ∈ availableVehicles s ts d ↔
  v ∈ sch_Vehicles s ∧ ∃ ws w, sch_Availability s !! ID v = Some ws ∧ w ∈ ws ∧
    (t_ns (aw_Start w) <= t_ns ts)%Z ∧ (t_ns ts + d <= t_ns (aw_End w))%Z.
Proof.
  unfold availableVehicles. rewrite elem_of_List_filter. unfold vehicleAvailable.
  rewrite existsb_exists. unfold TimeEqual, After, GoTime.Add. cbn [t_ns]. split.
  - intros [Hv (w & Hw & Hb)]. split; [done|]. apply list_elem_of_In in Hw.
    destruct (sch_Availability s !! ID v) as [ws|]; [|by apply not_elem_of_nil in Hw].
    exists ws, w. rewrite andb_true_iff, orb_true_iff, negb_true_iff, Z.eqb_eq, Z.ltb_lt, Z.ltb_ge in Hb.
    split_and!; [done..|lia|lia].
  - intros (Hv & ws & w & Hws & Hw & H1 & H2). split; [done|]. rewrite Hws. exists w.
    rewrite <- list_elem_of_In. split; [done|].
    rewrite andb_true_iff, orb_true_iff, negb_true_iff, Z.eqb_eq, Z.ltb_lt, Z.ltb_ge. lia.
Qed.

(** The start of slot [j]. *)
Definition slot_start (startOfDay : Time) (slotDur : Duration) (j : Z) : Time :=
  GoTime.Add startOfDay (wrap64 (j * slotDur)).

Lemma foldl_caps (vs : list (Vehicle Q)) (t : Q) :
  foldl (fun t v => t + MaxPower v) t vs == t + qsum (MaxPower <$> vs).
Proof.
  revert t. induction vs as [|v vs IH]; intros t; [cbn; lra|].
  rewrite fmap_cons. cbn [foldl qsum]. rewrite IH. lra.
Qed.

(** What is allocated to a slot: the energy due, capped by what the available
    vehicles can deliver, spread over them. *)
Lemma slot_spec fuel (s : Scheduler Q) ts slotDur due :
  let h := Hours slotDur in
  let av := availableVehicles s ts slotDur in
  let cap := foldl (fun t v => t + MaxPower v) 0 av in
  let alloc := if Qltb (cap * h) due then cap * h else due in
  (length (sch_Vehicles s) ≤ fuel)%nat → Forall (fun v => 0 <= MaxPower v) (sch_Vehicles s) →
  0 < h → 0 <= due →
  0 <= alloc <= due ∧
  ∃ es, distribute sortSlice fuel ts av (alloc / h) = Some es ∧
    alloc - h * epsilon <= entries_total es * h <= alloc ∧ Forall (entry_ok av ts) es.
Proof.
  intros h av cap alloc Hfuel Hmax Hh Hdue.
  assert (cap == qsum (MaxPower <$> av)) as Hcap by (unfold cap; rewrite foldl_caps; lra).
  assert (Forall (fun v => 0 <= MaxPower v) av) as Hav.
  { rewrite Forall_forall in *. intros v [Hv _]%elem_of_List_filter. by apply Hmax. }
  assert (0 <= cap) as Hcap0.
  { rewrite Hcap. apply qsum_nonneg, Forall_fmap. eapply Forall_impl; [exact Hav|]. done. }
  assert (0 <= cap * h) by (apply Qmult_le_0_compat; lra).
  assert (0 <= alloc <= cap * h ∧ alloc <= due) as [Ha1 Ha2] by (unfold alloc; q_case; lra).
  split; [lra|]. assert (alloc / h * h == alloc) as Hdiv by (field; lra).
  destruct (distribute_total fuel ts av (alloc / h)) as (es & -> & He & Hok).
  { transitivity (length (sch_Vehicles s)); [|done]. apply sublist_length, List_filter_sublist. }
  { done. }
  { rewrite <- Hcap. split; [apply Qle_shift_div_l; lra|apply Qle_shift_div_r; lra]. }
  exists es. split; [done|].
  assert ((alloc / h - epsilon) * h <= entries_total es * h) by (apply Qmult_le_compat_r; lra).
  assert (entries_total es * h <= alloc / h * h) by (apply Qmult_le_compat_r; lra).
  split; [lra|done].
Qed.

(** The energy of the slots is either planned or carried over. *)
Lemma plan_slots_spec fuel (s : Scheduler Q) day slotDur pp slots i b ha :
  (length (sch_Vehicles s) ≤ fuel)%nat → Forall (fun v => 0 <= MaxPower v) (sch_Vehicles s) →
  (0 < slotDur)%Z → 0 < pp → 0 <= b →
  let h := Hours slotDur in
  let n := inject_Z (Z.of_nat slots) in
  ∃ es b' ha', plan_slots sortSlice fuel s day slotDur pp slots i b ha = Some (es, b', ha') ∧
    0 <= b' ∧
    b + n * pp * h - b' - n * h * epsilon <= entries_total es * h <= b + n * pp * h - b' ∧
    Forall (fun e => ∃ j, (i <= j < i + Z.of_nat slots)%Z ∧
      let ts := slot_start day slotDur j in
      entry_ok (availableVehicles s ts slotDur) ts e) es.
Proof.
  intros Hfuel Hmax Hd Hpp. cbn zeta. pose proof (Hours_Q_pos _ Hd) as Hh.
  revert i b ha. induction slots as [|slots IH]; intros i b ha Hb; cbn [plan_slots].
  { exists [], b, ha. split; [done|]. split; [done|]. change (entries_total []) with 0.
    change (inject_Z (Z.of_nat 0)) with 0. split; [lra|constructor]. }
  assert (inject_Z (Z.of_nat (S slots)) == 1 + inject_Z (Z.of_nat slots)) as Hn.
  { rewrite Nat2Z.inj_succ, <- Z.add_1_l, inject_Z_plus. reflexivity. }
  fold (slot_start day slotDur i). set (ts := slot_start day slotDur i).
  set (av := availableVehicles s ts slotDur). num_Q. set (h := Hours slotDur) in *.
  set (N := inject_Z (Z.of_nat slots)) in *.
  assert (0 <= N) as HN by (unfold N; change 0 with (inject_Z 0); rewrite <- Zle_Qle; lia).
  assert (0 < pp * h) by (apply Qmult_lt_0_compat; lra). pose proof epsilon_pos as Heps.
  assert (0 <= h * epsilon) by (apply Qmult_le_0_compat; lra).
  assert (∀ es' (Q' : Z → EffacementEntry Q → Prop), Forall (fun e => ∃ j, (i + 1 <= j < i + 1 + Z.of_nat slots)%Z ∧ Q' j e) es' →
    Forall (fun e => ∃ j, (i <= j < i + Z.of_nat (S slots))%Z ∧ Q' j e) es') as Hshift.
  { intros es' Q' Hall. eapply Forall_impl; [exact Hall|]. intros e (j & Hj & He). exists j. split; [lia|done]. }
  destruct (Nat.eqb_spec (length av) 0) as [Hl|Hl].
  - destruct (IH (i + 1)%Z (b + pp * h) ha) as (es & b' & ha' & -> & Hb' & Hen & Hall); [lra|].
    exists es, b', ha'. split_and!; [done|done| | |by apply Hshift]; rewrite Hn; lra.
  - destruct (slot_spec fuel s ts slotDur (pp * h + b)) as [Ha (es1 & Hes1 & He1 & Hok1)];
      [done|done|exact Hh|lra|].
    fold av h in Ha, Hes1, He1, Hok1.
    set (alloc := if Qltb _ _ then _ else _) in *. change 0 with (0 # 1) in Hes1. rewrite Hes1.
    cbn [mbind option_bind].
    destruct (IH (i + 1)%Z (pp * h + b - alloc) true) as (es & b' & ha' & -> & Hb' & Hen & Hall); [lra|].
    cbn [mbind option_bind]. exists (es1 ++ es), b', ha'. rewrite fmap_app, qsum_app, Hn.
    split_and!; [done|done|lra|lra|]. apply Forall_app. split; [|by apply Hshift].
    eapply Forall_impl; [exact Hok1|]. intros e He. exists i. split; [lia|done].
Qed.
End exact.

(** The slots of a day: a duration that does not overflow, and how many cover
    24 hours. *)
Definition slot_duration {F} (s : Scheduler F) : Duration :=
  (SlotDurationMinutes (sch_Config s) * Minute)%Z.

Definition slot_count {F} (s : Scheduler F) : Z :=
  Z.quot (24 * Hour + slot_duration s - 1) (slot_duration s).

Lemma slot_count_cover {F} (s : Scheduler F) :
  (0 < slot_duration s)%Z →
  (0 < slot_count s)%Z ∧ (24 * Hour <= slot_count s * slot_duration s < 24 * Hour + slot_duration s)%Z.
Proof.
  intros Hd. unfold slot_count. set (d := slot_duration s) in *.
  assert (0 <= 24 * Hour + d - 1)%Z by (assert (0 < 24 * Hour)%Z by done; lia).
  rewrite Z.quot_div_nonneg by lia.
  pose proof (Z.mul_div_le (24 * Hour + d - 1) d Hd).
  pose proof (Z.mul_succ_div_gt (24 * Hour + d - 1) d Hd).
  set (q := ((24 * Hour + d - 1) / d)%Z) in *.
  assert (0 < 24 * Hour)%Z by done. split; [|lia].
  destruct (Z.le_gt_cases q 0); [nia|done].
Qed.

Lemma wrap64_small z : (0 <= z < 2 ^ 63)%Z → wrap64 z = z.
Proof. intros Hz. apply wrap64_id. unfold int64, min_int64, max_int64. lia. Qed.

(** C19. Plans over exact arithmetic, for slots of up to 10^8 minutes, a positive
    target and vehicles without negative [MaxPower].  [GeneratePlan] returns.
    Either it reports insufficient capacity, or the planned energy is the target
    up to the tolerance of 1e-6 kW per slot and 1e-6 kWh of backlog; every entry
    belongs to a slot of the day and to a configured vehicle that is plugged in
    during all of it, with a power in (0, MaxPower]. *)
Theorem GeneratePlan_correct sortSlice (s : Scheduler Q) (date : Time)
    (Hsort : ∀ l, sortSlice l ≡ₚ l)
    (Hslot : (0 < SlotDurationMinutes (sch_Config s) <= 100000000)%Z)
    (Htarget : 0 < TargetEnergyKWh (sch_Config s)) (Hne : sch_Vehicles s ≠ [])
    (Hmax : Forall (fun v => 0 <= MaxPower v) (sch_Vehicles s)) :
  let h := Hours (slot_duration s) in
  let n := inject_Z (slot_count s) in
  ∃ r, GeneratePlan sortSlice (length (sch_Vehicles s)) s date = Some r ∧
    match r with
    | inl err => err = "insufficient capacity for target energy"%string
    | inr es =>
      TargetEnergyKWh (sch_Config s) - n * h * epsilon - epsilon <= entries_total es * h
        <= TargetEnergyKWh (sch_Config s) ∧
      Forall (fun e => ∃ j, (0 <= j < slot_count s)%Z ∧
        let ts := slot_start (midnight_utc date) (slot_duration s) j in
        entry_ok (availableVehicles s ts (slot_duration s)) ts e) es
    end.
Proof.
  cbn zeta. unfold GeneratePlan.
  destruct (Z.leb_spec (SlotDurationMinutes (sch_Config s)) 0); [lia|].
  assert (0 < slot_duration s <= 6000000000000000000)%Z as Hd
    by (unfold slot_duration, Minute, Second, Millisecond; lia).
  fold (slot_duration s). rewrite (wrap64_small (slot_duration s)) by lia.
  destruct (Z.eqb_spec (slot_duration s) 0) as [E1|E1]; [lia|].
  assert (24 * Hour = 86400000000000)%Z as HH by done.
  rewrite (wrap64_small (24 * Hour + slot_duration s)) by lia.
  rewrite wrap64_small by lia.
  fold (slot_count s). destruct (slot_count_cover s) as [Hc _]; [lia|].
  destruct (Z.eqb_spec (slot_count s) 0) as [E2|E2]; [lia|]. num_Q.
  pose proof (Hours_Q_pos _ (proj1 Hd)) as Hh. set (h := Hours (slot_duration s)) in *.
  assert (0 < inject_Z (slot_count s)) as Hn by (change 0 with (inject_Z 0); by rewrite <- Zlt_Qlt).
  set (n := inject_Z (slot_count s)) in *. set (T := TargetEnergyKWh (sch_Config s)) in *.
  assert (0 < n * h) by (apply Qmult_lt_0_compat; lra).
  assert (0 < T / (n * h)) as Hpp by (apply Qlt_shift_div_l; lra).
  assert (n * (T / (n * h)) * h == T) as HT by (field; lra).
  destruct (Qleb_spec (T / (n * h)) (0 # 1)); [lra|].
  destruct (Nat.eqb_spec (length (sch_Vehicles s)) 0) as [Hl|_]; [by apply nil_length_inv in Hl|].
  destruct (plan_slots_spec sortSlice Hsort (length (sch_Vehicles s)) s (midnight_utc date) (slot_duration s)
    (T / (n * h)) (Z.to_nat (slot_count s)) 0 0 false) as (es & b' & ha' & Hrun & Hb' & Hen & Hall);
    [done|done|lia|done|lra|]. rewrite Z2Nat.id in Hen, Hall by lia. fold h n in Hen.
  change (0 # 1) with 0. rewrite Hrun. cbn [mbind option_bind].
  destruct (Qltb_spec epsilon b') as [Hlt|Hle]; cbn [orb]; [eexists; by split|].
  destruct ha'; cbn [negb]; [|eexists; by split].
  eexists. split; [done|]. split; [lra|done].
Qed.
