(* ===== verification/Export.v ===== *)
(** * The scheduler's files

    Models [core/scheduler/config.go], the reading of the scheduler's
    configuration, with the decoders as arguments, and [pkg/export/export.go]: the plan of [Scheduler] as CSV, with the
    quoting rules of [encoding/csv] and the timestamps of RFC 3339.  How a
    float is printed ([strconv.FormatFloat(x, 'f', -1, 64)]) is an argument.
    The specification is a reader of RFC 4180 that gives the rows back. *)

From S2P Require Import Prelude Num GoTime GoText Model Scheduler.
From stdpp Require Import base gmap strings list pretty.
From Stdlib Require Import ZArith Ascii Lia.

#[local] Open Scope Z_scope.

Definition quote : ascii := "034".
Definition comma : ascii := ",".
Definition newline : ascii := "010".
Definition return_char : ascii := "013".

(** ** Reading the configuration *)

Section config.
Context {F : Type}.

(** A decoder gives the configuration it filled, with an error or not. *)
Abbreviation decoder := (string → SchedulerConfig F * option string).

Context (zero : SchedulerConfig F) (yaml json : decoder).

(** [read] is the error or the contents of the file. *)
Definition LoadConfig (path : string) (read : string + string) : SchedulerConfig F * option string :=
  match read with
  | inl err => (zero, Some err)
  | inr b =>
    let ext := ToLower (Ext path) in
    if bool_decide (ext = ".yaml") || bool_decide (ext = ".yml") then yaml b
    else if bool_decide (ext = ".json") then json b
    else (zero, Some ("unsupported config format: " +:+ ext))
  end.

Definition DecodeConfig (contents format : string) : SchedulerConfig F * option string :=
  let f := ToLower format in
  if bool_decide (f = "yaml") || bool_decide (f = "yml") then yaml contents
  else if bool_decide (f = "json") then json contents
  else (zero, Some ("unsupported format: " +:+ format)).

Lemma Ext_go_plain candidate s :
  Forall (fun a => a ≠ "/"%char ∧ a ≠ "."%char) (String.list_ascii_of_string s) →
  Ext_go candidate s = candidate.
Proof.
  revert candidate. induction s as [|a s IH]; intros c Hs; [done|].
  cbn in Hs. apply Forall_cons in Hs as [[H1 H2] Hs]. cbn [Ext_go].
  rewrite !bool_decide_eq_false_2 by done. by apply IH.
Qed.

Lemma Ext_suffix candidate base format :
  Forall (fun a => a ≠ "/"%char ∧ a ≠ "."%char) (String.list_ascii_of_string format) →
  Ext_go candidate (base +:+ String "." format) = String "." format.
Proof.
  intros Hf. revert candidate. induction base as [|a base IH]; intros c.
  - change ("" +:+ String "." format) with (String "." format). cbn [Ext_go].
    rewrite bool_decide_eq_false_2, bool_decide_eq_true_2 by done. by apply Ext_go_plain.
  - rewrite string_cons_app. cbn [Ext_go]. by repeat case_bool_decide.
Qed.

(** A file is decoded as its contents are under the name of its suffix: the two
    readers accept the same formats, in any case, and give the same result. *)
Theorem LoadConfig_DecodeConfig base format contents
    (Hf : Forall (fun a => a ≠ "/"%char ∧ a ≠ "."%char) (String.list_ascii_of_string format)) :
  (ToLower format ∈ ["yaml"; "yml"; "json"] ∧
     LoadConfig (base +:+ String "." format) (inr contents) = DecodeConfig contents format) ∨
  (ToLower format ∉ ["yaml"; "yml"; "json"] ∧
     is_Some (LoadConfig (base +:+ String "." format) (inr contents)).2 ∧
     is_Some (DecodeConfig contents format).2).
Proof.
  unfold LoadConfig, DecodeConfig, Ext. rewrite Ext_suffix by done.
  assert (ToLower (String "." format) = String "." (ToLower format)) as -> by done.
  assert (∀ f, bool_decide (String "." (ToLower format) = String "." f) = bool_decide (ToLower format = f)) as Hd.
  { intros f. apply bool_decide_ext. naive_solver. }
  rewrite !Hd, !elem_of_cons, elem_of_nil. repeat case_bool_decide; cbn [orb snd]; try (left; by eauto).
  right. naive_solver.
Qed.
End config.

(** ** [csv.Writer] *)

(** The bytes that force quotes. *)
Definition special (a : ascii) : bool :=
  bool_decide (a ∈ [newline; return_char; quote; comma]).

Fixpoint any_special (s : string) : bool :=
  match s with
  | EmptyString => false
  | String a s => special a || any_special s
  end.

(** [unicode.IsSpace] on ASCII, of the first character. *)
Definition is_space (a : ascii) : bool := bool_decide (N_of_ascii a ∈ [9; 10; 11; 12; 13; 32]%N).

Definition fieldNeedsQuotes (s : string) : bool :=
  match s with
  | EmptyString => false
  | String a _ => bool_decide (s = "\.") || any_special s || is_space a
  end.

(** A quote inside of quotes is doubled; line breaks stay as they are. *)
Fixpoint escape (s : string) : string :=
  match s with
  | EmptyString => EmptyString
  | String a s => if bool_decide (a = quote) then String quote (String quote (escape s))
                  else String a (escape s)
  end.

Definition csv_field (s : string) : string :=
  if fieldNeedsQuotes s then String quote (escape s +:+ String quote "") else s.

Fixpoint csv_row (row : list string) : string :=
  match row with
  | [] => String newline ""
  | [f] => csv_field f +:+ String newline ""
  | f :: row => csv_field f +:+ String comma (csv_row row)
  end.

Definition csv_write (rows : list (list string)) : string :=
  foldr (fun row s => csv_row row +:+ s) "" rows.

(** ** [WriteCSV] *)

(** The zone of RFC 3339: minutes east of Greenwich. *)
Definition FormatZone (offset : Z) : string :=
  if offset =? 0 then "Z" else
  let zone := Z.quot offset 60 in
  let a := Z.abs zone in
  (if zone <? 0 then "-" else "+") +:+ pad 2 (a / 60) +:+ ":" +:+ pad 2 (a mod 60).

(** [t.Format(time.RFC3339)], in the zone of [t]. *)
Definition FormatRFC3339 (t : Time) : string :=
  let sec := ((t_ns t + t_zone t * Second) / Second) mod 86400 in
  FormatDate t +:+ "T" +:+ pad 2 (sec / 3600) +:+ ":" +:+ pad 2 ((sec / 60) mod 60) +:+ ":" +:+
  pad 2 (sec mod 60) +:+ FormatZone (t_zone t).

Section plan.
Context {F : Type} (FormatFloat : F → string).

Definition csv_header : list string := ["vehicle_id"; "timeslot"; "power_kw"].

Definition entry_row (e : EffacementEntry F) : list string :=
  [ee_VehicleID e; FormatRFC3339 (ee_TimeSlot e); FormatFloat (ee_PowerKW e)].

(** What is written; the writer's errors are those of the destination. *)
Definition WriteCSV (entries : list (EffacementEntry F)) : string :=
  csv_write (csv_header :: (entry_row <$> entries)).
End plan.

(** ** A reader *)

Inductive csv_mode := AtStart | Plain | Quoted | AfterQuote.

(** [cur] is the field read so far, [row] the fields before it; [None] is a
    quote out of place. *)
Fixpoint csv_read (mode : csv_mode) (cur : string) (row : list string) (s : string) :
    option (list (list string)) :=
  match s with
  | EmptyString =>
    match mode, row with
    | AtStart, [] => Some []
    | Quoted, _ => None
    | _, _ => Some [row ++ [cur]]
    end
  | String a s =>
    if bool_decide (a = quote) then
      match mode with
      | AtStart => csv_read Quoted cur row s
      | Plain => None
      | Quoted => csv_read AfterQuote cur row s
      | AfterQuote => csv_read Quoted (cur +:+ String quote "") row s
      end
    else
      match mode with
      | Quoted => csv_read Quoted (cur +:+ String a "") row s
      | _ =>
        if bool_decide (a = comma) then csv_read AtStart "" (row ++ [cur]) s
        else if bool_decide (a = newline) then
          rows ← csv_read AtStart "" [] s; Some ((row ++ [cur]) :: rows)
        else
          match mode with
          | AfterQuote => None
          | _ => csv_read Plain (cur +:+ String a "") row s
          end
      end
  end.

Abbreviation csv_rows := (csv_read AtStart "" []).

(** ** The round trip *)

(** What the reader does at the end of a field. *)
Definition delimit (a : ascii) (cur : string) (row : list string) (s : string) :
    option (list (list string)) :=
  if bool_decide (a = comma) then csv_read AtStart "" (row ++ [cur]) s
  else rows ← csv_rows s; Some ((row ++ [cur]) :: rows).

Definition delimiter (a : ascii) : Prop := a = comma ∨ a = newline.

Lemma csv_read_delimiter mode a cur row s :
  delimiter a → mode ≠ Quoted → csv_read mode cur row (String a s) = delimit a cur row s.
Proof. intros [-> | ->] Hm; by destruct mode. Qed.

Lemma csv_read_ordinary mode a cur row s :
  special a = false → mode = AtStart ∨ mode = Plain →
  csv_read mode cur row (String a s) = csv_read Plain (cur +:+ String a "") row s.
Proof.
  unfold special. rewrite bool_decide_eq_false, !elem_of_cons. intros Hs Hm.
  cbn [csv_read]. rewrite !bool_decide_eq_false_2 by naive_solver. by destruct Hm as [-> | ->].
Qed.

Lemma csv_read_plain s cur row t :
  any_special s = false → csv_read Plain cur row (s +:+ t) = csv_read Plain (cur +:+ s) row t.
Proof.
  revert cur. induction s as [|a s IH]; intros cur Hs; cbn [any_special] in Hs.
  - by rewrite string_app_nil.
  - apply orb_false_iff in Hs as [Ha Hs]. rewrite string_cons_app.
    by rewrite csv_read_ordinary, IH, string_snoc by auto.
Qed.

Lemma csv_read_escaped s cur row t :
  csv_read Quoted cur row (escape s +:+ t) = csv_read Quoted (cur +:+ s) row t.
Proof.
  revert cur. induction s as [|a s IH]; intros cur; cbn [escape].
  - by rewrite string_app_nil.
  - destruct (bool_decide_reflect (a = quote)) as [->|Ha].
    + change (csv_read Quoted (cur +:+ String quote "") row (escape s +:+ t) =
              csv_read Quoted (cur +:+ String quote s) row t).
      by rewrite IH, string_snoc.
    + change (String a (escape s) +:+ t) with (String a (escape s +:+ t)).
      cbn [csv_read]. rewrite bool_decide_eq_false_2 by done. by rewrite IH, string_snoc.
Qed.

(** Every field comes back, quoted or not. *)
Lemma csv_read_field s a row t :
  delimiter a →
  csv_read AtStart "" row (csv_field s +:+ String a t) = delimit a s row t.
Proof.
  intros Ha. unfold csv_field. destruct (fieldNeedsQuotes s) eqn:Hq.
  - change (csv_read Quoted "" row ((escape s +:+ String quote "") +:+ String a t) =
            delimit a s row t).
    rewrite string_app_assoc, csv_read_escaped, string_cons_app.
    by apply (csv_read_delimiter AfterQuote).
  - destruct s as [|b s]; [by apply csv_read_delimiter|].
    cbn [fieldNeedsQuotes] in Hq. apply orb_false_iff in Hq as [[_ Hs]%orb_false_iff _].
    cbn [any_special] in Hs. apply orb_false_iff in Hs as [Hb Hs].
    change (String b s +:+ String a t) with (String b (s +:+ String a t)).
    rewrite csv_read_ordinary, csv_read_plain by auto. by apply csv_read_delimiter.
Qed.

Lemma csv_read_row fields row t :
  fields ≠ [] →
  csv_read AtStart "" row (csv_row fields +:+ t) =
  rows ← csv_rows t; Some ((row ++ fields) :: rows).
Proof.
  revert row. induction fields as [|f [|g fields] IH]; intros row Hne; [done|..].
  - change (csv_row [f]) with (csv_field f +:+ String newline "").
    rewrite string_app_assoc. by rewrite string_cons_app, csv_read_field by (by right).
  - change (csv_row (f :: g :: fields)) with (csv_field f +:+ String comma (csv_row (g :: fields))).
    rewrite string_app_assoc, string_cons_app, csv_read_field by (by left). unfold delimit. rewrite bool_decide_eq_true_2 by done.
    rewrite IH by done. by rewrite <- app_assoc.
Qed.

Lemma csv_round_trip rows : Forall (.≠ []) rows → csv_rows (csv_write rows) = Some rows.
Proof.
  induction 1 as [|row rows Hrow _ IH]; [done|].
  change (csv_write (row :: rows)) with (csv_row row +:+ csv_write rows).
  rewrite csv_read_row, IH by done. done.
Qed.

