(* ===== verification/JsonTime.v ===== *)
(** * Timestamps in JSON

    [Time.MarshalJSON] and how a struct's field of type [time.Time] is filled:
    the text of RFC 3339 with nanoseconds.  Reading such a text is the argument
    [TimeParser]. *)

From S2P Require Import Prelude GoTime GoText Json JsonStruct Export.
From stdpp Require Import base gmap strings list pretty.
From Stdlib Require Import ZArith Ascii Lia.

#[local] Open Scope Z_scope.

(** ** [Time.MarshalJSON] *)

Fixpoint trim_zeros (s : string) : string :=
  match s with
  | EmptyString => EmptyString
  | String a s =>
    let t := trim_zeros s in
    if bool_decide (t = "") && bool_decide (a = "0"%char) then "" else String a t
  end.

(** The nanoseconds behind the point, without trailing zeros. *)
Definition FormatFraction (ns : Z) : string := if ns =? 0 then "" else "." +:+ trim_zeros (pad 9 ns).

(** [t.Format(time.RFC3339Nano)], in the zone of [t]. *)
Definition FormatRFC3339Nano (t : Time) : string :=
  let sec := ((t_ns t + t_zone t * Second) / Second) mod 86400 in
  FormatDate t +:+ "T" +:+ pad 2 (sec / 3600) +:+ ":" +:+ pad 2 ((sec / 60) mod 60) +:+ ":" +:+
  pad 2 (sec mod 60) +:+ FormatFraction (t_ns t mod Second) +:+ FormatZone (t_zone t).

(** The year has four digits and the hours of the zone are below 24. *)
Definition strict_time (t : Time) : bool :=
  let '(y, _, _) := civil ((t_ns t + t_zone t * Second) / ns_per_day) in
  (0 <=? y) && (y <=? 9999) && (Z.abs (Z.quot (t_zone t) 60) / 60 <? 24).

Definition put_time (t : Time) : option json :=
  if strict_time t then Some (JStr (FormatRFC3339Nano t) (plain_text (FormatRFC3339Nano t))) else None.

Example FormatRFC3339Nano_examples :
  FormatRFC3339Nano <$> [time_zero; MkTime (738944 * ns_per_day + 1500 * Millisecond) 0;
                         MkTime (738945 * ns_per_day) (-3600)] =
  ["0001-01-01T00:00:00Z"; "2024-02-29T00:00:01.5Z"; "2024-02-29T23:00:00-01:00"].
Proof. vm_compute. reflexivity. Qed.

(** [Time.UnmarshalJSON] gets the text of the literal as it stands: one with an
    escape is no timestamp. *)
Definition get_time {M} (parse : TimeParser) (set : Time → M → M) (j : json) (m : M) : option M :=
  match j with
  | JNull => Some m
  | JStr s plain => if plain then t ← parse s; Some (set t m) else None
  | _ => None
  end.

(** ** Timestamps need no escapes *)

(** Text that is written as it is. *)
Definition safe_text (s : string) : Prop :=
  Forall (fun a => htmlSafe a = true) (String.list_ascii_of_string s).

Lemma safe_app s t : safe_text s → safe_text t → safe_text (s +:+ t).
Proof.
  unfold safe_text. intros Hs Ht. induction s as [|a s IH]; [done|]. rewrite string_cons_app. cbn in *.
  apply Forall_cons in Hs as [Ha Hs]. constructor; [done|]. by apply IH.
Qed.

Lemma digit_safe a : is_digit a = true → htmlSafe a = true.
Proof. destruct a as [[] [] [] [] [] [] [] []]; first [discriminate|reflexivity]. Qed.

Lemma safe_digits s : all_digits s = true → safe_text s.
Proof.
  unfold safe_text. induction s as [|a s IH]; [constructor|]. cbn. intros [Ha Hs]%andb_true_iff.
  constructor; [by apply digit_safe|by apply IH].
Qed.

Lemma safe_pretty (n : N) : safe_text (pretty n).
Proof.
  destruct (decide (n = 0)%N) as [->|]; [by repeat constructor|].
  apply safe_digits. apply (num_run_pos NStart); [left|lia].
Qed.

Lemma safe_pad w n : safe_text (pad w n).
Proof.
  unfold pad. apply safe_app; [destruct (n <? 0); by repeat constructor|].
  apply safe_app; [|apply safe_pretty]. generalize (w - String.length (pretty (Z.abs_N n)))%nat.
  intros k. apply safe_digits. induction k as [|[|k] IH]; [done..|]. exact IH.
Qed.

Lemma safe_trim s : safe_text s → safe_text (trim_zeros s).
Proof.
  unfold safe_text. induction s as [|a s IH]; [done|]. cbn. intros [Ha Hs]%Forall_cons.
  destruct (_ && _); [constructor|]. constructor; [done|]. by apply IH.
Qed.

Lemma safe_lit s : bool_decide (safe_text s) = true → safe_text s.
Proof. apply bool_decide_eq_true. Qed.

Create HintDb safe.
#[export] Hint Resolve safe_app safe_pad safe_trim : safe.
#[export] Hint Extern 2 (safe_text _) => (apply safe_lit; reflexivity) : safe.

Lemma safe_time t : safe_text (FormatRFC3339Nano t).
Proof.
  unfold FormatRFC3339Nano, FormatDate, FormatFraction, FormatZone.
  destruct (civil _) as [[y m] d]. destruct (_ =? 0), (_ =? 0); auto 20 with safe.
  all: destruct (_ <? 0); auto 20 with safe.
Qed.

Lemma runes_safe s : safe_text s → runes s = R1 <$> String.list_ascii_of_string s.
Proof.
  intros Hs. apply runes_ascii. eapply Forall_impl; [exact Hs|]. intros a Ha. unfold htmlSafe in Ha.
  apply andb_true_iff in Ha as [[_ Ha]%andb_true_iff _]. by apply N.ltb_lt.
Qed.

(** Safe text is read and written as it is. *)
Lemma to_valid_safe s : safe_text s → to_valid s = s.
Proof.
  intros Hs. apply to_valid_id. unfold valid_utf8. rewrite runes_safe by done. apply Forall_fmap.
  eapply Forall_impl; [exact Hs|]. intros a Ha. unfold htmlSafe in Ha.
  by apply andb_true_iff in Ha as [[_ Ha]%andb_true_iff _].
Qed.

Lemma plain_safe s : safe_text s → plain_text s = true.
Proof.
  intros Hs. unfold plain_text. rewrite runes_safe by done. unfold safe_text in Hs.
  induction Hs as [|a l Ha _ IH]; [done|]. rewrite fmap_cons, bind_cons. cbn [escape_rune]. rewrite Ha.
  cbn. rewrite bool_decide_eq_false_2; [exact IH|]. intros [= ->]. discriminate Ha.
Qed.

(** A timestamp that is written is read as the instant its text names. *)
Lemma get_time_put {M} (parse : TimeParser) (set : Time → M → M) m t j :
  put_time t = Some j → parse (FormatRFC3339Nano t) = Some t →
  get_time parse set (sanitize j) m = Some (set t m).
Proof.
  unfold put_time. destruct (strict_time t); [|done]. intros [= <-] Ht. cbn [sanitize get_time].
  by rewrite plain_safe, to_valid_safe, Ht by apply safe_time.
Qed.
