(* ===== verification/JsonExport.v ===== *)
(** * The plan as JSON

    Models [WriteJSON] of [pkg/export/export.go]: the encoder's text of the
    entries, with the timestamps of [JsonTime].  A nil slice is the
    document [null].  The specification is a reader into the same struct, which
    gives the entries back. *)

From S2P Require Import Prelude Num GoTime GoText Model Scheduler Json JsonStruct JsonTime.
From stdpp Require Import base gmap strings list pretty.
From Stdlib Require Import ZArith Ascii Lia.

#[local] Open Scope Z_scope.

(** ** [WriteJSON] *)

Section plan.
Context {F : Type} `{FloatText F}.

Definition entry_json (e : EffacementEntry F) : option json :=
  JObj <$> put_struct [("vehicle_id", put_string (ee_VehicleID e)); ("timeslot", put_time (ee_TimeSlot e));
                       ("power_kw", put_float (ee_PowerKW e))].

Fixpoint entries_json (es : list (EffacementEntry F)) : option (list json) :=
  match es with
  | [] => Some []
  | e :: es => j ← entry_json e; js ← entries_json es; Some (j :: js)
  end.

(** What is written, [None] when the encoder reports an error and writes
    nothing; the entries are [None] for a nil slice. *)
Definition WriteJSON (entries : option (list (EffacementEntry F))) : option string :=
  j ← match entries with None => Some JNull | Some es => JArr <$> entries_json es end;
  Some (json_text j +:+ String "010" "").

(** ** A reader *)

(** An entry as a reader gets it: the timestamp is text. *)
Definition read_fields : list (string * (json → string * string * F → option (string * string * F))) :=
  [("vehicle_id", get_string (fun s m => (s, m.1.2, m.2))); ("timeslot", get_string (fun s m => (m.1.1, s, m.2)));
   ("power_kw", get_float (fun x m => (m.1.1, m.1.2, x)))].

Fixpoint read_entries (zero : F) (js : list json) : option (list (string * string * F)) :=
  match js with
  | [] => Some []
  | j :: js => e ← fill_struct read_fields ("", "", zero) j; es ← read_entries zero js; Some (e :: es)
  end.

Definition read_plan (zero : F) (s : string) : option (list (string * string * F)) :=
  j ← Parse s; match j with JNull => Some [] | JArr js => read_entries zero js | _ => None end.
End plan.

(** ** The round trip *)

Section round_trip.
Context {F : Type} `{FloatTextLaws F}.

(** An entry the encoder accepts. *)
Definition encodable (e : EffacementEntry F) : bool := strict_time (ee_TimeSlot e) && finite (ee_PowerKW e).

Definition entry_read (e : EffacementEntry F) : string * string * F :=
  (to_valid (ee_VehicleID e), FormatRFC3339Nano (ee_TimeSlot e), ee_PowerKW e).

Lemma entry_json_spec e :
  if encodable e then
    ∃ j, entry_json e = Some j ∧ numbers_ok j ∧ depth j = 1%nat ∧
      ∀ zero : F, fill_struct read_fields ("", "", zero) (sanitize j) = Some (entry_read e)
  else entry_json e = None.
Proof.
  unfold encodable, entry_json, put_time, put_float. cbn [put_struct mbind option_bind].
  destruct (strict_time _); [|done]. destruct (finite _) eqn:Hf; [|done]. cbn [andb].
  eexists. split; [done|]. split; [|split; [done|]].
  - apply numbers_ok_obj. repeat constructor. cbn. by apply float_text_number.
  - intros zero. cbn [sanitize fill_struct]. fold sanitize_member. cbn [fmap list_fmap].
    repeat fill_member. cbn -[to_valid]. unfold entry_read. by rewrite (to_valid_safe _ (safe_time _)).
Qed.

Lemma entries_json_spec (es : list (EffacementEntry F)) :
  if forallb encodable es then
    ∃ js, entries_json es = Some js ∧ Forall (fun j => numbers_ok j ∧ depth j = 1%nat) js ∧
      ∀ zero : F, read_entries zero (sanitize <$> js) = Some (entry_read <$> es)
  else entries_json es = None.
Proof.
  induction es as [|e es IH]; cbn [forallb entries_json]; [by exists []|].
  pose proof (entry_json_spec e) as He. destruct (encodable e); cbn [andb].
  - destruct He as (j & -> & Hn & Hd & Hj). cbn [mbind option_bind]. destruct (forallb encodable es).
    + destruct IH as (js & -> & Hall & Hjs). exists (j :: js). split; [done|]. split; [by constructor|].
      intros zero. cbn [fmap list_fmap read_entries]. by rewrite Hj, Hjs.
    + by rewrite IH.
  - by rewrite He.
Qed.

(** C21. The exported plan reads back as its entries, in order, with their powers;
    a nil plan is the document [null], and one entry that JSON cannot express
    (a power that is not finite, a year that is not of four digits) makes the
    encoder write nothing at all. *)
Theorem WriteJSON_round_trip (zero : F) (entries : option (list (EffacementEntry F))) :
  if forallb encodable (default [] entries) then
    ∃ out, WriteJSON entries = Some out ∧ read_plan zero out = Some (entry_read <$> default [] entries)
  else WriteJSON entries = None.
Proof.
  destruct entries as [es|]; [|by eexists]. cbn [from_option id]. pose proof (entries_json_spec es) as Hes.
  unfold WriteJSON. destruct (forallb encodable es); [|by rewrite Hes].
  destruct Hes as (js & -> & Hall & Hread). eexists. split; [done|]. unfold read_plan.
  rewrite Parse_json_line; [by cbn; rewrite Hread|..].
  - apply numbers_ok_arr. eapply Forall_impl; [exact Hall|]. by intros j [? _].
  - assert (depth (JArr js) ≤ 2)%nat as Hd.
    { cbn [depth]. enough (list_max (depth <$> js) ≤ 1)%nat by lia.
      apply list_max_le, Forall_fmap. eapply Forall_impl; [exact Hall|]. cbn. intros j [_ ->]. lia. }
    etrans; [exact Hd|]. apply Nat.leb_le. reflexivity.
Qed.
End round_trip.
