(* ===== verification/LogCodec.v ===== *)
(** * The bytes of the dispatch log

    The lines of the JSON-lines stores ([core/dispatch/logging]), byte for byte:
    the text of a record as [json.Encoder] writes it, how [Query] splits the file
    into lines and decodes them, and that the lists of lines on which
    [DispatchLog] and [LogFiles] work are what the bytes stand for.  The records
    are those the manager appends: their maps are not nil, but for the fallback's.
    Reading a timestamp is the argument [parse]. *)

From S2P Require Import Prelude Num GoTime GoText Json JsonStruct JsonTime Model PowerMap DispatchLog.
From stdpp Require Import base gmap strings list sorting.
From Stdlib Require Import ZArith Ascii Lia.

#[local] Open Scope Z_scope.

(** ** Maps and slices *)

(** The entries in the order of their keys. *)
Definition sorted_entries {A} (m : gmap string A) : list (string * A) := sort_by fst (map_to_list m).

Definition put_map {A} (put : A → option json) (m : gmap string A) : option json :=
  JObj <$> put_struct ((fun kx => (kx.1, put kx.2)) <$> sorted_entries m).

(** A nil map is [null]. *)
Definition put_nil_map {A} (put : A → option json) (m : option (gmap string A)) : option json :=
  match m with None => Some JNull | Some m => put_map put m end.

Definition put_strings (l : list string) : option json := Some (JArr ((fun s => JStr s (plain_text s)) <$> l)).

Section record.
Context {F : Type} `{Num F} `{FloatText F} (parse : TimeParser).

(** ** The structs *)

Definition put_signal (s : FlexibilitySignal F) : option json :=
  JObj <$> put_struct [("Type", put_int (sig_Type s)); ("PowerKW", put_float (PowerKW s));
                       ("Duration", put_int (sig_Duration s)); ("Timestamp", put_time (Timestamp s))].

Definition put_result (r : Result F) : option json :=
  JObj <$> put_struct [("assignments", put_map put_float (lr_Assignments r));
                       ("fallback_assignments", put_nil_map put_float (lr_FallbackAssignments r));
                       ("errors", put_map put_string (lr_Errors r));
                       ("acknowledged", put_map put_bool (lr_Acknowledged r));
                       ("signal", put_signal (lr_Signal r));
                       ("market_price", put_float (lr_MarketPrice r));
                       ("scores", put_map put_float (lr_Scores r))].

(** The text of a record, without the line break the encoder adds. *)
Definition record_text (r : LogRecord F) : option string :=
  Marshal [("timestamp", put_time (log_Timestamp r)); ("signal", put_signal (log_Signal r));
           ("target_power", put_float (log_TargetPower r));
           ("vehicles_selected", put_strings (log_VehiclesSelected r));
           ("response", put_result (log_Response r))].

Definition flex_fields : list (string * (json → FlexibilitySignal F → option (FlexibilitySignal F))) :=
  [("Type", get_int64 (fun x s => MkSignal x (PowerKW s) (sig_Duration s) (Timestamp s)));
   ("PowerKW", get_float (fun x s => MkSignal (sig_Type s) x (sig_Duration s) (Timestamp s)));
   ("Duration", get_int64 (fun x s => MkSignal (sig_Type s) (PowerKW s) x (Timestamp s)));
   ("Timestamp", get_time parse (fun x s => MkSignal (sig_Type s) (PowerKW s) (sig_Duration s) x))].

Definition result_fields : list (string * (json → Result F → option (Result F))) :=
  [("assignments", get_map (elem_float n0) lr_Assignments
      (fun x '(MkLogResult _ b c d e f g) => MkLogResult x b c d e f g));
   ("fallback_assignments", get_nil_map (elem_float n0) lr_FallbackAssignments
      (fun x '(MkLogResult a _ c d e f g) => MkLogResult a x c d e f g));
   ("errors", get_map elem_string lr_Errors (fun x '(MkLogResult a b _ d e f g) => MkLogResult a b x d e f g));
   ("acknowledged", get_map elem_bool lr_Acknowledged
      (fun x '(MkLogResult a b c _ e f g) => MkLogResult a b c x e f g));
   ("signal", get_struct flex_fields lr_Signal (fun x '(MkLogResult a b c d _ f g) => MkLogResult a b c d x f g));
   ("market_price", get_float (fun x '(MkLogResult a b c d e _ g) => MkLogResult a b c d e x g));
   ("scores", get_map (elem_float n0) lr_Scores (fun x '(MkLogResult a b c d e f _) => MkLogResult a b c d e f x))].

Definition record_fields : list (string * (json → LogRecord F → option (LogRecord F))) :=
  [("timestamp", get_time parse (fun x '(MkLogRecord _ b c d e) => MkLogRecord x b c d e));
   ("signal", get_struct flex_fields log_Signal (fun x '(MkLogRecord a _ c d e) => MkLogRecord a x c d e));
   ("target_power", get_float (fun x '(MkLogRecord a b _ d e) => MkLogRecord a b x d e));
   ("vehicles_selected", get_strings log_VehiclesSelected (fun x '(MkLogRecord a b c _ e) => MkLogRecord a b c x e));
   ("response", get_struct result_fields log_Response (fun x '(MkLogRecord a b c d _) => MkLogRecord a b c d x))].

Definition zero_flex : FlexibilitySignal F := MkSignal 0 n0 0 time_zero.

Definition zero_record : LogRecord F :=
  MkLogRecord time_zero zero_flex n0 [] (MkLogResult ∅ None ∅ ∅ zero_flex n0 ∅).

(** [json.Unmarshal(line, &r)]. *)
Definition decode_record (line : string) : option (LogRecord F) := Unmarshal record_fields zero_record line.

(** ** The file *)

(** [Append] adds the line and its break. *)
Definition append_bytes (file : string) (r : LogRecord F) : option string :=
  t ← record_text r; Some (file +:+ t +:+ String "010" "").

(** [bufio.ScanLines]: the line breaks are dropped, as is a carriage return before
    one; what follows the last break is a line if it is not empty. *)
Fixpoint raw_lines (cur file : string) : list string :=
  match file with
  | EmptyString => if bool_decide (cur = "") then [] else [cur]
  | String a file =>
    if bool_decide (a = "010"%char) then cur :: raw_lines "" file
    else raw_lines (cur +:+ String a "") file
  end.

Fixpoint drop_cr (line : string) : string :=
  match line with
  | EmptyString => EmptyString
  | String a EmptyString => if bool_decide (a = "013"%char) then "" else line
  | String a rest => String a (drop_cr rest)
  end.

(** The lines as [DispatchLog] sees them. *)
Definition scanned_lines (file : string) : list (log_line F) :=
  (fun l => MkLine (Z.of_nat (String.length l)) (decode_record (drop_cr l))) <$> raw_lines "" file.
End record.

(** ** What is written is well formed *)

Definition written (n : nat) (j : json) : Prop := numbers_ok j ∧ (depth j ≤ n)%nat.

Lemma written_obj n ms : Forall (fun kj => written n kj.2) ms → written (S n) (JObj ms).
Proof.
  intros Hms. split.
  - apply numbers_ok_obj. eapply Forall_impl; [exact Hms|]. by intros kj [? _].
  - cbn [depth]. apply le_n_S, list_max_le, Forall_fmap. eapply Forall_impl; [exact Hms|]. by intros kj [_ ?].
Qed.

Lemma written_arr n js : Forall (written n) js → written (S n) (JArr js).
Proof.
  intros Hms. split.
  - apply numbers_ok_arr. eapply Forall_impl; [exact Hms|]. by intros kj [? _].
  - cbn [depth]. apply le_n_S, list_max_le, Forall_fmap. eapply Forall_impl; [exact Hms|]. by intros kj [_ ?].
Qed.

Lemma written_le n n' j : (n ≤ n')%nat → written n j → written n' j.
Proof. intros Hn [? ?]. split; [done|lia]. Qed.

Lemma put_struct_cons k o fields ms :
  put_struct ((k, o) :: fields) = Some ms →
  ∃ j ms', o = Some j ∧ put_struct fields = Some ms' ∧ ms = (k, j) :: ms'.
Proof.
  cbn. intros (j & -> & (ms' & -> & [= <-])%bind_Some_inv)%bind_Some_inv. by exists j, ms'.
Qed.

(** Splits the fields of a struct that was written. *)
Ltac fields H :=
  repeat (apply put_struct_cons in H as (? & ? & ? & H & ->)); injection H as <-.

(** ** Elements *)

(** What [put] writes for the values in [ok] is read back by [elem]. *)
Definition faithful {A} (n : nat) (put : A → option json) (elem : json → option A) (ok : A → Prop) : Prop :=
  ∀ x j, ok x → put x = Some j → written n j ∧ elem (sanitize j) = Some x.

Lemma faithful_string : faithful 0 put_string elem_string valid_utf8.
Proof. intros s j Hs [= <-]. split; [done|]. cbn. by rewrite to_valid_id. Qed.

Lemma faithful_bool : faithful 0 put_bool elem_bool (fun _ => True).
Proof. by intros b j _ [= <-]. Qed.

Lemma faithful_float `{FloatTextLaws F} (zero : F) : faithful 0 put_float (elem_float zero) (fun _ => True).
Proof.
  intros x j _. unfold put_float. destruct (finite x) eqn:Hx; [|done]. intros [= <-].
  split; [split; [by apply float_text_number|done]|]. cbn. by apply float_text_parse.
Qed.

Section maps.
Context {A : Type} (n : nat) (put : A → option json) (elem : json → option A) (ok : A → Prop).
Context (Hf : faithful n put elem ok).

Definition map_ok (m : gmap string A) : Prop := ∀ k x, m !! k = Some x → valid_utf8 k ∧ ok x.

Lemma get_entries_put (l : list (string * A)) ms acc :
  Forall (fun kx => valid_utf8 kx.1 ∧ ok kx.2) l →
  put_struct ((fun kx => (kx.1, put kx.2)) <$> l) = Some ms →
  Forall (fun kj => written n kj.2) ms ∧
  get_entries elem (sanitize_member <$> ms) acc = Some (foldl (fun m '(k, x) => <[k := x]> m) acc l).
Proof.
  intros Hl. revert ms acc. induction Hl as [|[k x] l [Hk Hx] _ IH]; intros ms acc Hp.
  { injection Hp as <-. split; [constructor|done]. }
  rewrite fmap_cons in Hp. apply put_struct_cons in Hp as (j & ms' & Hj & Hp & ->).
  destruct (Hf x j Hx Hj) as [Hw He]. destruct (IH ms' (<[k := x]> acc) Hp) as [Hws Hg].
  split; [by constructor|]. rewrite fmap_cons. cbn [sanitize_member get_entries fst snd].
  rewrite He, (to_valid_id k Hk). exact Hg.
Qed.

Lemma put_map_spec m j :
  map_ok m → put_map put m = Some j →
  ∃ ms, j = JObj ms ∧ written (S n) j ∧ get_entries elem (sanitize_member <$> ms) ∅ = Some m.
Proof.
  intros Hm Hp. unfold put_map in Hp. destruct (put_struct _) as [ms|] eqn:Hs; [|done]. injection Hp as <-.
  assert (sorted_entries m ≡ₚ map_to_list m) as Hperm by apply sort_key_perm.
  destruct (get_entries_put (sorted_entries m) ms ∅) as [Hw Hg]; [|done|].
  - apply Forall_forall. intros [k x] Hin. rewrite Hperm in Hin. apply elem_of_map_to_list in Hin. by apply Hm.
  - exists ms. split; [done|]. split; [by apply written_obj|]. rewrite Hg. f_equal.
    assert (NoDup (sorted_entries m).*1) as Hnd by (rewrite Hperm; apply NoDup_fst_map_to_list).
    rewrite foldl_insert_union, (right_id_L ∅ (∪)) by done.
    rewrite <- (list_to_map_to_list m) at 2. by apply list_to_map_proper.
Qed.

Lemma get_map_put {M} get set (r : M) m j :
  put_map put m = Some j → map_ok m → get r = ∅ →
  get_map elem get set (sanitize j) r = Some (set m r).
Proof.
  intros Hp Hm Hr. destruct (put_map_spec m j Hm Hp) as (ms & -> & _ & Hg).
  change (sanitize (JObj ms)) with (JObj (sanitize_member <$> ms)). cbn [get_map]. by rewrite Hr, Hg.
Qed.

Lemma get_nil_map_put {M} get set (r : M) o j :
  put_nil_map put o = Some j → (∀ m, o = Some m → map_ok m) → get r = None →
  get_nil_map elem get set (sanitize j) r = Some (set o r).
Proof.
  intros Hp Hm Hr. destruct o as [m|]; [|by injection Hp as <-].
  destruct (put_map_spec m j (Hm m eq_refl) Hp) as (ms & -> & _ & Hg).
  change (sanitize (JObj ms)) with (JObj (sanitize_member <$> ms)). cbn [get_nil_map]. rewrite Hr. cbn [from_option]. by rewrite Hg.
Qed.

Lemma written_map m j : map_ok m → put_map put m = Some j → written (S n) j.
Proof. intros Hm Hp. by destruct (put_map_spec m j Hm Hp) as (ms & -> & ? & _). Qed.

Lemma written_nil_map o j :
  (∀ m, o = Some m → map_ok m) → put_nil_map put o = Some j → written (S n) j.
Proof.
  intros Hm Hp. destruct o as [m|]; [by apply (written_map m); [apply Hm|]|]. injection Hp as <-. split; [done|cbn; lia].
Qed.
End maps.

Lemma get_strings_put {M} get set (r : M) l j :
  put_strings l = Some j → Forall valid_utf8 l → get_strings get set (sanitize j) r = Some (set l r).
Proof.
  intros [= <-] Hl. cbn [sanitize get_strings]. rewrite <- list_fmap_compose.
  assert (∀ old, get_texts old ((sanitize ∘ (fun s => JStr s (plain_text s))) <$> l) = Some l) as Hg.
  { induction Hl as [|s l Hs _ IH]; intros old; [done|]. rewrite fmap_cons. cbn [get_texts compose sanitize].
    rewrite IH, to_valid_id by done. done. }
  by rewrite Hg.
Qed.

Lemma written_strings l j : put_strings l = Some j → written 1 j.
Proof. intros [= <-]. apply written_arr, Forall_fmap, Forall_true. by intros. Qed.

(** ** Records read back *)

Section round_trip.
Context {F : Type} `{Num F} `{FloatTextLaws F} (parse : TimeParser).

Definition int64 (z : Z) : Prop := - 2 ^ 63 <= z < 2 ^ 63.

(** The instant is the one its text names, to the nanosecond and with its zone. *)
Definition time_ok (t : Time) : Prop := parse (FormatRFC3339Nano t) = Some t.

Definition flex_ok (s : FlexibilitySignal F) : Prop :=
  int64 (sig_Type s) ∧ int64 (sig_Duration s) ∧ time_ok (Timestamp s).

Record result_ok (r : Result F) : Prop := {
  ro_assignments : map_ok (fun _ => True) (lr_Assignments r);
  ro_fallback m : lr_FallbackAssignments r = Some m → map_ok (fun _ => True) m;
  ro_errors : map_ok valid_utf8 (lr_Errors r);
  ro_acknowledged : map_ok (fun _ => True) (lr_Acknowledged r);
  ro_signal : flex_ok (lr_Signal r);
  ro_scores : map_ok (fun _ => True) (lr_Scores r)
}.

(** The strings are UTF-8, the integers have 64 bits and the timestamps read
    back. *)
Record record_ok (r : LogRecord F) : Prop := {
  rk_timestamp : time_ok (log_Timestamp r);
  rk_signal : flex_ok (log_Signal r);
  rk_vehicles : Forall valid_utf8 (log_VehiclesSelected r);
  rk_response : result_ok (log_Response r)
}.

Lemma get_int64_put {M} set z j (m : M) :
  put_int z = Some j → int64 z → get_int64 set (sanitize j) m = Some (set z m).
Proof. intros [= <-] Hz. cbn [sanitize get_int64]. by rewrite int_text_parse. Qed.

Lemma get_float_put {M} (set : F → M → M) x j m :
  put_float x = Some j → get_float set (sanitize j) m = Some (set x m).
Proof.
  unfold put_float. destruct (finite x) eqn:Hx; [|done]. intros [= <-]. by apply get_float_written.
Qed.

Lemma written_int z j : put_int z = Some j → written 0 j.
Proof. intros [= <-]. split; [apply int_text_number|done]. Qed.

Lemma written_float (x : F) j : put_float x = Some j → written 0 j.
Proof. intros Hj. by apply (faithful_float n0 x j I). Qed.

Lemma written_time t j : put_time t = Some j → written 0 j.
Proof. unfold put_time. destruct (strict_time t); [|done]. by intros [= <-]. Qed.

(** Reads the next member, by the lemma for its value. *)
Ltac fill_next :=
  erewrite fill_store; [|vm_compute; reflexivity|reflexivity];
  first
    [erewrite get_int64_put by eassumption
    |erewrite get_float_put by eassumption
    |erewrite get_time_put by eassumption
    |erewrite get_strings_put by eassumption
    |erewrite get_map_put by first [eassumption|reflexivity|apply faithful_float|apply faithful_bool|apply faithful_string]
    |erewrite get_nil_map_put by first [eassumption|reflexivity|apply faithful_float]];
  cbn [mbind option_bind].

Lemma put_signal_spec s j :
  flex_ok s → put_signal s = Some j →
  written 1 j ∧ ∀ s0, fill_struct (flex_fields parse) s0 (sanitize j) = Some s.
Proof.
  intros (Hty & Hdu & Hti) Hp. unfold put_signal in Hp. destruct (put_struct _) as [ms|] eqn:Hs; [|done].
  injection Hp as <-. fields Hs. split.
  - apply written_obj. repeat apply Forall_cons_2; cbn [snd];
      eauto using written_int, written_float, written_time.
  - intros s0. cbn [sanitize fill_struct]. fold sanitize_member. cbn [fmap list_fmap].
    do 4 fill_next. by destruct s.
Qed.

Lemma get_signal_put {M} get set (m : M) s j :
  put_signal s = Some j → flex_ok s →
  get_struct (flex_fields parse) get set (sanitize j) m = Some (set s m).
Proof. intros Hp Hs. unfold get_struct. by rewrite (proj2 (put_signal_spec s j Hs Hp)). Qed.

Lemma put_result_spec r j :
  result_ok r → put_result r = Some j →
  written 2 j ∧ fill_struct (result_fields parse) (log_Response zero_record) (sanitize j) = Some r.
Proof.
  intros [Has Hfa Her Hac Hsi Hsc] Hp. unfold put_result in Hp. destruct (put_struct _) as [ms|] eqn:Hs; [|done].
  injection Hp as <-. fields Hs. split.
  - apply written_obj. repeat apply Forall_cons_2; cbn [snd].
    + eapply written_map; [apply (faithful_float n0)|exact Has|done].
    + eapply written_nil_map; [apply (faithful_float n0)|exact Hfa|done].
    + eapply written_map; [apply faithful_string|exact Her|done].
    + eapply written_map; [apply faithful_bool|exact Hac|done].
    + by eapply put_signal_spec.
    + eapply written_le; [|by eapply written_float]. lia.
    + eapply written_map; [apply (faithful_float n0)|exact Hsc|done].
    + constructor.
  - cbn [sanitize fill_struct]. fold sanitize_member. cbn [fmap list_fmap].
    do 4 fill_next. erewrite fill_store; [|vm_compute; reflexivity|reflexivity].
    erewrite get_signal_put by eassumption. cbn [mbind option_bind]. do 2 fill_next. by destruct r.
Qed.
(** The members of a record's text. *)
Lemma record_text_inv r t :
  record_ok r → record_text r = Some t →
  ∃ ms, t = json_text (JObj ms) ∧ written 3 (JObj ms) ∧
    fill_members (record_fields parse) (sanitize_member <$> ms) zero_record = Some r.
Proof.
  intros [Hti Hsi Hve Hre] Hp. unfold record_text, Marshal in Hp.
  apply bind_Some_inv in Hp as (ms & Hs & [= <-]). fields Hs. eexists. split; [done|]. split.
  - apply written_obj. repeat apply Forall_cons_2; cbn [snd].
    + eapply written_le; [|by eapply written_time]. lia.
    + eapply written_le; [|by eapply put_signal_spec]. lia.
    + eapply written_le; [|by eapply written_float]. lia.
    + eapply written_le; [|by eapply written_strings]. lia.
    + by eapply put_result_spec.
    + constructor.
  - cbn [fmap list_fmap]. fill_next.
    erewrite fill_store; [|vm_compute; reflexivity|reflexivity].
    erewrite get_signal_put by eassumption. cbn [mbind option_bind]. do 2 fill_next.
    erewrite fill_store; [|vm_compute; reflexivity|reflexivity]. unfold get_struct.
    match goal with |- context [fill_struct _ ?m _] => change m with (log_Response (F := F) zero_record) end.
    erewrite (proj2 (put_result_spec _ _ Hre ltac:(eassumption))). by destruct r.
Qed.

(** A record that is encoded is decoded as it was. *)
Lemma record_round_trip r t :
  record_ok r → record_text r = Some t → decode_record parse t = Some r.
Proof.
  intros Hok Ht. destruct (record_text_inv r t Hok Ht) as (ms & -> & [Hn Hd] & Hf).
  unfold decode_record. rewrite Unmarshal_object; [exact Hf|by apply numbers_ok_obj|].
  etrans; [exact Hd|]. apply Nat.leb_le. reflexivity.
Qed.

(** ** Lines *)

Definition control_free (s : string) : Prop :=
  Forall (fun a => (32 <= code a)%N) (String.list_ascii_of_string s).

Lemma control_free_app s t : control_free s → control_free t → control_free (s +:+ t).
Proof.
  unfold control_free. intros Hs Ht. induction s as [|a s IH]; [done|]. rewrite string_cons_app. cbn in *.
  apply Forall_cons in Hs as [Ha Hs]. constructor; [done|]. by apply IH.
Qed.

Lemma rune_control_free r : printable r = true → control_free (rune_bytes r).
Proof.
  unfold printable, control_free. intros [Hv Hp]%andb_true_iff.
  assert (∀ k a b, second_ok k a b = true → (32 <= code a)%N ∧ (32 <= code b)%N) as Hsec.
  { intros k a b Hk. pose proof (second_ok_inv k a b Hk) as [Ha _]. split; [lia|]. unfold second_ok, lead in Hk.
    repeat case_match; try discriminate; simplify_eq; rewrite ?andb_true_iff, ?N.leb_le in Hk; lia. }
  assert (∀ a, continuation a = true → (32 <= code a)%N) as Hcon.
  { unfold continuation. intros a [Ha _]%andb_true_iff. apply N.leb_le in Ha. lia. }
  destruct r as [a|a b|a b c|a b c d|a]; cbn [valid_rune rune_bytes] in *; [..|done].
  - repeat constructor. by apply N.leb_le.
  - apply Hsec in Hv as [??]. by repeat constructor.
  - apply andb_true_iff in Hv as [[??]%Hsec ?%Hcon]. by repeat constructor.
  - apply andb_true_iff in Hv as [[[??]%Hsec ?%Hcon]%andb_true_iff ?%Hcon]. by repeat constructor.
Qed.

Lemma json_text_control_free j : numbers_ok j → control_free (json_text j).
Proof.
  intros Hj. unfold json_text. induction (render_printable j Hj) as [|r l Hr _ IH]; [constructor|].
  cbn [flat foldr]. apply control_free_app; [by apply rune_control_free|exact IH].
Qed.

Lemma raw_lines_line cur s file :
  control_free s → raw_lines cur (s +:+ String "010" file) = (cur +:+ s) :: raw_lines "" file.
Proof.
  unfold control_free. revert cur. induction s as [|a s IH]; intros cur Hs.
  - change ("" +:+ String "010" file) with (String "010" file). cbn [raw_lines].
    by rewrite bool_decide_eq_true_2, string_app_nil.
  - cbn in Hs. apply Forall_cons in Hs as [Ha Hs]. rewrite string_cons_app. cbn [raw_lines].
    rewrite bool_decide_eq_false_2 by (intros ->; cbn in Ha; lia). by rewrite IH, string_snoc.
Qed.

Lemma drop_cr_line s : control_free s → drop_cr s = s.
Proof.
  unfold control_free. induction s as [|a s IH]; [done|]. intros [Ha Hs]%Forall_cons. cbn [drop_cr].
  destruct s as [|b s]; [|f_equal; by apply IH].
  rewrite bool_decide_eq_false_2; [done|]. intros ->. cbn in Ha. lia.
Qed.
(** ** The file *)

(** The records appended one after the other, [None] once one does not encode. *)
Fixpoint append_records (file : string) (rs : list (LogRecord F)) : option string :=
  match rs with
  | [] => Some file
  | r :: rs => file ← append_bytes file r; append_records file rs
  end.

(** The same on the lines of [DispatchLog], with the lengths of the texts. *)
Fixpoint append_lines (file : list (log_line F)) (rs : list (LogRecord F)) : option (list (log_line F)) :=
  match rs with
  | [] => Some file
  | r :: rs =>
    file ← JSONLAppend file ((fun t => Z.of_nat (String.length t)) <$> record_text r) r; append_lines file rs
  end.

(** A file of whole lines: what is appended starts a new one. *)
Definition whole (file : string) : Prop :=
  ∀ more, raw_lines "" (file +:+ more) = raw_lines "" file ++ raw_lines "" more.

Lemma record_text_control_free r t : record_ok r → record_text r = Some t → control_free t.
Proof.
  intros Hok Ht. destruct (record_text_inv r t Hok Ht) as (ms & -> & [Hn _] & _).
  by apply json_text_control_free.
Qed.

(** Appending a record appends its line. *)
Lemma append_bytes_spec file r t :
  record_ok r → record_text r = Some t → whole file →
  let file' := file +:+ t +:+ String "010" "" in
  whole file' ∧
  scanned_lines parse file' = scanned_lines parse file ++ [MkLine (Z.of_nat (String.length t)) (Some r)].
Proof.
  intros Hok Ht Hw. cbn zeta. pose proof (record_text_control_free r t Hok Ht) as Hc. split.
  - intros more. rewrite !string_app_assoc, !Hw, <- app_assoc. f_equal. rewrite string_cons_app.
    rewrite !raw_lines_line by done. done.
  - unfold scanned_lines. rewrite Hw, raw_lines_line, fmap_app by done. f_equal.
    change ("" +:+ t) with t. change (raw_lines "" "") with (@nil string). cbn [fmap list_fmap].
    by rewrite drop_cr_line, (record_round_trip r t).
Qed.

Lemma append_records_spec file rs :
  Forall record_ok rs → whole file →
  append_lines (scanned_lines parse file) rs = scanned_lines parse <$> append_records file rs.
Proof.
  intros Hrs. revert file. induction Hrs as [|r rs Hr _ IH]; intros file Hw; [done|].
  cbn [append_lines append_records]. unfold append_bytes. destruct (record_text r) as [t|] eqn:Ht; [|done].
  cbn [fmap option_fmap option_map JSONLAppend mbind option_bind].
  destruct (append_bytes_spec file r t Hr Ht Hw) as [Hw' Hs]. rewrite <- Hs. by apply IH.
Qed.

(** C30. The log file, byte for byte, is the list of lines the stores are modelled
    on: appending records writes their lines or fails at the first that has no
    text, scanning the bytes gives the lines back, and a query of the bytes
    returns exactly the matching records, in the order in which they were
    appended, while every line is shorter than the scanner's buffer. *)
Theorem log_bytes_refine (rs : list (LogRecord F)) q (Hok : Forall record_ok rs) :
  append_lines [] rs = scanned_lines parse <$> append_records "" rs ∧
  ∀ file, append_records "" rs = Some file →
    (∀ r t, r ∈ rs → record_text r = Some t → Z.of_nat (String.length t) < max_token) →
    JSONLQuery (scanned_lines parse file) q = Some (List.filter (line_matches q) rs).
Proof.
  assert (append_lines [] rs = scanned_lines parse <$> append_records "" rs) as Hlines
    by (by apply (append_records_spec "")).
  split; [done|]. intros file Hfile Hshort. rewrite Hfile in Hlines.
  assert (∀ acc lines, append_lines acc rs = Some lines →
    ∃ recs, recs.*2 = rs ∧ Forall (fun x => x.1 < max_token) recs ∧
      lines = acc ++ ((fun '(n, r) => MkLine n (Some r)) <$> recs)) as Hrecs.
  { clear -Hshort. induction rs as [|r rs IH]; intros acc lines Ha.
    { injection Ha as <-. exists []. rewrite app_nil_r. by split_and!; [|constructor|]. }
    cbn [append_lines] in Ha. destruct (record_text r) as [t|] eqn:Ht; [|done].
    cbn [fmap option_fmap option_map JSONLAppend mbind option_bind] in Ha.
    apply IH in Ha as (recs & <- & Hs & ->); [|intros; eapply Hshort; [by right|done]].
    exists ((Z.of_nat (String.length t), r) :: recs). rewrite <- app_assoc.
    split_and!; [done| |done]. constructor; [|done]. by eapply Hshort; [left|]. }
  destruct (Hrecs [] _ Hlines) as (recs & Hrs & Hs & Heq). rewrite Heq, <- Hrs. cbn [app].
  apply JSONLQuery_short; [apply file_of_spec|done].
Qed.
End round_trip.
