(* ===== verification/Simulator.v ===== *)
(** * The vehicle simulator

    Models [simulator/battery.go], [simulator/ack_strategy.go] and the state of
    a simulated vehicle in [simulator/vehicle.go]: the power orders, the
    workers that acknowledge them, the battery loop, the availability of its
    connection and what it publishes and records.  [currentPower], the battery
    and the client are guarded by one lock; each handler below is one locked
    section with its effects.  A call on a nil client and a send on a closed
    channel are panics ([None]).  Random draws, clocks and the outcome of a
    publish are arguments. *)

From S2P Require Import Prelude Num GoTime Model PowerMap.
From stdpp Require Import base gmap strings list.
From Stdlib Require Import ZArith QArith Qabs Qminmax Lqa Lia Floats.SpecFloat.

#[local] Open Scope Z_scope.

(** ** [Battery] *)

Record Battery (F : Type) := MkBattery {
  bt_CapacityKWh : F;
  bt_Soc : F;
  bt_ChargeRateKW : F;
  bt_DischargeRateKW : F
}.
Arguments MkBattery {F}.
Arguments bt_CapacityKWh {F}.
Arguments bt_Soc {F}.
Arguments bt_ChargeRateKW {F}.
Arguments bt_DischargeRateKW {F}.

Section battery.
Context {F : Type} `{Num F}.
#[local] Open Scope num_scope.

Definition set_Soc (s : F) (b : Battery F) : Battery F :=
  MkBattery (bt_CapacityKWh b) s (bt_ChargeRateKW b) (bt_DischargeRateKW b).

(** The new SoC before the final clamp, and the power applied. *)
Definition battery_flow (b : Battery F) (powerKW hours : F) : F * F :=
  if powerKW >? n0 then
    let actual := if powerKW >? bt_DischargeRateKW b then bt_DischargeRateKW b else powerKW in
    let maxEnergy := bt_Soc b * bt_CapacityKWh b in
    let needed := actual * hours in
    let '(needed, actual) :=
      if needed >? maxEnergy
      then (maxEnergy, if hours >? n0 then maxEnergy / hours else actual)
      else (needed, actual) in
    (bt_Soc b - needed / bt_CapacityKWh b, actual)
  else if powerKW <? n0 then
    let p := nabs powerKW in
    let p := if p >? bt_ChargeRateKW b then bt_ChargeRateKW b else p in
    let avail := (n1 - bt_Soc b) * bt_CapacityKWh b in
    let needed := p * hours in
    let '(needed, p) :=
      if needed >? avail
      then (avail, if hours >? n0 then avail / hours else p)
      else (needed, p) in
    (bt_Soc b + needed / bt_CapacityKWh b, - p)
  else (bt_Soc b, powerKW).

Definition ApplyPower (b : Battery F) (powerKW : F) (dt : Duration) : Battery F * F :=
  let hours := Hours dt in
  if hours <=? n0 then (b, n0) else
  let '(soc, actual) := battery_flow b powerKW hours in
  let soc := if soc <? n0 then n0 else soc in
  let soc := if soc >? n1 then n1 else soc in
  (set_Soc soc b, actual).
End battery.

(** In every arithmetic the SoC never leaves [0, 1]. *)
Lemma ApplyPower_soc {F} `{NumOrder F} (b : Battery F) p dt :
  nltb (bt_Soc b) n0 = false → nltb n1 (bt_Soc b) = false →
  nltb (bt_Soc (ApplyPower b p dt).1) n0 = false ∧ nltb n1 (bt_Soc (ApplyPower b p dt).1) = false.
Proof.
  intros Hs0 Hs1. unfold ApplyPower. destruct (nleb _ _); [done|].
  destruct (battery_flow b p (Hours dt)) as [soc actual]. cbn [fst set_Soc bt_Soc].
  assert (nltb (n1 : F) n0 = false) as H10 by auto with v2g.
  destruct (nltb soc n0) eqn:Hlt; [rewrite H10, nltb_irrefl; auto|].
  destruct (nltb n1 soc) eqn:Hgt; [rewrite H10, nltb_irrefl; auto|auto].
Qed.

(** A battery with physical parameters. *)
Definition battery_wf (b : Battery Q) : Prop :=
  (0 < bt_CapacityKWh b ∧ 0 <= bt_Soc b <= 1 ∧ 0 <= bt_ChargeRateKW b ∧ 0 <= bt_DischargeRateKW b)%Q.

Section exact_battery.
#[local] Open Scope Q_scope.

Lemma battery_flow_spec (b : Battery Q) p h soc actual :
  battery_wf b → 0 < h → battery_flow b p h = (soc, actual) →
  0 <= soc <= 1 ∧ soc * bt_CapacityKWh b == bt_Soc b * bt_CapacityKWh b - actual * h ∧
  (0 <= p → 0 <= actual <= p ∧ actual <= bt_DischargeRateKW b) ∧
  (p <= 0 → p <= actual <= 0 ∧ - bt_ChargeRateKW b <= actual).
Proof.
  intros (Hc & Hs & Hcr & Hdr) Hh. unfold battery_flow. num_Q.
  set (C := bt_CapacityKWh b) in *. set (S := bt_Soc b) in *.
  assert (∀ x, x / C * C == x) as HC by (intros; field; lra).
  assert (∀ x, x / h * h == x) as Hdiv by (intros; field; lra).
  destruct (Qltb_spec (0 # 1) h) as [_|?]; [|lra].
  destruct (Qltb_spec (0 # 1) p) as [Hp|Hp].
  - set (a := if Qltb (bt_DischargeRateKW b) p then bt_DischargeRateKW b else p).
    assert (0 <= a <= p ∧ a <= bt_DischargeRateKW b) as [Ha Ha'] by (unfold a; q_case; lra).
    assert (0 <= S * C) as HSC by (apply Qmult_le_0_compat; lra).
    assert (0 <= a * h) as Hah by (apply Qmult_le_0_compat; lra).
    destruct (Qltb_spec (S * C) (a * h)) as [Hlt|Hlt]; intros [= <- <-].
    + pose proof (HC (S * C)). pose proof (Hdiv (S * C)).
      assert (S * C / C == S) as HSe by (field; lra).
      assert (0 <= S * C / h) by (apply Qle_shift_div_l; lra).
      assert (S * C / h <= a) by (apply Qle_shift_div_r; lra).
      split_and!; try lra.
    + pose proof (HC (a * h)).
      assert (0 <= a * h / C) by (apply Qle_shift_div_l; lra).
      assert (a * h / C <= S) by (apply Qle_shift_div_r; lra).
      split_and!; try lra.
  - destruct (Qltb_spec p (0 # 1)) as [Hn|Hn]; 
    [|intros [= <- <-]; assert (p * h == 0) by (assert (p == 0) as -> by lra; lra); split_and!; lra].
    assert (Qabs p == - p) as Habs by (apply Qabs_neg; lra).
    set (a := if Qltb (bt_ChargeRateKW b) (Qabs p) then bt_ChargeRateKW b else Qabs p).
    assert (0 <= a <= - p ∧ a <= bt_ChargeRateKW b) as [Ha Ha'] by (unfold a; q_case; lra).
    assert (0 <= (1 - S) * C) as HSC by (apply Qmult_le_0_compat; lra).
    assert (0 <= a * h) as Hah by (apply Qmult_le_0_compat; lra).
    change (1 # 1) with 1.
    destruct (Qltb_spec ((1 - S) * C) (a * h)) as [Hlt|Hlt]; intros [= <- <-].
    + pose proof (HC ((1 - S) * C)). pose proof (Hdiv ((1 - S) * C)).
      assert ((1 - S) * C / C == 1 - S) as HSe by (field; lra).
      assert (0 <= (1 - S) * C / h) by (apply Qle_shift_div_l; lra).
      assert ((1 - S) * C / h <= a) by (apply Qle_shift_div_r; lra).
      split_and!; try lra.
    + pose proof (HC (a * h)).
      assert (0 <= a * h / C) by (apply Qle_shift_div_l; lra).
      assert (a * h / C <= 1 - S) by (apply Qle_shift_div_r; lra).
      split_and!; try lra.
Qed.

Lemma ApplyPower_spec (b : Battery Q) (p : Q) (dt : Duration) b' actual :
  battery_wf b → (0 < dt)%Z → ApplyPower b p dt = (b', actual) →
  battery_wf b' ∧
  bt_Soc b' * bt_CapacityKWh b' == bt_Soc b * bt_CapacityKWh b - actual * Hours dt ∧
  (0 <= p → 0 <= actual <= p ∧ actual <= bt_DischargeRateKW b) ∧
  (p <= 0 → p <= actual <= 0 ∧ - bt_ChargeRateKW b <= actual).
Proof.
  intros Hwf Hdt. unfold ApplyPower. pose proof (Hours_Q_pos _ Hdt) as Hh. num_Q.
  destruct (Qleb_spec (Hours dt) (0 # 1)); [lra|].
  destruct (battery_flow b p (Hours dt)) as [soc a] eqn:Hf. intros [= <- <-].
  apply battery_flow_spec in Hf as (Hsoc & Hen & Hpos & Hneg); [|done..].
  destruct (Qltb_spec soc (0 # 1)); [lra|]. destruct (Qltb_spec (1 # 1) soc); [lra|].
  destruct Hwf as (? & ? & ? & ?). split_and!; try done; cbn; lra.
Qed.

(** C40. The battery conserves energy over exact arithmetic: in a positive time
    step its energy changes by exactly the power it reports times the time;
    that power has the direction of the request, at most its magnitude and at
    most the charge or discharge rate; and the SoC stays in [0, 1]. *)
Theorem ApplyPower_energy (b : Battery Q) (p : Q) (dt : Duration)
    (Hwf : battery_wf b) (Hdt : (0 < dt)%Z) :
  let '(b', actual) := ApplyPower b p dt in
  battery_wf b' ∧
  bt_Soc b' * bt_CapacityKWh b' == bt_Soc b * bt_CapacityKWh b - actual * Hours dt ∧
  (0 <= p → 0 <= actual <= p ∧ actual <= bt_DischargeRateKW b) ∧
  (p <= 0 → p <= actual <= 0 ∧ - bt_ChargeRateKW b <= actual).
Proof. destruct (ApplyPower b p dt) as [b' actual] eqn:Ha. by apply ApplyPower_spec. Qed.
End exact_battery.

(** ** [SimulatedVehicle] *)

(** A queued command, and the queue of capacity 50. *)
Record command (F : Type) := MkCommand { cmd_id : string; cmd_power : F; cmd_received : Time }.
Arguments MkCommand {F}.
Arguments cmd_id {F}.
Arguments cmd_power {F}.
Arguments cmd_received {F}.

Definition ack_queue_cap : nat := 50.

(** The state payload of [publishTelemetry] and [publishAvailability]. *)
Record StatePayload (F : Type) := MkStatePayload {
  sp_VehicleID : string;
  sp_SoC : F;
  sp_Available : bool;
  sp_Charging : bool;
  sp_PowerKW : F;
  sp_TS : Z
}.
Arguments MkStatePayload {F}.
Arguments sp_VehicleID {F}.
Arguments sp_SoC {F}.
Arguments sp_Available {F}.
Arguments sp_Charging {F}.
Arguments sp_PowerKW {F}.
Arguments sp_TS {F}.

(** The acknowledgment strategies. *)
Inductive AckStrategy (F : Type) :=
| AutoAck (delay : Duration)
| RandomAck (delay : Duration) (dropRate : F).
Arguments AutoAck {F}.
Arguments RandomAck {F}.

(** The optional interfaces [v.Metrics] implements. *)
Record SimCaps := MkSimCaps { sc_Order : bool; sc_Ack : bool; sc_State : bool }.

(** What a handler does to the outside: a state payload, the answer to a
    discovery, an acknowledgment on [vehicle/<id>/ack], and the records handed
    to [v.Metrics]. *)
Inductive sim_effect (F : Type) :=
| SState (p : StatePayload F)
| SDiscovery (v : Vehicle F)
| SAck (commandID : string)
| SOrderEvent (orderID : string) (powerKW : F) (time : Time)
| SStateEvent (soc : F) (time : Time)
| SAckEvent (orderID : string) (acknowledged : bool) (latency : Duration) (time : Time)
| SResult (powerKW : F) (received : Time) (acknowledged : bool) (time : Time).
Arguments SState {F}.
Arguments SDiscovery {F}.
Arguments SAck {F}.
Arguments SOrderEvent {F}.
Arguments SStateEvent {F}.
Arguments SAckEvent {F}.
Arguments SResult {F}.

(** [sv_client] is [false] for a nil client, [sv_ackCh] is [None] when closed. *)
Record SimulatedVehicle (F : Type) := MkSimVehicle {
  sv_ID : string;
  sv_IsV2G : bool;
  sv_MaxPower : F;
  sv_Battery : Battery F;
  sv_TelemetryPush : bool;
  sv_DisconnectRate : F;
  sv_Availability : list F;
  sv_currentPower : F;
  sv_client : bool;
  sv_ackCh : option (list (command F));
  sv_Strategy : AckStrategy F;
  sv_Metrics : SimCaps
}.
Arguments MkSimVehicle {F}.
Arguments sv_ID {F}.
Arguments sv_IsV2G {F}.
Arguments sv_MaxPower {F}.
Arguments sv_Battery {F}.
Arguments sv_TelemetryPush {F}.
Arguments sv_DisconnectRate {F}.
Arguments sv_Availability {F}.
Arguments sv_currentPower {F}.
Arguments sv_client {F}.
Arguments sv_ackCh {F}.
Arguments sv_Strategy {F}.
Arguments sv_Metrics {F}.

Section vehicle.
Context {F : Type} `{Num F}.
#[local] Open Scope num_scope.
Implicit Types v : SimulatedVehicle F.

Definition set_power (p : F) (b : Battery F) v : SimulatedVehicle F :=
  MkSimVehicle (sv_ID v) (sv_IsV2G v) (sv_MaxPower v) b (sv_TelemetryPush v)
    (sv_DisconnectRate v) (sv_Availability v) p (sv_client v) (sv_ackCh v)
    (sv_Strategy v) (sv_Metrics v).

Definition set_client (c : bool) v : SimulatedVehicle F :=
  MkSimVehicle (sv_ID v) (sv_IsV2G v) (sv_MaxPower v) (sv_Battery v) (sv_TelemetryPush v)
    (sv_DisconnectRate v) (sv_Availability v) (sv_currentPower v) c (sv_ackCh v)
    (sv_Strategy v) (sv_Metrics v).

Definition set_ackCh (q : option (list (command F))) v : SimulatedVehicle F :=
  MkSimVehicle (sv_ID v) (sv_IsV2G v) (sv_MaxPower v) (sv_Battery v) (sv_TelemetryPush v)
    (sv_DisconnectRate v) (sv_Availability v) (sv_currentPower v) (sv_client v) q
    (sv_Strategy v) (sv_Metrics v).

(** The new [currentPower], which is also the value returned. *)
Definition order_power v (p : F) : F :=
  if p >? n0 then
    if p >? sv_MaxPower v then sv_currentPower v
    else if p >? bt_DischargeRateKW (sv_Battery v) then sv_currentPower v
    else if bt_Soc (sv_Battery v) <=? n0 then sv_currentPower v
    else p
  else if p <? n0 then
    let ap := - p in
    if ap >? sv_MaxPower v then sv_currentPower v
    else if ap >? bt_ChargeRateKW (sv_Battery v) then sv_currentPower v
    else if bt_Soc (sv_Battery v) >=? n1 then sv_currentPower v
    else p
  else p.

Definition applyPowerOrder v (p : F) : SimulatedVehicle F * F :=
  let q := order_power v p in (set_power q (sv_Battery v) v, q).

(** [v.ackCh <- cmd] in a [select] with a [default]. *)
Definition enqueue_ack v (c : command F) : option (SimulatedVehicle F) :=
  match sv_ackCh v with
  | None => None
  | Some q => if Nat.ltb (length q) ack_queue_cap then Some (set_ackCh (Some (q ++ [c])) v) else Some v
  end.

(** The handler of a command that decodes. *)
Definition onCommand v (commandID : string) (powerKW : F) (now : Time) :
    option (SimulatedVehicle F * list (sim_effect F)) :=
  let '(v, allowed) := applyPowerOrder v powerKW in
  let recorded := if sc_Order (sv_Metrics v) then [SOrderEvent commandID allowed now] else [] in
  v ← enqueue_ack v (MkCommand commandID allowed now);
  Some (v, recorded).

(** [publishAck]: [published] says whether the token completes in time and
    without an error. *)
Definition publishAck v (commandID : string) (published : bool) : option (bool * list (sim_effect F)) :=
  if sv_client v then Some (published, if published then [SAck commandID] else []) else None.

(** [woke] says whether the delay elapses before the context is done. *)
Definition delayed_ack v (delay : Duration) (woke : bool) (commandID : string) (published : bool) :
    option (bool * list (sim_effect F)) :=
  if (delay >? 0)%Z && negb woke then Some (false, []) else publishAck v commandID published.

(** [Strategy.Ack]; [r] is the draw of [rng.Float64]. *)
Definition Ack v (r : F) (woke : bool) (commandID : string) (published : bool) :
    option (bool * list (sim_effect F)) :=
  match sv_Strategy v with
  | AutoAck delay => delayed_ack v delay woke commandID published
  | RandomAck delay dropRate =>
    if (dropRate >? n0) && (r <? dropRate) then Some (false, [])
    else delayed_ack v delay woke commandID published
  end.

(** One round of a worker: the next command of the queue; nothing when the
    queue is empty or closed. *)
Definition worker v (r : F) (woke published : bool) (now : Time) :
    option (SimulatedVehicle F * list (sim_effect F)) :=
  match sv_ackCh v with
  | Some (c :: q) =>
    '(sent, out) ← Ack v r woke (cmd_id c) published;
    let acked := if sc_Ack (sv_Metrics v)
                 then [SAckEvent (cmd_id c) sent (Sub now (cmd_received c)) now] else [] in
    Some (set_ackCh (Some q) v,
          out ++ acked ++ [SResult (cmd_power c) (cmd_received c) sent now])
  | _ => Some (v, [])
  end.

(** The answer to the magic word. *)
Definition onDiscovery v (payload : string) : option (list (sim_effect F)) :=
  if bool_decide (payload = "hello") then
    if sv_client v then
      Some [SDiscovery (MkVehicle (sv_ID v) (bt_Soc (sv_Battery v)) (sv_IsV2G v) (sv_MaxPower v)
              (bt_CapacityKWh (sv_Battery v)) true false false time_zero n0
              (MkUserProfile time_zero []) ∅ "" n0 n0)]
    else None
  else Some [].

Definition state_payload v (available : bool) (now : Time) : StatePayload F :=
  MkStatePayload (sv_ID v) (bt_Soc (sv_Battery v)) available (sv_currentPower v >? n0)
    (sv_currentPower v) (Unix now).

(** Publishes through [v.client] without a check. *)
Definition publishTelemetry v (now : Time) : option (StatePayload F) :=
  if sv_client v then Some (state_payload v true now) else None.

(** Any message on the request topics. *)
Definition onTelemetryRequest v (payload : string) (now : Time) : option (StatePayload F) :=
  publishTelemetry v now.

(** Returns silently on a nil client. *)
Definition publishAvailability v (avail : bool) (now : Time) : option (StatePayload F) :=
  if sv_client v then Some (state_payload v avail now) else None.

(** One tick of the battery loop. *)
Definition batteryTick v (dt : Duration) (now : Time) :
    option (SimulatedVehicle F * list (sim_effect F)) :=
  let '(b, applied) := ApplyPower (sv_Battery v) (sv_currentPower v) dt in
  let v := set_power applied b v in
  let recorded := if sc_State (sv_Metrics v) then [SStateEvent (bt_Soc b) now] else [] in
  if sv_TelemetryPush v then
    p ← publishTelemetry v now; Some (v, recorded ++ [SState p])
  else Some (v, recorded).

(** The departure case of the availability loop. *)
Definition departureTick v (now : Time) : SimulatedVehicle F * list (sim_effect F) :=
  let v := set_client false v in
  (v, SState <$> option_list (publishAvailability v false now)).

(** The minute tick: [r1] and [r2] are the draws of [rng.Float64], [hour] the
    hour of the day, [connect] whether the new connection and its
    subscriptions succeed. *)
Definition handleAvailabilityTick v (r1 r2 : F) (hour : nat) (connect : bool) (now : Time) :
    SimulatedVehicle F * list (sim_effect F) :=
  if sv_client v then
    if (sv_DisconnectRate v >? n0) && (r1 <? sv_DisconnectRate v) then
      let v := set_client false v in
      (v, SState <$> option_list (publishAvailability v false now))
    else (v, [])
  else if r2 >=? default n0 (sv_Availability v !! hour) then (v, [])
  else if negb connect then (v, [])
  else
    let v := set_client true v in
    (v, SState <$> option_list (publishAvailability v true now)).

(** ** Reachable states *)

(** The steps of the simulated vehicle that its lock serialises; closing the
    queue is the shutdown of [Run]. *)
Inductive sim_step : SimulatedVehicle F → SimulatedVehicle F → Prop :=
| sim_order v id p now v' out : onCommand v id p now = Some (v', out) → sim_step v v'
| sim_battery v dt now v' out : batteryTick v dt now = Some (v', out) → sim_step v v'
| sim_depart v now : sim_step v (departureTick v now).1
| sim_minute v r1 r2 hour connect now :
    sim_step v (handleAvailabilityTick v r1 r2 hour connect now).1
| sim_worker v r woke published now v' out :
    worker v r woke published now = Some (v', out) → sim_step v v'
| sim_close v : sim_step v (set_ackCh None v).
End vehicle.

(** ** Limits of the simulated vehicle *)

Section exact_vehicle.
#[local] Open Scope Q_scope.
Implicit Types v : SimulatedVehicle Q.

Definition power_in_limits v : Prop :=
  - Qmin (sv_MaxPower v) (bt_ChargeRateKW (sv_Battery v)) <= sv_currentPower v <=
  Qmin (sv_MaxPower v) (bt_DischargeRateKW (sv_Battery v)).

Definition sim_ok v : Prop := battery_wf (sv_Battery v) ∧ 0 <= sv_MaxPower v ∧ power_in_limits v.

(** The parameters that never change. *)
Definition sim_params v : string * Q * Q * Q * Q :=
  (sv_ID v, sv_MaxPower v, bt_CapacityKWh (sv_Battery v), bt_ChargeRateKW (sv_Battery v),
   bt_DischargeRateKW (sv_Battery v)).

Lemma ApplyPower_params (b : Battery Q) p dt :
  bt_CapacityKWh (ApplyPower b p dt).1 = bt_CapacityKWh b ∧
  bt_ChargeRateKW (ApplyPower b p dt).1 = bt_ChargeRateKW b ∧
  bt_DischargeRateKW (ApplyPower b p dt).1 = bt_DischargeRateKW b.
Proof. unfold ApplyPower. destruct (nleb _ _); [done|]. by destruct (battery_flow _ _ _). Qed.

Lemma sim_ok_client c v : sim_ok v → sim_ok (set_client c v).
Proof. done. Qed.

Lemma sim_ok_ackCh q v : sim_ok v → sim_ok (set_ackCh q v).
Proof. done. Qed.

Lemma sim_ok_order v p : sim_ok v → sim_ok (applyPowerOrder v p).1.
Proof.
  intros (Hb & Hm & Hlim). pose proof Hb as (_ & _ & Hcr & Hdr).
  split; [done|]. split; [done|]. unfold power_in_limits in *.
  change (- Qmin (sv_MaxPower v) (bt_ChargeRateKW (sv_Battery v)) <= order_power v p <=
          Qmin (sv_MaxPower v) (bt_DischargeRateKW (sv_Battery v))).
  unfold order_power. num_Q.
  set (M := sv_MaxPower v) in *. set (c := sv_currentPower v) in *.
  set (C := bt_ChargeRateKW (sv_Battery v)) in *. set (D := bt_DischargeRateKW (sv_Battery v)) in *.
  assert (∀ x y z : Q, z <= x → z <= y → z <= Qmin x y) as Hmin by (intros; by apply Q.min_glb).
  assert (0 <= Qmin M C) by (apply Hmin; done). assert (0 <= Qmin M D) by (apply Hmin; done).
  repeat (q_case; try done); split; try lra.
  - apply Hmin; lra.
  - assert (- p <= Qmin M C) by (apply Hmin; lra). lra.
Qed.

Lemma sim_ok_battery v dt b' applied :
  sim_ok v → ApplyPower (sv_Battery v) (sv_currentPower v) dt = (b', applied) →
  sim_ok (set_power applied b' v).
Proof.
  intros (Hb & Hm & Hlim) Ha. pose proof Hb as (_ & _ & Hcr & Hdr).
  pose proof (ApplyPower_params (sv_Battery v) (sv_currentPower v) dt) as (_ & Hpc & Hpd).
  rewrite Ha in Hpc, Hpd. cbn [fst] in Hpc, Hpd. unfold power_in_limits in Hlim.
  assert (0 <= Qmin (sv_MaxPower v) (bt_ChargeRateKW (sv_Battery v))) by (by apply Q.min_glb).
  assert (0 <= Qmin (sv_MaxPower v) (bt_DischargeRateKW (sv_Battery v))) by (by apply Q.min_glb).
  destruct (Z.lt_ge_cases 0 dt) as [Hdt|Hdt].
  - apply ApplyPower_spec in Ha as (Hwf' & _ & Hpos & Hneg); [|done..].
    split; [done|]. split; [done|]. unfold power_in_limits. cbn [set_power sv_MaxPower sv_Battery sv_currentPower].
    rewrite Hpc, Hpd. destruct (Qlt_le_dec (sv_currentPower v) 0) as [Hn|Hn].
    + destruct (Hneg ltac:(lra)). lra.
    + destruct (Hpos ltac:(lra)). lra.
  - assert (Hours dt <= 0) as Hh.
    { rewrite Hours_Q. apply Qle_shift_div_r; [done|]. rewrite Qmult_0_l. change 0 with (inject_Z 0).
      by rewrite <- Zle_Qle. }
    unfold ApplyPower in Ha. num_Q. destruct (Qleb_spec (Hours dt) (0 # 1)); [|lra].
    injection Ha as <- <-. split; [done|]. split; [done|]. unfold power_in_limits.
    cbn [set_power sv_MaxPower sv_Battery sv_currentPower]. lra.
Qed.

Lemma sim_step_inv v v' : sim_ok v → sim_step v v' → sim_ok v' ∧ sim_params v' = sim_params v.
Proof.
  intros Hok Hst. destruct Hst as [v id p now v' out Hc|v dt now v' out Hb|v now|v r1 r2 hour c now
    |v r woke published now v' out Hw|v].
  - unfold onCommand in Hc. pose proof (sim_ok_order v p Hok) as Ho. cbn [applyPowerOrder] in Hc, Ho.
    unfold enqueue_ack in Hc. destruct (sv_ackCh _); [|done].
    destruct (Nat.ltb _ _); injection Hc as <- <-; done.
  - unfold batteryTick in Hb.
    pose proof (ApplyPower_params (sv_Battery v) (sv_currentPower v) dt) as (Hp0 & Hpc & Hpd).
    destruct (ApplyPower _ _ _) as [b applied] eqn:Ha. cbn [fst] in *.
    apply sim_ok_battery in Ha; [|done].
    assert (v' = set_power applied b v) as ->.
    { destruct (sv_TelemetryPush _); [destruct (publishTelemetry _ _); [|done]|]; by injection Hb as <- <-. }
    split; [done|]. unfold sim_params. cbn. by rewrite Hp0, Hpc, Hpd.
  - done.
  - unfold handleAvailabilityTick. destruct (sv_client v); [destruct (_ && _); done|].
    destruct (nleb _ _); [done|]. by destruct (negb c).
  - unfold worker in Hw. destruct (sv_ackCh v) as [[|c q]|]; [by injection Hw as <- <-| |by injection Hw as <- <-].
    destruct (Ack _ _ _ _ _) as [[sent acks]|]; [|done]. by injection Hw as <- <-.
  - done.
Qed.

Lemma sim_ok_reachable v0 v : sim_ok v0 → rtc sim_step v0 v → sim_ok v ∧ sim_params v = sim_params v0.
Proof.
  intros Hok. revert v. apply rtc_ind_r; [done|]. intros v1 v2 _ Hst [Hok1 Hp1].
  destruct (sim_step_inv _ _ Hok1 Hst) as [Hok2 Hp2]. split; [done|congruence].
Qed.

(** Whatever commands arrive and however the connection drops, the power a
    simulated vehicle runs at stays within its [MaxPower] and within the
    charge and discharge rates of its battery, the SoC stays in [0, 1], and
    its parameters do not change. *)
Theorem sim_limits v0 v (Hok : sim_ok v0) (Hreach : rtc sim_step v0 v) :
  sim_params v = sim_params v0 ∧ 0 <= bt_Soc (sv_Battery v) <= 1 ∧
  - Qmin (sv_MaxPower v) (bt_ChargeRateKW (sv_Battery v)) <= sv_currentPower v <=
    Qmin (sv_MaxPower v) (bt_DischargeRateKW (sv_Battery v)).
Proof.
  destruct (sim_ok_reachable v0 v Hok Hreach) as [(Hb & _ & Hlim) Hpar].
  split_and!; [done|apply Hb..|apply Hlim|apply Hlim].
Qed.
End exact_vehicle.

(** ** Panics *)

Section panics.
Context {F : Type} `{Num F}.

(** A vehicle that pushes telemetry and has no connection, after its departure
    or an unexpected drop, panics at the next tick of the battery loop:
    [publishTelemetry] calls [Publish] on a nil client.  And the departure
    itself is never announced, because the client is already nil. *)
Theorem telemetry_without_client (v : SimulatedVehicle F) dt now t
    (Hpush : sv_TelemetryPush v = true) :
  (departureTick v t).2 = [] ∧ batteryTick (departureTick v t).1 dt now = None.
Proof.
  split; [done|]. unfold batteryTick. cbn [departureTick fst].
  destruct (ApplyPower _ _ _) as [b applied]. cbn. by rewrite Hpush.
Qed.

(** A refused order is acknowledged: an order above [MaxPower] leaves the
    power of a connected vehicle as it is, but its command is queued all the
    same, and the worker of an [AutoAck] vehicle without delay acknowledges it
    as soon as the broker takes the message. *)
Theorem refused_order_acknowledged (v : SimulatedVehicle F) id p r woke now later
    (Hp : nltb n0 p = true) (Hmax : nltb (sv_MaxPower v) p = true)
    (Hclient : sv_client v = true) (Hqueue : sv_ackCh v = Some [])
    (Hauto : sv_Strategy v = AutoAck 0) :
  ∃ v1 out1 v2 out2,
    onCommand v id p now = Some (v1, out1) ∧ sv_currentPower v1 = sv_currentPower v ∧
    worker v1 r woke true later = Some (v2, out2) ∧
    SAck id ∈ out2 ∧ SResult (sv_currentPower v) now true later ∈ out2.
Proof.
  unfold onCommand, applyPowerOrder, order_power. rewrite Hp, Hmax.
  unfold enqueue_ack. cbn [sv_ackCh set_power]. rewrite Hqueue. cbn [length Nat.ltb Nat.leb].
  eexists _, _, _, _. split; [reflexivity|]. split; [reflexivity|]. cbn [fst snd].
  unfold worker, Ack, delayed_ack, publishAck. cbn. rewrite Hauto. cbn. rewrite Hclient. cbn.
  split; [reflexivity|]. split; [by left|]. right. apply elem_of_app. right. by left.
Qed.
End panics.

(** The published flag [charging] is inverted: over exact arithmetic, a vehicle
    that reports to be charging is one whose SoC does not rise in the next time
    step, and one that reports not to be charging is one whose SoC does not
    fall. *)
Theorem charging_flag_inverted (v : SimulatedVehicle Q) avail now p dt
    (Hwf : battery_wf (sv_Battery v)) (Hdt : 0 < dt)
    (Hpub : publishAvailability v avail now = Some p) :
  let b' := (ApplyPower (sv_Battery v) (sv_currentPower v) dt).1 in
  (sp_Charging p = true → (bt_Soc b' <= bt_Soc (sv_Battery v))%Q) ∧
  (sp_Charging p = false → (bt_Soc (sv_Battery v) <= bt_Soc b')%Q).
Proof.
  cbn zeta. unfold publishAvailability in Hpub. destruct (sv_client v); [|done]. injection Hpub as <-.
  cbn [state_payload sp_Charging]. num_Q.
  pose proof (ApplyPower_params (sv_Battery v) (sv_currentPower v) dt) as (Hcap & _).
  destruct (ApplyPower _ _ _) as [b' actual] eqn:Ha. cbn [fst] in *.
  apply ApplyPower_spec in Ha as (_ & Hen & Hpos & Hneg); [|done..]. rewrite Hcap in Hen.
  pose proof (Hours_Q_pos _ Hdt) as Hh. destruct Hwf as (Hc & _).
  split; intros Hch; q_bool; apply (Qmult_le_r _ _ _ Hc).
  - destruct (Hpos ltac:(lra)). assert (0 <= actual * Hours dt)%Q by (apply Qmult_le_0_compat; lra). lra.
  - destruct (Hneg ltac:(lra)). assert (0 <= (- actual) * Hours dt)%Q by (apply Qmult_le_0_compat; lra). lra.
Qed.
