(* ===== verification/Fleet.v ===== *)
(** * Setting up the simulator

    Models [simulator/config.go], [simulator/fleet.go], [simulator/mqtt_sim.go],
    the set-up part of [simulator/main.go] and the connection part of
    [SimulatedVehicle.Run]: from the command line to the vehicles of [Simulator]
    in their initial states.  Files are outside: reading and decoding one is an
    argument, as are the draws of the random generator, the RFC 3339 parser and
    the broker's answers.  [log.Fatalf] is an error of the model. *)

From S2P Require Import Prelude Num GoTime GoText Model PowerMap Simulator.
From stdpp Require Import base gmap strings list.
From Stdlib Require Import ZArith QArith Qminmax Lqa Lia.

#[local] Open Scope Z_scope.

(** [Config]; the settings of InfluxDB other than its URL and the switch for
    logging are left out. *)
Record SimConfig (F : Type) := MkSimConfig {
  fl_Broker : string;
  fl_Count : Z;
  fl_FleetSize : Z;
  fl_AckLatency : Duration;
  fl_DropRate : F;
  fl_DisconnectRate : F;
  fl_CapacityKWh : F;
  fl_ChargeRateKW : F;
  fl_DischargeRateKW : F;
  fl_MaxPower : F;
  fl_Interval : Duration;
  fl_TelemetryPush : bool;
  fl_TelemetryInterval : Duration;
  fl_TelemetryRequestTopic : string;
  fl_TelemetryResponsePrefix : string;
  fl_StateTopicPrefix : string;
  fl_CommuterPct : F;
  fl_AvailabilityFile : string;
  fl_ScheduleFile : string;
  fl_TemplateFile : string;
  fl_BatteryProfile : string;
  fl_TopicPrefix : string;
  fl_InfluxURL : string
}.
Arguments MkSimConfig {F}.
Arguments fl_Broker {F}.
Arguments fl_Count {F}.
Arguments fl_FleetSize {F}.
Arguments fl_AckLatency {F}.
Arguments fl_DropRate {F}.
Arguments fl_DisconnectRate {F}.
Arguments fl_CapacityKWh {F}.
Arguments fl_ChargeRateKW {F}.
Arguments fl_DischargeRateKW {F}.
Arguments fl_MaxPower {F}.
Arguments fl_Interval {F}.
Arguments fl_TelemetryPush {F}.
Arguments fl_TelemetryInterval {F}.
Arguments fl_TelemetryRequestTopic {F}.
Arguments fl_TelemetryResponsePrefix {F}.
Arguments fl_StateTopicPrefix {F}.
Arguments fl_CommuterPct {F}.
Arguments fl_AvailabilityFile {F}.
Arguments fl_ScheduleFile {F}.
Arguments fl_TemplateFile {F}.
Arguments fl_BatteryProfile {F}.
Arguments fl_TopicPrefix {F}.
Arguments fl_InfluxURL {F}.

Record FleetConfig (F : Type) := MkFleetConfig {
  fg_Size : Z;
  fg_CommuterPct : F;
  fg_DisconnectRate : F;
  fg_Availability : list F;
  fg_Schedule : gmap string Time
}.
Arguments MkFleetConfig {F}.
Arguments fg_Size {F}.
Arguments fg_CommuterPct {F}.
Arguments fg_DisconnectRate {F}.
Arguments fg_Availability {F}.
Arguments fg_Schedule {F}.

Record VehicleTemplate := MkTemplate { tp_Departure : string }.

(** The fields [GenerateFleet] sets; the others are zero until [runVehicles]. *)
Record GeneratedVehicle (F : Type) := MkGenerated {
  gv_ID : string;
  gv_IsV2G : bool;
  gv_Segment : string;
  gv_DisconnectRate : F;
  gv_Availability : list F;
  gv_Departure : Time
}.
Arguments MkGenerated {F}.
Arguments gv_ID {F}.
Arguments gv_IsV2G {F}.
Arguments gv_Segment {F}.
Arguments gv_DisconnectRate {F}.
Arguments gv_Availability {F}.
Arguments gv_Departure {F}.

(** A vehicle before [Run]: the state of [Simulator] and the fields its handlers
    only read. *)
Record FleetVehicle (F : Type) := MkFleetVehicle {
  fv_sim : SimulatedVehicle F;
  fv_Broker : string;
  fv_TopicPrefix : string;
  fv_Interval : Duration;
  fv_TelemetryRequestTopic : string;
  fv_TelemetryResponsePrefix : string;
  fv_StateTopicPrefix : string;
  fv_Segment : string;
  fv_Departure : Time
}.
Arguments MkFleetVehicle {F}.
Arguments fv_sim {F}.
Arguments fv_Broker {F}.
Arguments fv_TopicPrefix {F}.
Arguments fv_Interval {F}.
Arguments fv_TelemetryRequestTopic {F}.
Arguments fv_TelemetryResponsePrefix {F}.
Arguments fv_StateTopicPrefix {F}.
Arguments fv_Segment {F}.
Arguments fv_Departure {F}.

Section setup.
Context {F : Type} `{Num F} `{!MapRange}.
#[local] Open Scope num_scope.
Implicit Types c : SimConfig F.

(** ** The command line *)

(** What [parseFlags] returns for an empty command line. *)
Definition default_flags : SimConfig F :=
  MkSimConfig "tcp://localhost:1883" 1 0 0 n0 n0 (40 // 1) (7 // 1) (10 // 1) (10 // 1) (30 * Second)
    false (10 * Second) "v2g/telemetry/request" "v2g/telemetry/response/" "v2g/vehicle/state/" n0
    "" "" "" "" "v2g" "".

Definition set_FleetSize (n : Z) c : SimConfig F :=
  MkSimConfig (fl_Broker c) (fl_Count c) n (fl_AckLatency c) (fl_DropRate c) (fl_DisconnectRate c)
    (fl_CapacityKWh c) (fl_ChargeRateKW c) (fl_DischargeRateKW c) (fl_MaxPower c) (fl_Interval c)
    (fl_TelemetryPush c) (fl_TelemetryInterval c) (fl_TelemetryRequestTopic c)
    (fl_TelemetryResponsePrefix c) (fl_StateTopicPrefix c) (fl_CommuterPct c) (fl_AvailabilityFile c)
    (fl_ScheduleFile c) (fl_TemplateFile c) (fl_BatteryProfile c) (fl_TopicPrefix c) (fl_InfluxURL c).

Definition set_intervals (interval telemetry : Duration) c : SimConfig F :=
  MkSimConfig (fl_Broker c) (fl_Count c) (fl_FleetSize c) (fl_AckLatency c) (fl_DropRate c)
    (fl_DisconnectRate c) (fl_CapacityKWh c) (fl_ChargeRateKW c) (fl_DischargeRateKW c)
    (fl_MaxPower c) interval (fl_TelemetryPush c) telemetry (fl_TelemetryRequestTopic c)
    (fl_TelemetryResponsePrefix c) (fl_StateTopicPrefix c) (fl_CommuterPct c) (fl_AvailabilityFile c)
    (fl_ScheduleFile c) (fl_TemplateFile c) (fl_BatteryProfile c) (fl_TopicPrefix c) (fl_InfluxURL c).

Definition set_battery (capacity charge discharge : F) c : SimConfig F :=
  MkSimConfig (fl_Broker c) (fl_Count c) (fl_FleetSize c) (fl_AckLatency c) (fl_DropRate c)
    (fl_DisconnectRate c) capacity charge discharge (fl_MaxPower c) (fl_Interval c)
    (fl_TelemetryPush c) (fl_TelemetryInterval c) (fl_TelemetryRequestTopic c)
    (fl_TelemetryResponsePrefix c) (fl_StateTopicPrefix c) (fl_CommuterPct c) (fl_AvailabilityFile c)
    (fl_ScheduleFile c) (fl_TemplateFile c) (fl_BatteryProfile c) (fl_TopicPrefix c) (fl_InfluxURL c).

(** The checks in their order, with the defaults written between them. *)
Definition SimValidate c : string + SimConfig F :=
  if bool_decide (fl_Broker c = "") then inl "broker is required" else
  let c := if (fl_FleetSize c =? 0)%Z then set_FleetSize (fl_Count c) c else c in
  if (fl_FleetSize c <=? 0)%Z then inl "fleet-size must be positive"
  else if (fl_DropRate c <? n0) || (fl_DropRate c >? n1) then
    inl "drop-rate must be between 0 and 1"
  else if (fl_DisconnectRate c <? n0) || (fl_DisconnectRate c >? n1) then
    inl "disconnect-rate must be between 0 and 1"
  else if fl_CapacityKWh c <=? n0 then inl "capacity must be positive"
  else if (fl_ChargeRateKW c <=? n0) || (fl_DischargeRateKW c <=? n0) then
    inl "charge and discharge rates must be positive"
  else if fl_MaxPower c <=? n0 then inl "max-power must be positive" else
  let interval := if (fl_Interval c <=? 0)%Z then Second else fl_Interval c in
  let telemetry := if (fl_TelemetryInterval c <=? 0)%Z then interval else fl_TelemetryInterval c in
  let c := set_intervals interval telemetry c in
  if (fl_CommuterPct c <? n0) || (fl_CommuterPct c >? n1) then
    inl "commuter percentage must be between 0 and 1"
  else inr c.

Definition applyBatteryProfile c : SimConfig F :=
  if bool_decide (fl_BatteryProfile c = "small") then set_battery (20 // 1) (36 // 10) (7 // 1) c
  else if bool_decide (fl_BatteryProfile c = "medium") then set_battery (40 // 1) (7 // 1) (10 // 1) c
  else if bool_decide (fl_BatteryProfile c = "large") then set_battery (80 // 1) (11 // 1) (20 // 1) c
  else c.

(** ** Files *)

(** One entry of the profile. *)
Definition set_hour (prof : list F) (h : string) (v : F) : list F :=
  match Sscanf_d h with
  | Some hour => if ((0 <=? hour) && (hour <? 24))%Z then <[Z.to_nat hour := v]> prof else prof
  | None => prof
  end.

(** The loop over the decoded object, in the order of the map. *)
Definition LoadAvailabilityProfile (m : string + gmap string F) : string + list F :=
  match m with
  | inl err => inl err
  | inr m => inr (foldl (fun prof '(h, v) => set_hour prof h v) (replicate 24 n0) (range_map m))
  end.

(** The loop of [readScheduleFile]: the first entry that does not parse is the
    error. *)
Fixpoint schedule_loop (parse : TimeParser) (raw : list (string * string)) (sched : gmap string Time) :
    string + gmap string Time :=
  match raw with
  | [] => inr sched
  | (id, ts) :: raw =>
    match parse ts with
    | None => inl ("invalid departure for " +:+ id)
    | Some t => schedule_loop parse raw (<[id := t]> sched)
    end
  end.

Definition readScheduleFile (parse : TimeParser) (raw : string + gmap string string) :
    string + gmap string Time :=
  match raw with
  | inl err => inl err
  | inr raw => schedule_loop parse (range_map raw) ∅
  end.

(** ** The fleet *)

(** [fmt.Sprintf("veh%03d", i+1)]. *)
Definition vehicle_id (i : nat) : string := "veh" +:+ pad 3 (Z.of_nat (S i)).

(** The departure of a vehicle: its schedule, else its template, else none. *)
Definition vehicle_departure (parse : TimeParser) (sched : gmap string Time)
    (tmpl : option (gmap string VehicleTemplate)) (id : string) : Time :=
  match sched !! id with
  | Some t => t
  | None =>
    match tmpl with
    | None => time_zero
    | Some tmpl =>
      match tmpl !! id with
      | None => time_zero
      | Some v =>
        if bool_decide (tp_Departure v = "") then time_zero
        else default time_zero (parse (tp_Departure v))
      end
    end
  end.

(** [draw i] is the draw of [fleetRng.Float64] for the vehicle [i]. *)
Definition generate_vehicle (parse : TimeParser) (cfg : FleetConfig F)
    (tmpl : option (gmap string VehicleTemplate)) (draw : nat → F) (i : nat) : GeneratedVehicle F :=
  let id := vehicle_id i in
  let seg := if (fg_CommuterPct cfg >? n0) && (draw i <? fg_CommuterPct cfg)
             then "commuter" else "opportunistic" in
  MkGenerated id true seg (fg_DisconnectRate cfg) (fg_Availability cfg)
    (vehicle_departure parse (fg_Schedule cfg) tmpl id).

Definition GenerateFleet (parse : TimeParser) (cfg : FleetConfig F)
    (tmpl : option (gmap string VehicleTemplate)) (draw : nat → F) : list (GeneratedVehicle F) :=
  if (fg_Size cfg <=? 0)%Z then []
  else generate_vehicle parse cfg tmpl draw <$> seq 0 (Z.to_nat (fg_Size cfg)).

(** What [runVehicles] writes into a vehicle before it starts it; every vehicle
    has its own battery, and the sink, InfluxDB's or [NopSink], records
    everything. *)
Definition equip c (g : GeneratedVehicle F) : FleetVehicle F :=
  let b := MkBattery (fl_CapacityKWh c) (8 // 10) (fl_ChargeRateKW c) (fl_DischargeRateKW c) in
  MkFleetVehicle
    (MkSimVehicle (gv_ID g) (gv_IsV2G g) (fl_MaxPower c) b (fl_TelemetryPush c) (gv_DisconnectRate g)
       (gv_Availability g) n0 false (Some []) (RandomAck (fl_AckLatency c) (fl_DropRate c))
       (MkSimCaps true true true))
    (fl_Broker c) (fl_TopicPrefix c) (fl_TelemetryInterval c) (fl_TelemetryRequestTopic c)
    (fl_TelemetryResponsePrefix c) (fl_StateTopicPrefix c) (gv_Segment g) (gv_Departure g).

(** A vehicle built on its own: its other fields are zero. *)
Definition NewSimulatedVehicle (id broker prefix : string) (strat : AckStrategy F) (battery : Battery F)
    (interval : Duration) (maxPower : F) (sink : SimCaps) : FleetVehicle F :=
  MkFleetVehicle
    (MkSimVehicle id true maxPower battery false n0 (replicate 24 n0) n0 false (Some []) strat sink)
    broker prefix interval "" "" "" "" time_zero.

(** The contents of the files, by path. *)
Record SimFiles := MkSimFiles {
  sf_template : string → string + gmap string VehicleTemplate;
  sf_availability : string → string + gmap string F;
  sf_schedule : string → string + gmap string string
}.

(** [main] up to the start of the vehicles. *)
Definition sim_main (files : SimFiles) (parse : TimeParser) (draw : nat → F) (flags : SimConfig F) :
    string + list (FleetVehicle F) :=
  match SimValidate flags with
  | inl err => inl ("invalid config: " +:+ err)
  | inr c =>
    let c := applyBatteryProfile c in
    match (if bool_decide (fl_TemplateFile c = "") then inr None
           else match sf_template files (fl_TemplateFile c) with
                | inl err => inl ("template file: " +:+ err)
                | inr tmpl => inr (Some tmpl)
                end) with
    | inl err => inl err
    | inr tmpl =>
      match (if bool_decide (fl_AvailabilityFile c = "") then inr (replicate 24 n1)
             else LoadAvailabilityProfile (sf_availability files (fl_AvailabilityFile c))) with
      | inl err => inl ("availability file: " +:+ err)
      | inr prof =>
        match (if bool_decide (fl_ScheduleFile c = "") then inr ∅
               else readScheduleFile parse (sf_schedule files (fl_ScheduleFile c))) with
        | inl err => inl ("schedule file: " +:+ err)
        | inr sched =>
          let fleetCfg := MkFleetConfig (fl_FleetSize c) (fl_CommuterPct c) (fl_DisconnectRate c)
                            prof sched in
          inr (equip c <$> GenerateFleet parse fleetCfg tmpl draw)
        end
      end
    end
  end.

(** ** Connecting *)

(** [realMQTTClient]; [connect] is the error of the connection. *)
Definition realMQTTClient (connect : option string) (broker clientID : string) : option string :=
  if bool_decide (broker = "") || bool_decide (clientID = "")
  then Some "broker and clientID must be provided" else connect.

(** Subscribing to topics one after the other, up to the first error. *)
Fixpoint subscribe_all (subscribe : string → option string) (topics : list string) :
    option string * list string :=
  match topics with
  | [] => (None, [])
  | t :: topics =>
    match subscribe t with
    | Some err => (Some err, [])
    | None => let '(err, done) := subscribe_all subscribe topics in (err, t :: done)
    end
  end.

Definition command_topics (v : FleetVehicle F) : list string :=
  [TrimSlash (fv_TopicPrefix v) +:+ "/fleet/discovery"; "vehicle/" +:+ sv_ID (fv_sim v) +:+ "/command"].

Definition request_topics (v : FleetVehicle F) : list string :=
  if bool_decide (fv_TelemetryRequestTopic v = "") then []
  else [fv_TelemetryRequestTopic v;
        TrimSlash (fv_TelemetryRequestTopic v) +:+ "/" +:+ sv_ID (fv_sim v)].

(** The connection part of [Run]: an error, or the connected vehicle with its
    subscriptions. *)
Definition VehicleRun (connect : option string) (subscribe : string → option string)
    (v : FleetVehicle F) : string + (SimulatedVehicle F * list string) :=
  match realMQTTClient connect (fv_Broker v) ("sim-" +:+ sv_ID (fv_sim v)) with
  | Some err => inl err
  | None =>
    match subscribe_all subscribe (command_topics v ++ request_topics v) with
    | (Some err, _) => inl err
    | (None, topics) => inr (set_client true (fv_sim v), topics)
    end
  end.

(** The connection part of [handleAvailabilityTick]: whether it succeeds, and
    the subscriptions of the new connection. *)
Definition reconnect (connect : option string) (subscribe : string → option string)
    (v : FleetVehicle F) : bool * list string :=
  match realMQTTClient connect (fv_Broker v) ("sim-" +:+ sv_ID (fv_sim v)) with
  | Some _ => (false, [])
  | None =>
    match subscribe_all subscribe (command_topics v) with
    | (Some _, _) => (false, [])
    | (None, topics) => (true, topics)
    end
  end.
End setup.

(** ** Profiles and schedules *)

Section files.
Context {F : Type} `{Num F}.

Lemma length_set_hour (prof : list F) h v : length (set_hour prof h v) = length prof.
Proof. unfold set_hour. repeat case_match; by rewrite ?length_insert. Qed.

(** The hour an entry of the profile is about. *)
Definition entry_hour (h : string) : option nat :=
  hour ← Sscanf_d h; if (0 <=? hour) && (hour <? 24) then Some (Z.to_nat hour) else None.

Lemma set_hour_lookup (prof : list F) h v k :
  length prof = 24%nat →
  set_hour prof h v !! k = if bool_decide (entry_hour h = Some k) then Some v else prof !! k.
Proof.
  intros Hlen. unfold set_hour, entry_hour. destruct (Sscanf_d h) as [hour|]; [|done]. cbn.
  destruct ((0 <=? hour) && (hour <? 24)) eqn:Hr; [|done].
  apply andb_true_iff in Hr as [H1%Z.leb_le H2%Z.ltb_lt].
  case_bool_decide as Hk.
  - injection Hk as <-. rewrite list_lookup_insert_eq; [done|lia].
  - rewrite list_lookup_insert_ne; [done|]. congruence.
Qed.

(** The profile after a list of entries: for every hour the value of its last
    entry, or what was there. *)
Lemma profile_lookup (l : list (string * F)) (prof : list F) k :
  length prof = 24%nat →
  let res := foldl (fun prof '(h, v) => set_hour prof h v) prof l in
  length res = 24%nat ∧
  ((∃ h v, (h, v) ∈ l ∧ entry_hour h = Some k ∧ res !! k = Some v) ∨
   ((∀ h v, (h, v) ∈ l → entry_hour h ≠ Some k) ∧ res !! k = prof !! k)).
Proof.
  revert prof. induction l as [|[h v] l IH]; intros prof Hlen; cbn [foldl].
  { split; [done|]. right. split; [|done]. by intros ? ? ?%not_elem_of_nil. }
  destruct (IH (set_hour prof h v)) as [Hl Hcase]; [by rewrite length_set_hour|].
  split; [done|]. destruct Hcase as [(h' & v' & Hin & Hh & Hr)|[Hnone Hr]].
  - left. exists h', v'. split_and!; [by right|done|done].
  - rewrite set_hour_lookup in Hr by done. case_bool_decide as Hk.
    + left. exists h, v. split_and!; [left|done|done].
    + right. split; [|done]. intros h' v' [[= -> ->]|Hin]%elem_of_cons; [done|by eapply Hnone].
Qed.

(** A decoded availability profile gives every hour of the day a value: zero
    for an hour without an entry, else the value of one of its entries; two
    entries for one hour (["7"] and ["07"]) race, and without such a pair the
    profile does not depend on the order in which Go iterates over the map. *)
Theorem LoadAvailabilityProfile_spec (R1 R2 : MapRange) (m : gmap string F) :
  ∃ prof, LoadAvailabilityProfile (H0 := R1) (inr m) = inr prof ∧ length prof = 24%nat ∧
    (∀ k, (k < 24)%nat →
       (∃ h v, m !! h = Some v ∧ entry_hour h = Some k ∧ prof !! k = Some v) ∨
       ((∀ h, is_Some (m !! h) → entry_hour h ≠ Some k) ∧ prof !! k = Some n0)) ∧
    ((∀ h h' k, is_Some (m !! h) → is_Some (m !! h') →
        entry_hour h = Some k → entry_hour h' = Some k → h = h') →
     LoadAvailabilityProfile (H0 := R2) (inr m) = inr prof).
Proof.
  assert (∀ (R : MapRange) k, (k < 24)%nat →
    let res := foldl (fun prof '(h, v) => set_hour prof h v) (replicate 24 n0) (range_map m) in
    (∃ h v, m !! h = Some v ∧ entry_hour h = Some k ∧ res !! k = Some v) ∨
    ((∀ h, is_Some (m !! h) → entry_hour h ≠ Some k) ∧ res !! k = Some (n0 : F))) as Hk.
  { intros R k Hlt. destruct (profile_lookup (range_map m) (replicate 24 n0) k) as [_ Hc]; [done|].
    destruct Hc as [(h & v & Hin%elem_of_range & Hh & Hr)|[Hn Hr]]; [left; eauto|right].
    split; [|rewrite Hr; by apply lookup_replicate_2]. intros h [v Hv]. apply (Hn h v). by apply elem_of_range. }
  assert (∀ R : MapRange, length (foldl (fun prof '(h, v) => set_hour prof h v) (replicate 24 (n0 : F))
    (range_map m)) = 24%nat) as Hlen.
  { intros R. by apply (profile_lookup (range_map m) (replicate 24 n0) 0). }
  eexists. split; [done|]. split_and!; [apply Hlen|apply (Hk R1)|].
  intros Hinj. cbn [LoadAvailabilityProfile]. f_equal. apply list_eq_same_length with 24%nat; [apply Hlen..|].
  intros k x y Hlt Hx Hy. destruct (Hk R1 k Hlt) as [(h1 & v1 & Hm1 & Hh1 & Hr1)|[Hn1 Hr1]];
    destruct (Hk R2 k Hlt) as [(h2 & v2 & Hm2 & Hh2 & Hr2)|[Hn2 Hr2]].
  - assert (h1 = h2) as -> by (eapply Hinj; eauto). congruence.
  - by destruct (Hn2 h1 ltac:(eauto)).
  - by destruct (Hn1 h2 ltac:(eauto)).
  - congruence.
Qed.

Lemma schedule_loop_spec parse raw (sched : gmap string Time) :
  (∀ id ts, (id, ts) ∈ raw → is_Some (parse ts)) ↔ ∃ s, schedule_loop parse raw sched = inr s.
Proof.
  revert sched. induction raw as [|[id ts] raw IH]; intros sched; cbn [schedule_loop].
  { split; [by eexists|]. by intros _ ? ? ?%not_elem_of_nil. }
  destruct (parse ts) as [t|] eqn:Hp.
  - rewrite <- IH. split; intros Hall id' ts' Hin; [eapply Hall; by right|].
    apply elem_of_cons in Hin as [[= -> ->]|Hin]; [by rewrite Hp|by eapply Hall].
  - split; [|by intros [? [=]]]. intros Hall. destruct (Hall id ts) as [? Ht]; [left|congruence].
Qed.
End files.

(** ** The fleet that is started *)

Section fleet.
Context `{!MapRange}.
#[local] Open Scope Q_scope.
Implicit Types c : SimConfig Q.

(** What an accepted command line satisfies. *)
Record sim_config_ok c : Prop := {
  co_Broker : fl_Broker c ≠ "";
  co_FleetSize : (0 < fl_FleetSize c)%Z;
  co_DropRate : 0 <= fl_DropRate c <= 1;
  co_DisconnectRate : 0 <= fl_DisconnectRate c <= 1;
  co_Capacity : 0 < fl_CapacityKWh c;
  co_ChargeRate : 0 < fl_ChargeRateKW c;
  co_DischargeRate : 0 < fl_DischargeRateKW c;
  co_MaxPower : 0 < fl_MaxPower c;
  co_TelemetryInterval : (0 < fl_TelemetryInterval c)%Z;
  co_CommuterPct : 0 <= fl_CommuterPct c <= 1
}.

Definition requested_size c : Z :=
  if (fl_FleetSize c =? 0)%Z then fl_Count c else fl_FleetSize c.

Lemma SimValidate_ok c c' :
  SimValidate c = inr c' → sim_config_ok c' ∧ fl_FleetSize c' = requested_size c.
Proof.
  unfold SimValidate, requested_size. intros Hv.
  set (c1 := if (fl_FleetSize c =? 0)%Z then set_FleetSize (fl_Count c) c else c) in Hv.
  assert (fl_FleetSize c1 = if (fl_FleetSize c =? 0)%Z then fl_Count c else fl_FleetSize c) as Hsize.
  { unfold c1. by destruct (fl_FleetSize c =? 0)%Z. }
  assert (fl_Broker c1 = fl_Broker c) as Hbr by (unfold c1; by destruct (fl_FleetSize c =? 0)%Z).
  case_bool_decide as Hbroker; [done|]. clearbody c1.
  repeat match type of Hv with (if ?b then _ else _) = _ => destruct b eqn:?; [done|] end.
  injection Hv as <-. cbn [set_intervals fl_CommuterPct] in *. bool_simpl. num_Q. q_bool.
  split; [|done]. split; cbn; try (split; lra); try lra; try congruence; [lia|].
  destruct (Z.leb_spec (fl_TelemetryInterval c1) 0); [|done].
  by destruct (Z.leb_spec (fl_Interval c1) 0).
Qed.

Lemma applyBatteryProfile_ok c :
  sim_config_ok c → sim_config_ok (applyBatteryProfile c) ∧
  fl_FleetSize (applyBatteryProfile c) = fl_FleetSize c.
Proof.
  intros []. unfold applyBatteryProfile.
  repeat case_match; (split; [split; cbn; try done; lra|done]).
Qed.

Lemma equip_ok c g : sim_config_ok c → sim_ok (fv_sim (equip c g)).
Proof.
  intros []. split_and!; cbn.
  - split_and!; cbn; try lra; num_Q; lra.
  - lra.
  - unfold power_in_limits. cbn. num_Q.
    pose proof (Q.min_glb (fl_MaxPower c) (fl_ChargeRateKW c) 0 ltac:(lra) ltac:(lra)).
    pose proof (Q.min_glb (fl_MaxPower c) (fl_DischargeRateKW c) 0 ltac:(lra) ltac:(lra)). lra.
Qed.

Lemma vehicle_id_inj i j : vehicle_id i = vehicle_id j → i = j.
Proof.
  unfold vehicle_id. intros [= Heq]. apply pad_inj in Heq; lia.
Qed.

Lemma GenerateFleet_ids parse (cfg : FleetConfig Q) tmpl draw :
  gv_ID <$> GenerateFleet parse cfg tmpl draw = vehicle_id <$> seq 0 (Z.to_nat (fg_Size cfg)).
Proof.
  unfold GenerateFleet. destruct (Z.leb_spec (fg_Size cfg) 0).
  - by replace (Z.to_nat (fg_Size cfg)) with 0%nat by lia.
  - by rewrite <- list_fmap_compose.
Qed.

Lemma sim_main_inr files parse draw flags vs :
  sim_main files parse draw flags = inr vs →
  ∃ c fleetCfg tmpl, sim_config_ok c ∧ fg_Size fleetCfg = requested_size flags ∧
    (0 < requested_size flags)%Z ∧ vs = equip c <$> GenerateFleet parse fleetCfg tmpl draw.
Proof.
  unfold sim_main. destruct (SimValidate flags) as [err|c0] eqn:Hv; [done|].
  apply SimValidate_ok in Hv as [Hok Hsize].
  destruct (applyBatteryProfile_ok c0 Hok) as [Hok' Hsize'].
  set (c := applyBatteryProfile c0) in *. clearbody c.
  repeat match goal with |- context [match ?x with inl _ => _ | inr _ => _ end = inr vs] =>
    destruct x as [?|?]; [done|] end.
  intros [= <-]. eexists c, _, _. split; [done|]. split_and!; [|..|done].
  - cbn. congruence.
  - rewrite <- Hsize, <- Hsize'. by apply co_FleetSize.
Qed.

(** C39. Whatever the command line and the files, a simulator that starts runs the
    requested number of vehicles under distinct identifiers, each with a
    positive ticker interval, and whatever commands, drops and departures
    follow, every vehicle stays within its power limit and the rates of its
    battery, with a SoC between 0 and 1. *)
Theorem simulated_fleet files parse draw (flags : SimConfig Q) vs
    (Hmain : sim_main files parse draw flags = inr vs) :
  Z.of_nat (length vs) = requested_size flags ∧ (0 < length vs)%nat ∧
  NoDup ((fun v => sv_ID (fv_sim v)) <$> vs) ∧
  ∀ v, v ∈ vs → (0 < fv_Interval v)%Z ∧
    ∀ s, rtc sim_step (set_client true (fv_sim v)) s →
      sv_ID s = sv_ID (fv_sim v) ∧ 0 <= bt_Soc (sv_Battery s) <= 1 ∧ power_in_limits s.
Proof.
  apply sim_main_inr in Hmain as (c & cfg & tmpl & Hok & Hsize & Hpos & ->).
  assert ((fun v => sv_ID (fv_sim v)) <$> (equip c <$> GenerateFleet parse cfg tmpl draw) =
    vehicle_id <$> seq 0 (Z.to_nat (fg_Size cfg))) as Hids.
  { rewrite <- (GenerateFleet_ids parse cfg tmpl draw), <- list_fmap_compose. done. }
  assert (length (equip c <$> GenerateFleet parse cfg tmpl draw) = Z.to_nat (fg_Size cfg)) as Hlen.
  { apply (f_equal length) in Hids. by rewrite !length_fmap, length_seq in Hids; rewrite length_fmap. }
  rewrite Hlen, Hids. split_and!; [lia|lia| |].
  - apply NoDup_fmap_2_strong; [|apply NoDup_seq]. intros i j _ _. apply vehicle_id_inj.
  - intros v (g & -> & _)%list_elem_of_fmap. split; [apply (co_TelemetryInterval _ Hok)|].
    intros s Hs. apply sim_ok_reachable in Hs as [(Hb & _ & Hlim) Hpar];
      [|by apply sim_ok_client, equip_ok].
    unfold sim_params in Hpar. split_and!; [|apply Hb..|done].
    by injection Hpar as ->.
Qed.
End fleet.

(** ** What the set-up leaves out *)

Section gaps.
Context {F : Type} `{Num F} `{!MapRange}.
#[local] Open Scope num_scope.

(** The interval of [--interval] is not the one the vehicles run with, unless
    the telemetry interval is not positive. *)
Theorem interval_ignored (c c' : SimConfig F) g
    (Hv : SimValidate c = inr c') (Htel : (0 < fl_TelemetryInterval c)%Z) :
  fv_Interval (equip (applyBatteryProfile c') g) = fl_TelemetryInterval c.
Proof.
  assert (fl_TelemetryInterval (applyBatteryProfile c') = fl_TelemetryInterval c') as Hp.
  { unfold applyBatteryProfile. by repeat case_match. }
  cbn. rewrite Hp. unfold SimValidate in Hv.
  repeat match type of Hv with (if ?b then inl _ else _) = _ => destruct b; [done|] end.
  injection Hv as <-. cbn [set_intervals fl_TelemetryInterval].
  destruct (fl_FleetSize c =? 0)%Z; cbn [set_FleetSize fl_TelemetryInterval];
    by destruct (Z.leb_spec (fl_TelemetryInterval c) 0); [lia|].
Qed.

Lemma subscribe_all_done subscribe topics err done :
  subscribe_all subscribe topics = (err, done) → err = None → done = topics.
Proof.
  revert err done. induction topics as [|t topics IH]; intros err done; cbn [subscribe_all].
  { by intros [= <- <-]. }
  destruct (subscribe t); [by intros [= <- <-]|].
  destruct (subscribe_all subscribe topics) as [e d]. intros [= <- <-] ->. f_equal. by apply (IH None).
Qed.

(** A vehicle that reconnects no longer hears telemetry requests: the first
    connection subscribes to the request topic, the later ones do not. *)
Theorem reconnect_loses_requests (v : FleetVehicle F) connect connect' subscribe subscribe' s topics topics'
    (Hreq : fv_TelemetryRequestTopic v ∉ "" :: command_topics v)
    (Hrun : VehicleRun connect subscribe v = inr (s, topics))
    (Hre : reconnect connect' subscribe' v = (true, topics')) :
  fv_TelemetryRequestTopic v ∈ topics ∧ fv_TelemetryRequestTopic v ∉ topics'.
Proof.
  apply not_elem_of_cons in Hreq as [Hne Hreq]. unfold VehicleRun, reconnect in *.
  destruct (realMQTTClient connect _ _); [done|]. destruct (realMQTTClient connect' _ _); [done|].
  destruct (subscribe_all subscribe _) as [[?|] d] eqn:Hd; [done|]. injection Hrun as <- <-.
  destruct (subscribe_all subscribe' _) as [[?|] d'] eqn:Hd'; [done|]. injection Hre as <-.
  apply subscribe_all_done in Hd as ->; [|done]. apply subscribe_all_done in Hd' as ->; [|done].
  split; [|done]. apply elem_of_app. right. unfold request_topics.
  rewrite bool_decide_eq_false_2 by done. left.
Qed.

(** Without an availability file a vehicle that departed is back at the next
    minute: a draw below 1 is always below its availability. *)
Theorem departed_vehicle_returns (c : SimConfig F) g r1 r2 hour now now'
    (Hprof : gv_Availability g = replicate 24 n1) (Hhour : (hour < 24)%nat)
    (Hdraw : (r2 >=? n1) = false) :
  let v := (departureTick (set_client true (fv_sim (equip c g))) now).1 in
  sv_client v = false ∧ sv_client (handleAvailabilityTick v r1 r2 hour true now').1 = true.
Proof.
  split; [done|]. unfold handleAvailabilityTick. cbn [departureTick fst set_client sv_client].
  cbn [equip fv_sim sv_Availability]. rewrite Hprof.
  match goal with |- context [default _ ?o] => assert (o = Some n1) as -> by by apply lookup_replicate_2 end.
  cbn [default from_option id]. by rewrite Hdraw.
Qed.
End gaps.
