(* ===== verification/Eco.v ===== *)
(** * Ecological KPIs

    Models [core/metrics/eco] (the daily energy records and their in-memory
    store), the sink of [infra/metrics/eco.go] that feeds it from the records of
    a dispatch, and the job [jobs/ecokpi/backfill.go] that rebuilds it from the
    history.  The Prometheus gauges of the sink are the effects it returns; their
    day label is the day itself. *)

From S2P Require Import Prelude Num GoTime Model PowerMap MathExp SmartDispatcher.
From S2P Require Import Tuner Manager.
From stdpp Require Import base gmap strings list fin_maps sorting.
From Stdlib Require Import ZArith QArith Lqa Lia.

#[local] Open Scope Z_scope.

Record EcoRecord (F : Type) := MkEco {
  er_VehicleID : string;
  er_Date : Time;
  er_InjectedKWh : F;
  er_ConsumedKWh : F
}.
Arguments MkEco {F}.
Arguments er_VehicleID {F}.
Arguments er_Date {F}.
Arguments er_InjectedKWh {F}.
Arguments er_ConsumedKWh {F}.

(** [MemoryStore.data]: by vehicle, then by day. *)
Abbreviation EcoStore F := (gmap string (gmap Time (EcoRecord F))).

(** Values set on the three gauges of a vehicle and a day. *)
Record gauges (F : Type) := MkGauges {
  g_VehicleID : string;
  g_Day : Time;
  g_injected : F;
  g_ratio : F;
  g_co2 : F
}.
Arguments MkGauges {F}.

Section eco.
Context {F : Type} `{Num F} `{!MapRange}.
#[local] Open Scope num_scope.

Definition CO2Avoided (r : EcoRecord F) (factor : F) : F := er_InjectedKWh r * factor.

Definition EnergyRatio (r : EcoRecord F) : F :=
  if er_ConsumedKWh r =? n0 then
    if er_InjectedKWh r =? n0 then n0 else er_InjectedKWh r
  else er_InjectedKWh r / er_ConsumedKWh r.

(** [Day] is [midnight_utc]. *)
Definition Day (t : Time) : Time := midnight_utc t.

Definition NewEcoStore : EcoStore F := ∅.

Definition EcoAdd (s : EcoStore F) (r : EcoRecord F) : EcoStore F :=
  let m := default ∅ (s !! er_VehicleID r) in
  let d := Day (er_Date r) in
  let rec := default (MkEco (er_VehicleID r) d n0 n0) (m !! d) in
  <[er_VehicleID r :=
    <[d := MkEco (er_VehicleID rec) (er_Date rec) (er_InjectedKWh rec + er_InjectedKWh r)
             (er_ConsumedKWh rec + er_ConsumedKWh r)]> m]> s.

(** The keys of the store compared as instants. *)
Definition EcoQuery (s : EcoStore F) (vehicleID : string) (start fin : Time) : list (EcoRecord F) :=
  let start := Day start in
  let fin := Day fin in
  let m := default ∅ (s !! vehicleID) in
  sort_key Z.le (fun r => t_ns (er_Date r))
    (List.filter (fun '(d, _) => negb (Before d start || After d fin)) (range_map m)).*2.

(** The energy of a power over some hours, on the side its sign selects. *)
Definition energy_record (id : string) (date : Time) (power hours : F) : EcoRecord F :=
  let kwh := power * hours in
  if power >=? n0 then MkEco id date kwh n0 else MkEco id date n0 (- kwh).

(** ** [EcoSink] *)

Definition record_result (factor : F) (s : EcoStore F) (r : MetricResult F) :
    EcoStore F * list (gauges F) :=
  let rec := energy_record (mr_VehicleID r) (mr_StartTime r) (mr_PowerKW r)
               (Hours (Sub (mr_EndTime r) (mr_StartTime r))) in
  let s := EcoAdd s rec in
  let day := Day (er_Date rec) in
  (s, match EcoQuery s (mr_VehicleID r) day day with
      | [] => []
      | rr :: _ => [MkGauges (mr_VehicleID r) day (er_InjectedKWh rr) (EnergyRatio rr)
                      (CO2Avoided rr factor)]
      end).

Definition RecordDispatchResult (factor : F) (s : EcoStore F) (res : list (MetricResult F)) :
    EcoStore F * list (gauges F) :=
  foldl (fun '(s, g) r => let '(s, g') := record_result factor s r in (s, g ++ g')) (s, []) res.

(** ** [Backfill] *)

Definition backfill_result (s : EcoStore F) (h : DispatchResult F) : EcoStore F :=
  foldl (fun s '(vid, p) =>
    EcoAdd s (energy_record vid (Day (Timestamp (dr_Signal h))) p (Hours (sig_Duration (dr_Signal h)))))
    s (range_map (dr_Assignments h)).

Definition Backfill (s : EcoStore F) (history : list (DispatchResult F)) : EcoStore F :=
  foldl backfill_result s history.
End eco.

(** ** The live sink and the backfill *)

Section replay.
Context {F : Type} `{Num F} `{!MapRange}.
#[local] Open Scope num_scope.

Lemma EcoAdd_Day (s : EcoStore F) id date (p h : F) :
  EcoAdd s (energy_record id (Day date) p h) = EcoAdd s (energy_record id date p h).
Proof.
  unfold energy_record, EcoAdd, Day.
  destruct (p >=? n0); cbn [er_VehicleID er_Date er_InjectedKWh er_ConsumedKWh];
    by rewrite midnight_utc_idemp.
Qed.

Lemma RecordDispatchResult_fst factor (s : EcoStore F) res :
  (RecordDispatchResult factor s res).1 =
  foldl (fun s r => EcoAdd s (energy_record (mr_VehicleID r) (mr_StartTime r) (mr_PowerKW r)
                               (Hours (Sub (mr_EndTime r) (mr_StartTime r))))) s res.
Proof.
  unfold RecordDispatchResult. generalize (@nil (gauges F)). revert s.
  induction res as [|r res IH]; intros s g; [done|]. cbn [foldl]. unfold record_result at 2. apply IH.
Qed.

(** A sink that consumes the effects of the manager. *)
Definition sink_consume (factor : F) (s : EcoStore F) (effs : list (effect F)) : EcoStore F :=
  foldl (fun s e => match e with
                    | EResults recs => (RecordDispatchResult factor s recs).1
                    | _ => s
                    end) s effs.

Lemma sink_consume_metrics factor s (m : DispatchManager F) caps (res : DispatchResult F) lat hasLatency :
  m_metrics m = Some caps → int64 (sig_Duration (dr_Signal res)) →
  sink_consume factor s (recordMetrics m res lat hasLatency) = backfill_result s res.
Proof.
  intros Hm Hd. unfold sink_consume, recordMetrics. rewrite Hm.
  transitivity (RecordDispatchResult factor s ((fun '(vid, p) =>
      MkMetricResult (dr_Signal res) (Timestamp (dr_Signal res))
        (GoTime.Add (Timestamp (dr_Signal res)) (sig_Duration (dr_Signal res))) vid p
        (mget (dr_Scores res) vid) (dr_MarketPrice res) (bget (dr_Acknowledged res) vid)
        (Timestamp (dr_Signal res))) <$> range_map (dr_Assignments res))).1.
  { by destruct hasLatency. }
  rewrite RecordDispatchResult_fst. unfold backfill_result.
  generalize (range_map (dr_Assignments res)). revert s.
  intros s l. revert s. induction l as [|[vid p] l IH]; intros s; [done|].
  rewrite fmap_cons. cbn [foldl mr_VehicleID mr_StartTime mr_PowerKW mr_EndTime].
  rewrite Sub_Add by done. rewrite EcoAdd_Day. apply IH.
Qed.

End replay.

(** ** Daily totals *)

Section totals.
#[local] Open Scope Q_scope.
Implicit Types (s : EcoStore Q) (r : EcoRecord Q).

Definition eco_at s (v : string) (d : Time) : option (EcoRecord Q) := default ∅ (s !! v) !! d.

(** Whether a record counts for a vehicle and a day. *)
Definition counts_for (v : string) (d : Time) r : bool :=
  bool_decide (er_VehicleID r = v) && bool_decide (Day (er_Date r) = d).

Definition day_total (f : EcoRecord Q → Q) (recs : list (EcoRecord Q)) v d : Q :=
  qsum (f <$> List.filter (counts_for v d) recs).

Lemma day_total_snoc f recs r v d :
  day_total f (recs ++ [r]) v d == day_total f recs v d + (if counts_for v d r then f r else 0).
Proof.
  unfold day_total. rewrite List.filter_app, fmap_app, qsum_app. cbn.
  destruct (counts_for v d r); cbn; lra.
Qed.

Lemma eco_at_add s r v d :
  eco_at (EcoAdd s r) v d =
  if counts_for v d r then
    let rec := default (MkEco v d 0 0) (eco_at s v d) in
    Some (MkEco (er_VehicleID rec) (er_Date rec) (er_InjectedKWh rec + er_InjectedKWh r)
            (er_ConsumedKWh rec + er_ConsumedKWh r))
  else eco_at s v d.
Proof.
  unfold eco_at, EcoAdd, counts_for.
  destruct (decide (er_VehicleID r = v)) as [<-|Hv].
  - rewrite lookup_insert_eq. cbn [default from_option id].
    rewrite (bool_decide_eq_true_2 (er_VehicleID r = er_VehicleID r)) by done. cbn [andb].
    case_bool_decide as Hd; [subst d; by rewrite lookup_insert_eq|by rewrite lookup_insert_ne].
  - rewrite lookup_insert_ne by done. by rewrite bool_decide_eq_false_2.
Qed.

(** What the store holds for a vehicle and a day after some records. *)
Definition eco_spec (recs : list (EcoRecord Q)) v d (o : option (EcoRecord Q)) : Prop :=
  match o with
  | None => existsb (counts_for v d) recs = false
  | Some x =>
    existsb (counts_for v d) recs = true ∧ er_VehicleID x = v ∧ er_Date x = d ∧
    er_InjectedKWh x == day_total er_InjectedKWh recs v d ∧
    er_ConsumedKWh x == day_total er_ConsumedKWh recs v d
  end.

Lemma day_total_none f recs v d : existsb (counts_for v d) recs = false → day_total f recs v d == 0.
Proof.
  unfold day_total. induction recs as [|r recs IH]; cbn; [done|].
  destruct (counts_for v d r); [done|]. cbn. apply IH.
Qed.

Lemma EcoAdd_all_spec recs v d : eco_spec recs v d (eco_at (foldl EcoAdd NewEcoStore recs) v d).
Proof.
  induction recs as [|r recs IH] using rev_ind; [done|].
  rewrite foldl_app. cbn [foldl]. rewrite eco_at_add. unfold eco_spec in *.
  rewrite existsb_app. cbn [existsb]. rewrite orb_false_r.
  pose proof (day_total_snoc er_InjectedKWh recs r v d) as Hi.
  pose proof (day_total_snoc er_ConsumedKWh recs r v d) as Hc.
  destruct (eco_at _ v d) as [x|]; destruct (counts_for v d r) eqn:Hr.
  - destruct IH as (-> & Hv & Hd & Hxi & Hxc). cbn. rewrite Hi, Hc, Hxi, Hxc.
    split_and!; done.
  - destruct IH as (-> & Hv & Hd & Hxi & Hxc). rewrite Hi, Hc, Hxi, Hxc.
    split_and!; try done; lra.
  - cbn. rewrite Hi, Hc, !day_total_none by done. split_and!; try done. by rewrite orb_true_r.
  - by rewrite IH.
Qed.

Lemma counts_day recs v d : existsb (counts_for v d) recs = true → t_zone d = 0%Z.
Proof.
  intros (r & _ & Hr)%existsb_exists. unfold counts_for in Hr. bool_simpl.
  by match goal with Hb : bool_decide (Day _ = d) = true |- _ =>
    apply bool_decide_eq_true in Hb as <- end.
Qed.

(** The records of the days in the window, before sorting. *)
Definition window (R : MapRange) s vid start fin : list (EcoRecord Q) :=
  (List.filter (fun '(d, _) => negb (Before d (Day start) || After d (Day fin)))
     (range_map (default ∅ (s !! vid)))).*2.

Lemma elem_of_window R recs vid start fin r :
  let s := foldl EcoAdd NewEcoStore recs in
  r ∈ window R s vid start fin ↔
  eco_at s vid (er_Date r) = Some r ∧
  (t_ns (Day start) <= t_ns (er_Date r) <= t_ns (Day fin))%Z.
Proof.
  cbn zeta. unfold window. rewrite list_elem_of_fmap. split.
  - intros ([d x] & -> & Hin). apply elem_of_List_filter in Hin as [Hin%elem_of_range Hw].
    cbn [snd]. pose proof (EcoAdd_all_spec recs vid d) as Hspec. unfold eco_at in *.
    rewrite Hin in Hspec. destruct Hspec as (_ & _ & -> & _). split; [done|].
    unfold Before, After in Hw. lia.
  - intros [Hat Hw]. exists (er_Date r, r). split; [done|]. apply elem_of_List_filter.
    rewrite elem_of_range. split; [done|]. unfold Before, After. lia.
Qed.

Lemma window_NoDup R recs vid start fin :
  NoDup ((fun r => t_ns (er_Date r)) <$> window R (foldl EcoAdd NewEcoStore recs) vid start fin).
Proof.
  apply (NoDup_fmap_2_strong (fun r => t_ns (er_Date r))).
  - intros x y [Hx _]%elem_of_window [Hy _]%elem_of_window Heq.
    pose proof (EcoAdd_all_spec recs vid (er_Date x)) as Sx.
    pose proof (EcoAdd_all_spec recs vid (er_Date y)) as Sy.
    rewrite Hx in Sx. rewrite Hy in Sy.
    destruct Sx as (Cx%counts_day & _), Sy as (Cy%counts_day & _).
    assert (er_Date x = er_Date y) as Hd.
    { destruct (er_Date x), (er_Date y). cbn in *. congruence. }
    rewrite Hd in Hx. congruence.
  - unfold window. apply (NoDup_fmap_2_strong snd).
    + intros [d x] [d' x'] [Hx%elem_of_range _]%elem_of_List_filter
        [Hy%elem_of_range _]%elem_of_List_filter Heq. cbn in Heq. subst x'.
      pose proof (EcoAdd_all_spec recs vid d) as Sx. pose proof (EcoAdd_all_spec recs vid d') as Sy.
      unfold eco_at in Sx, Sy. rewrite Hx in Sx. rewrite Hy in Sy.
      destruct Sx as (_ & _ & <- & _), Sy as (_ & _ & <- & _). done.
    + eapply sublist_NoDup; [|apply List_filter_sublist].
      apply (NoDup_fmap_1 fst). auto with v2g.
Qed.

(** After any sequence of additions, [Query] returns, in the order of the
    days, one record for every day of the window on which something was added
    for the vehicle, with the sums of the day; whatever the order in which Go
    iterates over the map. *)
Theorem EcoQuery_spec (R1 R2 : MapRange) (recs : list (EcoRecord Q)) vid start fin :
  let s := foldl EcoAdd NewEcoStore recs in
  let res := EcoQuery (H0 := R1) s vid start fin in
  StronglySorted (fun x y => t_ns (er_Date x) <= t_ns (er_Date y))%Z res ∧
  NoDup (er_Date <$> res) ∧
  (∀ d, d ∈ er_Date <$> res ↔
     (∃ r, r ∈ recs ∧ er_VehicleID r = vid ∧ Day (er_Date r) = d) ∧
     (t_ns (Day start) <= t_ns d <= t_ns (Day fin))%Z) ∧
  (∀ r, r ∈ res →
     er_InjectedKWh r == day_total er_InjectedKWh recs vid (er_Date r) ∧
     er_ConsumedKWh r == day_total er_ConsumedKWh recs vid (er_Date r)) ∧
  res = EcoQuery (H0 := R2) s vid start fin.
Proof.
  cbn zeta. set (s := foldl EcoAdd NewEcoStore recs).
  change (EcoQuery (H0 := R1) s vid start fin) with
    (sort_key Z.le (fun r => t_ns (er_Date r)) (window R1 s vid start fin)).
  change (EcoQuery (H0 := R2) s vid start fin) with
    (sort_key Z.le (fun r => t_ns (er_Date r)) (window R2 s vid start fin)).
  pose proof (window_NoDup R1 recs vid start fin) as Hnd.
  split_and!.
  - apply (sort_key_sorted Z.le).
  - rewrite sort_key_perm. apply (NoDup_fmap_1 t_ns). by rewrite <- list_fmap_compose.
  - intros d. rewrite sort_key_perm, list_elem_of_fmap. split.
    + intros (r & -> & [Hr Hw]%elem_of_window). split; [|done].
      pose proof (EcoAdd_all_spec recs vid (er_Date r)) as Hs. rewrite Hr in Hs.
      destruct Hs as ((x & Hx & Hc)%existsb_exists & _). unfold counts_for in Hc. bool_simpl.
      exists x. rewrite list_elem_of_In. by repeat match goal with
        Hb : bool_decide _ = true |- _ => apply bool_decide_eq_true in Hb end.
    + intros [(r & Hr & Hv & Hd) Hw].
      pose proof (EcoAdd_all_spec recs vid d) as Hs.
      assert (existsb (counts_for vid d) recs = true) as Hex.
      { apply existsb_exists. exists r. rewrite <- list_elem_of_In. split; [done|].
        unfold counts_for. by rewrite !bool_decide_eq_true_2. }
      destruct (eco_at _ vid d) as [x|] eqn:Hx; [|cbn in Hs; congruence].
      destruct Hs as (_ & _ & Hxd & _). exists x. split; [done|]. apply elem_of_window.
      rewrite Hxd. done.
  - intros r [Hr _]%(elem_of_Permutation_proper _ _ _ (sort_key_perm _ _ _))%elem_of_window.
    pose proof (EcoAdd_all_spec recs vid (er_Date r)) as Hs. rewrite Hr in Hs. by apply Hs.
  - apply (sort_key_unique Z.le); [done|]. apply fmap_Permutation, List_filter_perm.
    by rewrite !range_map_perm.
Qed.
End totals.
