(* ===== verification/Kpi.v ===== *)
(** * The KPI database

    Models [infra/kpi/sqlite.go], the second implementation of the KPI store: a
    table with the primary key (vehicle, day), an upsert that adds, and a query
    ordered by day.  Its refinement theorem says that it answers every query
    like the in-memory store of [Eco]. *)

From S2P Require Import Prelude Num GoTime Model PowerMap Eco.
From stdpp Require Import base gmap strings list fin_maps sorting.
From Stdlib Require Import ZArith QArith Lqa Lia Setoid.

#[local] Open Scope Z_scope.

(** The rows by primary key: injected and consumed energy. *)
Abbreviation KpiTable F := (gmap (string * Z) (F * F)).

(** [time.Unix(ts, 0).UTC()]. *)
Definition UnixUTC (ts : Z) : Time := MkTime ((ts + 62135596800) * Second) 0.

Section kpi.
Context {F : Type} `{Num F} `{!MapRange}.
#[local] Open Scope num_scope.

(** [INSERT ... ON CONFLICT DO UPDATE]. *)
Definition KpiAdd (t : KpiTable F) (r : EcoRecord F) : KpiTable F :=
  let key := (er_VehicleID r, Unix (Day (er_Date r))) in
  match t !! key with
  | None => <[key := (er_InjectedKWh r, er_ConsumedKWh r)]> t
  | Some (inj, co) => <[key := (inj + er_InjectedKWh r, co + er_ConsumedKWh r)]> t
  end.

(** The [WHERE] and [ORDER BY] clauses and the loop over the rows. *)
Definition KpiQuery (t : KpiTable F) (vehicleID : string) (start fin : Time) : list (EcoRecord F) :=
  let start := Day start in
  let fin := Day fin in
  (fun '((vid, ts), (inj, co)) => MkEco vid (UnixUTC ts) inj co) <$>
  sort_key Z.le (fun '((_, day), _) => day)
    (List.filter (fun '((vid, day), _) =>
       bool_decide (vid = vehicleID) && (Unix start <=? day)%Z && (day <=? Unix fin)%Z) (range_map t)).

(** ** The store around the table *)

(** [NewSQLiteStore]: the errors of opening and of creating the table; a table
    that exists is kept. *)
Definition NewKpiStore (open exec : option string) (table : option (KpiTable F)) : string + KpiTable F :=
  match open with
  | Some err => inl err
  | None =>
    match exec with
    | Some err => inl err
    | None => inr (default ∅ table)
    end
  end.

(** [exec] is the error of the statement. *)
Definition KpiStore_Add (exec : option string) (t : KpiTable F) (r : EcoRecord F) :
    KpiTable F * option string :=
  match exec with
  | Some err => (t, Some err)
  | None => (KpiAdd t r, None)
  end.

(** [query] is the error of the query or of its rows. *)
Definition KpiStore_Query (query : option string) (t : KpiTable F) (vehicleID : string)
    (start fin : Time) : string + list (EcoRecord F) :=
  match query with
  | Some err => inl err
  | None => inr (KpiQuery t vehicleID start fin)
  end.

Definition KpiStore_Close (close : option string) : option string := close.
End kpi.

(** ** Refinement *)

Section refinement.
#[local] Open Scope Q_scope.
Implicit Types (r : EcoRecord Q) (s : EcoStore Q) (t : KpiTable Q).

(** Two records of the same vehicle and day with the same energies. *)
Record eco_equiv r r' : Prop := {
  ee_vehicle : er_VehicleID r = er_VehicleID r';
  ee_date : er_Date r = er_Date r';
  ee_injected : er_InjectedKWh r == er_InjectedKWh r';
  ee_consumed : er_ConsumedKWh r == er_ConsumedKWh r'
}.

Lemma UnixUTC_Unix d : t_zone d = 0%Z → (t_ns d mod Second = 0)%Z → UnixUTC (Unix d) = d.
Proof.
  intros Hz Hm. unfold UnixUTC, Unix. destruct d as [ns z]. cbn in *. subst z. f_equal.
  rewrite (Z_div_mod_eq_full ns Second) at 2. lia.
Qed.

Lemma Day_canonical x : t_zone (Day x) = 0%Z ∧ (t_ns (Day x) mod Second = 0)%Z.
Proof.
  split; [done|]. unfold Day, midnight_utc. cbn [t_ns]. change ns_per_day with (86400 * Second)%Z.
  rewrite Z.mul_assoc. apply Z.mod_mul. done.
Qed.

Lemma UnixUTC_Day x : UnixUTC (Unix (Day x)) = Day x.
Proof. destruct (Day_canonical x). by apply UnixUTC_Unix. Qed.

Lemma Unix_Day_le x y : (Unix (Day x) <= Unix (Day y) ↔ t_ns (Day x) <= t_ns (Day y))%Z.
Proof.
  destruct (Day_canonical x) as [_ Hx], (Day_canonical y) as [_ Hy]. unfold Unix.
  rewrite (Z_div_mod_eq_full (t_ns (Day x)) Second) at 2.
  rewrite (Z_div_mod_eq_full (t_ns (Day y)) Second) at 2. rewrite Hx, Hy.
  unfold Second, Millisecond, Nanosecond. lia.
Qed.

(** The table holds for a vehicle and a day what was added for them. *)
Definition kpi_spec (recs : list (EcoRecord Q)) v (ts : Z) (o : option (Q * Q)) : Prop :=
  match o with
  | None => ∀ d, Unix (Day d) = ts → existsb (counts_for v (Day d)) recs = false
  | Some (inj, co) => ∃ d, ts = Unix (Day d) ∧ existsb (counts_for v (Day d)) recs = true ∧
      inj == day_total er_InjectedKWh recs v (Day d) ∧ co == day_total er_ConsumedKWh recs v (Day d)
  end.

Lemma Unix_Day_inj x y : Unix (Day x) = Unix (Day y) → Day x = Day y.
Proof. intros Heq. by rewrite <- (UnixUTC_Day x), Heq, UnixUTC_Day. Qed.

Lemma Day_idemp d : Day (Day d) = Day d.
Proof. apply midnight_utc_idemp. Qed.

Lemma counts_for_day v d r :
  counts_for v (Day d) r = bool_decide ((er_VehicleID r, Unix (Day (er_Date r))) = (v, Unix (Day d))).
Proof.
  unfold counts_for. case_bool_decide as Hv; cbn [andb].
  - case_bool_decide as Hd; symmetry; [apply bool_decide_eq_true_2; congruence|].
    apply bool_decide_eq_false_2. intros [= _ Hu]. by apply Unix_Day_inj in Hu.
  - symmetry. apply bool_decide_eq_false_2. congruence.
Qed.

Lemma KpiAdd_spec recs r v ts t :
  kpi_spec recs v ts (t !! (v, ts)) → kpi_spec (recs ++ [r]) v ts (KpiAdd t r !! (v, ts)).
Proof.
  intros Hs. unfold KpiAdd. set (key := (er_VehicleID r, Unix (Day (er_Date r)))).
  destruct (decide (key = (v, ts))) as [Hk|Hk].
  - rewrite Hk. assert (v = er_VehicleID r) as -> by (unfold key in Hk; congruence).
    assert (ts = Unix (Day (er_Date r))) as -> by (unfold key in Hk; congruence). clear Hk.
    assert (counts_for (er_VehicleID r) (Day (er_Date r)) r = true) as Hc.
    { rewrite counts_for_day. by apply bool_decide_eq_true_2. }
    pose proof (day_total_snoc er_InjectedKWh recs r (er_VehicleID r) (Day (er_Date r))) as Hi.
    pose proof (day_total_snoc er_ConsumedKWh recs r (er_VehicleID r) (Day (er_Date r))) as Ho.
    rewrite Hc in Hi, Ho. destruct (t !! _) as [[inj co]|]; rewrite lookup_insert_eq; cbn in *.
    + destruct Hs as (d & Hd & Hex & Hsi & Hsc). apply Unix_Day_inj in Hd. rewrite <- Hd in *.
      exists (er_Date r). rewrite existsb_app, Hex, Hi, Ho, Hsi, Hsc. done.
    + exists (er_Date r). rewrite existsb_app. cbn. rewrite Hc, orb_true_r, Hi, Ho.
      rewrite !day_total_none by (by apply Hs). split_and!; [done|done|lra|lra].
  - assert (∀ d, Unix (Day d) = ts → counts_for v (Day d) r = false) as Hc.
    { intros d <-. rewrite counts_for_day. by apply bool_decide_eq_false_2. }
    assert (KpiAdd t r !! (v, ts) = t !! (v, ts)) as Hsame.
    { unfold KpiAdd. fold key. destruct (t !! key) as [[? ?]|]; by rewrite lookup_insert_ne. }
    unfold KpiAdd in Hsame. fold key in Hsame. rewrite Hsame.
    destruct (t !! (v, ts)) as [[inj co]|]; cbn in *.
    + destruct Hs as (d & -> & Hex & Hsi & Hsc). exists d.
      pose proof (day_total_snoc er_InjectedKWh recs r v (Day d)) as Hi.
      pose proof (day_total_snoc er_ConsumedKWh recs r v (Day d)) as Ho.
      rewrite (Hc d eq_refl) in Hi, Ho. rewrite existsb_app, Hex, Hi, Ho, Hsi, Hsc.
      split_and!; [done|done|lra|lra].
    + intros d Hd. rewrite existsb_app, (Hs d Hd). cbn. by rewrite (Hc d Hd).
Qed.

Lemma KpiAdd_all_spec recs v ts : kpi_spec recs v ts (foldl KpiAdd ∅ recs !! (v, ts)).
Proof.
  induction recs as [|r recs IH] using rev_ind.
  { cbn [foldl]. by rewrite lookup_empty. }
  rewrite foldl_app. by apply KpiAdd_spec.
Qed.

(** The rows a query selects, before sorting. *)
Definition selected (R : MapRange) t vid start fin : list (string * Z * (Q * Q)) :=
  List.filter (fun '((v, day), _) =>
    bool_decide (v = vid) && (Unix (Day start) <=? day)%Z && (day <=? Unix (Day fin))%Z) (range_map t).

Definition row_record (x : string * Z * (Q * Q)) : EcoRecord Q :=
  let '((v, ts), (inj, co)) := x in MkEco v (UnixUTC ts) inj co.

Lemma elem_of_selected R t vid start fin v ts e :
  (v, ts, e) ∈ selected R t vid start fin ↔
  v = vid ∧ t !! (vid, ts) = Some e ∧ (Unix (Day start) <= ts <= Unix (Day fin))%Z.
Proof.
  unfold selected. rewrite elem_of_List_filter, elem_of_range, !andb_true_iff, bool_decide_eq_true.
  split; [intros (? & (-> & ?) & ?)|intros (-> & ? & ?)]; split_and!; try done; lia.
Qed.

Definition date_key (r : EcoRecord Q) : Z := t_ns (er_Date r).

Lemma counted_is_day recs v d : existsb (counts_for v d) recs = true → ∃ x, d = Day x.
Proof.
  intros (r & _ & [_ Hd]%andb_true_iff)%existsb_exists. exists (er_Date r).
  symmetry. by eapply bool_decide_eq_true.
Qed.

(** What a KPI store promises of its query after some additions: one record for
    every active day of the window, in the order of the days, with the totals
    of the day. *)
Definition store_query := list (EcoRecord Q) → string → Time → Time → list (EcoRecord Q).

Class EcoContract (query : store_query) : Prop := {
  ec_sorted recs vid start fin : StronglySorted Z.le (date_key <$> query recs vid start fin);
  ec_once recs vid start fin : NoDup (date_key <$> query recs vid start fin);
  ec_complete recs vid start fin d :
    existsb (counts_for vid (Day d)) recs = true →
    (t_ns (Day start) <= t_ns (Day d) <= t_ns (Day fin))%Z →
    ∃ r, r ∈ query recs vid start fin ∧ er_Date r = Day d;
  ec_records recs vid start fin r :
    r ∈ query recs vid start fin →
    ∃ d, er_Date r = Day d ∧ er_VehicleID r = vid ∧
      existsb (counts_for vid (Day d)) recs = true ∧
      er_InjectedKWh r == day_total er_InjectedKWh recs vid (Day d) ∧
      er_ConsumedKWh r == day_total er_ConsumedKWh recs vid (Day d) ∧
      (t_ns (Day start) <= date_key r <= t_ns (Day fin))%Z
}.

Definition memory_query (R : MapRange) : store_query := fun recs =>
  EcoQuery (H0 := R) (foldl EcoAdd NewEcoStore recs).
Definition sql_query (R : MapRange) : store_query := fun recs =>
  KpiQuery (H0 := R) (foldl KpiAdd ∅ recs).

(** Two lists sorted by strictly increasing dates are equal date by date if
    they have the same dates. *)
Lemma same_dates (l k : list (EcoRecord Q)) :
  StronglySorted Z.le (date_key <$> l) → StronglySorted Z.le (date_key <$> k) →
  NoDup (date_key <$> l) → NoDup (date_key <$> k) →
  (∀ z, z ∈ date_key <$> l ↔ z ∈ date_key <$> k) → date_key <$> l = date_key <$> k.
Proof.
  intros Sl Sk Nl Nk Hin. apply (StronglySorted_unique Z.le); [done..|]. by apply NoDup_Permutation.
Qed.

Lemma eco_side R recs vid start fin :
  let l := EcoQuery (H0 := R) (foldl EcoAdd NewEcoStore recs) vid start fin in
  StronglySorted Z.le (date_key <$> l) ∧ NoDup (date_key <$> l) ∧
  ∀ r, r ∈ l ↔ eco_at (foldl EcoAdd NewEcoStore recs) vid (er_Date r) = Some r ∧
    (t_ns (Day start) <= date_key r <= t_ns (Day fin))%Z.
Proof.
  cbn zeta. change (EcoQuery (H0 := R) (foldl EcoAdd NewEcoStore recs) vid start fin) with
    (sort_key Z.le (fun r => t_ns (er_Date r)) (window R (foldl EcoAdd NewEcoStore recs) vid start fin)).
  split_and!.
  - eapply StronglySorted_fmap_mono; [|apply (sort_key_sorted Z.le)]. done.
  - rewrite sort_key_perm. apply window_NoDup.
  - intros r. rewrite sort_key_perm. apply elem_of_window.
Qed.

Lemma kpi_side R recs vid start fin :
  let l := KpiQuery (H0 := R) (foldl KpiAdd ∅ recs) vid start fin in
  StronglySorted Z.le (date_key <$> l) ∧ NoDup (date_key <$> l) ∧
  ∀ r, r ∈ l → ∃ d, er_Date r = Day d ∧ er_VehicleID r = vid ∧
    existsb (counts_for vid (Day d)) recs = true ∧
    er_InjectedKWh r == day_total er_InjectedKWh recs vid (Day d) ∧
    er_ConsumedKWh r == day_total er_ConsumedKWh recs vid (Day d) ∧
    (t_ns (Day start) <= date_key r <= t_ns (Day fin))%Z.
Proof.
  cbn zeta. change (KpiQuery (H0 := R) (foldl KpiAdd ∅ recs) vid start fin) with
    (row_record <$> sort_key Z.le (fun '((_, day), _) => day)
       (selected R (foldl KpiAdd ∅ recs) vid start fin)).
  assert (∀ x, date_key (row_record x) = ((x.1.2 + 62135596800) * Second)%Z) as Hkey.
  { by intros [[v ts] [inj co]]. }
  split_and!.
  - eapply StronglySorted_fmap_mono with (R := fun r r' => (date_key r <= date_key r')%Z); [done|].
    eapply StronglySorted_fmap_mono; [|apply (sort_key_sorted Z.le)].
    intros [[v ts] e] [[v' ts'] e'] Hle. rewrite !Hkey. cbn in *.
    unfold Second, Millisecond, Nanosecond. lia.
  - rewrite sort_key_perm, <- list_fmap_compose. apply NoDup_fmap_2_strong.
    + intros [[v ts] e] [[v' ts'] e'] Hx Hy. cbn [compose]. rewrite !Hkey. cbn.
      apply elem_of_selected in Hx as (-> & Hx & _), Hy as (-> & Hy & _). intros Heq.
      assert (ts = ts') as -> by (unfold Second, Millisecond, Nanosecond in Heq; lia). congruence.
    + unfold selected. eapply sublist_NoDup; [|apply List_filter_sublist].
      apply (NoDup_fmap_1 fst). auto with v2g.
  - intros r. rewrite sort_key_perm, list_elem_of_fmap.
    intros ([[v ts] [inj co]] & -> & (-> & Ht & Hw)%elem_of_selected).
    pose proof (KpiAdd_all_spec recs vid ts) as Hs. rewrite Ht in Hs.
    destruct Hs as (d & -> & Hex & Hi & Hc). exists d. rewrite Hkey. cbn [fst snd].
    cbn [row_record er_Date er_VehicleID er_InjectedKWh er_ConsumedKWh]. rewrite UnixUTC_Day.
    change ((Unix (Day d) + 62135596800) * Second)%Z with (t_ns (UnixUTC (Unix (Day d)))).
    rewrite UnixUTC_Day, <- !Unix_Day_le. done.
Qed.

(** Every active day of the window has a row. *)
Lemma kpi_complete R recs vid start fin d :
  existsb (counts_for vid (Day d)) recs = true →
  (t_ns (Day start) <= t_ns (Day d) <= t_ns (Day fin))%Z →
  ∃ r, r ∈ KpiQuery (H0 := R) (foldl KpiAdd ∅ recs) vid start fin ∧ er_Date r = Day d.
Proof.
  intros Hex Hw. pose proof (KpiAdd_all_spec recs vid (Unix (Day d))) as Hs.
  destruct (foldl KpiAdd ∅ recs !! (vid, Unix (Day d))) as [[inj co]|] eqn:Ht;
    [|cbn in Hs; rewrite (Hs d eq_refl) in Hex; done].
  exists (MkEco vid (UnixUTC (Unix (Day d))) inj co). split; [|apply UnixUTC_Day].
  change (KpiQuery (H0 := R) (foldl KpiAdd ∅ recs) vid start fin) with
    (row_record <$> sort_key Z.le (fun '((_, day), _) => day)
       (selected R (foldl KpiAdd ∅ recs) vid start fin)).
  rewrite sort_key_perm. apply list_elem_of_fmap. exists (vid, Unix (Day d), (inj, co)).
  split; [done|]. apply elem_of_selected. rewrite !Unix_Day_le. done.
Qed.

#[export] Instance memory_contract R : EcoContract (memory_query R).
Proof.
  split; intros recs vid start fin; unfold memory_query;
    destruct (eco_side R recs vid start fin) as (Hs & Hn & He); [done|done| |].
  - intros d Hex Hw. pose proof (EcoAdd_all_spec recs vid (Day d)) as Hsp.
    destruct (eco_at _ vid (Day d)) as [x|] eqn:Hx; [|cbn in Hsp; congruence].
    destruct Hsp as (_ & _ & Hxd & _). exists x. split; [|done]. apply He. unfold date_key.
    by rewrite Hxd.
  - intros r [Hat Hw]%He. pose proof (EcoAdd_all_spec recs vid (er_Date r)) as Hsp.
    rewrite Hat in Hsp. destruct Hsp as (Hex & Hv & _ & Hi & Hc).
    destruct (counted_is_day _ _ _ Hex) as [d Hd]. exists d. by rewrite <- Hd.
Qed.

#[export] Instance sql_contract R : EcoContract (sql_query R).
Proof.
  split; intros recs vid start fin; unfold sql_query;
    destruct (kpi_side R recs vid start fin) as (Hs & Hn & He); [done|done| |done].
  intros d. apply kpi_complete.
Qed.

Lemma contract_dates q1 q2 `{!EcoContract q1, !EcoContract q2} recs vid start fin z :
  z ∈ date_key <$> q1 recs vid start fin → z ∈ date_key <$> q2 recs vid start fin.
Proof.
  rewrite !list_elem_of_fmap.
  intros (r & -> & (d & Hd & _ & Hex & _ & _ & Hw)%(ec_records (query := q1))).
  unfold date_key in *. rewrite Hd in *.
  destruct (ec_complete (query := q2) recs vid start fin d Hex Hw) as (r' & Hr' & Hd').
  exists r'. by rewrite Hd'.
Qed.

(** The contract determines the answers. *)
Lemma contract_determines q1 q2 `{!EcoContract q1, !EcoContract q2} recs vid start fin :
  Forall2 eco_equiv (q1 recs vid start fin) (q2 recs vid start fin).
Proof.
  apply (Forall2_fmap_eq date_key date_key).
  - apply same_dates; [by apply ec_sorted..|by apply ec_once|by apply ec_once|].
    intros z. split; by apply contract_dates.
  - intros r r' (d & Hd & Hv & _ & Hi & Hc & _)%(ec_records (query := q1))
      (d' & Hd' & Hv' & _ & Hi' & Hc' & _)%(ec_records (query := q2)) Heq.
    unfold date_key in Heq. rewrite Hd, Hd' in Heq.
    assert (Day d = Day d') as Hdd by (apply Unix_Day_inj; unfold Unix; by rewrite Heq).
    split; [congruence|congruence|..]; rewrite Hdd in *; [by rewrite Hi, Hi'|by rewrite Hc, Hc'].
Qed.

(** After the same additions the database answers every query like the
    in-memory store: the same days in the same order, with the same energies,
    whatever the order in which maps and tables are read. *)
Theorem KpiQuery_refines (R1 R2 : MapRange) (recs : list (EcoRecord Q)) vid start fin :
  Forall2 eco_equiv (EcoQuery (H0 := R1) (foldl EcoAdd NewEcoStore recs) vid start fin)
    (KpiQuery (H0 := R2) (foldl KpiAdd ∅ recs) vid start fin).
Proof. apply (contract_determines (memory_query R1) (sql_query R2)). Qed.

(** The additions that the statements accepted. *)
Fixpoint kpi_adds t (recs : list (option string * EcoRecord Q)) : KpiTable Q * list (EcoRecord Q) :=
  match recs with
  | [] => (t, [])
  | (exec, r) :: recs =>
    let '(t, err) := KpiStore_Add exec t r in
    let '(t, kept) := kpi_adds t recs in
    (t, match err with None => r :: kept | Some _ => kept end)
  end.

Lemma kpi_adds_spec t recs : (kpi_adds t recs).1 = foldl KpiAdd t (kpi_adds t recs).2.
Proof.
  revert t. induction recs as [|[[err|] r] recs IH]; intros t; [done|..]; cbn.
  - specialize (IH t). by destruct (kpi_adds t recs).
  - specialize (IH (KpiAdd t r)). by destruct (kpi_adds (KpiAdd t r) recs).
Qed.

(** The database survives a restart: additions before and after it is opened
    again, of which the failing ones change nothing, answer every query like the
    in-memory store that was given the accepted ones. *)
Theorem KpiStore_durable (R1 R2 : MapRange) recs1 recs2 vid start fin :
  let st1 := kpi_adds ∅ recs1 in
  ∃ t, NewKpiStore None None (Some st1.1) = inr t ∧
    let st2 := kpi_adds t recs2 in
    ∃ res, KpiStore_Query (H0 := R2) None st2.1 vid start fin = inr res ∧
      Forall2 eco_equiv (EcoQuery (H0 := R1) (foldl EcoAdd NewEcoStore (st1.2 ++ st2.2)) vid start fin) res.
Proof.
  cbn zeta. pose proof (kpi_adds_spec ∅ recs1) as E1. destruct (kpi_adds ∅ recs1) as [t1 k1]. cbn in E1 |- *.
  exists t1. split; [done|]. pose proof (kpi_adds_spec t1 recs2) as E2.
  destruct (kpi_adds t1 recs2) as [t2 k2]. cbn in E2 |- *. eexists. split; [done|].
  rewrite E2, E1, <- foldl_app.
  apply (contract_determines (memory_query R1) (sql_query R2)).
Qed.
End refinement.
