(* ===== verification/Config.v ===== *)
(** * Configuration

    Models [config/]: the defaults and validations of the sections of the
    configuration file, and [Load] after the file was parsed and decoded (the
    koanf library is outside; its result is an argument).  The sections that
    are only data (MQTT, dispatch, metrics, Sentry) are left out of [Config]. *)

From S2P Require Import Prelude Num GoTime GoText.
From stdpp Require Import base gmap strings list.
From Stdlib Require Import ZArith QArith Lqa Lia Ascii.

#[local] Open Scope string_scope.
#[local] Open Scope Z_scope.

Definition is_empty (s : string) : bool := bool_decide (s = "").

(** ** [TelemetryConfig] *)

Record TelemetryConfig := MkTelemetryConfig {
  tc_Enabled : bool;
  tc_Mode : string;
  tc_IntervalSeconds : Z;
  tc_RequestTopic : string;
  tc_ResponsePrefix : string;
  tc_StatePrefix : string;
  tc_TimeoutSeconds : Z
}.

Definition Interval (c : TelemetryConfig) : Z :=
  if tc_IntervalSeconds c <=? 0 then 10 else tc_IntervalSeconds c.

Definition Timeout (c : TelemetryConfig) : Z :=
  if tc_TimeoutSeconds c <=? 0 then 3 else tc_TimeoutSeconds c.

(** ** [LoggingConfig] *)

Record LoggingConfig := MkLoggingConfig {
  lc_Backend : string;
  lc_Path : string;
  lc_MaxSizeMB : Z;
  lc_MaxBackups : Z;
  lc_MaxAgeDays : Z
}.

Definition LoggingSetDefaults (c : LoggingConfig) : LoggingConfig :=
  MkLoggingConfig (if is_empty (lc_Backend c) then "jsonl" else lc_Backend c)
    (if is_empty (lc_Path c) then "dispatch.log" else lc_Path c)
    (lc_MaxSizeMB c) (lc_MaxBackups c) (lc_MaxAgeDays c).

(** Errors are their messages; [None] is a nil error. *)
Definition LoggingValidate (c : LoggingConfig) : option string :=
  if negb (bool_decide (lc_Backend c = "jsonl")) && negb (bool_decide (lc_Backend c = "sqlite"))
  then Some ("unknown backend " +:+ lc_Backend c)
  else if is_empty (lc_Path c) then Some "path is required"
  else None.

(** ** [RTEConfig] *)

Record RTEClientConfig := MkRTEClientConfig {
  cc_APIURL : string;
  cc_ClientID : string;
  cc_ClientSecret : string;
  cc_TokenURL : string;
  cc_PollIntervalSeconds : Z
}.

Record RTEConfig := MkRTEConfig {
  rc_Mode : string;
  rc_Client : RTEClientConfig;
  rc_MockAddress : string
}.

Definition set_poll_interval (n : Z) (c : RTEClientConfig) : RTEClientConfig :=
  MkRTEClientConfig (cc_APIURL c) (cc_ClientID c) (cc_ClientSecret c) (cc_TokenURL c) n.

Definition RTESetDefaults (c : RTEConfig) : RTEConfig :=
  if bool_decide (rc_Mode c = "client") && (cc_PollIntervalSeconds (rc_Client c) <=? 0)
  then MkRTEConfig (rc_Mode c) (set_poll_interval 60 (rc_Client c)) (rc_MockAddress c)
  else c.

Definition RTEValidate (c : RTEConfig) : option string :=
  if bool_decide (rc_Mode c = "mock") then
    if is_empty (rc_MockAddress c) then Some "mock.address is required" else None
  else if bool_decide (rc_Mode c = "client") then
    if is_empty (cc_APIURL (rc_Client c)) then Some "client.api_url is required"
    else if is_empty (cc_ClientID (rc_Client c)) || is_empty (cc_ClientSecret (rc_Client c))
    then Some "client credentials are required"
    else if is_empty (cc_TokenURL (rc_Client c)) then Some "client.token_url is required"
    else if cc_PollIntervalSeconds (rc_Client c) <=? 0
    then Some "client.poll_interval_seconds must be greater than 0"
    else None
  else Some ("unknown mode " +:+ rc_Mode c).

(** ** [RTEGeneratorConfig] *)

Record RTEGeneratorConfig (F : Type) := MkGenConfig {
  gc_Enabled : bool;
  gc_Mode : string;
  gc_HTTPEndpoint : string;
  gc_Scenario : string;
  gc_MinIntervalSeconds : Z;
  gc_MaxIntervalSeconds : Z;
  gc_MinDurationSeconds : Z;
  gc_MaxDurationSeconds : Z;
  gc_MinPowerKW : F;
  gc_MaxPowerKW : F;
  gc_SignalTypes : list string;
  gc_JitterPct : F;
  gc_Seed : Z;
  gc_TimeZone : string
}.
Arguments MkGenConfig {F}.
Arguments gc_Enabled {F}.
Arguments gc_Mode {F}.
Arguments gc_HTTPEndpoint {F}.
Arguments gc_Scenario {F}.
Arguments gc_MinIntervalSeconds {F}.
Arguments gc_MaxIntervalSeconds {F}.
Arguments gc_MinDurationSeconds {F}.
Arguments gc_MaxDurationSeconds {F}.
Arguments gc_MinPowerKW {F}.
Arguments gc_MaxPowerKW {F}.
Arguments gc_SignalTypes {F}.
Arguments gc_JitterPct {F}.
Arguments gc_Seed {F}.
Arguments gc_TimeZone {F}.

Record Config (F : Type) := MkConfig {
  cfg_Logging : LoggingConfig;
  cfg_RTE : RTEConfig;
  cfg_RTEGenerator : RTEGeneratorConfig F;
  cfg_Telemetry : TelemetryConfig
}.
Arguments MkConfig {F}.
Arguments cfg_Logging {F}.
Arguments cfg_RTE {F}.
Arguments cfg_RTEGenerator {F}.
Arguments cfg_Telemetry {F}.

Section config.
Context {F : Type} `{Num F}.

(** [local] is [time.Local.String()]. *)
Definition GenSetDefaults (local : string) (c : RTEGeneratorConfig F) : RTEGeneratorConfig F :=
  MkGenConfig (gc_Enabled c)
    (if is_empty (gc_Mode c) then "internal" else gc_Mode c)
    (gc_HTTPEndpoint c)
    (if is_empty (gc_Scenario c) then "steady" else gc_Scenario c)
    (if gc_MinIntervalSeconds c <=? 0 then 120 else gc_MinIntervalSeconds c)
    (if gc_MaxIntervalSeconds c <=? 0 then 300 else gc_MaxIntervalSeconds c)
    (if gc_MinDurationSeconds c <=? 0 then 120 else gc_MinDurationSeconds c)
    (if gc_MaxDurationSeconds c <=? 0 then 600 else gc_MaxDurationSeconds c)
    (if neqb (gc_MinPowerKW c) n0 then nlit 5 1 else gc_MinPowerKW c)
    (if neqb (gc_MaxPowerKW c) n0 then nlit 25 1 else gc_MaxPowerKW c)
    (match gc_SignalTypes c with [] => ["FCR"] | ts => ts end)
    (if neqb (gc_JitterPct c) n0 then nlit 15 100 else gc_JitterPct c)
    (gc_Seed c)
    (if is_empty (gc_TimeZone c) then local else gc_TimeZone c).

Definition GenValidate (c : RTEGeneratorConfig F) : option string :=
  if (gc_MinIntervalSeconds c <? 0) || (gc_MaxIntervalSeconds c <? 0)
  then Some "interval seconds must be positive"
  else if gc_MaxIntervalSeconds c <? gc_MinIntervalSeconds c
  then Some "min_interval_seconds > max_interval_seconds"
  else if (gc_MinDurationSeconds c <=? 0) || (gc_MaxDurationSeconds c <=? 0)
  then Some "duration seconds must be >0"
  else if gc_MaxDurationSeconds c <? gc_MinDurationSeconds c
  then Some "min_duration_seconds > max_duration_seconds"
  else if nltb (gc_MaxPowerKW c) (gc_MinPowerKW c) then Some "min_power_kw > max_power_kw"
  else if negb (bool_decide (gc_Mode c = "internal")) && negb (bool_decide (gc_Mode c = "http"))
          && negb (is_empty (gc_Mode c))
  then Some ("unknown mode " +:+ gc_Mode c)
  else None.

(** [Load]: [ext] is the extension of the path, [decoded] the result of reading,
    overriding from the environment and decoding. *)
Definition Load (ext local : string) (decoded : string + Config F) : string + Config F :=
  let ext := ToLower ext in
  if bool_decide (ext ∈ [".yaml"; ".yml"; ".json"]) then
    match decoded with
    | inl err => inl err
    | inr cfg =>
      let cfg := MkConfig (LoggingSetDefaults (cfg_Logging cfg)) (cfg_RTE cfg)
                   (GenSetDefaults local (cfg_RTEGenerator cfg)) (cfg_Telemetry cfg) in
      match RTEValidate (cfg_RTE cfg) with
      | Some err => inl err
      | None =>
        match GenValidate (cfg_RTEGenerator cfg) with
        | Some err => inl err
        | None =>
          match LoggingValidate (cfg_Logging cfg) with
          | Some err => inl err
          | None => inr cfg
          end
        end
      end
    end
  else inl ("unsupported config format: " +:+ ext).
End config.

Section facts.
Context {F : Type} `{Num F}.

(** What the rest of the program may rely on. *)
Record config_ok (cfg : Config F) : Prop := {
  co_backend : lc_Backend (cfg_Logging cfg) = "jsonl" ∨ lc_Backend (cfg_Logging cfg) = "sqlite";
  co_path : lc_Path (cfg_Logging cfg) ≠ "";
  co_rte :
    (rc_Mode (cfg_RTE cfg) = "mock" ∧ rc_MockAddress (cfg_RTE cfg) ≠ "") ∨
    (rc_Mode (cfg_RTE cfg) = "client" ∧ 0 < cc_PollIntervalSeconds (rc_Client (cfg_RTE cfg)) ∧
     cc_APIURL (rc_Client (cfg_RTE cfg)) ≠ "" ∧ cc_ClientID (rc_Client (cfg_RTE cfg)) ≠ "" ∧
     cc_ClientSecret (rc_Client (cfg_RTE cfg)) ≠ "" ∧ cc_TokenURL (rc_Client (cfg_RTE cfg)) ≠ "");
  co_interval : 0 < gc_MinIntervalSeconds (cfg_RTEGenerator cfg)
                  <= gc_MaxIntervalSeconds (cfg_RTEGenerator cfg);
  co_duration : 0 < gc_MinDurationSeconds (cfg_RTEGenerator cfg)
                  <= gc_MaxDurationSeconds (cfg_RTEGenerator cfg);
  co_power : nltb (gc_MaxPowerKW (cfg_RTEGenerator cfg)) (gc_MinPowerKW (cfg_RTEGenerator cfg)) = false;
  co_types : gc_SignalTypes (cfg_RTEGenerator cfg) ≠ [];
  co_mode : gc_Mode (cfg_RTEGenerator cfg) = "internal" ∨ gc_Mode (cfg_RTEGenerator cfg) = "http"
}.

Lemma is_empty_false s : is_empty s = false → s ≠ "".
Proof. unfold is_empty. by intros Hs%bool_decide_eq_false. Qed.

Lemma LoggingValidate_ok c :
  LoggingValidate c = None → (lc_Backend c = "jsonl" ∨ lc_Backend c = "sqlite") ∧ lc_Path c ≠ "".
Proof.
  unfold LoggingValidate. repeat case_bool_decide; cbn [negb andb]; try done;
    destruct (is_empty (lc_Path c)) eqn:He; try done; apply is_empty_false in He; tauto.
Qed.

Lemma RTEValidate_ok c :
  RTEValidate c = None ↔
  (rc_Mode c = "mock" ∧ rc_MockAddress c ≠ "") ∨
  (rc_Mode c = "client" ∧ 0 < cc_PollIntervalSeconds (rc_Client c) ∧
   cc_APIURL (rc_Client c) ≠ "" ∧ cc_ClientID (rc_Client c) ≠ "" ∧
   cc_ClientSecret (rc_Client c) ≠ "" ∧ cc_TokenURL (rc_Client c) ≠ "").
Proof.
  unfold RTEValidate, is_empty.
  destruct (bool_decide_reflect (rc_Mode c = "mock")) as [Hm|Hm].
  - case_bool_decide; split; try done; [|tauto]. intros [[_ ?]|[? _]]; [done|congruence].
  - destruct (bool_decide_reflect (rc_Mode c = "client")) as [Hc|Hc]; [|split; [done|tauto]].
    repeat case_bool_decide; cbn [orb]; destruct (Z.leb_spec (cc_PollIntervalSeconds (rc_Client c)) 0);
      split; try done; try (intros; right; tauto); intros [[? _]|(_ & ? & ? & ? & ? & ?)]; try done; lia.
Qed.

Lemma Load_inr ext local decoded cfg :
  Load ext local decoded = inr cfg →
  ∃ c0, decoded = inr c0 ∧
    cfg = MkConfig (LoggingSetDefaults (cfg_Logging c0)) (cfg_RTE c0)
            (GenSetDefaults local (cfg_RTEGenerator c0)) (cfg_Telemetry c0) ∧
    RTEValidate (cfg_RTE cfg) = None ∧ GenValidate (cfg_RTEGenerator cfg) = None ∧
    LoggingValidate (cfg_Logging cfg) = None.
Proof.
  unfold Load. case_bool_decide; [|done]. destruct decoded as [|c0]; [done|].
  cbn [cfg_Logging cfg_RTE cfg_RTEGenerator].
  destruct (RTEValidate _) eqn:Hr; [done|]. destruct (GenValidate _) eqn:Hg; [done|].
  destruct (LoggingValidate _) eqn:Hl; [done|]. intros [= <-]. eauto 10.
Qed.

(** C36. Whatever [Load] accepts can be used: a known log backend with a path, a
    complete RTE connector, positive and ordered intervals and durations, an
    ordered range of powers, at least one signal type and a known mode. *)
Theorem Load_valid ext local decoded (cfg : Config F)
    (Hload : Load ext local decoded = inr cfg) : config_ok cfg.
Proof.
  apply Load_inr in Hload as (c0 & _ & -> & Hr & Hg & Hl).
  apply LoggingValidate_ok in Hl as [Hb Hp]. apply RTEValidate_ok in Hr.
  cbn [cfg_Logging cfg_RTE cfg_RTEGenerator] in *. set (g := cfg_RTEGenerator c0) in *.
  unfold GenValidate in Hg. cbn [GenSetDefaults gc_MinIntervalSeconds gc_MaxIntervalSeconds
    gc_MinDurationSeconds gc_MaxDurationSeconds gc_Mode] in Hg.
  repeat match type of Hg with (if ?b then _ else _) = _ =>
    destruct b eqn:?; [done|] end. bool_simpl.
  split; cbn [cfg_Logging cfg_RTE cfg_RTEGenerator GenSetDefaults gc_MinIntervalSeconds
    gc_MaxIntervalSeconds gc_MinDurationSeconds gc_MaxDurationSeconds gc_Mode gc_SignalTypes]; try done.
  - destruct (Z.leb_spec (gc_MinIntervalSeconds g) 0), (Z.leb_spec (gc_MaxIntervalSeconds g) 0); lia.
  - lia.
  - by destruct (gc_SignalTypes g).
  - match goal with Hm : _ && _ = false |- _ => rename Hm into Hmode end.
    repeat case_bool_decide; try tauto. cbn in Hmode.
    destruct (is_empty (gc_Mode g)) eqn:He; [tauto|]. by rewrite He in Hmode.
Qed.

(** [Load] applies the defaults of the logging and generator sections but not
    those of the RTE section: a complete client configuration without a poll
    interval is rejected, although its defaults make it valid. *)
Theorem Load_skips_RTE_defaults ext local (cfg : Config F)
    (Hmode : rc_Mode (cfg_RTE cfg) = "client")
    (Hpoll : cc_PollIntervalSeconds (rc_Client (cfg_RTE cfg)) = 0)
    (Hurl : cc_APIURL (rc_Client (cfg_RTE cfg)) ≠ "") (Hid : cc_ClientID (rc_Client (cfg_RTE cfg)) ≠ "")
    (Hsecret : cc_ClientSecret (rc_Client (cfg_RTE cfg)) ≠ "")
    (Htoken : cc_TokenURL (rc_Client (cfg_RTE cfg)) ≠ "") :
  RTEValidate (RTESetDefaults (cfg_RTE cfg)) = None ∧ ∃ err, Load ext local (inr cfg) = inl err.
Proof.
  split.
  - unfold RTESetDefaults. rewrite Hmode, Hpoll. apply RTEValidate_ok. right. by cbn.
  - destruct (Load ext local (inr cfg)) as [err|c] eqn:Hl; [by exists err|].
    apply Load_inr in Hl as (c0 & [= <-] & -> & Hr%RTEValidate_ok & _). cbn in Hr.
    destruct Hr as [[? _]|(_ & ? & _)]; [congruence|lia].
Qed.
End facts.
