(* ===== verification/Rte.v ===== *)
(** * RTE signals: connectors and generator

    Models [rte/] and [rte/generator/]: the payload of the grid operator, its
    validation and conversion, the HTTP handler of the mock server, the choice
    and the timing of a connector, and the generator of synthetic signals.  A
    random draw is an argument; what a handler or the generator does besides
    dispatching is the list of its effects. *)

From S2P Require Import Prelude Num GoTime Model PowerMap Candidates MathExp EqualDispatcher.
From S2P Require Import SmartDispatcher LPDispatcher Tuner Manager ManagerFacts GoText Config.
From stdpp Require Import base gmap strings list.
From Stdlib Require Import ZArith QArith Qabs Qround Lqa Lia Floats.SpecFloat.

#[local] Open Scope string_scope.
#[local] Open Scope list_scope.
#[local] Open Scope Z_scope.

(** ** [Signal] *)

Record Signal (F : Type) := MkRteSignal {
  rs_SignalType : string;
  rs_StartTime : Time;
  rs_EndTime : Time;
  rs_Power : F;
  rs_Meta : gmap string string
}.
Arguments MkRteSignal {F}.
Arguments rs_SignalType {F}.
Arguments rs_StartTime {F}.
Arguments rs_EndTime {F}.
Arguments rs_Power {F}.
Arguments rs_Meta {F}.

(** Prometheus counters and the answer of a handler. *)
Inductive rte_effect :=
| RFailed                           (* s.failed.Inc() *)
| RTotal (signal_type : string)     (* s.total.WithLabelValues(...).Inc() *)
| RCapture (err : string).          (* monitoring *)

Inductive http_answer :=
| HError (code : Z) (msg : string)  (* http.Error *)
| HStatus (code : Z).               (* w.WriteHeader *)

Section signal.
Context {F : Type} `{Num F}.
Implicit Types s : Signal F.

Definition toSignalType s : string + SignalType :=
  let t := rs_SignalType s in
  if bool_decide (t = "FCR") then inr SignalFCR
  else if bool_decide (t ∈ ["aFRR"; "aFRR_UP"; "aFRR_DOWN"]) then inr SignalAFRR
  else if bool_decide (t = "MA") then inr SignalMA
  else if bool_decide (t ∈ ["NEBEF"; "DELESTAGE"]) then inr SignalNEBEF
  else inl ("unknown signal type: " +:+ t).

(** [None] is a nil error. *)
Definition RteValidate s : option string :=
  match toSignalType s with
  | inl err => Some err
  | inr _ =>
    if IsZero (rs_StartTime s) || IsZero (rs_EndTime s) then Some "start_time and end_time required"
    else if negb (After (rs_EndTime s) (rs_StartTime s)) then Some "end_time must be after start_time"
    else if neqb (rs_Power s) n0 then Some "power must be non-zero"
    else None
  end.

Definition ToFlexibility s : string + FlexibilitySignal F :=
  match toSignalType s with
  | inl err => inl err
  | inr st => inr (MkSignal st (rs_Power s) (Sub (rs_EndTime s) (rs_StartTime s)) (rs_StartTime s))
  end.

(** ** The mock server *)

(** The handler of [/rte/signal]; [body] is the decoded payload.  The third
    component is the signal handed to [mgr.Dispatch], with no vehicles. *)
Definition handleSignal (method : string) (body : string + Signal F) :
    http_answer * list rte_effect * option (FlexibilitySignal F) :=
  if negb (bool_decide (method = "POST")) then (HError 405 "method not allowed", [], None) else
  match body with
  | inl err => (HError 400 "bad request", [RFailed; RCapture err], None)
  | inr sig =>
    match RteValidate sig with
    | Some err => (HError 400 err, [RFailed; RCapture err], None)
    | None =>
      match ToFlexibility sig with
      | inl err => (HError 400 err, [RFailed; RCapture err], None)
      | inr fs => (HStatus 200, [RTotal (rs_SignalType sig)], Some fs)
      end
    end
  end.
End signal.

(** ** Connectors *)

Inductive RTEConnector :=
| CMock (addr : string)
| CClient (apiURL : string) (interval : Duration).

Definition NewRTEClient (cfg : RTEClientConfig) : RTEConnector :=
  let n := if cc_PollIntervalSeconds cfg <=? 0 then 60 else cc_PollIntervalSeconds cfg in
  CClient (cc_APIURL cfg) (wrap64 (n * Second)).

Definition NewConnector (cfg : RTEConfig) : RTEConnector :=
  if bool_decide (ToLower (rc_Mode cfg) = "mock") then CMock (rc_MockAddress cfg)
  else NewRTEClient (rc_Client cfg).

(** ** The generator *)

(** Conversion of a floating-point number to an integer: truncation. *)
Class NumTrunc (F : Type) := ntrunc : F → Z.

#[export] Instance NumTrunc_Q : NumTrunc Q := fun x => Z.quot (Qnum x) (Zpos (Qden x)).
#[export] Instance NumTrunc_B64 : NumTrunc spec_float := b64_trunc.

Section generator.
Context {F : Type} `{Num F} `{!NumTrunc F}.
#[local] Open Scope num_scope.
Implicit Types cfg : RTEGeneratorConfig F.

(** [k] is the draw of [rand.Intn(len(SignalTypes))]. *)
Definition randomType cfg (k : nat) : SignalType :=
  match gc_SignalTypes cfg with
  | [] => SignalFCR
  | types =>
    let s := default "" (types !! k) in
    if bool_decide (s = "FCR") then SignalFCR
    else if bool_decide (s ∈ ["aFRR_UP"; "aFRR_DOWN"; "aFRR"]) then SignalAFRR
    else if bool_decide (s = "DELESTAGE") then SignalNEBEF
    else SignalFCR
  end.

(** [1 + (rand.Float64()*2-1)*JitterPct]. *)
Definition jitter cfg (u : F) : F := n1 + (u * (2 // 1) - n1) * gc_JitterPct cfg.

(** [u1] and [u2] are draws of [rand.Float64]. *)
Definition randomFloat cfg (min max u1 u2 : F) : F :=
  if max <=? min then min else
  let f := min + u1 * (max - min) in
  let f := f * jitter cfg u2 in
  let f := if f <? min then min else f in
  if f >? max then max else f.

Definition randomDuration cfg (min max : Z) (u1 u2 : F) : Duration :=
  if (max <=? min)%Z then wrap64 (min * Second) else
  let sec := nofZ min + u1 * nofZ (max - min) in
  let sec := sec * jitter cfg u2 in
  let sec := if sec <? nofZ min then nofZ min else sec in
  let sec := if sec >? nofZ max then nofZ max else sec in
  wrap64 (ntrunc sec * Second).

Definition randomInterval cfg (u1 u2 : F) : Duration :=
  randomDuration cfg (gc_MinIntervalSeconds cfg) (gc_MaxIntervalSeconds cfg) u1 u2.

(** The draws of one signal. *)
Record draws := MkDraws { dw_type : nat; dw_p1 : F; dw_p2 : F; dw_d1 : F; dw_d2 : F }.

Definition Generate cfg (w : draws) (now : Time) : FlexibilitySignal F :=
  MkSignal (randomType cfg (dw_type w))
    (randomFloat cfg (gc_MinPowerKW cfg) (gc_MaxPowerKW cfg) (dw_p1 w) (dw_p2 w))
    (randomDuration cfg (gc_MinDurationSeconds cfg) (gc_MaxDurationSeconds cfg) (dw_d1 w) (dw_d2 w))
    now.
End generator.
Arguments draws : clear implicits.

(** ** Emission *)

(** The recorder and the Prometheus collectors of the generator. *)
Inductive gen_effect (F : Type) :=
| GRecord (s : FlexibilitySignal F)      (* sink.RecordRTESignal *)
| GTotal (signal_type : string)
| GPowerSum (p : F)
| GLastEmit.
Arguments GRecord {F}.
Arguments GTotal {F}.
Arguments GPowerSum {F}.
Arguments GLastEmit {F}.

Section emit.
Context {F : Type} `{Num F} `{!MathExp F} `{!MapRange} (simplex : LPSolver F).

(** [mgr], [bus] and [sink] may be nil; the sink answers with an error or not.
    A Prometheus counter panics when a negative value is added ([None]). *)
Definition emit (fuel : nat) (mgr : option (DispatchManager F)) (bus : bool)
    (sink : option (option go_error)) (env : Env F) (sig : FlexibilitySignal F) :
    option (option (DispatchManager F) * list (effect F) * list (gen_effect F) * option go_error) :=
  '(mgr, eff) ← match mgr with
                | Some m => '(_, m, eff) ← Dispatch simplex fuel m env sig []; Some (Some m, eff)
                | None => Some (None, [])
                end;
  let eff := eff ++ (if bus then [ESignal sig] else []) in
  let counters := [GTotal (SignalType_String (sig_Type sig)); GPowerSum (PowerKW sig); GLastEmit] in
  match sink with
  | Some (Some err) => Some (mgr, eff, [GRecord sig], Some err)
  | Some None =>
    if nltb (PowerKW sig) n0 then None else Some (mgr, eff, GRecord sig :: counters, None)
  | None => if nltb (PowerKW sig) n0 then None else Some (mgr, eff, counters, None)
  end.

(** The signal events among the effects. *)
Definition signals (eff : list (effect F)) : list (FlexibilitySignal F) :=
  omap (fun e => match e with ESignal s => Some s | _ => None end) eff.

Lemma signals_app a b : signals (a ++ b) = signals a ++ signals b.
Proof. apply omap_app. Qed.

Lemma Dispatch_signals fuel m env sig vehicles res m' eff :
  Dispatch simplex fuel m env sig vehicles = Some (res, m', eff) →
  signals eff = if m_bus m then [sig] else [].
Proof.
  intros Hd. unfold signals. erewrite Dispatch_effects by (done || by intros []).
  assert (∀ l : list (string * F), concat ((fun idp => omap (fun e => match e with ESignal s => Some s | _ => None end)
    (order_effects m env (dr_Scores res) n0 sig idp)) <$> l) = []) as ->.
  { induction l as [|[id p] l IH]; [done|]. rewrite fmap_cons. cbn [concat]. rewrite IH, app_nil_r.
    unfold order_effects, bus_event. destruct (sendAndWait m env id p) as [[[o ack] d] err].
    by destruct (m_bus m), (sink_has _ _). }
  by rewrite app_nil_r.
Qed.

(** Every emitted signal is announced twice when the manager and the generator
    share a bus: once by [Dispatch], once by the generator itself. *)
Theorem emit_announces_twice fuel m sink env sig mgr' eff geff err
    (Hbus : m_bus m = true)
    (Hemit : emit fuel (Some m) true sink env sig = Some (mgr', eff, geff, err)) :
  signals eff = [sig; sig].
Proof.
  unfold emit in Hemit. cbn [mbind option_bind] in Hemit.
  destruct (Dispatch _ _ _ _ _ _) as [[[res m'] e]|] eqn:Hd; [|done].
  apply Dispatch_signals in Hd. rewrite Hbus in Hd. cbn [mbind option_bind] in Hemit.
  assert (eff = e ++ [ESignal sig]) as ->.
  { destruct sink as [[|]|]; [by injection Hemit as _ <- _ _|..];
      (destruct (nltb _ _); [done|]; by injection Hemit as _ <- _ _). }
  by rewrite signals_app, Hd.
Qed.
End emit.

(** ** The handler *)

Section handler.
Context {F : Type} `{Num F}.

Lemma RteValidate_None (s : Signal F) :
  RteValidate s = None →
  ∃ st, toSignalType s = inr st ∧ t_ns (rs_StartTime s) < t_ns (rs_EndTime s) ∧
    neqb (rs_Power s) n0 = false.
Proof.
  unfold RteValidate. destruct (toSignalType s) as [|st]; [done|].
  destruct (_ || _); [done|]. destruct (After _ _) eqn:Ha; [|done]. cbn [negb].
  destruct (neqb _ _) eqn:Hp; [done|]. intros _. exists st. unfold After in Ha.
  split_and!; [done|lia|done].
Qed.

Lemma Sub_pos t u : t_ns u < t_ns t → 0 < Sub t u.
Proof. intros Htu. unfold Sub. repeat case_match; unfold min_int64, max_int64 in *; lia. Qed.

(** C34. The endpoint answers 200 exactly when it dispatches; it then dispatches one
    signal with the power of the payload, which is not zero, its start time, a
    positive duration, and one of the four grid services, and counts the
    payload once.  A rejected payload is counted as failed exactly once, a
    wrong method not at all.  The conversion after a successful validation
    never fails. *)
Theorem handleSignal_spec method (body : string + Signal F) answer eff out
    (Hrun : handleSignal method body = (answer, eff, out)) :
  match out with
  | Some fs => ∃ s, body = inr s ∧ method = "POST" ∧ RteValidate s = None ∧
      answer = HStatus 200 ∧ eff = [RTotal (rs_SignalType s)] ∧
      PowerKW fs = rs_Power s ∧ neqb (PowerKW fs) n0 = false ∧
      Timestamp fs = rs_StartTime s ∧ 0 < sig_Duration fs ∧
      sig_Type fs ∈ [SignalFCR; SignalAFRR; SignalMA; SignalNEBEF]
  | None => (∃ code msg, answer = HError code msg ∧
      (if bool_decide (method = "POST")
       then code = 400 ∧ ∃ err, eff = [RFailed; RCapture err]
       else code = 405 ∧ eff = [])) ∧
      (method = "POST" → ∀ s, body = inr s → RteValidate s ≠ None)
  end.
Proof.
  unfold handleSignal in Hrun. destruct (bool_decide_reflect (method = "POST")) as [Hm|Hm].
  2: { injection Hrun as <- <- <-. split; [|done]. eauto. }
  cbn [negb] in Hrun. destruct body as [err|s].
  { injection Hrun as <- <- <-. split; [eauto 10|]. done. }
  destruct (RteValidate s) as [err|] eqn:Hv.
  { injection Hrun as <- <- <-. split; [eauto 10|]. intros _ s' [= <-]. congruence. }
  pose proof Hv as (st & Hst & Ht & Hp)%RteValidate_None. unfold ToFlexibility in Hrun.
  rewrite Hst in Hrun. injection Hrun as <- <- <-. exists s. cbn.
  split_and!; try done; [by apply Sub_pos|].
  unfold toSignalType in Hst. repeat case_bool_decide; simplify_eq; set_solver.
Qed.
End handler.

(** The generator names signals as the connector does, except the balancing
    mechanism and NEBEF, which it turns into FCR. *)
Theorem randomType_agrees {F} `{Num F} (cfg : RTEGeneratorConfig F) k (s : Signal F) st
    (Hk : gc_SignalTypes cfg !! k = Some (rs_SignalType s)) (Hst : toSignalType s = inr st) :
  (randomType cfg k = st ↔ rs_SignalType s ∉ ["MA"; "NEBEF"]) ∧
  (rs_SignalType s ∈ ["MA"; "NEBEF"] → randomType cfg k = SignalFCR).
Proof.
  assert (randomType cfg k =
    if bool_decide (rs_SignalType s ∈ ["aFRR_UP"; "aFRR_DOWN"; "aFRR"]) then SignalAFRR
    else if bool_decide (rs_SignalType s = "DELESTAGE") then SignalNEBEF else SignalFCR) as ->.
  { unfold randomType. destruct (gc_SignalTypes cfg); [done|]. rewrite Hk. cbn [default from_option id].
    case_bool_decide as Hf; [|done]. by rewrite Hf. }
  unfold toSignalType in Hst. revert Hst. generalize (rs_SignalType s). intros t Hst.
  assert (t ∈ ["FCR"; "aFRR"; "aFRR_UP"; "aFRR_DOWN"; "MA"; "NEBEF"; "DELESTAGE"]) as Hin.
  { repeat case_bool_decide; simplify_eq; set_solver. }
  repeat (apply elem_of_cons in Hin as [->|Hin]; [vm_compute in Hst; injection Hst as <-;
    vm_compute; split; [split|]; intros; try done; set_solver|]).
  by apply not_elem_of_nil in Hin.
Qed.

(** ** Bounds of the generator *)

(** In every arithmetic the power is neither below [min] nor above [max]. *)
Lemma randomFloat_bounds {F} `{NumOrder F} (cfg : RTEGeneratorConfig F) min max u1 u2 :
  nltb max min = false →
  nltb (randomFloat cfg min max u1 u2) min = false ∧
  nltb max (randomFloat cfg min max u1 u2) = false.
Proof.
  intros Hord. unfold randomFloat. destruct (nleb max min) eqn:Hle; [by rewrite nltb_irrefl|].
  by apply clamp_bounds.
Qed.

Section exact_generator.
#[local] Open Scope Q_scope.

Lemma ntrunc_between (x : Q) (a b : Z) :
  (0 <= a)%Z → inject_Z a <= x <= inject_Z b → (a <= ntrunc x <= b)%Z.
Proof.
  intros Ha [Hl Hu]. assert (0 <= x) as Hx.
  { apply Qle_trans with (inject_Z a); [|done]. change 0 with (inject_Z 0). by rewrite <- Zle_Qle. }
  assert (ntrunc x = Qfloor x) as ->.
  { destruct x as [n d]. unfold ntrunc, NumTrunc_Q, Qfloor. cbn [Qnum Qden]. apply Z.quot_div_nonneg; [|lia].
    unfold Qle in Hx. cbn in Hx. lia. }
  split.
  - rewrite <- (Qfloor_Z a). by apply Qfloor_resp_le.
  - rewrite <- (Qfloor_Z b). by apply Qfloor_resp_le.
Qed.

Lemma randomDuration_bounds (cfg : RTEGeneratorConfig Q) min max u1 u2 :
  (0 < min <= max)%Z → (max * Second <= max_int64)%Z →
  ∃ s, randomDuration cfg min max u1 u2 = (s * Second)%Z ∧ (min <= s <= max)%Z.
Proof.
  intros Hmin Hmax.
  assert (∀ s, (min <= s <= max)%Z → wrap64 (s * Second) = (s * Second)%Z) as Hw.
  { intros s Hs. apply wrap64_id. unfold int64, min_int64, max_int64, Second, Millisecond, Nanosecond in *. lia. }
  unfold randomDuration. destruct (Z.leb_spec max min); [exists min; rewrite Hw; lia|]. num_Q.
  set (f := ((_ + _) * _)%Q).
  set (sec := if Qltb (inject_Z max) _ then inject_Z max else _).
  assert (inject_Z min <= sec <= inject_Z max) as Hsec.
  { assert (inject_Z min < inject_Z max) by (by rewrite <- Zlt_Qlt). unfold sec. repeat q_case; lra. }
  pose proof (ntrunc_between sec min max ltac:(lia) Hsec). exists (ntrunc sec). by rewrite Hw.
Qed.

(** With a configuration [Load] accepts, whose seconds fit a [Duration], every
    generated signal has a power in [MinPowerKW, MaxPowerKW], lasts a whole
    number of seconds in the configured range, and the interval to it is in
    the configured range, whatever is drawn. *)
Theorem Generate_bounds (cfg : Config Q) (w : draws Q) now u1 u2
    (Hok : config_ok cfg)
    (Hdur : (gc_MaxDurationSeconds (cfg_RTEGenerator cfg) * Second <= max_int64)%Z)
    (Hint : (gc_MaxIntervalSeconds (cfg_RTEGenerator cfg) * Second <= max_int64)%Z) :
  let g := cfg_RTEGenerator cfg in
  let sig := Generate g w now in
  gc_MinPowerKW g <= PowerKW sig <= gc_MaxPowerKW g ∧
  (∃ s, sig_Duration sig = (s * Second)%Z ∧
        (gc_MinDurationSeconds g <= s <= gc_MaxDurationSeconds g)%Z) ∧
  (∃ s, randomInterval g u1 u2 = (s * Second)%Z ∧
        (gc_MinIntervalSeconds g <= s <= gc_MaxIntervalSeconds g)%Z) ∧
  Timestamp sig = now.
Proof.
  destruct Hok as [_ _ _ Hi Hd Hp _ _]. cbn zeta.
  destruct (randomFloat_bounds (cfg_RTEGenerator cfg) _ _ (dw_p1 w) (dw_p2 w) Hp) as [Hl Hu].
  num_Q. q_bool. unfold Generate; cbn [PowerKW sig_Duration Timestamp].
  split_and!; [lra|lra|by apply randomDuration_bounds..|done].
Qed.
End exact_generator.
