(* ===== verification/Telemetry.v ===== *)
(** * Telemetry

    Models [infra/telemetry/manager.go]: the decoding of a state message and one
    poll of the fleet.  The answers of the JSON decoder, of discovery and of the
    clock are arguments; a poll is given the events its [select] picks, in order.
    [TelemetryRun] puts the polls together. *)

From S2P Require Import Prelude Num GoTime GoText Model Config.
From stdpp Require Import base gmap strings list.
From Stdlib Require Import ZArith QArith Lqa Lia Ascii.

#[local] Open Scope string_scope.
#[local] Open Scope list_scope.
#[local] Open Scope Z_scope.

(** The decoded payload; nil pointers are [None]. *)
Record state_msg (F : Type) := MkMsg {
  tm_VehicleID : string;
  tm_SoC : F;
  tm_Available : option bool;
  tm_Charging : option bool;
  tm_PowerKW : F;
  tm_TS : option Z
}.
Arguments MkMsg {F}.
Arguments tm_VehicleID {F}.
Arguments tm_SoC {F}.
Arguments tm_Available {F}.
Arguments tm_Charging {F}.
Arguments tm_PowerKW {F}.
Arguments tm_TS {F}.

Record VehicleStateEvent (F : Type) := MkStateEvent {
  se_Vehicle : Vehicle F;
  se_FleetID : string;
  se_Context : string;
  se_Component : string;
  se_Time : Time
}.
Arguments MkStateEvent {F}.
Arguments se_Vehicle {F}.
Arguments se_FleetID {F}.
Arguments se_Context {F}.
Arguments se_Component {F}.
Arguments se_Time {F}.

(** The part of a topic after its last slash: the last element of
    [strings.Split(topic, "/")]. *)
Fixpoint extractID_go (topic acc : string) : string :=
  match topic with
  | EmptyString => acc
  | String a rest =>
    if bool_decide (a = "/"%char) then extractID_go rest "" else extractID_go rest (acc +:+ String a "")
  end.

Definition extractID (topic : string) : string := extractID_go topic "".

(** [time.Unix(ts, 0)] in the local zone. *)
Definition FromUnix (local ts : Z) : Time := MkTime (wrap64 (ts + 62135596800) * Second) local.

Section process.
Context {F : Type} `{Num F}.
#[local] Open Scope num_scope.

(** [sink] is [false] for a nil sink; the error is that of the decoder. *)
Definition process (sink : bool) (local : Z) (payload : string + state_msg F)
    (topic context : string) (now : Time) : option string * list (VehicleStateEvent F) :=
  match payload with
  | inl err => (Some err, [])
  | inr msg =>
    let id := if bool_decide (tm_VehicleID msg = "") then extractID topic else tm_VehicleID msg in
    let ts := match tm_TS msg with Some ts => FromUnix local ts | None => now end in
    let soc := if tm_SoC msg <? n0 then n0 else if tm_SoC msg >? n1 then n1 else tm_SoC msg in
    let v := MkVehicle id soc false (tm_PowerKW msg) n0 (default false (tm_Available msg))
               (default false (tm_Charging msg)) false time_zero n0 (MkUserProfile time_zero []) ∅ ""
               n0 n0 in
    (None, if sink then [MkStateEvent v "" context "telemetry" ts] else [])
  end.

Definition onPush (sink : bool) (local : Z) (payload : string + state_msg F) (topic : string)
    (now : Time) : list (VehicleStateEvent F) :=
  (process sink local payload topic "push" now).2.

(** ** One poll *)

Record telemetryMessage := MkTelemetry {
  tl_VehicleID : string;
  tl_Payload : string + state_msg F;
  tl_Arrived : Time
}.

(** What [onResponse] puts into the channel. *)
Definition onResponse (topic : string) (payload : string + state_msg F) (now : Time) : telemetryMessage :=
  MkTelemetry (extractID topic) payload now.

(** The case the [select] of [doPoll] takes. *)
Inductive poll_event :=
| PResponse (resp : telemetryMessage) (now : Time)
| PTimeout
| PDone.

(** What a poll adds to [pollResp] and [pollTimeout], observes as latencies and
    writes into [lastCollect], and what reaches the sink. *)
Record poll_result := MkPoll {
  pr_responses : Z;
  pr_timeouts : Z;
  pr_latency : list Duration;
  pr_lastCollect : option Time;
  pr_states : list (VehicleStateEvent F)
}.

(** The expected identifiers; [disc] is [None] for a nil discovery. *)
Definition poll_expected (disc : option (string + list (Vehicle F))) : gset string :=
  match disc with
  | Some (inr vs) => list_to_set (ID <$> vs)
  | _ => ∅
  end.

(** A response is taken from the channel. *)
Definition poll_response (sink : bool) (local : Z) (start : Time) (expected : gset string)
    (r : poll_result) (resp : telemetryMessage) (now : Time) : gset string * poll_result :=
  let '(err, states) := process sink local (tl_Payload resp) "" "poll" now in
  match err with
  | Some _ =>
    (expected, MkPoll (pr_responses r) (pr_timeouts r) (pr_latency r) (pr_lastCollect r)
                 (pr_states r ++ states))
  | None =>
    (expected ∖ {[tl_VehicleID resp]},
     MkPoll (pr_responses r + 1)%Z (pr_timeouts r) (pr_latency r ++ [Sub now start]) (Some now)
       (pr_states r ++ states))
  end.

(** The timeout. *)
Definition poll_timeout (expected : gset string) (r : poll_result) : poll_result :=
  MkPoll (pr_responses r) (pr_timeouts r + Z.of_nat (size expected))%Z (pr_latency r)
    (pr_lastCollect r) (pr_states r).

(** [None] while neither the timeout nor the cancellation has come. *)
Fixpoint poll_loop (sink : bool) (local : Z) (start : Time) (expected : gset string) (r : poll_result)
    (events : list poll_event) : option poll_result :=
  match events with
  | [] => None
  | PTimeout :: _ => Some (poll_timeout expected r)
  | PDone :: _ => Some r
  | PResponse resp now :: events =>
    let '(expected, r) := poll_response sink local start expected r resp now in
    poll_loop sink local start expected r events
  end.

Definition doPoll (sink : bool) (local : Z) (start : Time) (disc : option (string + list (Vehicle F)))
    (events : list poll_event) : option poll_result :=
  poll_loop sink local start (poll_expected disc) (MkPoll 0 0 [] None []) events.
End process.
Arguments telemetryMessage : clear implicits.
Arguments poll_event : clear implicits.
Arguments poll_result : clear implicits.

(** ** Topics *)

Lemma extractID_go_prefix p s acc : extractID_go (p +:+ String "/" s) acc = extractID_go s "".
Proof.
  revert acc. induction p as [|a p IH]; intros acc.
  - change ("" +:+ String "/" s) with (String "/" s). cbn [extractID_go]. by rewrite bool_decide_eq_true_2.
  - change (String a p +:+ String "/" s) with (String a (p +:+ String "/" s)). cbn [extractID_go].
    by case_bool_decide; rewrite IH.
Qed.

Lemma extractID_go_id s acc : no_slash s → extractID_go s acc = acc +:+ s.
Proof.
  revert acc. induction s as [|a s IH]; intros acc Hs; cbn [extractID_go].
  - by rewrite string_app_nil.
  - unfold no_slash in Hs. cbn in Hs. rewrite not_elem_of_cons in Hs. destruct Hs as [Ha Hs].
    rewrite bool_decide_eq_false_2 by done.
    rewrite IH by done. by rewrite string_app_assoc.
Qed.

Lemma extractID_topic prefix id : no_slash id → extractID (prefix +:+ String "/" id) = id.
Proof. intros Hid. unfold extractID. rewrite extractID_go_prefix. by rewrite extractID_go_id. Qed.

(** ** Recorded states *)

(** In every arithmetic, binary64 included: a message that decodes is recorded
    once, with a SoC that is neither below 0 nor above 1, under the identifier
    of its payload or else of its topic; one that does not decode is reported
    and not recorded. *)
Theorem process_spec {F} `{NumOrder F} local (payload : string + state_msg F) topic context now
    prefix id (Htopic : topic = prefix +:+ String "/" id) (Hid : no_slash id) :
  match payload with
  | inl err => process true local payload topic context now = (Some err, [])
  | inr msg => ∃ ev, process true local payload topic context now = (None, [ev]) ∧
      nltb (SoC (se_Vehicle ev)) n0 = false ∧ nltb n1 (SoC (se_Vehicle ev)) = false ∧
      (nltb (tm_SoC msg) n0 = false → nltb n1 (tm_SoC msg) = false → SoC (se_Vehicle ev) = tm_SoC msg) ∧
      ID (se_Vehicle ev) = (if bool_decide (tm_VehicleID msg = "") then id else tm_VehicleID msg)
  end.
Proof.
  subst topic. destruct payload as [err|msg]; [done|]. unfold process. eexists. split; [done|].
  cbn [se_Vehicle SoC ID]. rewrite extractID_topic by done.
  assert (nltb (n1 : F) n0 = false) as H10 by auto with v2g.
  destruct (nltb (tm_SoC msg) n0) eqn:Hl; [by rewrite nltb_irrefl, H10|].
  destruct (nltb n1 (tm_SoC msg)) eqn:Hu; [by rewrite nltb_irrefl, H10|]. done.
Qed.

(** ** Polls *)

Section polls.
Context {F : Type} `{Num F}.

(** A response and the time at which it is taken. *)
Abbreviation taken := (telemetryMessage F * Time)%type.

Definition as_event (x : taken) : poll_event F := PResponse x.1 x.2.

Definition decodes (resp : telemetryMessage F) : bool :=
  match tl_Payload resp with inr _ => true | inl _ => false end.

(** The responses that decode. *)
Definition answered (rs : list taken) : list taken := List.filter (fun x => decodes x.1) rs.

(** Where a poll stands after some responses. *)
Definition poll_after sink local start expected r (rs : list taken) : gset string * poll_result F :=
  foldl (fun st x => poll_response sink local start st.1 st.2 x.1 x.2) (expected, r) rs.

Lemma poll_loop_after sink local start expected r (rs : list taken) tail :
  poll_loop sink local start expected r ((as_event <$> rs) ++ tail) =
  let st := poll_after sink local start expected r rs in poll_loop sink local start st.1 st.2 tail.
Proof.
  revert expected r. induction rs as [|[resp now] rs IH]; intros expected r; [done|].
  rewrite fmap_cons. cbn [app as_event poll_loop fst snd poll_after foldl].
  destruct (poll_response _ _ _ _ _ _ _) as [e1 r1]. apply IH.
Qed.

Lemma poll_response_cases sink local start expected r resp now :
  ∃ states last, poll_response sink local start expected r resp now =
    (if decodes resp then expected ∖ {[tl_VehicleID resp]} else expected,
     MkPoll (pr_responses r + if decodes resp then 1 else 0) (pr_timeouts r)
       (pr_latency r ++ if decodes resp then [Sub now start] else []) last (pr_states r ++ states)) ∧
    length states = if decodes resp && sink then 1%nat else 0%nat.
Proof.
  unfold poll_response, process, decodes. destruct (tl_Payload resp) as [err|msg].
  - exists [], (pr_lastCollect r). by rewrite Z.add_0_r, !app_nil_r.
  - eexists _, _. split; [done|]. by destruct sink.
Qed.

Lemma poll_after_spec sink local start expected r (rs : list taken) :
  let st := poll_after sink local start expected r rs in
  st.1 = expected ∖ list_to_set ((fun x => tl_VehicleID x.1) <$> answered rs) ∧
  pr_responses st.2 = pr_responses r + Z.of_nat (length (answered rs)) ∧
  pr_timeouts st.2 = pr_timeouts r ∧
  pr_latency st.2 = pr_latency r ++ ((fun x => Sub x.2 start) <$> answered rs) ∧
  length (pr_states st.2) = (length (pr_states r) + if sink then length (answered rs) else 0)%nat.
Proof.
  revert expected r. induction rs as [|[resp now] rs IH]; intros expected r.
  { cbn. rewrite difference_empty_L, app_nil_r. destruct sink; split_and!; try done; lia. }
  cbn zeta in IH. unfold poll_after in *. cbn [foldl fst snd].
  assert (answered ((resp, now) :: rs) = if decodes resp then (resp, now) :: answered rs else answered rs) as -> by done.
  destruct (poll_response_cases sink local start expected r resp now) as (states & last & -> & Hs).
  match goal with |- context [foldl _ (?e, ?r') rs] => destruct (IH e r') as (-> & -> & -> & -> & ->) end.
  cbn [pr_responses pr_timeouts pr_latency pr_states]. rewrite length_app, Hs.
  destruct (decodes resp), sink; rewrite <- ?app_assoc; split_and!; try done; cbn; try lia; set_solver.
Qed.

(** A poll that runs into its timeout counts every decodable response once and
    every discovered vehicle that sent none as a timeout; a cancelled poll
    counts no timeout; and the poll is not over before one of the two. *)
Theorem doPoll_counts sink local start vs (rs : list taken) rest :
  let expected : gset string := list_to_set (ID <$> vs) in
  let silent := expected ∖ list_to_set ((fun x => tl_VehicleID x.1) <$> answered rs) in
  (∃ r, doPoll sink local start (Some (inr vs)) ((as_event <$> rs) ++ PTimeout :: rest) = Some r ∧
     pr_responses r = Z.of_nat (length (answered rs)) ∧ pr_timeouts r = Z.of_nat (size silent) ∧
     pr_latency r = (fun x => Sub x.2 start) <$> answered rs ∧
     length (pr_states r) = if sink then length (answered rs) else 0%nat) ∧
  (∃ r, doPoll sink local start (Some (inr vs)) ((as_event <$> rs) ++ PDone :: rest) = Some r ∧
     pr_responses r = Z.of_nat (length (answered rs)) ∧ pr_timeouts r = 0) ∧
  doPoll sink local start (Some (inr vs)) (as_event <$> rs) = None.
Proof.
  cbn zeta. unfold doPoll. cbn [poll_expected].
  destruct (poll_after_spec sink local start (list_to_set (ID <$> vs)) (MkPoll 0 0 [] None []) rs)
    as (E & R & T & L & S). split_and!.
  - rewrite poll_loop_after. cbn [poll_loop]. eexists. split; [done|]. unfold poll_timeout. cbn.
    by rewrite E, R, T, L, S.
  - rewrite poll_loop_after. cbn [poll_loop]. eexists. split; [done|]. by rewrite R, T.
  - by rewrite <- (app_nil_r (as_event <$> rs)), poll_loop_after.
Qed.

(** The identifier in the topic of a polled response is not used for the
    recorded state: a response without [vehicle_id] is recorded for the empty
    identifier, although the poll knows who answered. *)
Theorem poll_drops_topic_id local start vs topic (msg : state_msg F) now
    (Hid : tm_VehicleID msg = "") :
  (∃ r ev, doPoll true local start (Some (inr vs)) [PResponse (onResponse topic (inr msg) now) now; PDone]
         = Some r ∧ pr_states r = [ev] ∧ ID (se_Vehicle ev) = "") ∧
  (∃ ev, onPush true local (inr msg) topic now = [ev] ∧ ID (se_Vehicle ev) = extractID topic).
Proof.
  unfold doPoll, onPush, poll_loop, poll_response, process, onResponse. cbn -[extractID]. rewrite Hid.
  split; [eexists _, _|eexists]; (split; [done|]); done.
Qed.
End polls.
