(* ===== verification/TelemetryRun.v ===== *)
(** * The telemetry manager, running

    Models the life of the telemetry manager of [infra/telemetry/manager.go]:
    [Start] with its subscriptions, the callbacks that put responses into the
    channel [respCh] of capacity 100, and the goroutine of [pollLoop] that takes
    them out while a poll runs.  A run is a sequence of events in the order in
    which they happen, so theorems about runs hold of every interleaving of the
    broker's callbacks with the polls.  A callback whose send finds the channel
    full waits; waiting senders are served in the order they came.

    The refinement theorem says that a run is a sequence of the polls of
    [Telemetry] on consecutive pieces of the stream of responses. *)

From S2P Require Import Prelude Num GoTime GoText Model Config Telemetry.
From stdpp Require Import base gmap strings list.
From Stdlib Require Import ZArith Lia.

#[local] Open Scope Z_scope.

(** ** [Start] *)

(** What [Start] does before it waits for the context: the topics it subscribes
    to, the errors it logs, whether it starts the polls; a subscription that
    fails ([sub_err]) is logged and changes nothing else. *)
Definition TelemetryStart (cfg : TelemetryConfig) (sub_err : string → option string) :
    list string * list string * bool :=
  let mode := ToLower (tc_Mode cfg) in
  let mode := if bool_decide (mode = "") then "push" else mode in
  let push := bool_decide (mode = "push") || bool_decide (mode = "hybrid") in
  let pull := bool_decide (mode = "pull") || bool_decide (mode = "hybrid") in
  let state := TrimSlash (tc_StatePrefix cfg) +:+ "/+" in
  let resp := TrimSlash (tc_ResponsePrefix cfg) +:+ "/+" in
  let log what topic := match sub_err topic with
                        | Some err => [what +:+ err]
                        | None => []
                        end in
  ((if push then [state] else []) ++ (if pull then [resp] else []),
   (if push then log "subscribe state: " state else []) ++
   (if pull then log "subscribe response: " resp else []),
   pull).

(** After the context is done: [Disconnect], with its quiesce time in
    milliseconds, if the client is still connected. *)
Definition StartExit (connected : bool) : option Z := if connected then Some 250 else None.

(** The period of the ticker of [pollLoop] and the timeout of a poll. *)
Definition poll_period (cfg : TelemetryConfig) : Duration := wrap64 (Interval cfg * Second).
Definition poll_limit (cfg : TelemetryConfig) : Duration := wrap64 (Timeout cfg * Second).

(** [time.NewTicker] panics for a period that is not positive.  The defaults
    exclude it for every configuration whose seconds fit a [Duration]; beyond
    that the product overflows. *)
Theorem poll_timers_positive cfg
    (Hi : tc_IntervalSeconds cfg * Second <= max_int64) (Ht : tc_TimeoutSeconds cfg * Second <= max_int64) :
  0 < poll_period cfg ∧ 0 < poll_limit cfg.
Proof.
  assert (∀ n d, n * Second <= max_int64 → 0 < d <= 10 →
    0 < wrap64 ((if n <=? 0 then d else n) * Second)) as Hpos.
  { intros n d Hn Hd. rewrite wrap64_id; destruct (Z.leb_spec n 0);
      unfold int64, min_int64, max_int64, Second, Millisecond, Nanosecond in *; lia. }
  split; apply Hpos; [done|lia|done|lia].
Qed.

Example poll_period_overflows :
  poll_period (MkTelemetryConfig true "pull" 9223372037 "" "" "" 0) <? 0 = true.
Proof. reflexivity. Qed.

Section running.
Context {F : Type} `{Num F} (sink : bool) (local : Z).

(** [make(chan telemetryMessage, 100)]. *)
Definition respCh_cap : nat := 100.

Record TelemetryManager := MkTel {
  te_respCh : list (telemetryMessage F);      (* the buffer of the channel *)
  te_senders : list (telemetryMessage F);     (* callbacks that wait in their send *)
  te_polling : option (Time * gset string);   (* the start of the poll and [expected] *)
  te_cancelled : bool;                        (* the context is done *)
  te_stopped : bool;                          (* [pollLoop] has returned *)
  te_pollReq : Z;
  te_total : poll_result F;                   (* the other collectors, and the polled states *)
  te_pushed : list (VehicleStateEvent F)      (* the states [onPush] recorded *)
}.

Definition tel_init : TelemetryManager :=
  MkTel [] [] None false false 0 (MkPoll 0 0 [] None []) [].

(** [m.respCh <- msg]. *)
Definition ch_send (msg : telemetryMessage F) (m : TelemetryManager) : TelemetryManager :=
  if Nat.ltb (length (te_respCh m)) respCh_cap
  then MkTel (te_respCh m ++ [msg]) (te_senders m) (te_polling m) (te_cancelled m) (te_stopped m)
         (te_pollReq m) (te_total m) (te_pushed m)
  else MkTel (te_respCh m) (te_senders m ++ [msg]) (te_polling m) (te_cancelled m) (te_stopped m)
         (te_pollReq m) (te_total m) (te_pushed m).

(** [<-m.respCh]: a waiting sender moves up. *)
Definition ch_recv (m : TelemetryManager) : option (telemetryMessage F * TelemetryManager) :=
  match te_respCh m with
  | [] => None
  | msg :: buf =>
    Some (msg, MkTel (buf ++ take 1 (te_senders m)) (drop 1 (te_senders m)) (te_polling m)
                 (te_cancelled m) (te_stopped m) (te_pollReq m) (te_total m) (te_pushed m))
  end.

Definition set_poll (p : option (Time * gset string)) (total : poll_result F) (m : TelemetryManager) :
    TelemetryManager :=
  MkTel (te_respCh m) (te_senders m) p (te_cancelled m) (te_stopped m) (te_pollReq m) total (te_pushed m).

Inductive tel_event :=
| TArrive (topic : string) (payload : string + state_msg F) (now : Time)    (* onResponse *)
| TPush (topic : string) (payload : string + state_msg F) (now : Time)      (* onPush *)
| TTick (disc : option (string + list (Vehicle F))) (start : Time)          (* doPoll begins *)
| TReceive (now : Time)                                                     (* doPoll takes a response *)
| TTimeout                                                                  (* the timer of doPoll *)
| TCancel                                                                   (* the context is cancelled *)
| TReturn.                                                                  (* a select takes ctx.Done() *)

(** [None]: the event cannot happen in this state. *)
Definition tel_step (m : TelemetryManager) (e : tel_event) : option TelemetryManager :=
  match e with
  | TArrive topic payload now => Some (ch_send (onResponse topic payload now) m)
  | TPush topic payload now =>
    Some (MkTel (te_respCh m) (te_senders m) (te_polling m) (te_cancelled m) (te_stopped m)
            (te_pollReq m) (te_total m) (te_pushed m ++ onPush sink local payload topic now))
  | TTick disc start =>
    match te_polling m, te_stopped m with
    | None, false =>
      Some (MkTel (te_respCh m) (te_senders m) (Some (start, poll_expected disc)) (te_cancelled m)
              (te_stopped m) (te_pollReq m + 1) (te_total m) (te_pushed m))
    | _, _ => None
    end
  | TReceive now =>
    match te_polling m with
    | None => None
    | Some (start, expected) =>
      '(msg, m) ← ch_recv m;
      let '(expected, total) := poll_response sink local start expected (te_total m) msg now in
      Some (set_poll (Some (start, expected)) total m)
    end
  | TTimeout =>
    match te_polling m with
    | None => None
    | Some (_, expected) => Some (set_poll None (poll_timeout expected (te_total m)) m)
    end
  | TCancel =>
    Some (MkTel (te_respCh m) (te_senders m) (te_polling m) true (te_stopped m) (te_pollReq m)
            (te_total m) (te_pushed m))
  | TReturn =>
    if negb (te_cancelled m) || te_stopped m then None else
    match te_polling m with
    | Some _ => Some (set_poll None (te_total m) m)
    | None =>
      Some (MkTel (te_respCh m) (te_senders m) None (te_cancelled m) true (te_pollReq m)
              (te_total m) (te_pushed m))
    end
  end.

Fixpoint tel_run (m : TelemetryManager) (events : list tel_event) : option TelemetryManager :=
  match events with
  | [] => Some m
  | e :: events => m' ← tel_step m e; tel_run m' events
  end.

Lemma tel_run_snoc m evs e m' :
  tel_run m (evs ++ [e]) = Some m' ↔ ∃ m1, tel_run m evs = Some m1 ∧ tel_step m1 e = Some m'.
Proof.
  revert m. induction evs as [|e0 evs IH]; intros m; cbn [app tel_run].
  - split; [|by intros (? & [= <-] & ->)]. destruct (tel_step m e) as [m1|] eqn:Hs; [|done].
    cbn. intros [= ->]. eauto.
  - destruct (tel_step m e0) as [m1|]; cbn [mbind option_bind]; [apply IH|].
    split; [done|]. by intros (? & ? & _).
Qed.

(** ** The channel *)

(** The channel holds at most its capacity, and a callback waits only if it is
    full. *)
Definition ch_ok (m : TelemetryManager) : Prop :=
  (length (te_respCh m) ≤ respCh_cap)%nat ∧
  (te_senders m ≠ [] → length (te_respCh m) = respCh_cap).

(** All responses that were not taken. *)
Definition pending (m : TelemetryManager) : list (telemetryMessage F) := te_respCh m ++ te_senders m.

Lemma ch_send_ok msg m : ch_ok m → ch_ok (ch_send msg m) ∧ pending (ch_send msg m) = pending m ++ [msg].
Proof.
  intros [Hle Hfull]. unfold ch_send, ch_ok, pending. destruct (Nat.ltb_spec (length (te_respCh m)) respCh_cap).
  - destruct (te_senders m) eqn:Hs; [|specialize (Hfull ltac:(done)); lia]. cbn.
    rewrite !app_nil_r, length_app. cbn. split; [split; [lia|done]|done].
  - cbn. rewrite app_assoc. split; [split; [done|lia]|done].
Qed.

Lemma ch_recv_ok m msg m' :
  ch_ok m → ch_recv m = Some (msg, m') →
  ch_ok m' ∧ pending m = msg :: pending m' ∧ te_total m' = te_total m ∧ te_pollReq m' = te_pollReq m.
Proof.
  intros [Hle Hfull]. unfold ch_recv, ch_ok, pending. destruct (te_respCh m) as [|x buf]; [done|].
  intros [= -> <-]. cbn. destruct (te_senders m) as [|s ss]; cbn in *.
  - rewrite !app_nil_r. split_and!; try done; lia.
  - specialize (Hfull ltac:(done)). rewrite take_0, drop_0, length_app, <- app_assoc. cbn.
    split_and!; intros; try done; lia.
Qed.

(** ** Runs as sequences of polls *)

(** Results of consecutive polls put together. *)
Definition poll_add (r r' : poll_result F) : poll_result F :=
  MkPoll (pr_responses r + pr_responses r') (pr_timeouts r + pr_timeouts r')
    (pr_latency r ++ pr_latency r')
    (match pr_lastCollect r' with Some t => Some t | None => pr_lastCollect r end)
    (pr_states r ++ pr_states r').

Definition poll_zero : poll_result F := MkPoll 0 0 [] None [].

Lemma poll_add_zero r : poll_add r poll_zero = r.
Proof. destruct r. unfold poll_add. cbn. by rewrite !Z.add_0_r, !app_nil_r. Qed.

Lemma poll_response_add start expected r r' msg now :
  poll_response sink local start expected (poll_add r r') msg now =
  let st := poll_response sink local start expected r' msg now in (st.1, poll_add r st.2).
Proof.
  unfold poll_response. destruct (process _ _ _ _ _ _) as [[err|] states]; cbn; unfold poll_add; cbn;
    by rewrite <- ?app_assoc, ?Z.add_assoc.
Qed.

Lemma poll_after_add start expected r r' rs :
  poll_after sink local start expected (poll_add r r') rs =
  let st := poll_after sink local start expected r' rs in (st.1, poll_add r st.2).
Proof.
  unfold poll_after. revert expected r'. induction rs as [|[msg now] rs IH]; intros expected r'; [done|].
  cbn [foldl fst snd]. rewrite poll_response_add.
  destruct (poll_response sink local start expected r' msg now) as [e1 r1]. apply IH.
Qed.

(** A poll that is over: when it started, what discovery answered, the responses
    it took, and whether its timer ended it. *)
Record finished := MkFinished {
  fp_start : Time;
  fp_disc : option (string + list (Vehicle F));
  fp_taken : list (telemetryMessage F * Time);
  fp_timeout : bool
}.

Definition finished_poll (p : finished) : option (poll_result F) :=
  doPoll sink local (fp_start p) (fp_disc p)
    ((as_event <$> fp_taken p) ++ [if fp_timeout p then PTimeout else PDone]).

(** The collectors after some polls; every finished poll has a result. *)
Definition polls_total (ps : list finished) : poll_result F :=
  foldl (fun r p => poll_add r (default poll_zero (finished_poll p))) poll_zero ps.

(** The responses that arrived, in order. *)
Definition arrivals (events : list (tel_event)) : list (telemetryMessage F) :=
  omap (fun e => match e with TArrive t p now => Some (onResponse t p now) | _ => None end) events.

Definition taken_by (ps : list finished) : list (telemetryMessage F) := mbind (fun p => (fp_taken p).*1) ps.

(** Where a run stands: the polls that are over, and what the running one took. *)
Record run_inv (events : list tel_event) (m : TelemetryManager) (ps : list finished)
    (cur : list (telemetryMessage F * Time)) : Prop := {
  ri_channel : ch_ok m;
  ri_poll : match te_polling m with
            | None => cur = [] ∧ te_total m = polls_total ps
            | Some (start, expected) => ∃ disc : option (string + list (Vehicle F)), (expected, te_total m) =
                poll_after sink local start (poll_expected disc) (polls_total ps) cur
            end;
  ri_fifo : arrivals events = taken_by ps ++ cur.*1 ++ pending m;
  ri_requests : te_pollReq m =
    Z.of_nat (length ps) + (if te_polling m then 1 else 0)
}.

Lemma finished_poll_total ps start disc cur timeout :
  polls_total (ps ++ [MkFinished start disc cur timeout]) =
  let st := poll_after sink local start (poll_expected disc) (polls_total ps) cur in
  if timeout then poll_timeout st.1 st.2 else st.2.
Proof.
  unfold polls_total at 1. rewrite foldl_app. cbn [foldl]. fold (polls_total ps).
  unfold finished_poll, doPoll. cbn [fp_start fp_disc fp_taken fp_timeout]. rewrite poll_loop_after.
  pose proof (poll_after_add start (poll_expected disc) (polls_total ps) poll_zero cur) as Ha.
  rewrite poll_add_zero in Ha. rewrite Ha. fold poll_zero.
  destruct (poll_after sink local start (poll_expected disc) poll_zero cur) as [e r]. cbn zeta. cbn [fst snd].
  destruct timeout; cbn [poll_loop default from_option id]; [|done].
  unfold poll_timeout, poll_add. cbn. by rewrite Z.add_assoc.
Qed.

Lemma run_inv_finish events e m ps cur start expected timeout :
  run_inv events m ps cur → te_polling m = Some (start, expected) →
  (e = TTimeout ∧ timeout = true ∨ e = TReturn ∧ timeout = false) →
  ∃ disc, run_inv (events ++ [e])
    (set_poll None (if timeout then poll_timeout expected (te_total m) else te_total m) m)
    (ps ++ [MkFinished start disc cur timeout]) [].
Proof.
  intros [Hch Hp Hf Hr] Hpoll He. rewrite Hpoll in *. destruct Hp as [disc Hp]. exists disc. split.
  - exact Hch.
  - cbn. split; [done|]. rewrite finished_poll_total, <- Hp. by destruct timeout.
  - unfold arrivals in *. rewrite omap_app, Hf. unfold taken_by. rewrite bind_app. cbn. rewrite !app_nil_r.
    change (pending (set_poll _ _ m)) with (pending m).
    destruct He as [[-> _]|[-> _]]; cbn; by rewrite app_nil_r, <- ?app_assoc.
  - cbn. rewrite length_app. cbn. lia.
Qed.

Lemma run_inv_step events e m m' ps cur :
  run_inv events m ps cur → tel_step m e = Some m' →
  ∃ ps' cur', run_inv (events ++ [e]) m' ps' cur'.
Proof.
  intros Hinv. pose proof Hinv as [Hch Hp Hf Hr].
  assert (∀ e, arrivals [e] = [] → arrivals (events ++ [e]) = taken_by ps ++ cur.*1 ++ pending m) as Hskip.
  { intros e0 He. unfold arrivals in *. by rewrite omap_app, He, app_nil_r. }
  destruct e as [topic payload now|topic payload now|disc start|now| | |]; cbn [tel_step].
  - intros [= <-]. exists ps, cur. destruct (ch_send_ok (onResponse topic payload now) m Hch) as [Hok Hpend].
    assert (te_polling (ch_send (onResponse topic payload now) m) = te_polling m ∧
      te_total (ch_send (onResponse topic payload now) m) = te_total m ∧
      te_pollReq (ch_send (onResponse topic payload now) m) = te_pollReq m) as (E1 & E2 & E3).
    { unfold ch_send. by destruct (Nat.ltb _ _). }
    split; rewrite ?E1, ?E2, ?E3; [done|done| |done].
    unfold arrivals in *. rewrite omap_app, Hf, Hpend. cbn. by rewrite <- !app_assoc.
  - intros [= <-]. exists ps, cur. split; [done|done|by apply Hskip|done].
  - destruct (te_polling m) as [|] eqn:Hpoll; [done|]. destruct (te_stopped m); [done|].
    intros [= <-]. destruct Hp as [-> Ht]. exists ps, []. split; [done| |by apply Hskip|cbn in *; lia].
    cbn. exists disc. by rewrite Ht.
  - destruct (te_polling m) as [[start expected]|] eqn:Hpoll; [|done].
    destruct (ch_recv m) as [[msg m1]|] eqn:Hrecv; [|done]. cbn [mbind option_bind].
    destruct (ch_recv_ok m msg m1 Hch Hrecv) as (Hok & Hpend & Ht & Hq).
    destruct (poll_response _ _ _ _ _ _ _) as [e1 r1] eqn:Hresp. intros [= <-].
    destruct Hp as [disc Hp]. exists ps, (cur ++ [(msg, now)]). split; [done| | |cbn in *; lia].
    + cbn. exists disc. unfold poll_after in *. rewrite foldl_app, <- Hp. cbn.
      by rewrite <- Ht, Hresp.
    + rewrite (Hskip (TReceive now) eq_refl), Hpend, fmap_app, <- !app_assoc. done.
  - destruct (te_polling m) as [[start expected]|] eqn:Hpoll; [|done]. intros [= <-].
    destruct (run_inv_finish events TTimeout m ps cur start expected true Hinv Hpoll) as [disc Hi]; [by left|].
    eauto.
  - intros [= <-]. exists ps, cur. split; [done|done|by apply Hskip|done].
  - destruct (_ || _); [done|]. destruct (te_polling m) as [[start expected]|] eqn:Hpoll; intros [= <-].
    + destruct (run_inv_finish events TReturn m ps cur start expected false Hinv Hpoll) as [disc Hi]; [by right|].
      eauto.
    + exists ps, cur. split; [done|done|by apply Hskip|cbn in *; lia].
Qed.

Lemma run_inv_reachable events m :
  tel_run tel_init events = Some m → ∃ ps cur, run_inv events m ps cur.
Proof.
  revert m. induction events as [|e events IH] using rev_ind; intros m Hrun.
  - injection Hrun as <-. exists [], []. split; [|done..].
    split; cbn; [unfold respCh_cap; lia|done].
  - apply tel_run_snoc in Hrun as (m1 & Hrun & Hstep). destruct (IH m1 Hrun) as (ps & cur & Hinv).
    by eapply run_inv_step.
Qed.

(** C38. In every interleaving of responses, polls and the end of the context, the
    manager behaves like a sequence of polls over consecutive pieces of the
    stream of responses: no response is lost, duplicated or reordered, what was
    not taken is in the channel or waits for room in it, one request was
    published per poll, and between two polls the collectors and the recorded
    states are those of the polls put together. *)
Theorem telemetry_refines_polls events m (Hrun : tel_run tel_init events = Some m) :
  ∃ ps (cur : list (telemetryMessage F * Time)),
    arrivals events = taken_by ps ++ cur.*1 ++ te_respCh m ++ te_senders m ∧
    te_pollReq m = Z.of_nat (length ps) + (if te_polling m then 1 else 0) ∧
    (length (te_respCh m) ≤ respCh_cap)%nat ∧
    (te_senders m ≠ [] → length (te_respCh m) = respCh_cap) ∧
    Forall (fun p => is_Some (finished_poll p)) ps ∧
    (te_polling m = None → cur = [] ∧ te_total m = polls_total ps).
Proof.
  destruct (run_inv_reachable events m Hrun) as (ps & cur & [[Hle Hfull] Hp Hf Hr]).
  exists ps, cur. split_and!; [done..| |].
  - apply Forall_forall. intros p _. unfold finished_poll, doPoll. rewrite poll_loop_after.
    destruct (fp_timeout p); by eexists.
  - intros Hidle. by rewrite Hidle in Hp.
Qed.

(** ** What the code does not mean to do *)

(** Nobody takes a response outside a poll: once the loop has returned, the
    responses pile up, and with more than the capacity of the channel a callback
    of the MQTT client waits for ever. *)
Theorem stopped_blocks events events' m m'
    (Hrun : tel_run tel_init events = Some m) (Hstop : te_stopped m = true) (Hidle : te_polling m = None)
    (Hrun' : tel_run m events' = Some m') :
  te_respCh m' ++ te_senders m' = te_respCh m ++ te_senders m ++ arrivals events' ∧
  te_total m' = te_total m ∧
  ((respCh_cap < length (te_respCh m ++ te_senders m ++ arrivals events'))%nat → te_senders m' ≠ []).
Proof.
  destruct (run_inv_reachable events m Hrun) as (ps & cur & [Hch _ _ _]). clear Hrun.
  enough (ch_ok m' ∧ pending m' = pending m ++ arrivals events' ∧ te_total m' = te_total m ∧
    te_stopped m' = true ∧ te_polling m' = None) as ([Hle _] & Hpend & Ht & _ & _).
  { unfold pending in Hpend. rewrite <- app_assoc in Hpend. split_and!; [done..|].
    rewrite <- Hpend. intros Hlong Hnil. rewrite Hnil, app_nil_r in Hlong. lia. }
  revert m' Hrun'. induction events' as [|e events' IH] using rev_ind; intros m' Hrun'.
  { injection Hrun' as <-. cbn. by rewrite app_nil_r. }
  apply tel_run_snoc in Hrun' as (m1 & Hrun & Hstep).
  destruct (IH m1 Hrun) as (Hch1 & Hp1 & Ht1 & Hs1 & Hi1). unfold arrivals in *. rewrite omap_app.
  destruct e as [topic payload now|topic payload now|disc start|now| | |]; cbn [tel_step] in Hstep;
    rewrite ?Hi1, ?Hs1 in Hstep; try done.
  - injection Hstep as <-. destruct (ch_send_ok (onResponse topic payload now) m1 Hch1) as [Hok Hpend].
    rewrite Hpend, Hp1. cbn. rewrite <- app_assoc. split_and!; [done|done|..];
      unfold ch_send; by destruct (Nat.ltb _ _).
  - injection Hstep as <-. cbn. by rewrite app_nil_r.
  - injection Hstep as <-. cbn. by rewrite app_nil_r.
  - by rewrite orb_true_r in Hstep.
Qed.

(** A response that comes after its poll has timed out is counted in the next
    one: a vehicle that is silent in that poll is then not counted as a timeout,
    and the observed latency is not the response's. *)
Theorem late_response_counts m vs resp start now
    (Hidle : te_polling m = None) (Hon : te_stopped m = false) (Hbuf : te_respCh m = [resp])
    (Hdec : decodes resp = true) (Hin : tl_VehicleID resp ∈ ID <$> vs) :
  ∃ m', tel_run m [TTick (Some (inr vs)) start; TReceive now; TTimeout] = Some m' ∧
    pr_responses (te_total m') = pr_responses (te_total m) + 1 ∧
    pr_timeouts (te_total m') = pr_timeouts (te_total m) +
      Z.of_nat (size (list_to_set (ID <$> vs) : gset string)) - 1 ∧
    pr_latency (te_total m') = pr_latency (te_total m) ++ [Sub now start].
Proof.
  cbn [tel_run tel_step]. rewrite Hidle, Hon. cbn [mbind option_bind te_polling].
  unfold ch_recv. cbn [te_respCh]. rewrite Hbuf. cbn [mbind option_bind te_total].
  destruct (poll_response_cases sink local start (list_to_set (ID <$> vs)) (te_total m) resp now)
    as (states & lst & Heq & _). cbn [poll_expected]. rewrite Heq, Hdec. cbn [te_polling set_poll].
  eexists. split; [done|]. cbn. split_and!; [done| |done].
  rewrite size_difference by set_solver. rewrite size_singleton.
  assert (size (list_to_set (ID <$> vs) : gset string) ≠ 0%nat).
  { intros Hz%size_empty_inv. set_solver. } lia.
Qed.
End running.
