(* ===== verification/Wire.v ===== *)
(** * Messages between the dispatcher and the vehicles

    The payloads on the broker's topics, byte for byte, as the two programs
    write and read them: the order of [SendOrder] (infra/mqtt/client.go) that
    [onCommand] (simulator/vehicle.go) decodes, the acknowledgment of
    [publishAck] (simulator/ack_strategy.go) that [onAck] decodes, and the state
    of [publishTelemetry] and [publishAvailability] that [process]
    (infra/telemetry/manager.go) decodes.  The theorems join the two ends: what
    one program sends is what the other acts on.  The broker delivers a payload
    or not; the text of a float is the interface [FloatText]. *)

From S2P Require Import Prelude Num GoTime GoText Model Tuner MqttClient Simulator Telemetry Json JsonStruct.
From stdpp Require Import base gmap strings list.
From Stdlib Require Import ZArith Lia.

#[local] Open Scope Z_scope.

Section wire.
Context {F : Type} `{Num F} `{FloatText F}.

(** ** Orders *)

(** [t.UnixMilli()]. *)
Definition UnixMilli (t : Time) : Z := t_ns t / Millisecond - 62135596800000.

(** The payload of [SendOrder]; [None] is the error of [json.Marshal]. *)
Definition order_payload (cmdID vehicleID : string) (powerKW : F) (now : Time) : option string :=
  Marshal [("command_id", put_string cmdID); ("vehicle_id", put_string vehicleID);
           ("power_kw", put_float powerKW); ("timestamp", put_int (UnixMilli now))].

Definition err_marshal : go_error := ErrorString "json: unsupported value".

(** [SendOrder] with its payload: the client, the result and the messages the
    broker accepted. *)
Definition SendOrderWire (p : PahoClient) (cmdID vehicleID : string) (powerKW : F) (now : Time)
    (publish : nat → option go_error) : PahoClient * (go_error + string) * list (string * string) :=
  let payload := order_payload cmdID vehicleID powerKW now in
  let '(p, r) := SendOrder p cmdID (if payload is Some _ then None else Some err_marshal) publish in
  (p, r, match payload, r with
         | Some b, inr _ => [("vehicle/" +:+ vehicleID +:+ "/command", b)]
         | _, _ => []
         end).

(** The struct [onCommand] decodes into. *)
Definition command_fields : list (string * (json → string * F → option (string * F))) :=
  [("command_id", get_string (fun s m => (s, m.2))); ("power_kw", get_float (fun x m => (m.1, x)))].

Definition decode_command (payload : string) : option (string * F) :=
  Unmarshal command_fields ("", n0) payload.

(** The whole handler: a payload that does not decode is logged and dropped. *)
Definition onCommandWire (v : SimulatedVehicle F) (payload : string) (now : Time) :
    option (SimulatedVehicle F * list (sim_effect F)) :=
  match decode_command payload with
  | Some (id, power) => onCommand v id power now
  | None => Some (v, [])
  end.

(** ** Acknowledgments *)

Definition ack_payload (commandID : string) : option string := Marshal [("command_id", put_string commandID)].

Definition decode_ack (payload : string) : option string :=
  Unmarshal [("command_id", get_string (fun s _ => s))] "" payload.

Definition onAckWire (p : PahoClient) (payload : string) : PahoClient := onAck p (decode_ack payload).

(** ** States *)

(** The error of [json.Marshal] is dropped: the payload is then empty. *)
Definition state_bytes (p : StatePayload F) : string :=
  default "" (Marshal [("vehicle_id", put_string (sp_VehicleID p)); ("soc", put_float (sp_SoC p));
                       ("available", put_bool (sp_Available p)); ("charging", put_bool (sp_Charging p));
                       ("power_kw", put_float (sp_PowerKW p)); ("ts", put_int (sp_TS p))]).

(** The struct [process] decodes into. *)
Definition state_fields : list (string * (json → state_msg F → option (state_msg F))) :=
  let set_id s m := MkMsg s (tm_SoC m) (tm_Available m) (tm_Charging m) (tm_PowerKW m) (tm_TS m) in
  let set_soc x m := MkMsg (tm_VehicleID m) x (tm_Available m) (tm_Charging m) (tm_PowerKW m) (tm_TS m) in
  let set_avail b m := MkMsg (tm_VehicleID m) (tm_SoC m) b (tm_Charging m) (tm_PowerKW m) (tm_TS m) in
  let set_charg b m := MkMsg (tm_VehicleID m) (tm_SoC m) (tm_Available m) b (tm_PowerKW m) (tm_TS m) in
  let set_power x m := MkMsg (tm_VehicleID m) (tm_SoC m) (tm_Available m) (tm_Charging m) x (tm_TS m) in
  let set_ts z m := MkMsg (tm_VehicleID m) (tm_SoC m) (tm_Available m) (tm_Charging m) (tm_PowerKW m) z in
  [("vehicle_id", get_string set_id); ("soc", get_float set_soc); ("available", get_bool_ptr set_avail);
   ("charging", get_bool_ptr set_charg); ("power_kw", get_float set_power); ("ts", get_int64_ptr set_ts)].

Definition err_unmarshal : string := "json: cannot unmarshal".

Definition decode_state (payload : string) : string + state_msg F :=
  match Unmarshal state_fields (MkMsg "" n0 None None n0 None) payload with
  | Some m => inr m
  | None => inl err_unmarshal
  end.

Definition processWire (sink : bool) (local : Z) (payload topic context : string) (now : Time) :
    option string * list (VehicleStateEvent F) :=
  process sink local (decode_state payload) topic context now.
End wire.

(** ** The two ends agree *)

(** The members of a message are scalars. *)
Ltac scalars := repeat first [apply Forall_nil_2|apply Forall_cons_2; [cbn [snd]; eauto with json|]].

Section agree.
Context {F : Type} `{Num F} `{FloatTextLaws F}.

Lemma decode_order cmdID vehicleID (powerKW : F) now payload :
  valid_utf8 cmdID → order_payload cmdID vehicleID powerKW now = Some payload →
  decode_command payload = Some (cmdID, powerKW).
Proof.
  intros Hid Hp. unfold order_payload, Marshal, put_float in Hp. cbn [put_struct mbind option_bind] in Hp.
  destruct (finite powerKW) eqn:Hf; [|done]. cbn [mbind option_bind put_int put_string] in Hp. injection Hp as <-.
  unfold decode_command. rewrite Unmarshal_scalars by scalars.
  cbn [fmap list_fmap]. repeat fill_member. cbn. by rewrite to_valid_id.
Qed.

Lemma decode_ack_payload cmdID payload :
  valid_utf8 cmdID → ack_payload cmdID = Some payload → decode_ack payload = Some cmdID.
Proof.
  intros Hid [= <-]. unfold decode_ack. rewrite Unmarshal_scalars by scalars.
  cbn [fmap list_fmap]. repeat fill_member. cbn. by rewrite to_valid_id.
Qed.

Definition state_of (p : StatePayload F) : state_msg F :=
  MkMsg (sp_VehicleID p) (sp_SoC p) (Some (sp_Available p)) (Some (sp_Charging p)) (sp_PowerKW p)
    (Some (sp_TS p)).

Lemma decode_state_bytes (p : StatePayload F) :
  valid_utf8 (sp_VehicleID p) → finite (sp_SoC p) = true → finite (sp_PowerKW p) = true →
  - 2 ^ 63 <= sp_TS p < 2 ^ 63 → decode_state (state_bytes p) = inr (state_of p).
Proof.
  intros Hid Hs Hp Hts. unfold state_bytes, Marshal, put_float. cbn [put_struct mbind option_bind].
  rewrite Hs, Hp. cbn [mbind option_bind put_int put_string put_bool from_option id]. unfold decode_state.
  rewrite Unmarshal_scalars by scalars. cbn [fmap list_fmap]. repeat fill_member.
  cbn. unfold state_of. by rewrite to_valid_id.
Qed.

(** A float that has no text empties the payload, which no longer decodes. *)
Lemma decode_state_unsupported (p : StatePayload F) :
  finite (sp_SoC p) && finite (sp_PowerKW p) = false → decode_state (state_bytes p) = inl err_unmarshal.
Proof.
  intros Hf. unfold state_bytes, Marshal, put_float. cbn [put_struct mbind option_bind].
  destruct (finite (sp_SoC p)); [|done]. cbn in Hf. by rewrite Hf.
Qed.
End agree.

(** ** From the order to its acknowledgment *)

Section exchange.
Context {F : Type} `{Num F} `{FloatTextLaws F}.

(** The message of an order that was sent. *)
Lemma SendOrderWire_sent p cmdID vehicleID (powerKW : F) now publish p1 id msgs :
  SendOrderWire p cmdID vehicleID powerKW now publish = (p1, inr id, msgs) →
  id = cmdID ∧ pc_ackChans p1 = <[cmdID := false]> (pc_ackChans p) ∧
  ∃ payload, order_payload cmdID vehicleID powerKW now = Some payload ∧
    msgs = [("vehicle/" +:+ vehicleID +:+ "/command", payload)].
Proof.
  unfold SendOrderWire, SendOrder. destruct (order_payload _ _ _ _) as [payload|]; [|done].
  destruct (publish_retry _ _ _ _ _) as [[[err|] n] sleeps]; [done|].
  intros [= <- <- <-]. split_and!; [done..|]. by exists payload.
Qed.

(** An acknowledgment of a registered command wakes the goroutine that waits. *)
Lemma onAckWire_wakes p cmdID ack :
  valid_utf8 cmdID → ack_payload cmdID = Some ack → is_Some (pc_ackChans p !! cmdID) →
  WaitForAck (onAckWire p ack) cmdID case_ack =
    Some (set_ackChans p (delete cmdID (pc_ackChans p)), true, None).
Proof.
  intros Hid Hack [full Hreg]. unfold onAckWire. rewrite (decode_ack_payload cmdID) by done.
  cbn [onAck]. rewrite Hreg. unfold WaitForAck, set_ackChans. cbn. rewrite lookup_insert_eq.
  by rewrite delete_insert_eq.
Qed.

(** C24. An order that the broker delivers reaches the vehicle with its identifier
    and its power, and the vehicle's acknowledgment completes the wait of the
    client: from [SendOrder] to [WaitForAck], over the bytes of both messages,
    for every power that has a text and every identifier that is UTF-8.  The
    power the vehicle then runs at is what its own limits make of the order. *)
Theorem order_acknowledged p cmdID (v : SimulatedVehicle F) (powerKW r : F) sent received answered
    publish p1 id msgs delay
    (Hid : valid_utf8 cmdID)
    (Hsend : SendOrderWire p cmdID (sv_ID v) powerKW sent publish = (p1, inr id, msgs))
    (Hclient : sv_client v = true) (Hidle : sv_ackCh v = Some [])
    (Hauto : sv_Strategy v = AutoAck delay) :
  id = cmdID ∧
  ∃ payload ack v1 out1 v2 out2,
    msgs = [("vehicle/" +:+ sv_ID v +:+ "/command", payload)] ∧
    onCommandWire v payload received = Some (v1, out1) ∧
    sv_currentPower v1 = order_power v powerKW ∧
    worker v1 r true true answered = Some (v2, out2) ∧ SAck cmdID ∈ out2 ∧
    ack_payload cmdID = Some ack ∧
    WaitForAck (onAckWire p1 ack) cmdID case_ack =
      Some (set_ackChans p1 (delete cmdID (pc_ackChans p1)), true, None).
Proof.
  apply SendOrderWire_sent in Hsend as (-> & Hreg & payload & Hpay & ->). split; [done|].
  unfold onCommandWire. eexists payload, _. setoid_rewrite (decode_order cmdID (sv_ID v) powerKW sent); [|done..].
  unfold onCommand, applyPowerOrder, enqueue_ack. cbn. rewrite Hidle. cbn.
  do 4 eexists. split_and!; [done..| | | |apply onAckWire_wakes; [done..|]].
  - unfold worker, Ack, delayed_ack, publishAck. cbn. rewrite Hauto, Hclient. cbn.
    rewrite andb_false_r. reflexivity.
  - apply elem_of_app. left. left.
  - done.
  - rewrite Hreg, lookup_insert_eq. eauto.
Qed.

(** A power without a text (NaN, an infinity) is refused before anything is
    published: the client is as it was. *)
Lemma SendOrderWire_unsupported p cmdID vehicleID (powerKW : F) now publish :
  finite powerKW = false → SendOrderWire p cmdID vehicleID powerKW now publish = (p, inl err_marshal, []).
Proof.
  intros Hf. unfold SendOrderWire, order_payload, Marshal, put_float. by rewrite Hf.
Qed.

(** An empty object is a valid command: it has no identifier and asks for no
    power, so the vehicle stops. *)
Lemma empty_command_stops (v : SimulatedVehicle F) now :
  sv_ackCh v = Some [] →
  onCommandWire v "{}" now = onCommand v "" n0 now ∧ onCommandWire v "null" now = onCommand v "" n0 now.
Proof. done. Qed.

(** ** From the battery to the sink *)

(** What a vehicle publishes is what the telemetry manager records: the
    identifier, the flags, the power (as [MaxPower]) and the state of charge,
    clamped, at the second of the publication; a value without a text empties
    the payload, and the manager reports the error and records nothing. *)
Theorem state_recorded (v : SimulatedVehicle F) avail local topic context sent now
    (Hid : valid_utf8 (sv_ID v)) (Hne : sv_ID v ≠ "") (Hts : - 2 ^ 63 <= Unix sent < 2 ^ 63) :
  let p := state_payload v avail sent in
  let soc := bt_Soc (sv_Battery v) in
  if finite soc && finite (sv_currentPower v) then
    ∃ e, processWire true local (state_bytes p) topic context now = (None, [e]) ∧
      ID (se_Vehicle e) = sv_ID v ∧ Available (se_Vehicle e) = avail ∧
      Charging (se_Vehicle e) = nltb n0 (sv_currentPower v) ∧
      MaxPower (se_Vehicle e) = sv_currentPower v ∧
      SoC (se_Vehicle e) = (if nltb soc n0 then n0 else if nltb n1 soc then n1 else soc) ∧
      se_Time e = FromUnix local (Unix sent)
  else processWire true local (state_bytes p) topic context now = (Some err_unmarshal, []).
Proof.
  cbn zeta. unfold processWire. destruct (finite _ && finite _) eqn:Hf.
  - apply andb_true_iff in Hf as [Hs Hp]. rewrite decode_state_bytes by done. cbn.
    rewrite bool_decide_eq_false_2 by done. eexists. split; [done|]. by cbn.
  - by rewrite decode_state_unsupported.
Qed.
End exchange.
