(* ===== verification/WireDiscovery.v ===== *)
(** * Discovery over the wire

    The answers to a discovery, byte for byte: the payload of [onDiscovery]
    (simulator/vehicle.go), a [model.Vehicle] with its nested profile, and the
    decoding in [Discover] (infra/mqtt/discovery.go).  Reading a timestamp is the
    argument [parse]. *)

From S2P Require Import Prelude Num GoTime GoText Model Tuner MqttClient Discovery Simulator.
From S2P Require Import Json JsonStruct JsonTime.
From stdpp Require Import base gmap strings list.
From Stdlib Require Import ZArith Lia.

#[local] Open Scope Z_scope.

Section discovery.
Context {F : Type} `{Num F} `{FloatText F} (parse : TimeParser).

(** ** The answer *)

(** The payload of a simulated vehicle: the fields of [model.Vehicle] in order,
    those that [onDiscovery] leaves out at their zero values, nil for the slice
    and the map; an empty [Segment] is omitted. *)
Definition discovery_payload (v : SimulatedVehicle F) : option string :=
  Marshal [("ID", put_string (sv_ID v)); ("SoC", put_float (bt_Soc (sv_Battery v)));
           ("IsV2G", put_bool (sv_IsV2G v)); ("MaxPower", put_float (sv_MaxPower v));
           ("BatteryKWh", put_float (bt_CapacityKWh (sv_Battery v))); ("Available", put_bool true);
           ("Charging", put_bool false); ("Priority", put_bool false);
           ("Departure", put_time time_zero); ("MinSoC", put_float (n0 : F));
           ("Profile", JObj <$> put_struct [("ExpectedDeparture", put_time time_zero);
                                            ("HistoricalUsage", Some JNull)]);
           ("Metadata", Some JNull); ("AvailabilityProb", put_float (n0 : F));
           ("DegradationFactor", put_float (n0 : F))].

(** The whole handler: the answers it publishes, with their topic. *)
Definition onDiscoveryWire (prefix : string) (v : SimulatedVehicle F) (payload : string) :
    option (list (string * string)) :=
  if bool_decide (payload = "hello") then
    match discovery_payload v with
    | None => Some []
    | Some b =>
      if sv_client v then Some [(TrimSuffix prefix "/" +:+ "/fleet/response/" +:+ sv_ID v, b)] else None
    end
  else Some [].

(** ** The fields of the structs *)

Definition profile_fields : list (string * (json → UserProfile F → option (UserProfile F))) :=
  [("ExpectedDeparture", get_time parse (fun t p => MkUserProfile t (HistoricalUsage p)));
   ("HistoricalUsage", get_floats n0 HistoricalUsage (fun l p => MkUserProfile (ExpectedDeparture p) l))].

Definition vehicle_fields : list (string * (json → Vehicle F → option (Vehicle F))) :=
  [("ID", get_string (fun x '(MkVehicle _ b c d e f g h i j k l m n o) => MkVehicle x b c d e f g h i j k l m n o));
   ("SoC", get_float (fun x '(MkVehicle a _ c d e f g h i j k l m n o) => MkVehicle a x c d e f g h i j k l m n o));
   ("IsV2G", get_bool (fun x '(MkVehicle a b _ d e f g h i j k l m n o) => MkVehicle a b x d e f g h i j k l m n o));
   ("MaxPower", get_float (fun x '(MkVehicle a b c _ e f g h i j k l m n o) => MkVehicle a b c x e f g h i j k l m n o));
   ("BatteryKWh", get_float (fun x '(MkVehicle a b c d _ f g h i j k l m n o) => MkVehicle a b c d x f g h i j k l m n o));
   ("Available", get_bool (fun x '(MkVehicle a b c d e _ g h i j k l m n o) => MkVehicle a b c d e x g h i j k l m n o));
   ("Charging", get_bool (fun x '(MkVehicle a b c d e f _ h i j k l m n o) => MkVehicle a b c d e f x h i j k l m n o));
   ("Priority", get_bool (fun x '(MkVehicle a b c d e f g _ i j k l m n o) => MkVehicle a b c d e f g x i j k l m n o));
   ("Departure", get_time parse (fun x '(MkVehicle a b c d e f g h _ j k l m n o) => MkVehicle a b c d e f g h x j k l m n o));
   ("MinSoC", get_float (fun x '(MkVehicle a b c d e f g h i _ k l m n o) => MkVehicle a b c d e f g h i x k l m n o));
   ("Profile", get_struct profile_fields Profile
      (fun x '(MkVehicle a b c d e f g h i j _ l m n o) => MkVehicle a b c d e f g h i j x l m n o));
   ("Metadata", get_map elem_string Metadata (fun x '(MkVehicle a b c d e f g h i j k _ m n o) => MkVehicle a b c d e f g h i j k x m n o));
   ("segment", get_string (fun x '(MkVehicle a b c d e f g h i j k l _ n o) => MkVehicle a b c d e f g h i j k l x n o));
   ("AvailabilityProb", get_float (fun x '(MkVehicle a b c d e f g h i j k l m _ o) => MkVehicle a b c d e f g h i j k l m x o));
   ("DegradationFactor", get_float (fun x '(MkVehicle a b c d e f g h i j k l m n _) => MkVehicle a b c d e f g h i j k l m n x))].

Definition zero_vehicle : Vehicle F :=
  MkVehicle "" n0 false n0 n0 false false false time_zero n0 (MkUserProfile time_zero []) ∅ "" n0 n0.

Definition err_decode : go_error := ErrorString "json: cannot unmarshal".

Definition decode_vehicle (payload : string) : go_error + Vehicle F :=
  match Unmarshal vehicle_fields zero_vehicle payload with
  | Some v => inr v
  | None => inl err_decode
  end.

(** [Discover] on the payloads that arrive before the timeout. *)
Definition DiscoverWire (subscribeErr publishErr : option go_error) (payloads : list string) :
    list (Vehicle F) * option go_error :=
  Discover subscribeErr publishErr (decode_vehicle <$> payloads).
End discovery.

(** ** The two ends agree *)

Section agree.
Context {F : Type} `{Num F} `{FloatTextLaws F} (parse : TimeParser).
Context (Hzero : finite (n0 : F) = true) (Hparse : parse "0001-01-01T00:00:00Z" = Some time_zero).

(** The vehicle a simulated one describes itself as. *)
Definition described (v : SimulatedVehicle F) : Vehicle F :=
  MkVehicle (sv_ID v) (bt_Soc (sv_Battery v)) (sv_IsV2G v) (sv_MaxPower v)
    (bt_CapacityKWh (sv_Battery v)) true false false time_zero n0 (MkUserProfile time_zero []) ∅ "" n0 n0.

(** The numbers it publishes have a text. *)
Definition expressible (v : SimulatedVehicle F) : bool :=
  finite (bt_Soc (sv_Battery v)) && finite (sv_MaxPower v) && finite (bt_CapacityKWh (sv_Battery v)).

Lemma onDiscovery_described v :
  sv_client v = true → onDiscovery v "hello" = Some [SDiscovery (described v)].
Proof. intros Hc. unfold onDiscovery. by rewrite Hc. Qed.

Lemma get_time_zero {M} (set : Time → M → M) m b :
  get_time parse set (sanitize (JStr (FormatRFC3339Nano time_zero) b)) m = Some (set time_zero m).
Proof.
  change (FormatRFC3339Nano time_zero) with "0001-01-01T00:00:00Z". cbn [sanitize get_time].
  replace (plain_text _) with true by (by vm_compute).
  replace (to_valid _) with "0001-01-01T00:00:00Z" by (by vm_compute). by rewrite Hparse.
Qed.

Lemma discovery_decodes v payload :
  valid_utf8 (sv_ID v) → discovery_payload v = Some payload → decode_vehicle parse payload = inr (described v).
Proof.
  intros Hid Hp. unfold discovery_payload, Marshal, put_float, put_time in Hp.
  rewrite Hzero in Hp. change (strict_time time_zero) with true in Hp. cbn [put_struct mbind option_bind] in Hp.
  destruct (finite (bt_Soc _)) eqn:Hs, (finite (sv_MaxPower _)) eqn:Hm, (finite (bt_CapacityKWh _)) eqn:Hc;
    try done. cbn [mbind option_bind fmap option_fmap option_map put_string put_bool] in Hp. injection Hp as <-.
  unfold decode_vehicle. rewrite Unmarshal_object.
  2:{ repeat (apply Forall_cons_2; [cbn; try done; by apply float_text_number|]). apply Forall_nil_2. }
  2:{ apply Nat.leb_le. reflexivity. }
  cbn [fmap list_fmap].
  repeat (fill_member; rewrite ?get_time_zero; cbn [mbind option_bind fmap list_fmap]).
  rewrite (to_valid_id (sv_ID v)) by done. reflexivity.
Qed.

Lemma discovery_payload_expressible v : expressible v = true → is_Some (discovery_payload v).
Proof.
  unfold expressible, discovery_payload, Marshal, put_float, put_time. rewrite !andb_true_iff. intros [[-> ->] ->].
  rewrite Hzero. change (strict_time time_zero) with true. by eexists.
Qed.

(** The handler folded over vehicles with distinct identifiers collects them. *)
Lemma discovery_collects (vs : list (Vehicle F)) s :
  NoDup (ID <$> vs) → (∀ v, v ∈ vs → ID v ∉ ds_ids s) →
  ds_vehicles (foldl discovery_handler s (inr <$> vs)) = ds_vehicles s ++ vs ∧
  ds_errs (foldl discovery_handler s (inr <$> vs)) = ds_errs s.
Proof.
  revert s. induction vs as [|v vs IH]; intros s Hnd Hs; [by rewrite app_nil_r|].
  rewrite !fmap_cons in *. apply NoDup_cons in Hnd as [Hv Hnd]. cbn [foldl discovery_handler].
  rewrite decide_False by (apply Hs; left).
  destruct (IH (MkDiscovery (ds_vehicles s ++ [v]) (ds_errs s) ({[ID v]} ∪ ds_ids s)) Hnd) as [-> ->]; cbn.
  - intros w Hw [Heq%elem_of_singleton|Hin]%elem_of_union; [|by eapply Hs; [right|]].
    apply Hv. rewrite <- Heq. by apply list_elem_of_fmap_2.
  - by rewrite <- app_assoc.
Qed.

(** A fleet of connected simulated vehicles with distinct identifiers is
    discovered as it is: every vehicle answers the magic word, and what
    [Discover] returns, decoded from the bytes of the answers in the order in
    which they arrive, are the vehicles as they described themselves. *)
Theorem fleet_discovered prefix (fleet : list (SimulatedVehicle F))
    (Hids : NoDup (sv_ID <$> fleet))
    (Hok : Forall (fun v => sv_client v = true ∧ valid_utf8 (sv_ID v) ∧ expressible v = true) fleet) :
  ∃ answers, mapM (fun v => onDiscoveryWire prefix v "hello") fleet = Some answers ∧
    DiscoverWire parse None None (snd <$> mjoin answers) = (described <$> fleet, None) ∧
    (∀ v, v ∈ fleet → onDiscovery v "hello" = Some [SDiscovery (described v)]).
Proof.
  assert (∃ answers, mapM (fun v => onDiscoveryWire prefix v "hello") fleet = Some answers ∧
    decode_vehicle parse <$> (snd <$> mjoin answers) = inr <$> (described <$> fleet)) as (answers & Hm & Hd).
  { clear Hids. induction Hok as [|v fleet (Hc & Hu & He) _ (answers & Hm & Hd)]; [by exists []|].
    destruct (discovery_payload_expressible v He) as [b Hb].
    eexists ([(_, b)] :: answers). split.
    - apply mapM_Some. constructor; [|by apply mapM_Some]. unfold onDiscoveryWire. by rewrite Hb, Hc.
    - cbn [mjoin list_join app fmap list_fmap snd]. rewrite (discovery_decodes v b) by done. f_equal. exact Hd. }
  exists answers. split; [done|]. split.
  - unfold DiscoverWire, Discover. rewrite Hd.
    destruct (discovery_collects (described <$> fleet) (MkDiscovery [] [] ∅)) as [-> ->]; [|set_solver|done].
    by rewrite <- list_fmap_compose.
  - intros v Hv. rewrite Forall_forall in Hok. by apply onDiscovery_described, Hok.
Qed.
End agree.
