(* ===== verification/WireRte.v ===== *)
(** * Signals over the wire

    The body of a request to the mock server ([rte/server_mock.go]), byte for
    byte: [handleSignal] decodes it into a [Signal] ([rte/model.go]) with a
    [json.Decoder].  Reading a timestamp is the argument [parse]. *)

From S2P Require Import Prelude Num GoTime GoText Model Json JsonStruct JsonTime Rte.
From stdpp Require Import base gmap strings list.
From Stdlib Require Import ZArith Lia.

#[local] Open Scope Z_scope.

Section body.
Context {F : Type} `{Num F} `{FloatText F} (parse : TimeParser).

Definition signal_fields : list (string * (json → Signal F → option (Signal F))) :=
  [("signal_type", get_string (fun x '(MkRteSignal _ b c d e) => MkRteSignal x b c d e));
   ("start_time", get_time parse (fun x '(MkRteSignal a _ c d e) => MkRteSignal a x c d e));
   ("end_time", get_time parse (fun x '(MkRteSignal a b _ d e) => MkRteSignal a b x d e));
   ("power", get_float (fun x '(MkRteSignal a b c _ e) => MkRteSignal a b c x e));
   ("meta", get_map elem_string rs_Meta (fun x '(MkRteSignal a b c d _) => MkRteSignal a b c d x))].

Definition zero_signal : Signal F := MkRteSignal "" time_zero time_zero n0 ∅.

(** [json.NewDecoder(r.Body).Decode(&sig)]. *)
Definition decode_signal (body : string) : string + Signal F :=
  match j ← DecodeFirst body; fill_struct signal_fields zero_signal j with
  | Some sig => inr sig
  | None => inl "json: cannot decode"
  end.

Definition handleSignalWire (method body : string) :
    http_answer * list rte_effect * option (FlexibilitySignal F) :=
  handleSignal method (decode_signal body).
End body.

Section document.
Context {F : Type} `{Num F} `{FloatTextLaws F} (parse : TimeParser).

(** A client's document for a signal without metadata; the timestamps are the
    texts [t1] and [t2]. *)
Definition signal_document (kind t1 t2 : string) (power : F) : option (list (string * json)) :=
  put_struct [("signal_type", put_string kind); ("start_time", put_string t1); ("end_time", put_string t2);
              ("power", put_float power)].

Lemma get_time_written {M} (set : Time → M → M) m s b t :
  valid_utf8 s → plain_text s = true → parse s = Some t →
  get_time parse set (sanitize (JStr s b)) m = Some (set t m).
Proof. intros Hs Hp Ht. cbn [sanitize get_time]. by rewrite Hp, to_valid_id, Ht. Qed.

(** A document for a signal is handled as that signal, whatever bytes follow it in
    the body: its type decides, the timestamps are the instants their texts name,
    and a power without a text cannot be sent. *)
Theorem signal_handled method kind t1 t2 (power : F) start fin rest
    (Hkind : valid_utf8 kind)
    (Ht1 : valid_utf8 t1 ∧ plain_text t1 = true ∧ parse t1 = Some start)
    (Ht2 : valid_utf8 t2 ∧ plain_text t2 = true ∧ parse t2 = Some fin) :
  match signal_document kind t1 t2 power with
  | Some ms =>
    handleSignalWire parse method (json_text (JObj ms) +:+ rest) =
    handleSignal method (inr (MkRteSignal kind start fin power ∅))
  | None => finite power = false
  end.
Proof.
  destruct Ht1 as (Hv1 & Hp1 & Hs1), Ht2 as (Hv2 & Hp2 & Hs2).
  unfold signal_document, put_float. cbn [put_struct mbind option_bind].
  destruct (finite power) eqn:Hf; [|done]. cbn [mbind option_bind put_string].
  unfold handleSignalWire, decode_signal. rewrite DecodeFirst_object.
  2:{ apply numbers_ok_obj. repeat (apply Forall_cons_2; [cbn; try done; by apply float_text_number|]).
      apply Forall_nil_2. }
  2:{ apply Nat.leb_le. reflexivity. }
  cbn [mbind option_bind fill_struct sanitize]. fold sanitize_member. cbn [fmap list_fmap].
  repeat (fill_member; rewrite ?(get_time_written _ _ t1 _ start), ?(get_time_written _ _ t2 _ fin) by done;
          cbn [mbind option_bind]).
  by rewrite to_valid_id.
Qed.

(** An empty body, or one that is not JSON, is a bad request. *)
Lemma empty_body_refused :
  (handleSignalWire (F := F) parse "POST" "").1.1 = HError 400 "bad request" ∧
  (handleSignalWire (F := F) parse "POST" "signal").1.1 = HError 400 "bad request".
Proof. done. Qed.
End document.
