(* ===== verification/Sinks.v ===== *)
(** * Metrics sinks

    Models [infra/metrics/multi.go], the sink that forwards to several others,
    and [infra/metrics/collector.go], which turns the events of the bus into
    records.  A sink is the record of its methods: an optional interface it does
    not implement is [None], and a method answers with an error or not.  A call
    on a [MultiSink] returns the positions of the sinks it reached, in order. *)

From S2P Require Import Prelude Num GoTime Model PowerMap MathExp LPDispatcher.
From S2P Require Import Tuner Manager ManagerFacts Telemetry.
From stdpp Require Import base gmap strings list.
From Stdlib Require Import ZArith Lia.

Record FleetDiscoveryEvent := MkFleetDiscovery {
  fd_Pings : Z;
  fd_Responses : Z;
  fd_Component : string;
  fd_Time : Time
}.

Record DispatchAckEvent := MkDispatchAck {
  da_OrderID : string;
  da_VehicleID : string;
  da_Signal : SignalType;
  da_Acknowledged : bool;
  da_Latency : Duration;
  da_Error : string;
  da_Time : Time
}.

Record FallbackEvent (F : Type) := MkFallbackEvent {
  fe_DispatchID : string;
  fe_VehicleID : string;
  fe_Signal : SignalType;
  fe_Reason : string;
  fe_ResidualPower : F;
  fe_Time : Time
}.

Record RTESignalEvent (F : Type) := MkRTESignal { re_Signal : FlexibilitySignal F; re_Time : Time }.
Arguments MkRTESignal {F}.
Arguments re_Signal {F}.
Arguments re_Time {F}.

(** A method: an error or nil. *)
Abbreviation method Ev := (Ev → option go_error).

Record Sink (F : Type) := MkSink {
  sk_DispatchResult : method (list (MetricResult F));
  sk_FleetDiscovery : option (method FleetDiscoveryEvent);
  sk_VehicleState : option (method (VehicleStateEvent F));
  sk_DispatchOrder : option (method (DispatchOrderEvent F));
  sk_DispatchAck : option (method DispatchAckEvent);
  sk_Fallback : option (method (FallbackEvent F));
  sk_RTESignal : option (method (RTESignalEvent F));
  sk_DispatchLatency : option (method (list DispatchLatency));
  sk_FleetSize : option (method Z);
  sk_VehicleAvailability : option (method (list (VehicleAvailability F)))
}.
Arguments MkSink {F}.
Arguments sk_DispatchResult {F}.
Arguments sk_FleetDiscovery {F}.
Arguments sk_VehicleState {F}.
Arguments sk_DispatchOrder {F}.
Arguments sk_DispatchAck {F}.
Arguments sk_Fallback {F}.
Arguments sk_RTESignal {F}.
Arguments sk_DispatchLatency {F}.
Arguments sk_FleetSize {F}.
Arguments sk_VehicleAvailability {F}.

Section multi.
Context {F : Type}.
Implicit Types sinks : list (Sink F).

(** The loop all methods share, from the sink at position [i] on. *)
Fixpoint multi_loop {Ev} (sel : Sink F → option (method Ev)) (ev : Ev) (i : nat) sinks :
    list nat * option go_error :=
  match sinks with
  | [] => ([], None)
  | s :: sinks =>
    match sel s with
    | None => multi_loop sel ev (S i) sinks
    | Some record =>
      match record ev with
      | Some err => ([i], Some err)
      | None => let '(reached, err) := multi_loop sel ev (S i) sinks in (i :: reached, err)
      end
    end
  end.

Definition MultiDispatchResult sinks res := multi_loop (fun s => Some (sk_DispatchResult s)) res 0 sinks.
Definition MultiFleetDiscovery sinks ev := multi_loop sk_FleetDiscovery ev 0 sinks.
Definition MultiVehicleState sinks ev := multi_loop sk_VehicleState ev 0 sinks.
Definition MultiDispatchOrder sinks ev := multi_loop sk_DispatchOrder ev 0 sinks.
Definition MultiDispatchAck sinks ev := multi_loop sk_DispatchAck ev 0 sinks.
Definition MultiFallback sinks ev := multi_loop sk_Fallback ev 0 sinks.
Definition MultiRTESignal sinks ev := multi_loop sk_RTESignal ev 0 sinks.
Definition MultiDispatchLatency sinks lat := multi_loop sk_DispatchLatency lat 0 sinks.
Definition MultiFleetSize sinks n := multi_loop sk_FleetSize n 0 sinks.
Definition MultiVehicleAvailability sinks av := multi_loop sk_VehicleAvailability av 0 sinks.

(** A [MultiSink] is itself a sink that implements every interface. *)
Definition NewMultiSink sinks : Sink F :=
  MkSink (fun e => (MultiDispatchResult sinks e).2)
    (Some (fun e => (MultiFleetDiscovery sinks e).2)) (Some (fun e => (MultiVehicleState sinks e).2))
    (Some (fun e => (MultiDispatchOrder sinks e).2)) (Some (fun e => (MultiDispatchAck sinks e).2))
    (Some (fun e => (MultiFallback sinks e).2)) (Some (fun e => (MultiRTESignal sinks e).2))
    (Some (fun e => (MultiDispatchLatency sinks e).2)) (Some (fun e => (MultiFleetSize sinks e).2))
    (Some (fun e => (MultiVehicleAvailability sinks e).2)).

(** Positions of the sinks that implement a method. *)
Definition implementing {Ev} (sel : Sink F → option (method Ev)) (i : nat) sinks : list nat :=
  (List.filter (fun '(_, s) => bool_decide (is_Some (sel s))) (zip (seq i (length sinks)) sinks)).*1.

(** The answer of a sink, [None] also when it does not implement the method. *)
Definition answer {Ev} (sel : Sink F → option (method Ev)) (ev : Ev) (s : Sink F) : option go_error :=
  f ← sel s; f ev.

Lemma multi_loop_spec {Ev} (sel : Sink F → option (method Ev)) ev i sinks :
  match (multi_loop sel ev i sinks).2 with
  | None => Forall (fun s => answer sel ev s = None) sinks ∧
            (multi_loop sel ev i sinks).1 = implementing sel i sinks
  | Some err => ∃ before s after, sinks = before ++ s :: after ∧
      Forall (fun s => answer sel ev s = None) before ∧ answer sel ev s = Some err ∧
      (multi_loop sel ev i sinks).1 = implementing sel i (before ++ [s])
  end.
Proof.
  revert i. induction sinks as [|s sinks IH]; intros i; [done|].
  cbn [multi_loop]. specialize (IH (S i)).
  assert (∀ l, implementing sel i (s :: l) =
    (if bool_decide (is_Some (sel s)) then [i] else []) ++ implementing sel (S i) l) as Himp.
  { intros l. unfold implementing. cbn. by destruct (bool_decide _). }
  destruct (sel s) as [record|] eqn:Hs.
  - destruct (record ev) as [err|] eqn:Hr; cbn [fst snd].
    + exists [], s, sinks. split_and!; [done|done|unfold answer; by rewrite Hs|].
      cbn [app]. by rewrite Himp.
    + destruct (multi_loop sel ev (S i) sinks) as [reached [err|]]; cbn [fst snd] in *.
      * destruct IH as (before & s' & after & -> & Hb & Ha & ->).
        exists (s :: before), s', after. split_and!; [done| |done|].
        -- constructor; [|done]. unfold answer. by rewrite Hs.
        -- cbn [app]. by rewrite Himp.
      * destruct IH as [Hall ->]. split; [|by rewrite Himp].
        constructor; [|done]. unfold answer. by rewrite Hs.
  - destruct (multi_loop sel ev (S i) sinks) as [reached [err|]]; cbn [fst snd] in *.
    + destruct IH as (before & s' & after & -> & Hb & Ha & ->).
      exists (s :: before), s', after. split_and!; [done| |done|].
      * constructor; [|done]. unfold answer. by rewrite Hs.
      * cbn [app]. by rewrite Himp.
    + destruct IH as [Hall ->]. split; [|by rewrite Himp].
      constructor; [|done]. unfold answer. by rewrite Hs.
Qed.

(** Nesting does not matter: forwarding through an inner [MultiSink] reports the
    error that a flat list of sinks would. *)
Lemma multi_loop_app {Ev} (sel : Sink F → option (method Ev)) ev i a b :
  (multi_loop sel ev i (a ++ b)).2 =
  match (multi_loop sel ev i a).2 with
  | Some err => Some err
  | None => (multi_loop sel ev (i + length a) b).2
  end.
Proof.
  revert i. induction a as [|s a IH]; intros i; [cbn; by rewrite Nat.add_0_r|].
  cbn [app multi_loop length]. rewrite <- Nat.add_succ_comm. specialize (IH (S i)).
  destruct (sel s) as [record|]; [destruct (record ev)|]; [done|..|done].
  destruct (multi_loop sel ev (S i) (a ++ b)) as [r1 e1], (multi_loop sel ev (S i) a) as [r2 e2]. done.
Qed.

Lemma multi_loop_shift {Ev} (sel : Sink F → option (method Ev)) ev i j a :
  (multi_loop sel ev i a).2 = (multi_loop sel ev j a).2.
Proof.
  revert i j. induction a as [|s a IH]; intros i j; [done|]. cbn [multi_loop].
  specialize (IH (S i) (S j)). destruct (sel s) as [record|]; [destruct (record ev)|]; [done|..|done].
  destruct (multi_loop sel ev (S i) a), (multi_loop sel ev (S j) a). done.
Qed.
End multi.

(** ** Sinks that answer alike *)

Section equivalence.
Context {F : Type}.

(** Two methods answer alike; a missing method and a present one do not. *)
Definition method_equiv {Ev} : relation (option (method Ev)) :=
  fun f g => match f, g with
             | Some f, Some g => ∀ ev, f ev = g ev
             | None, None => True
             | _, _ => False
             end.

#[export] Instance method_equivalence {Ev} : Equivalence (@method_equiv Ev).
Proof.
  split.
  - intros [f|]; cbn; done.
  - intros [f|] [g|]; cbn; auto.
  - intros [f|] [g|] [h|]; cbn; try done. intros Hfg Hgh ev. by rewrite Hfg.
Qed.

Record sink_equiv (s t : Sink F) : Prop := {
  eq_DispatchResult ev : sk_DispatchResult s ev = sk_DispatchResult t ev;
  eq_FleetDiscovery : method_equiv (sk_FleetDiscovery s) (sk_FleetDiscovery t);
  eq_VehicleState : method_equiv (sk_VehicleState s) (sk_VehicleState t);
  eq_DispatchOrder : method_equiv (sk_DispatchOrder s) (sk_DispatchOrder t);
  eq_DispatchAck : method_equiv (sk_DispatchAck s) (sk_DispatchAck t);
  eq_Fallback : method_equiv (sk_Fallback s) (sk_Fallback t);
  eq_RTESignal : method_equiv (sk_RTESignal s) (sk_RTESignal t);
  eq_DispatchLatency : method_equiv (sk_DispatchLatency s) (sk_DispatchLatency t);
  eq_FleetSize : method_equiv (sk_FleetSize s) (sk_FleetSize t);
  eq_VehicleAvailability : method_equiv (sk_VehicleAvailability s) (sk_VehicleAvailability t)
}.

#[export] Instance sink_equivalence : Equivalence sink_equiv.
Proof.
  split.
  - intros s. by split.
  - intros s t []. by split.
  - intros s t u [] []. split; [congruence|..]; by etrans.
Qed.

Lemma multi_loop_proper {Ev} (sel : Sink F → option (method Ev)) ev i a b :
  (∀ s t, sink_equiv s t → method_equiv (sel s) (sel t)) →
  Forall2 sink_equiv a b → multi_loop sel ev i a = multi_loop sel ev i b.
Proof.
  intros Hsel Hab. revert i. induction Hab as [|s t a b Hst _ IH]; intros i; [done|].
  cbn [multi_loop]. apply Hsel in Hst. destruct (sel s) as [f|], (sel t) as [g|]; try done.
  cbn in Hst. by rewrite Hst, IH.
Qed.

(** A [MultiSink] cannot tell sinks apart that answer alike. *)
#[export] Instance NewMultiSink_proper : Proper (Forall2 sink_equiv ==> sink_equiv) NewMultiSink.
Proof.
  intros a b Hab. split; cbn; intros; apply (f_equal snd);
    (eapply multi_loop_proper; [|exact Hab]); intros s t []; try done; by cbn.
Qed.

Lemma multi_loop_nested {Ev} (sel : Sink F → option (method Ev)) ev a b :
  sel (NewMultiSink a) = Some (fun ev => (multi_loop sel ev 0 a).2) →
  (multi_loop sel ev 0 (NewMultiSink a :: b)).2 = (multi_loop sel ev 0 (a ++ b)).2.
Proof.
  intros Hsel. rewrite multi_loop_app. cbn [multi_loop]. rewrite Hsel.
  destruct (multi_loop sel ev 0 a).2 as [err|]; [done|].
  rewrite (multi_loop_shift sel ev (0 + length a) 1).
  by destruct (multi_loop sel ev 1 b).
Qed.

(** Nesting does not matter: a [MultiSink] inside a [MultiSink] answers like the
    flat list of sinks, for all ten methods. *)
Theorem NewMultiSink_flatten (a b : list (Sink F)) :
  sink_equiv (NewMultiSink (NewMultiSink a :: b)) (NewMultiSink (a ++ b)).
Proof.
  split; cbn [NewMultiSink sk_DispatchResult sk_FleetDiscovery sk_VehicleState sk_DispatchOrder
    sk_DispatchAck sk_Fallback sk_RTESignal sk_DispatchLatency sk_FleetSize sk_VehicleAvailability
    method_equiv]; intros; by apply multi_loop_nested.
Qed.

(** The contract of all methods of [MultiSink]: without an error every sink that
    implements the method is called once, in order; the first error ends the
    loop and is returned, so the sinks behind the failing one never see the
    event. *)
Theorem MultiSink_forwards {Ev} (sel : Sink F → option (method Ev)) ev (sinks : list (Sink F)) :
  match multi_loop sel ev 0 sinks with
  | (reached, None) =>
    Forall (fun s => answer sel ev s = None) sinks ∧ reached = implementing sel 0 sinks
  | (reached, Some err) => ∃ before s after, sinks = before ++ s :: after ∧
    Forall (fun s => answer sel ev s = None) before ∧ answer sel ev s = Some err ∧
    reached = implementing sel 0 (before ++ [s]) ∧ (∀ i, length before < i → i ∉ reached)%nat
  end.
Proof.
  pose proof (multi_loop_spec sel ev 0 sinks) as Hs.
  destruct (multi_loop sel ev 0 sinks) as [reached [err|]]; cbn [fst snd] in Hs; [|done].
  destruct Hs as (before & s & after & -> & Hb & Ha & ->).
  exists before, s, after. split_and!; try done. intros i Hi. unfold implementing.
  rewrite list_elem_of_fmap. intros ([j x] & -> & [Hin _]%elem_of_List_filter).
  apply elem_of_zip_l in Hin. rewrite length_app in Hin. apply elem_of_seq in Hin. cbn in *. lia.
Qed.
End equivalence.

(** ** The event collector *)

Section collector.
Context {F : Type} `{Num F} `{!MathExp F} `{!MapRange} (simplex : LPSolver F).

(** What the collector records for an event it receives, given the optional
    interfaces of its sink. *)
Inductive collected :=
| CSignal (ev : RTESignalEvent F)
| CAck (ev : DispatchAckEvent).

Definition collect (hasSignal hasAck : bool) (now : Time) (ev : effect F) : option collected :=
  match ev with
  | ESignal s => if hasSignal then Some (CSignal (MkRTESignal s now)) else None
  | EAck e =>
    if hasAck then
      Some (CAck (MkDispatchAck (ae_OrderID e) (ae_VehicleID e) (ae_Signal e) (ae_Acknowledged e)
        (ae_Latency e) (match ae_Err e with Some err => Error err | None => "" end) now))
    else None
  | _ => None
  end.

Lemma map_imap_to_list {A} (g : string → F → A) (m : gmap string F) :
  map_to_list (map_imap (fun k x => Some (g k x)) m) ≡ₚ (fun '(k, x) => (k, g k x)) <$> map_to_list m.
Proof.
  apply NoDup_Permutation.
  - apply NoDup_map_to_list.
  - apply (NoDup_fmap_1 fst). rewrite <- list_fmap_compose.
    rewrite (list_fmap_ext _ fst); [apply NoDup_fst_map_to_list|]. by intros i [k x] _.
  - intros [k y]. rewrite elem_of_map_to_list, map_lookup_imap, list_elem_of_fmap. split.
    + intros Hk. destruct (m !! k) as [x|] eqn:Hx; [|done]. injection Hk as <-.
      exists (k, x). by rewrite elem_of_map_to_list.
    + intros ([k' x] & [= -> ->] & Hx%elem_of_map_to_list). by rewrite Hx.
Qed.

(** The acknowledgments a collector records for one dispatch, if its buffer
    never overflows, are those of the result: one per assigned vehicle, with
    the same outcome. *)
Theorem collector_acks fuel m env signal vehicles res m' eff hasSignal now
    (Hfair : env_fair env) (Hbus : m_bus m = true)
    (Hrun : Dispatch simplex fuel m env signal vehicles = Some (res, m', eff)) :
  omap (fun c => match c with CAck a => Some (da_VehicleID a, da_Acknowledged a) | CSignal _ => None end)
    (omap (collect hasSignal true now) eff) ≡ₚ map_to_list (dr_Acknowledged res).
Proof.
  pose proof (di_acks _ _ _ _ _ _ _ _ _ (Dispatch_inv simplex _ _ _ _ _ _ _ _ Hfair Hrun)) as ->.
  rewrite map_imap_to_list.
  rewrite (Dispatch_effects simplex (collect hasSignal true now) _ _ _ _ _ _ _ _) by (done || by intros []).
  rewrite Hbus, omap_app.
  assert (omap (fun c => match c with CAck a => Some (da_VehicleID a, da_Acknowledged a) | CSignal _ => None end)
    (option_list (collect hasSignal true now (ESignal signal))) = []) as -> by (by destruct hasSignal).
  cbn [app]. assert (env_order env (range_map (dr_Assignments res)) ≡ₚ map_to_list (dr_Assignments res)) as <-.
  { rewrite Hfair. apply range_map_perm. }
  apply reflexive_eq. induction (env_order _ _) as [|[id p] l IH]; [done|].
  rewrite !fmap_cons. cbn [concat]. rewrite omap_app, IH.
  unfold order_effects, bus_event, outcome_ack. rewrite Hbus.
  destruct (sendAndWait m env id p) as [[[o ack] d] err]. cbn. by destruct (sink_has _ _).
Qed.
End collector.
