(* ===== verification/Prom.v ===== *)
(** * The Prometheus sink

    Models [infra/metrics/prom.go]: three collectors (a counter of events and a
    histogram of latencies by vehicle, signal type and outcome, and a gauge of
    the fleet's size) and the methods that feed them.  A registry is outside:
    what it answers to a registration is an argument.  The section at the end
    composes the sink with the manager and the event collector, which both
    record every acknowledgment. *)

From S2P Require Import Prelude Num GoTime Model PowerMap MathExp LPDispatcher.
From S2P Require Import Tuner Manager ManagerFacts Telemetry Sinks.
From stdpp Require Import base gmap strings list.
From Stdlib Require Import ZArith Lia.

#[local] Open Scope Z_scope.

(** The values of [vehicle_id], [signal_type] and [acknowledged]. *)
Definition labels : Type := string * string * string.

#[export] Instance labels_eq_dec : EqDecision labels.
Proof. unfold labels. apply _. Defined.

#[export] Instance labels_countable : Countable labels.
Proof. unfold labels. apply _. Defined.

(** [strconv.FormatBool]. *)
Definition FormatBool (b : bool) : string := if b then "true" else "false".

Definition label_values (id : string) (t : SignalType) (ack : bool) : labels :=
  (id, SignalType_String t, FormatBool ack).

(** The value of every series; the observations of a histogram. *)
Record PromSink (F : Type) := MkProm {
  pm_events : gmap labels Z;
  pm_latency : gmap labels (list F);
  pm_fleet : F
}.
Arguments MkProm {F}.
Arguments pm_events {F}.
Arguments pm_latency {F}.
Arguments pm_fleet {F}.

(** What [Register] answers: nil, [AlreadyRegisteredError] with the existing
    collector, or another error. *)
Inductive registration (C : Type) :=
| Registered
| AlreadyRegistered (existing : C)
| RegisterError (err : string).
Arguments Registered {C}.
Arguments AlreadyRegistered {C}.
Arguments RegisterError {C}.

Section prom.
Context {F : Type} `{Num F}.

(** The collector to use after a registration. *)
Definition registered {C} (fresh : C) (r : registration C) : string + C :=
  match r with
  | Registered => inr fresh
  | AlreadyRegistered c => inr c
  | RegisterError err => inl err
  end.

Definition NewPromSinkWithRegistry (events : registration (gmap labels Z))
    (latency : registration (gmap labels (list F))) (fleet : registration F) : string + PromSink F :=
  match registered ∅ events with
  | inl err => inl err
  | inr events =>
    match registered ∅ latency with
    | inl err => inl err
    | inr latency =>
      match registered n0 fleet with
      | inl err => inl err
      | inr fleet => inr (MkProm events latency fleet)
      end
    end
  end.

(** [WithLabelValues(...).Inc()]. *)
Definition inc (l : labels) (s : PromSink F) : PromSink F :=
  MkProm (<[l := default 0 (pm_events s !! l) + 1]> (pm_events s)) (pm_latency s) (pm_fleet s).

(** [WithLabelValues(...).Observe(x)]. *)
Definition observe (l : labels) (x : F) (s : PromSink F) : PromSink F :=
  MkProm (pm_events s) (<[l := default [] (pm_latency s !! l) ++ [x]]> (pm_latency s)) (pm_fleet s).

Definition PromDispatchResult (s : PromSink F) (res : list (MetricResult F)) : PromSink F :=
  foldl (fun s r => inc (label_values (mr_VehicleID r) (sig_Type (mr_Signal r)) (mr_Acknowledged r)) s)
    s res.

Definition PromDispatchLatency (s : PromSink F) (recs : list DispatchLatency) : PromSink F :=
  foldl (fun s r => observe (label_values (dl_VehicleID r) (dl_Signal r) (dl_Acknowledged r))
                      (Seconds (dl_Latency r)) s) s recs.

Definition PromFleetSize (s : PromSink F) (size : Z) : PromSink F :=
  MkProm (pm_events s) (pm_latency s) (nofZ size).

Definition PromDispatchAck (s : PromSink F) (ev : DispatchAckEvent) : PromSink F :=
  let l := label_values (da_VehicleID ev) (da_Signal ev) (da_Acknowledged ev) in
  let s := inc l s in
  if da_Latency ev >? 0 then observe l (Seconds (da_Latency ev)) s else s.

(** The optional interfaces of the sink. *)
Definition prom_caps : SinkCaps := MkCaps true false true false.

(** ** Behind the manager and the collector *)

(** The effects of the manager reach the sink directly, the events of the bus
    through the event collector. *)
Definition prom_consume (now : Time) (s : PromSink F) (e : effect F) : PromSink F :=
  match e with
  | EResults recs => PromDispatchResult s recs
  | ELatency recs => PromDispatchLatency s recs
  | EFleetSize n => PromFleetSize s n
  | _ => match collect false true now e with
         | Some (CAck ev) => PromDispatchAck s ev
         | _ => s
         end
  end.

(** The counters an effect increments. *)
Definition counted (e : effect F) : list labels :=
  match e with
  | EResults recs =>
    (fun r => label_values (mr_VehicleID r) (sig_Type (mr_Signal r)) (mr_Acknowledged r)) <$> recs
  | EAck ev => [label_values (ae_VehicleID ev) (ae_Signal ev) (ae_Acknowledged ev)]
  | _ => []
  end.

Definition count (s : PromSink F) (l : labels) : Z := default 0 (pm_events s !! l).

(** How often [l] occurs. *)
Definition occurrences (l : labels) (ls : list labels) : Z :=
  Z.of_nat (length (List.filter (fun x => bool_decide (x = l)) ls)).

Lemma occurrences_app l a b : occurrences l (a ++ b) = occurrences l a + occurrences l b.
Proof. unfold occurrences. rewrite List.filter_app, length_app. lia. Qed.

#[export] Instance occurrences_proper l : Proper ((≡ₚ) ==> eq) (occurrences l).
Proof. intros a b Hab. unfold occurrences. by rewrite (List_filter_perm _ _ _ Hab). Qed.

Lemma count_inc s l l' : count (inc l s) l' = count s l' + (if bool_decide (l = l') then 1 else 0).
Proof.
  unfold count. cbn. rewrite lookup_insert. case_bool_decide; case_decide; subst; try done; cbn; lia.
Qed.

Lemma count_results s recs l :
  count (PromDispatchResult s recs) l = count s l + occurrences l (counted (EResults recs)).
Proof.
  revert s. induction recs as [|r recs IH]; intros s; [cbn; unfold occurrences; cbn; lia|].
  unfold PromDispatchResult in *. cbn [foldl]. rewrite IH, count_inc. cbn [counted]. rewrite fmap_cons.
  unfold occurrences at 2. cbn [List.filter]. fold (counted (EResults recs)).
  case_bool_decide; cbn [length]; fold (occurrences l (counted (EResults recs))); unfold occurrences; lia.
Qed.

Lemma count_latency s recs l : count (PromDispatchLatency s recs) l = count s l.
Proof. revert s. induction recs as [|r recs IH]; intros s; [done|]. cbn. by rewrite IH. Qed.

(** Every effect increments exactly its counters. *)
Lemma count_consume now s e l : count (prom_consume now s e) l = count s l + occurrences l (counted e).
Proof.
  destruct e as [id p|sg|ev|ev|n|recs|ev|recs|recs]; cbn [prom_consume collect counted];
    try (unfold occurrences; cbn; lia).
  - unfold PromDispatchAck. cbn.
    match goal with |- count (if _ then observe ?a ?b ?c else ?d) l = _ =>
      transitivity (count c l); [by case_match|] end.
    rewrite count_inc. unfold occurrences. cbn. case_bool_decide; cbn; lia.
  - unfold occurrences, count. cbn. lia.
  - apply count_results.
  - rewrite count_latency. unfold occurrences. cbn. lia.
Qed.

Lemma count_consume_all now s eff l :
  count (foldl (prom_consume now) s eff) l = count s l + occurrences l (mbind counted eff).
Proof.
  revert s. induction eff as [|e eff IH]; intros s; [cbn; unfold occurrences; cbn; lia|].
  cbn [foldl]. rewrite IH, count_consume, bind_cons, occurrences_app. lia.
Qed.
End prom.

Section composed.
Context {F : Type} `{Num F} `{!MathExp F} `{!MapRange} (simplex : LPSolver F).

(** The counters of the orders of one dispatch. *)
Definition order_labels (res : DispatchResult F) (signal : FlexibilitySignal F) : list labels :=
  (fun '(id, ack) => label_values id (sig_Type signal) ack) <$> map_to_list (dr_Acknowledged res).

Lemma counted_preparing (eff : list (effect F)) : Forall preparing eff → mbind counted eff = [].
Proof. induction 1 as [|e eff He _ IH]; [done|]. rewrite bind_cons, IH. by destruct e. Qed.

Lemma counted_orders (m : DispatchManager F) env scores price signal l :
  m_bus m = true →
  mbind counted (concat (order_effects m env scores price signal <$> l)) =
  (fun '(id, p) => label_values id (sig_Type signal) (outcome_ack m env id p)) <$> l.
Proof.
  intros Hbus. induction l as [|[id p] l IH]; [done|]. rewrite !fmap_cons. cbn [concat].
  rewrite bind_app, IH. f_equal. unfold order_effects, outcome_ack, bus_event. rewrite Hbus.
  destruct (sendAndWait m env id p) as [[[o ack] d] err]. by destruct (sink_has _ _).
Qed.

Lemma counted_records (m : DispatchManager F) res lat hasLatency caps :
  m_metrics m = Some caps →
  mbind counted (recordMetrics m res lat hasLatency) =
  (fun '(id, _) => label_values id (sig_Type (dr_Signal res)) (bget (dr_Acknowledged res) id))
    <$> range_map (dr_Assignments res).
Proof.
  intros Hm. unfold recordMetrics. rewrite Hm. rewrite bind_cons. cbn [counted].
  rewrite <- list_fmap_compose.
  assert (mbind counted (if hasLatency then [ELatency lat] else []) = @nil labels) as ->
    by (by destruct hasLatency).
  rewrite app_nil_r. apply list_fmap_ext. by intros i [id p] _.
Qed.

(** A dispatch of a manager with the Prometheus sink and a bus whose events the
    collector records on the same sink increments the counter of every order
    twice: once for the acknowledgment event and once for the result. *)
Theorem dispatch_counted_twice fuel m env signal vehicles res m' eff now s caps l
    (Hfair : env_fair env) (Hbus : m_bus m = true) (Hsink : m_metrics m = Some caps)
    (Hrun : Dispatch simplex fuel m env signal vehicles = Some (res, m', eff)) :
  count (foldl (prom_consume now) s eff) l =
  count s l + 2 * occurrences l (order_labels res signal).
Proof.
  rewrite count_consume_all.
  pose proof (Dispatch_inv simplex _ _ _ _ _ _ _ _ Hfair Hrun) as Hinv.
  pose proof (di_acks _ _ _ _ _ _ _ _ _ Hinv) as Hacks.
  pose proof (di_signal _ _ _ _ _ _ _ _ _ Hinv) as Hsig.
  apply Dispatch_shape in Hrun as (pre & post & lat & Hpre & Hpost & ->).
  rewrite !bind_app, (counted_preparing pre), (counted_preparing post) by done.
  rewrite counted_orders by done. erewrite counted_records by done. rewrite Hsig.
  assert (mbind counted (bus_event m (ESignal signal)) = @nil labels) as ->
    by (unfold bus_event; by destruct (m_bus m)).
  cbn [app]. rewrite occurrences_app.
  assert (order_labels res signal ≡ₚ
    (fun '(id, p) => label_values id (sig_Type signal) (outcome_ack m env id p)) <$>
      map_to_list (dr_Assignments res)) as Hlab.
  { unfold order_labels. rewrite Hacks, map_imap_to_list, <- list_fmap_compose.
    apply reflexive_eq, list_fmap_ext. by intros i [id p] _. }
  rewrite Hlab, (Hfair _), !range_map_perm.
  assert ((fun '(id, _) => label_values id (sig_Type signal) (bget (dr_Acknowledged res) id)) <$>
    map_to_list (dr_Assignments res) =
    (fun '(id, p) => label_values id (sig_Type signal) (outcome_ack m env id p)) <$>
    map_to_list (dr_Assignments res)) as ->; [|lia].
  apply list_fmap_ext. intros i [id p] Hi%list_elem_of_lookup_2%elem_of_map_to_list.
  unfold bget. by rewrite Hacks, map_lookup_imap, Hi.
Qed.
End composed.
