(* ===== verification/Scenarios.v ===== *)
(** * Acceptance scenarios

    Models [qa/scenarios]: the definitions of a scenario file after decoding,
    the removal of a vehicle from a slice in place, and [RunScenario], which
    drives a manager with a smart dispatcher, a balanced fallback and the mock
    publisher through a list of signals while vehicles fail and disconnect.  The
    five scenarios of the repository are run on binary64. *)

From S2P Require Import Prelude Num GoTime Model PowerMap Candidates MathExp SmartDispatcher.
From S2P Require Import LPDispatcher Fallback Tuner Manager ManagerFacts Discovery GoText Prom.
From stdpp Require Import base gmap strings list.
From Stdlib Require Import ZArith Lia Floats.SpecFloat.

#[local] Open Scope Z_scope.

Record VehicleDef (F : Type) := MkVehicleDef {
  vd_ID : string;
  vd_SoC : F;
  vd_IsV2G : bool;
  vd_Available : bool;
  vd_MaxPower : F;
  vd_BatteryKWh : F
}.
Arguments MkVehicleDef {F}.
Arguments vd_ID {F}.
Arguments vd_SoC {F}.
Arguments vd_IsV2G {F}.
Arguments vd_Available {F}.
Arguments vd_MaxPower {F}.
Arguments vd_BatteryKWh {F}.

Record SignalDef (F : Type) := MkSignalDef {
  sg_Type : string;
  sg_PowerKW : F;
  sg_DurationSeconds : Z
}.
Arguments MkSignalDef {F}.
Arguments sg_Type {F}.
Arguments sg_PowerKW {F}.
Arguments sg_DurationSeconds {F}.

Record Scenario (F : Type) := MkScenario {
  sc_Name : string;
  sc_Vehicles : list (VehicleDef F);
  sc_Signals : list (SignalDef F);
  sc_FailVehicles : list string;
  sc_AckFailAfter : gmap string Z;
  sc_DisconnectAfter : gmap string Z;
  sc_Expected : Z
}.
Arguments MkScenario {F}.
Arguments sc_Name {F}.
Arguments sc_Vehicles {F}.
Arguments sc_Signals {F}.
Arguments sc_FailVehicles {F}.
Arguments sc_AckFailAfter {F}.
Arguments sc_DisconnectAfter {F}.
Arguments sc_Expected {F}.

Definition parseSignalType (t : string) : SignalType :=
  if bool_decide (t = "FCR") then SignalFCR
  else if bool_decide (t = "aFRR") then SignalAFRR
  else if bool_decide (t = "MA") then SignalMA
  else if bool_decide (t = "NEBEF") then SignalNEBEF
  else if bool_decide (t = "EcoWatt") then SignalEcoWatt
  else SignalFCR.

Section scenario.
Context {F : Type} `{Num F} `{!MathExp F} `{!MapRange} (simplex : LPSolver F).
Implicit Types (vs arr : list (Vehicle F)) (mp : MockPublisher F) (sc : Scenario F).

(** The fields that are not in the file are zero. *)
Definition vehicle_ToModel (v : VehicleDef F) : Vehicle F :=
  MkVehicle (vd_ID v) (vd_SoC v) (vd_IsV2G v) (vd_MaxPower v) (vd_BatteryKWh v) (vd_Available v)
    false false time_zero n0 (MkUserProfile time_zero []) ∅ "" n0 n0.

Definition signal_ToModel (s : SignalDef F) (ts : Time) : FlexibilitySignal F :=
  MkSignal (parseSignalType (sg_Type s)) (sg_PowerKW s) (wrap64 (sg_DurationSeconds s * Second)) ts.

(** ** Removing a vehicle in place *)

(** The loop of [removeVehicle]: [i] is the index that is read, [out] the length
    of the result, which lives in the same array. *)
Fixpoint remove_loop (id : string) (n i out : nat) arr : list (Vehicle F) * nat :=
  match n with
  | O => (arr, out)
  | S n =>
    match arr !! i with
    | None => (arr, out)
    | Some v =>
      if bool_decide (ID v = id) then remove_loop id n (S i) out arr
      else remove_loop id n (S i) (S out) (<[out := v]> arr)
    end
  end.

Definition removeVehicle vs (id : string) : list (Vehicle F) :=
  let '(arr, out) := remove_loop id (length vs) 0 0 vs in take out arr.

(** ** A run *)

Definition set_FailIDs (f : gmap string bool) mp : MockPublisher F :=
  MkMock (mp_Messages mp) f (mp_AckResults mp).

(** The publisher as the client of a dispatch: a command is waited for after the
    send that made it. *)
Definition publisher_client mp : Client F :=
  MkClient (fun id p => (MockSendOrder mp id p).2)
    (fun cmd _ => MockWaitForAck (MockSendOrder mp (TrimPrefix cmd "cmd-") n0).1 cmd).

(** The world of a dispatch: no discovery, orders finish in the order [order]. *)
Definition scenario_env mp (order : list (string * F) → list (string * F)) (now : Time) : Env F :=
  MkEnv (inl (ErrorString "no discovery")) (publisher_client mp) (fun _ => 0) order now.

(** Before the signal [i]: the publisher fails for more vehicles, and vehicles
    disconnect. *)
Definition fail_ids sc (i : Z) (f : gmap string bool) : gmap string bool :=
  foldl (fun f '(vid, after) => if after <=? i then <[vid := true]> f else f) f
    (range_map (sc_AckFailAfter sc)).

Definition disconnect sc (i : Z) vs : list (Vehicle F) :=
  foldl (fun vs '(vid, after) => if after <=? i then removeVehicle vs vid else vs) vs
    (range_map (sc_DisconnectAfter sc)).

(** The loop over the signals: the results of the dispatches. *)
Fixpoint scenario_loop (fuel : nat) sc (order : list (string * F) → list (string * F)) (now : Time)
    (i : Z) (m : DispatchManager F) mp vs (signals : list (SignalDef F)) :
    option (list (DispatchResult F)) :=
  match signals with
  | [] => Some []
  | s :: signals =>
    let mp := set_FailIDs (fail_ids sc i (mp_FailIDs mp)) mp in
    let vs := disconnect sc i vs in
    '(res, m, eff) ← Dispatch simplex fuel m (scenario_env mp order now)
                       (signal_ToModel s (MkTime (62135596800 * Second) 0)) vs;
    results ← scenario_loop fuel sc order now (i + 1) m (mock_send_all mp (sent eff)) vs signals;
    Some (res :: results)
  end.

(** [&SmartDispatcher{}]. *)
Definition zero_dispatcher : SmartDispatcher F :=
  MkSmart n0 n0 n0 n0 n0 n0 n0 n0 None 0 ∅ false n0 n0.

(** The manager of the test, with a Prometheus sink and a bus. *)
Definition scenario_manager : string + DispatchManager F :=
  NewDispatchManager true true (Some (DSmart zero_dispatcher)) (Some (FBalanced ∅)) (10 * Millisecond)
    (Some prom_caps) true false None None.

Definition scenario_publisher sc : MockPublisher F :=
  foldl (fun mp id => set_FailIDs (<[id := true]> (mp_FailIDs mp)) mp) NewMockPublisher
    (sc_FailVehicles sc).

Definition scenario_results (fuel : nat) sc order now : option (list (DispatchResult F)) :=
  match scenario_manager with
  | inl _ => None
  | inr m => scenario_loop fuel sc order now 0 m (scenario_publisher sc)
               (vehicle_ToModel <$> sc_Vehicles sc) (sc_Signals sc)
  end.

(** The acknowledgments of a result. *)
Definition acked (res : DispatchResult F) : Z :=
  Z.of_nat (length (List.filter snd (range_map (dr_Acknowledged res)))).

(** Whether the number of acknowledgments is the expected one. *)
Definition RunScenario (fuel : nat) sc order now : option bool :=
  results ← scenario_results fuel sc order now;
  Some (foldl (fun n res => n + acked res) 0 results =? sc_Expected sc).
End scenario.


(** ** What the helpers do *)

Section scenario_facts.
Context {F : Type} `{Num F} `{!MathExp F} `{!MapRange} (simplex : LPSolver F).
Implicit Types (vs arr : list (Vehicle F)) (mp : MockPublisher F) (sc : Scenario F).

Definition other (id : string) (v : Vehicle F) : bool := negb (bool_decide (ID v = id)).

(** The result grows behind the index that is read, so no vehicle is lost. *)
Lemma remove_loop_spec id n i out arr vs :
  (i + n = length vs)%nat → length arr = length vs → (out ≤ i)%nat →
  drop i arr = drop i vs → take out arr = List.filter (other id) (take i vs) →
  let '(arr', out') := remove_loop id n i out arr in take out' arr' = List.filter (other id) vs.
Proof.
  revert i out arr. induction n as [|n IH]; intros i out arr Hin Hlen Hout Hdrop Htake.
  { cbn. rewrite Htake. f_equal. apply take_ge. lia. }
  cbn [remove_loop].
  assert (arr !! i = vs !! i) as Hread.
  { pose proof (lookup_drop arr i 0) as H1. pose proof (lookup_drop vs i 0) as H2.
    rewrite Nat.add_0_r in H1, H2. by rewrite <- H1, Hdrop, H2. }
  rewrite Hread. destruct (lookup_lt_is_Some_2 vs i) as [v Hv]; [lia|]. rewrite Hv.
  assert (take (S i) vs = take i vs ++ [v]) as Hsnoc by (by apply take_S_r).
  assert (∀ l : list (Vehicle F), drop (S i) l = drop 1 (drop i l)) as Hd.
  { intros l. rewrite drop_drop. f_equal. lia. }
  assert (List.filter (other id) (take (S i) vs) =
    List.filter (other id) (take i vs) ++ (if other id v then [v] else [])) as Hf.
  { rewrite Hsnoc, List.filter_app. cbn. by destruct (other id v). }
  unfold other at 3 in Hf. destruct (bool_decide (ID v = id)); cbn [negb] in Hf; apply IH;
    rewrite ?length_insert; try lia.
  - by rewrite !Hd, Hdrop.
  - by rewrite Hf, Htake, app_nil_r.
  - rewrite drop_insert_lt by lia. by rewrite !Hd, Hdrop.
  - rewrite Hf, <- Htake, (take_S_r _ out v) by (apply list_lookup_insert_eq; lia).
    by rewrite take_insert_ge by lia.
Qed.

(** Removing a vehicle in the array it is read from gives the other vehicles,
    in their order. *)
Lemma removeVehicle_filter vs id : removeVehicle vs id = List.filter (other id) vs.
Proof.
  unfold removeVehicle.
  pose proof (remove_loop_spec id (length vs) 0 0 vs vs) as Hl.
  destruct (remove_loop id (length vs) 0 0 vs) as [arr out]. by apply Hl.
Qed.

(** ** Who fails and who is gone *)

Definition reached (after : gmap string Z) (i : Z) (id : string) : bool :=
  match after !! id with Some a => a <=? i | None => false end.

Definition failing sc (i : Z) (id : string) : bool :=
  bool_decide (id ∈ sc_FailVehicles sc) || reached (sc_AckFailAfter sc) i id.

Lemma reached_range after i id :
  reached after i id = true ↔ ∃ a, (id, a) ∈ range_map after ∧ a <= i.
Proof.
  unfold reached. setoid_rewrite elem_of_range. destruct (after !! id) as [a|]; [|naive_solver].
  rewrite Z.leb_le. naive_solver.
Qed.

Lemma fail_ids_true sc i f id :
  bget (fail_ids sc i f) id = true ↔ bget f id = true ∨ reached (sc_AckFailAfter sc) i id = true.
Proof.
  rewrite reached_range. unfold fail_ids. generalize (range_map (sc_AckFailAfter sc)). intros l.
  revert f. induction l as [|[vid a] l IH]; intros f; cbn [foldl].
  { split; [by left|]. intros [?|(a & Hin & _)]; [done|]. by apply elem_of_nil in Hin. }
  rewrite IH. setoid_rewrite elem_of_cons. destruct (Z.leb_spec a i) as [Ha|Ha].
  - unfold bget. rewrite lookup_insert. case_decide as Heq; [subst vid|naive_solver].
    split; [intros _; right; exists a; auto|by left].
  - split; [naive_solver|]. intros [?|(a' & [[= -> ->]|Hin] & Ha')]; [by left|lia|eauto].
Qed.

Lemma elem_of_disconnect sc i vs v :
  v ∈ disconnect sc i vs ↔ v ∈ vs ∧ reached (sc_DisconnectAfter sc) i (ID v) = false.
Proof.
  rewrite <- not_true_iff_false, reached_range. unfold disconnect.
  generalize (range_map (sc_DisconnectAfter sc)). intros l.
  revert vs. induction l as [|[vid a] l IH]; intros vs; cbn [foldl].
  { split; [|naive_solver]. intros Hv. split; [done|]. intros (a & Hin & _). by apply elem_of_nil in Hin. }
  rewrite IH. setoid_rewrite elem_of_cons. destruct (Z.leb_spec a i) as [Ha|Ha].
  - rewrite removeVehicle_filter, elem_of_List_filter. unfold other.
    rewrite negb_true_iff, bool_decide_eq_false. naive_solver.
  - split; [|naive_solver]. intros [Hv Hn]. split; [done|].
    intros (a' & [Heq|Hin] & Ha'); [injection Heq as _ Heq; lia|]. eauto.
Qed.

(** The mock publisher acknowledges exactly the orders of vehicles that do not
    fail. *)
Lemma publisher_outcome (m : DispatchManager F) mp order now id p :
  outcome_ack m (scenario_env mp order now) id p = negb (bget (mp_FailIDs mp) id).
Proof.
  unfold outcome_ack, sendAndWait. cbn [scenario_env env_client publisher_client cl_SendOrder cl_WaitForAck].
  unfold MockSendOrder at 1. destruct (bget (mp_FailIDs mp) id) eqn:Hf; [done|]. cbn [fst snd negb].
  assert (TrimPrefix ("cmd-" +:+ id) "cmd-" = id) as -> by done.
  unfold MockSendOrder, MockWaitForAck. rewrite Hf. cbn [fst mp_AckResults]. by rewrite lookup_insert_eq.
Qed.

(** The manager of a scenario between two signals. *)
Definition scenario_ready (m : DispatchManager F) : Prop :=
  (∃ d, m_dispatcher m = DSmart d) ∧ m_lpFirst m = ∅ ∧ m_discovery m = false ∧
  m_prediction m = None ∧ m_tuner m = None.

(** One signal: what is acknowledged, who is assigned, and the next state. *)
Lemma scenario_dispatch fuel m mp order now signal vs res m' eff :
  scenario_ready m → (∀ l, order l ≡ₚ l) →
  Dispatch simplex fuel m (scenario_env mp order now) signal vs = Some (res, m', eff) →
  scenario_ready m' ∧
  (∀ id, dr_Acknowledged res !! id =
     (fun _ => negb (bget (mp_FailIDs mp) id)) <$> dr_Assignments res !! id) ∧
  ∀ id, is_Some (dr_Assignments res !! id) →
    ∃ v, v ∈ vs ∧ ID v = id ∧ filter_keep signal v = true.
Proof.
  intros ([d Hd] & Hlp & Hdisc & Hpred & Htun) Hord Hrun.
  apply Dispatch_inv in Hrun; [|done].
  destruct Hrun as [(used & d' & lp & eff4 & Hst & ->) Hack _ _ _ _ _].
  assert (considered m (scenario_env mp order now) signal vs = Candidates.Filter vs signal) as Hc.
  { unfold considered, discover_vehicles, apply_prediction. by rewrite Hdisc, Hpred, andb_false_r. }
  assert (∃ sd, SmartDispatch fuel d (Candidates.Filter vs signal) signal =
    Some (dr_Assignments res, sd) ∧ d' = DSmart sd) as (sd & Hsmart & ->).
  { assert (m_lpFirst (armed m (scenario_env mp order now) signal vs) = ∅) as Hlp' by done.
    assert (m_dispatcher (armed m (scenario_env mp order now) signal vs) = DSmart d) as Hd' by done.
    unfold dispatchStrategy in Hst. rewrite Hc, Hlp', lookup_empty, Hd' in Hst.
    cbn [default from_option dispatcher_Dispatch] in Hst.
    destruct (SmartDispatch fuel d _ signal) as [[a sd]|] eqn:Hs;
      [|destruct (lp_object _); discriminate].
    exists sd. cbn [mbind option_bind] in Hst.
    destruct (lp_object _); injection Hst as -> <- <- _; done. }
  split_and!.
  - unfold tune_manager. cbn. rewrite Htun. split_and!; try done. by exists sd.
  - intros id. rewrite Hack, map_lookup_imap. destruct (dr_Assignments res !! id); [|done].
    cbn. by rewrite publisher_outcome.
  - intros id [p Hp]. destruct (SmartDispatch_assigned _ _ _ _ _ _ _ _ Hsmart Hp) as (v & Hv & Hid & _).
    apply elem_of_List_filter in Hv as [Hv Hk]. eauto.
Qed.

(** What a result of the signal [i] has to be. *)
Definition scenario_result_ok sc (i : Z) (s : SignalDef F) (res : DispatchResult F) : Prop :=
  (∀ id, dr_Acknowledged res !! id =
     (fun _ => negb (failing sc i id)) <$> dr_Assignments res !! id) ∧
  ∀ id, is_Some (dr_Assignments res !! id) →
    reached (sc_DisconnectAfter sc) i id = false ∧
    ∃ v, v ∈ sc_Vehicles sc ∧ vd_ID v = id ∧ vd_Available v = true ∧
      (parseSignalType (sg_Type s) = SignalFCR → vd_IsV2G v = true).

(** The publisher fails for the vehicles of the file and for no vehicle whose
    time has not come. *)
Definition publisher_inv sc (i : Z) mp : Prop :=
  ∀ id, (id ∈ sc_FailVehicles sc → bget (mp_FailIDs mp) id = true) ∧
        (bget (mp_FailIDs mp) id = true → failing sc i id = true).

Lemma publisher_inv_fails sc i mp id :
  publisher_inv sc i mp → bget (fail_ids sc i (mp_FailIDs mp)) id = failing sc i id.
Proof.
  intros Hinv. destruct (Hinv id) as [H1 H2]. apply eq_true_iff_eq. rewrite fail_ids_true.
  unfold failing in *. rewrite orb_true_iff, bool_decide_eq_true in *. naive_solver.
Qed.

Lemma failing_mono sc i id : failing sc i id = true → failing sc (i + 1) id = true.
Proof.
  unfold failing, reached. rewrite !orb_true_iff. intros [?|Hr]; [by left|right].
  destruct (sc_AckFailAfter sc !! id); [|done]. rewrite Z.leb_le in *. lia.
Qed.

Lemma scenario_publisher_inv sc i : publisher_inv sc i (scenario_publisher sc).
Proof.
  assert (∀ l mp id, bget (mp_FailIDs (foldl (fun mp id => set_FailIDs (<[id := true]> (mp_FailIDs mp)) mp)
    mp l)) id = true ↔ id ∈ l ∨ bget (mp_FailIDs mp) id = true) as Hl.
  { induction l as [|x l IH]; intros mp id; cbn [foldl]; [rewrite elem_of_nil; tauto|].
    rewrite IH, elem_of_cons. unfold bget. cbn. rewrite lookup_insert. case_decide; naive_solver. }
  intros id. unfold scenario_publisher. rewrite Hl. unfold failing. rewrite orb_true_iff, bool_decide_eq_true.
  split; [by left|]. intros [?|Hb]; [by left|]. unfold bget in Hb. cbn in Hb. by rewrite lookup_empty in Hb.
Qed.

Lemma scenario_loop_ok fuel sc order now signals :
  (∀ l, order l ≡ₚ l) → ∀ i m mp vs results,
  scenario_ready m → publisher_inv sc i mp →
  (∀ v, v ∈ vs → ∃ v0, v0 ∈ sc_Vehicles sc ∧ vehicle_ToModel v0 = v) →
  scenario_loop simplex fuel sc order now i m mp vs signals = Some results →
  Forall2 (fun '(k, s) res => scenario_result_ok sc k s res)
    (zip (seqZ i (Z.of_nat (length signals))) signals) results.
Proof.
  intros Hord. induction signals as [|s signals IH]; intros i m mp vs results Hm Hmp Hvs Hrun.
  { injection Hrun as <-. constructor. }
  cbn [scenario_loop] in Hrun.
  destruct (Dispatch _ _ _ _ _ _) as [[[res m'] eff]|] eqn:Hd; [|done]. cbn [mbind option_bind] in Hrun.
  apply scenario_dispatch in Hd as (Hm' & Hack & Hasn); [|done..].
  destruct (scenario_loop _ _ _ _ _ _ _ _ _ _) as [rest|] eqn:Hrest; [|done]. injection Hrun as <-.
  cbn [length]. rewrite seqZ_cons by lia. cbn [zip]. constructor.
  - split; [intros id; by rewrite Hack; cbn [set_FailIDs mp_FailIDs]; rewrite publisher_inv_fails|].
    intros id (v & Hv & <- & Hk)%Hasn. apply elem_of_disconnect in Hv as [Hv Hr]. split; [done|].
    destruct (Hvs v Hv) as (v0 & Hv0 & <-). exists v0. unfold filter_keep in Hk.
    destruct (Available (vehicle_ToModel v0)) eqn:Ha; [|done]. split_and!; [done..|].
    intros Ht. cbn [signal_ToModel sig_Type] in Hk. rewrite Ht in Hk. cbn [negb Z.eqb] in Hk.
    by apply andb_true_iff in Hk as [Hk _].
  - replace (Z.pred (Z.of_nat (S (length signals)))) with (Z.of_nat (length signals)) by lia.
    change (Z.succ i) with (i + 1). eapply IH; [exact Hm'| | |exact Hrest].
    + intros id. rewrite (proj1 (mock_send_all_spec _ _)). cbn [set_FailIDs mp_FailIDs].
      rewrite publisher_inv_fails by done. split; [|apply failing_mono].
      intros Hin. unfold failing. by rewrite bool_decide_eq_true_2.
    + intros v [Hv _]%elem_of_disconnect. auto.
Qed.

End scenario_facts.

(** ** The scenarios of the repository *)

#[local] Open Scope num_scope.

(** A vehicle of 22 kW and 40 kWh at 70 %. *)
Definition qa_vehicle (id : string) (v2g available : bool) : VehicleDef spec_float :=
  MkVehicleDef id (7 // 10) v2g available (22 // 1) (40 // 1).

Definition ack_loss_mid_dispatch : Scenario spec_float :=
  MkScenario "ack_loss_mid_dispatch" [qa_vehicle "v1" true true; qa_vehicle "v2" true true]
    [MkSignalDef "FCR" (10 // 1) 100; MkSignalDef "FCR" (15 // 1) 200] [] {["v2" := 1%Z]} ∅ 3.

Definition mixed_fleet_partial_compliance : Scenario spec_float :=
  MkScenario "mixed_fleet_partial_compliance"
    [qa_vehicle "v1" true true; qa_vehicle "v2" false true; qa_vehicle "v3" true false;
     qa_vehicle "v4" true true]
    [MkSignalDef "FCR" (25 // 1) 200] ["v2"; "v3"] ∅ ∅ 2.

Definition nominal_high_ack : Scenario spec_float :=
  MkScenario "nominal_high_ack" [qa_vehicle "v1" true true; qa_vehicle "v2" true true]
    [MkSignalDef "FCR" (20 // 1) 300] [] ∅ ∅ 2.

Definition vehicle_disconnect : Scenario spec_float :=
  MkScenario "vehicle_disconnect"
    [qa_vehicle "v1" true true; qa_vehicle "v2" true true; qa_vehicle "v3" true true]
    [MkSignalDef "FCR" (15 // 1) 120; MkSignalDef "FCR" (15 // 1) 120] [] ∅ {["v3" := 1%Z]} 5.

Definition zero_power_rapid : Scenario spec_float :=
  MkScenario "zero_power_rapid" [MkVehicleDef "v1" (9 // 10) true true (22 // 1) (60 // 1)]
    [MkSignalDef "FCR" (0 // 1) 60; MkSignalDef "FCR" (5 // 1) 60; MkSignalDef "FCR" (5 // 1) 60]
    [] ∅ ∅ 2.

Definition shipped_scenarios : list (Scenario spec_float) :=
  [ack_loss_mid_dispatch; mixed_fleet_partial_compliance; nominal_high_ack; vehicle_disconnect;
   zero_power_rapid].

(** The five scenarios of the repository, run on binary64, reach the number of
    acknowledgments their files expect.  Without a limit on its rounds the smart
    dispatcher goes on until its shares underflow, hence the fuel. *)
Theorem shipped_scenarios_pass (simplex : LPSolver spec_float) :
  Forall (fun sc => RunScenario simplex 1200 sc id time_zero = Some true) shipped_scenarios.
Proof. apply (bool_decide_unpack _). vm_compute. exact I. Qed.
