(* ===== verification/Influx.v ===== *)
(** * The InfluxDB sink

    Models [infra/metrics/influx.go]: the points each method writes, with their
    tags, fields and time.  The client library is outside: whether a write
    succeeds and whether the server is healthy are arguments.  Deadlines of the
    writes are part of the client. *)

From S2P Require Import Prelude Num GoTime GoText Model PowerMap MathExp LPDispatcher.
From S2P Require Import Tuner Manager ManagerFacts Config Rte Telemetry Sinks Prom.
From stdpp Require Import base gmap strings list pretty.
From Stdlib Require Import ZArith QArith Qabs Qround Lqa Lia Floats.SpecFloat.

#[local] Open Scope Z_scope.

(** ** Rounding *)

(** [math.Round]: to the nearest integer, halves away from zero. *)
Class NumRound (F : Type) := nround : F → F.

#[export] Instance NumRound_Q : NumRound Q := fun x =>
  if Qltb x 0 then (- inject_Z (Qfloor (- x + (1 # 2))))%Q else inject_Z (Qfloor (x + (1 # 2))).

#[export] Instance NumRound_B64 : NumRound spec_float := fun x =>
  match x with
  | S754_finite s m e =>
    if 0 <=? e then x else
    let d := 2 ^ (- e) in
    let q := (2 * Zpos m + d) / (2 * d) in
    if q =? 0 then S754_zero s else b64_of_Z (if s then - q else q)
  | _ => x
  end.

(** ** Points *)

Inductive field (F : Type) :=
| FFloat (x : F)
| FInt (n : Z)
| FBool (b : bool)
| FString (s : string).
Arguments FFloat {F}.
Arguments FInt {F}.
Arguments FBool {F}.
Arguments FString {F}.

Record Point (F : Type) := MkPoint {
  pt_measurement : string;
  pt_tags : list (string * string);
  pt_fields : list (string * field F);
  pt_time : Time
}.
Arguments MkPoint {F}.
Arguments pt_measurement {F}.
Arguments pt_tags {F}.
Arguments pt_fields {F}.
Arguments pt_time {F}.

(** [t.UnixNano()]. *)
Definition UnixNano (t : Time) : Z := wrap64 (t_ns t - 62135596800 * Second).

(** What [NewInfluxSink] hands to the client library: the base of the URL, without
    the path of the write API, and the credentials. *)
Definition NewInfluxSink (url token org bucket : string) : string * string * string * string :=
  (TrimSuffix url "/api/v2/write", token, org, bucket).

(** A tag that is only there when it has a value. *)
Definition optional_tag (name value : string) : list (string * string) :=
  if bool_decide (value = "") then [] else [(name, value)].

Section points.
Context {F : Type} `{Num F} `{!NumRound F} `{!NumTrunc F}.
#[local] Open Scope num_scope.

Definition round3 (f : F) : F := nround (f * (1000 // 1)) / (1000 // 1).

Definition result_point (r : MetricResult F) : Point F :=
  MkPoint "dispatch_event"
    [("vehicle_id", mr_VehicleID r); ("signal_type", SignalType_String (sig_Type (mr_Signal r)));
     ("acknowledged", FormatBool (mr_Acknowledged r));
     ("dispatch_id", pretty (UnixNano (Timestamp (mr_Signal r)))); ("component", "dispatch_manager")]
    [("power_kw", FFloat (round3 (mr_PowerKW r))); ("score", FFloat (round3 (mr_Score r)));
     ("market_price", FFloat (round3 (mr_MarketPrice r)))]
    (Timestamp (mr_Signal r)).

Definition discovery_point (ev : FleetDiscoveryEvent) : Point F :=
  MkPoint "fleet_discovery_event" [("component", fd_Component ev)]
    [("pings", FInt (fd_Pings ev)); ("responses", FInt (fd_Responses ev))] (fd_Time ev).

Definition vehicle_status (v : Vehicle F) : string :=
  if Available v then if Charging v then "charging" else "idle" else "unavailable".

(** A snapshot is written as two points. *)
Definition state_points (ev : VehicleStateEvent F) : list (Point F) :=
  let v := se_Vehicle ev in
  [MkPoint "vehicle_state"
     (("vehicle_id", ID v) :: optional_tag "fleet_id" (se_FleetID ev) ++
      optional_tag "component" (se_Component ev) ++ [("context", se_Context ev)])
     [("soc", FFloat (round3 (SoC v))); ("status", FString (vehicle_status v));
      ("power_kw", FFloat (round3 (MaxPower v)))]
     (se_Time ev);
   MkPoint "vehicle_soc_percent" (("vehicle_id", ID v) :: optional_tag "fleet_id" (se_FleetID ev))
     [("soc", FFloat (round3 (SoC v * (100 // 1))))] (se_Time ev)].

Definition order_point (ev : DispatchOrderEvent F) : Point F :=
  MkPoint "dispatch_order"
    [("vehicle_id", oe_VehicleID ev); ("signal_type", SignalType_String (oe_Signal ev));
     ("order_id", oe_OrderID ev)]
    [("power_kw", FFloat (round3 (oe_PowerKW ev))); ("score", FFloat (round3 (oe_Score ev)));
     ("accepted", FBool (oe_Accepted ev))]
    (oe_Time ev).

Definition ack_point (ev : DispatchAckEvent) : Point F :=
  MkPoint "acknowledgment" [("vehicle_id", da_VehicleID ev); ("order_id", da_OrderID ev)]
    [("ack", FBool (da_Acknowledged ev));
     ("latency_ms", FFloat (round3 (Seconds (da_Latency ev) * (1000 // 1))))]
    (da_Time ev).

Definition fallback_point (ev : FallbackEvent F) : Point F :=
  MkPoint "fallback_applied"
    ([("dispatch_id", fe_DispatchID _ ev); ("signal_type", SignalType_String (fe_Signal _ ev));
      ("component", "fallback")] ++ optional_tag "vehicle_id" (fe_VehicleID _ ev))
    [("power_kw", FFloat (round3 (fe_ResidualPower _ ev))); ("fallback_reason", FString (fe_Reason _ ev))]
    (fe_Time _ ev).

(** [int(d.Seconds())]. *)
Definition signal_point (ev : RTESignalEvent F) : Point F :=
  let s := re_Signal ev in
  MkPoint "signal" [("signal_type", SignalType_String (sig_Type s))]
    [("power_requested_kw", FFloat (round3 (PowerKW s)));
     ("duration_s", FInt (ntrunc (Seconds (F := F) (sig_Duration s))))]
    (re_Time ev).

Definition availability_point (r : VehicleAvailability F) : Point F :=
  MkPoint "vehicle_availability" [("vehicle_id", va_VehicleID r)]
    [("probability", FFloat (round3 (va_Probability r)))] (va_Time r).

(** The snapshot [LogVehicleState] records. *)
Definition LogVehicleState (v : Vehicle F) (context : string) (now : Time) : list (Point F) :=
  state_points (MkStateEvent v "" context "" now).

(** ** Writing *)

(** Points are written one after the other up to the first error; the points
    that were written, and the error. *)
Fixpoint write_points (write : Point F → option go_error) (ps : list (Point F)) :
    list (Point F) * option go_error :=
  match ps with
  | [] => ([], None)
  | p :: ps =>
    match write p with
    | Some err => ([], Some err)
    | None => let '(done, err) := write_points write ps in (p :: done, err)
    end
  end.

(** The sink as the record of its methods; it has neither a latency nor a fleet
    size recorder. *)
Definition InfluxSink (write : Point F → option go_error) : Sink F :=
  MkSink (fun res => (write_points write (result_point <$> res)).2)
    (Some (fun ev => (write_points write [discovery_point ev]).2))
    (Some (fun ev => (write_points write (state_points ev)).2))
    (Some (fun ev => (write_points write [order_point ev]).2))
    (Some (fun ev => (write_points write [ack_point ev]).2))
    (Some (fun ev => (write_points write [fallback_point ev]).2))
    (Some (fun ev => (write_points write [signal_point ev]).2))
    None None
    (Some (fun av => (write_points write (availability_point <$> av)).2)).

(** [NopSink]. *)
Definition NopSink : Sink F :=
  MkSink (fun _ => None) (Some (fun _ => None)) (Some (fun _ => None)) (Some (fun _ => None))
    (Some (fun _ => None)) (Some (fun _ => None)) (Some (fun _ => None)) (Some (fun _ => None))
    (Some (fun _ => None)) (Some (fun _ => None)).

(** [health] is the error or the status of the server. *)
Definition NewInfluxSinkWithFallback (health : go_error + string) (write : Point F → option go_error) :
    Sink F :=
  match health with
  | inl _ => NopSink
  | inr status => if bool_decide (status = "pass") then InfluxSink write else NopSink
  end.

(** ** Facts *)

Lemma write_points_spec write (ps : list (Point F)) :
  match write_points write ps with
  | (done, None) => done = ps ∧ Forall (fun p => write p = None) ps
  | (done, Some err) => ∃ p rest, ps = done ++ p :: rest ∧ write p = Some err ∧
      Forall (fun p => write p = None) done
  end.
Proof.
  induction ps as [|p ps IH]; [done|]. cbn [write_points]. destruct (write p) as [err|] eqn:Hp.
  { exists p, ps. by split_and!. }
  destruct (write_points write ps) as [done [err|]].
  - destruct IH as (q & rest & -> & Hq & Hd). exists q, rest. split_and!; [done|done|by constructor].
  - destruct IH as [-> Hd]. split; [done|by constructor].
Qed.

(** What InfluxDB tells points apart by: a later point with the same series and
    time replaces an earlier one. *)
Definition series (p : Point F) : string * list (string * string) * Time :=
  (pt_measurement p, pt_tags p, pt_time p).
End points.

Section influx_facts.
Context {F : Type} `{Num F} `{!MathExp F} `{!NumRound F} `{!NumTrunc F} `{!MapRange}.
Context (simplex : LPSolver F).

(** The records of one dispatch, as the manager hands them to the sink, become
    one point per assigned vehicle, in different series: none replaces
    another. *)
Theorem dispatch_points fuel (m : DispatchManager F) env signal vehicles res m' eff caps recs
    (Hsink : m_metrics m = Some caps)
    (Hrun : Dispatch simplex fuel m env signal vehicles = Some (res, m', eff))
    (Hrecs : EResults recs ∈ eff) :
  NoDup (series <$> (result_point <$> recs)) ∧
  (fun p => snd <$> head (pt_tags p)) <$> (result_point <$> recs) =
    Some <$> (range_map (dr_Assignments res)).*1.
Proof.
  apply Dispatch_shape in Hrun as (pre & post & lat & Hpre & Hpost & ->).
  assert (EResults recs ∈ recordMetrics m res lat (sink_has cap_Latency m)) as Hin.
  { rewrite !elem_of_app in Hrecs. destruct Hrecs as [Hp|[Hp|[Hp|[Hp|Hp]]]]; [..|done]; exfalso.
    - rewrite Forall_forall in Hpre. by apply Hpre in Hp.
    - unfold bus_event in Hp. destruct (m_bus m); [|by apply elem_of_nil in Hp].
      by apply list_elem_of_singleton in Hp.
    - rewrite Forall_forall in Hpost. by apply Hpost in Hp.
    - apply list_elem_of_In, in_concat in Hp as (l & Hl & Hin).
      apply list_elem_of_In, list_elem_of_fmap in Hl as (idp & -> & _).
      apply list_elem_of_In in Hin. rename Hin into Hl. destruct idp as [id p]. unfold order_effects, bus_event in Hl.
      destruct (sendAndWait m env id p) as [[[o ack] d] err].
      destruct (m_bus m), (sink_has cap_Order m); set_solver. }
  unfold recordMetrics in Hin. rewrite Hsink in Hin.
  assert (mr_VehicleID <$> recs = (range_map (dr_Assignments res)).*1) as Hids.
  { apply elem_of_cons in Hin as [[= ->]|Hin].
    - rewrite <- list_fmap_compose. apply list_fmap_ext. by intros i [id p] _.
    - destruct (sink_has _ _); [apply list_elem_of_singleton in Hin|apply elem_of_nil in Hin]; done. }
  split.
  - apply (NoDup_fmap_1 (fun x => snd <$> head x.1.2)). rewrite <- !list_fmap_compose.
    assert (NoDup (Some <$> (mr_VehicleID <$> recs))) as Hnd.
    { apply NoDup_fmap_2; [apply _|]. rewrite Hids. auto with v2g. }
    by rewrite <- list_fmap_compose in Hnd.
  - rewrite <- Hids, <- !list_fmap_compose. done.
Qed.
End influx_facts.

(** ** Exactness of the rounding *)

Section rounding.
#[local] Open Scope Q_scope.

Lemma nround_error (x : Q) : Qabs (nround x - x) <= 1 # 2.
Proof.
  assert (∀ y, let f := inject_Z (Qfloor (y + (1 # 2))) in f - (1 # 2) <= y < f + (1 # 2)) as Hf.
  { intros y f. pose proof (Qfloor_le (y + (1 # 2))) as H1. pose proof (Qlt_floor (y + (1 # 2))) as H2.
    rewrite inject_Z_plus in H2. change (inject_Z 1) with 1 in H2. fold f in H1, H2. lra. }
  unfold nround, NumRound_Q. destruct (Qltb_spec x 0); apply Qabs_Qle_condition.
  - specialize (Hf (- x)). cbn zeta in Hf. lra.
  - specialize (Hf x). cbn zeta in Hf. lra.
Qed.

(** What is written differs from what was measured by at most half of the last
    digit. *)
Theorem round3_error (x : Q) : Qabs (round3 x - x) <= 1 # 2000.
Proof.
  unfold round3. num_Q. pose proof (nround_error (x * (1000 # 1))) as He.
  apply Qabs_Qle_condition in He as [H1 H2]. apply Qabs_Qle_condition.
  set (r := nround (x * (1000 # 1))) in *. clearbody r.
  assert (r / (1000 # 1) == r * (1 # 1000)) as -> by field. lra.
Qed.
End rounding.
