(* ===== verification/PromServer.v ===== *)
(** * The metrics server

    Models [infra/metrics/http.go]: the server that exposes the Prometheus
    collectors until the context of the service is cancelled.  [net/http] is
    modelled by what its documentation says of a server: [ListenAndServe] returns
    the error of listening or of accepting, and [ErrServerClosed] once [Shutdown]
    was called, which itself goes on until the connections are idle or its own
    context, of five seconds, ends.  The two goroutines, the one that serves and
    the one that waits for the context, interleave. *)

From S2P Require Import Prelude.
From stdpp Require Import base strings list relations.

(** The goroutine that waits for [ctx.Done()] and shuts the server down. *)
Inductive watcher := Waiting | ShuttingDown | Finished.

Record PromServer := MkPromServer {
  ps_cancelled : bool;                        (* the context is done *)
  ps_watcher : watcher;
  ps_returned : option (option string);       (* what [StartPromServer] returned *)
  ps_log : list string
}.

Definition ErrServerClosed : string := "http: Server closed".

(** [StartPromServer] has started the goroutine and calls [ListenAndServe]. *)
Definition prom_start : PromServer := MkPromServer false Waiting None [].

(** The end of [StartPromServer], with the error of [ListenAndServe]. *)
Definition serve_result (err : string) : option string :=
  if bool_decide (err = ErrServerClosed) then None else Some err.

Inductive prom_step : PromServer → PromServer → Prop :=
| prom_cancel s : prom_step s (MkPromServer true (ps_watcher s) (ps_returned s) (ps_log s))
(** Listening or accepting fails. *)
| prom_fails s err : ps_returned s = None → err ≠ ErrServerClosed →
    prom_step s (MkPromServer (ps_cancelled s) (ps_watcher s) (Some (serve_result err)) (ps_log s))
(** The watcher calls [Shutdown]. *)
| prom_shutdown s : ps_cancelled s = true → ps_watcher s = Waiting →
    prom_step s (MkPromServer true ShuttingDown (ps_returned s) (ps_log s))
(** [ListenAndServe] returns once it was called. *)
| prom_closed s : ps_returned s = None → ps_watcher s ≠ Waiting →
    prom_step s (MkPromServer (ps_cancelled s) (ps_watcher s) (Some (serve_result ErrServerClosed)) (ps_log s))
(** [Shutdown] returns, with an error or not. *)
| prom_done s err : ps_watcher s = ShuttingDown →
    prom_step s (MkPromServer (ps_cancelled s) Finished (ps_returned s)
      (ps_log s ++ match err with Some e => ["prom server shutdown: " +:+ e] | None => [] end)).

Record prom_inv (s : PromServer) : Prop := {
  pi_watcher : ps_watcher s ≠ Waiting → ps_cancelled s = true;
  pi_clean : ps_returned s = Some None → ps_cancelled s = true
}.

Lemma prom_inv_reachable s : rtc prom_step prom_start s → prom_inv s.
Proof.
  intros Hr. apply rtc_nsteps in Hr as [n Hr]. revert s Hr.
  induction n as [|n IH]; intros s Hr; [inversion Hr; subst; by split|].
  apply nsteps_inv_r in Hr as (s1 & Hr & Hs). destruct (IH s1 Hr) as [Hw Hc].
  destruct Hs; split; cbn in *; unfold serve_result; try case_bool_decide; try naive_solver.
  intros _. apply Hw. congruence.
Qed.

(** The server runs until the context is cancelled: it returns without an error
    only after that, and from every reachable state in which the context is
    cancelled the server and its watcher can always finish.  An error of
    listening is returned, but its watcher stays until the context ends. *)
Theorem StartPromServer_lifetime s (Hreach : rtc prom_step prom_start s) :
  (ps_returned s = Some None → ps_cancelled s = true) ∧
  (ps_cancelled s = true → ∃ s', rtc prom_step s s' ∧ ps_watcher s' = Finished ∧ is_Some (ps_returned s')) ∧
  (ps_cancelled s = false → ps_watcher s = Waiting).
Proof.
  destruct (prom_inv_reachable s Hreach) as [Hw Hc]. split_and!; [done| |].
  - intros Hcan.
    assert (∃ s1, rtc prom_step s s1 ∧ ps_watcher s1 ≠ Waiting) as (s1 & H1 & Hw1).
    { destruct (ps_watcher s) eqn:E; [|exists s; by rewrite E..].
      eexists. split; [apply rtc_once, prom_shutdown; done|done]. }
    assert (∃ s2, rtc prom_step s1 s2 ∧ ps_watcher s2 ≠ Waiting ∧ is_Some (ps_returned s2)) as (s2 & H2 & Hw2 & Hr2).
    { destruct (ps_returned s1) eqn:E; [exists s1; rewrite E; by split_and!|].
      eexists. split; [apply rtc_once, prom_closed; done|]. by split. }
    destruct (ps_watcher s2) eqn:E; [done| |].
    + eexists. split; [etrans; [exact H1|]; etrans; [exact H2|]; apply rtc_once, (prom_done _ None); done|].
      done.
    + exists s2. split; [by etrans|]. done.
  - intros Hcan. destruct (ps_watcher s) eqn:E; [done|..]; (rewrite Hw in Hcan; congruence).
Qed.
