(* ===== verification/Loggers.v ===== *)
(** * Loggers

    Models [core/logger] and [infra/logger]: the interface, the logger without
    output and the one on top of zerolog, whose lines are records of a level, a
    component, fields and a message.  Rendering a line, as JSON or for a console,
    belongs to the library; formatting the arguments of a message belongs to
    [fmt] and is done by the caller here. *)

From S2P Require Import Prelude GoText.
From stdpp Require Import base gmap strings list.

Inductive level := LDebug | LInfo | LWarn | LError.

Record log_entry := MkLogEntry {
  le_console : bool;                       (* the console writer instead of JSON *)
  le_level : level;
  le_component : string;
  le_fields : list (string * string);
  le_message : string
}.

(** The interface [Logger], by the lines its methods print. *)
Record Logger := MkLogger {
  Debugf : string → list log_entry;
  Debugw : string → gmap string string → list log_entry;
  Infof : string → list log_entry;
  Warnf : string → list log_entry;
  Errorf : string → list log_entry
}.

Definition NopLogger : Logger :=
  MkLogger (fun _ => []) (fun _ _ => []) (fun _ => []) (fun _ => []) (fun _ => []).

Section zerolog.
Context `{!MapRange}.

(** The fields in the order the map is iterated. *)
Definition zero_entry (console : bool) (component : string) (l : level)
    (fields : gmap string string) (msg : string) : log_entry :=
  MkLogEntry console l component (foldl (fun ev '(k, v) => ev ++ [(k, v)]) [] (range_map fields)) msg.

(** [env] is the variable [APP_ENV]. *)
Definition NewZerologLogger (env component : string) : Logger :=
  let console := bool_decide (ToLower env = "dev") in
  let line l fields msg := [zero_entry console component l fields msg] in
  MkLogger (line LDebug ∅) (fun msg fields => line LDebug fields msg)
    (line LInfo ∅) (line LWarn ∅) (line LError ∅).

Definition NewLogger (env component : string) : Logger := NewZerologLogger env component.

(** A structured message prints each of its fields once, in whatever order the
    map is iterated, and the component in every environment. *)
Lemma Debugw_fields env component msg fields :
  ∃ e, Debugw (NewLogger env component) msg fields = [e] ∧ le_component e = component ∧
    le_level e = LDebug ∧ le_message e = msg ∧ le_fields e ≡ₚ map_to_list fields.
Proof.
  eexists. split; [done|]. cbn. split_and!; [done..|].
  enough (∀ acc, foldl (fun ev '(k, v) => ev ++ [(k, v)]) acc (range_map fields) = acc ++ range_map fields) as ->.
  { cbn. apply range_map_perm. }
  induction (range_map fields) as [|[k v] l IH]; intros acc; cbn; [by rewrite app_nil_r|].
  by rewrite IH, <- app_assoc.
Qed.
End zerolog.
