(* ===== verification/Service.v ===== *)
(** * The service

    Models [app/service.go], [cmd/root.go] and the connection of the parts: the
    construction of the service from its configuration, what [Run] starts, and
    what happens to the signals the parts hand to the manager: the signal
    endpoint of [rte/server_mock.go], the generator, and the manager's own
    channel.  The broker, the registry of Prometheus and the health of InfluxDB
    are arguments. *)

From S2P Require Import Prelude Num GoTime GoText Model PowerMap Candidates MathExp EqualDispatcher.
From S2P Require Import SmartDispatcher SmartDelivery LPDispatcher SegmentedDispatcher Fallback.
From S2P Require Import VehicleStatus DispatchLog Tuner MqttClient MqttSetup Manager ManagerFacts.
From S2P Require Import ManagerRun Concurrent Discovery Config Rte Telemetry Sinks Prom Influx.
From stdpp Require Import base gmap strings list relations.
From Stdlib Require Import ZArith QArith Lqa Lia.

#[local] Open Scope Z_scope.

(** [dispatch.Config]. *)
Record DispatchConfig (F : Type) := MkDispatchConfig {
  dc_AckTimeoutSeconds : Z;
  dc_LPFirst : option (gmap SignalType bool);
  dc_Segments : segments F;
  dc_EnableSoCConstraints : bool;
  dc_MinSoC : F;
  dc_SafeDischargeFloor : F
}.
Arguments MkDispatchConfig {F}.
Arguments dc_AckTimeoutSeconds {F}.
Arguments dc_LPFirst {F}.
Arguments dc_Segments {F}.
Arguments dc_EnableSoCConstraints {F}.
Arguments dc_MinSoC {F}.
Arguments dc_SafeDischargeFloor {F}.

(** [metrics.Config]; the address and credentials of InfluxDB are in the
    argument that stands for the server. *)
Record MetricsConfig := MkMetricsConfig {
  mc_PrometheusEnabled : bool;
  mc_PrometheusPort : string;
  mc_InfluxEnabled : bool
}.

(** [config.Config] with the sections [Config] leaves out. *)
Record AppConfig (F : Type) := MkAppConfig {
  ac_MQTT : MqttConfig;
  ac_Dispatch : DispatchConfig F;
  ac_Metrics : MetricsConfig;
  ac_Config : Config F
}.
Arguments MkAppConfig {F}.
Arguments ac_MQTT {F}.
Arguments ac_Dispatch {F}.
Arguments ac_Metrics {F}.
Arguments ac_Config {F}.

(** Everything outside that the construction depends on. *)
Record World (F : Type) := MkWorld {
  w_files : TLSFiles;
  w_connect : ClientOptions → option string;
  w_events : registration (gmap labels Z);
  w_latency : registration (gmap labels (list F));
  w_fleet : registration F;
  w_health : go_error + string;
  w_write : Point F → option go_error;
  w_uuid : string;
  w_uuid' : string
}.
Arguments MkWorld {F}.
Arguments w_files {F}.
Arguments w_connect {F}.
Arguments w_events {F}.
Arguments w_latency {F}.
Arguments w_fleet {F}.
Arguments w_health {F}.
Arguments w_write {F}.
Arguments w_uuid {F}.
Arguments w_uuid' {F}.

(** The telemetry manager and the generator keep whether their recorder is there. *)
Record Service (F : Type) := MkService {
  svc_Manager : DispatchManager F;
  svc_Connector : RTEConnector;
  svc_promEnabled : bool;
  svc_promPort : string;
  svc_metricsSink : option (Sink F);
  svc_telemetry : option (TelemetryConfig * bool);
  svc_generator : option (RTEGeneratorConfig F * option (method (RTESignalEvent F)))
}.
Arguments MkService {F}.
Arguments svc_Manager {F}.
Arguments svc_Connector {F}.
Arguments svc_promEnabled {F}.
Arguments svc_promPort {F}.
Arguments svc_metricsSink {F}.
Arguments svc_telemetry {F}.
Arguments svc_generator {F}.

(** What [Run] starts in goroutines. *)
Inductive goroutine :=
| GoCollector
| GoManager
| GoTelemetry
| GoConnector
| GoGenerator
| GoPromServer (addr : string).

(** The flags of the command line. *)
Record CmdFlags := MkCmdFlags {
  cf_demoSeed : bool;
  cf_rteGen : bool;
  cf_rteGenScenario : string
}.

(** What the command does once the service is built. *)
Inductive command_outcome (F : Type) :=
| SeedDemo
| Serve (svc : Service F).
Arguments SeedDemo {F}.
Arguments Serve {F}.

Section service.
Context {F : Type} `{Num F} `{!MathExp F} `{!NumRound F} `{!NumTrunc F} `{!MapRange}.
Context (simplex : LPSolver F).

(** ** Construction *)

(** The methods of [PromSink] never fail. *)
Definition prom_methods : Sink F :=
  MkSink (fun _ => None) None None None (Some (fun _ => None)) None None (Some (fun _ => None))
    (Some (fun _ => None)) None.

Definition caps_of (s : Sink F) : SinkCaps :=
  MkCaps (bool_decide (is_Some (sk_FleetSize s))) (bool_decide (is_Some (sk_VehicleAvailability s)))
    (bool_decide (is_Some (sk_DispatchLatency s))) (bool_decide (is_Some (sk_DispatchOrder s))).

(** The sink of the metrics section: none, the only one, or a [MultiSink]. *)
Definition service_sink (w : World F) (c : MetricsConfig) : string + option (Sink F) :=
  match (if mc_PrometheusEnabled c then
           match NewPromSinkWithRegistry (w_events w) (w_latency w) (w_fleet w) with
           | inl err => inl ("prom sink: " +:+ err)
           | inr _ => inr [prom_methods]
           end
         else inr []) with
  | inl err => inl err
  | inr sinks =>
    let sinks := sinks ++ (if mc_InfluxEnabled c
                           then [NewInfluxSinkWithFallback (w_health w) (w_write w)] else []) in
    inr (match sinks with
         | [] => None
         | [s] => Some s
         | _ => Some (NewMultiSink sinks)
         end)
  end.

(** [app.New]. *)
Definition NewService (w : World F) (cfg : AppConfig F) : string + Service F :=
  match NewPahoClient (w_files w) (w_connect w) (ac_MQTT cfg) with
  | inl err => inl ("mqtt client: " +:+ err)
  | inr _ =>
    match service_sink w (ac_Metrics cfg) with
    | inl err => inl err
    | inr sink =>
      match NewPahoFleetDiscovery (w_connect w) (ac_MQTT cfg) (w_uuid w) "v2g/fleet/discovery"
              "v2g/fleet/response/+" "hello" with
      | inl err => inl ("fleet discovery: " +:+ err)
      | inr _ =>
        let ackTimeout := wrap64 (dc_AckTimeoutSeconds (ac_Dispatch cfg) * Second) in
        match NewDispatchManager true true (Some DEqual) (Some FNoop) ackTimeout
                (caps_of <$> sink) true true None None with
        | inl err => inl ("dispatch manager: " +:+ err)
        | inr manager =>
          let manager := SetLPFirst manager (dc_LPFirst (ac_Dispatch cfg)) in
          let gen := cfg_RTEGenerator (ac_Config cfg) in
          let generator :=
            if gc_Enabled gen then Some (gen, s ← sink; sk_RTESignal s) else None in
          let tel := cfg_Telemetry (ac_Config cfg) in
          match (if tc_Enabled tel then
                   match telemetry_connect (w_files w) (w_connect w) (ac_MQTT cfg) (w_uuid' w) with
                   | inl err => inl ("telemetry manager: " +:+ err)
                   | inr _ => inr (Some (tel, bool_decide (is_Some (s ← sink; sk_VehicleState s))))
                   end
                 else inr None) with
          | inl err => inl err
          | inr telemetry =>
            inr (MkService manager (NewConnector (cfg_RTE (ac_Config cfg)))
                   (mc_PrometheusEnabled (ac_Metrics cfg)) (mc_PrometheusPort (ac_Metrics cfg))
                   sink telemetry generator)
          end
        end
      end
    end
  end.

(** The goroutines [Run] starts, in order, and the signal it then sends to the
    manager. *)
Definition ServiceRun (svc : Service F) (now : Time) : list goroutine * FlexibilitySignal F :=
  ((match svc_metricsSink svc with Some _ => [GoCollector] | None => [] end) ++ [GoManager] ++
   (match svc_telemetry svc with Some _ => [GoTelemetry] | None => [] end) ++ [GoConnector] ++
   (match svc_generator svc with Some _ => [GoGenerator] | None => [] end) ++
   (if svc_promEnabled svc then [GoPromServer (svc_promPort svc)] else []),
   MkSignal SignalFCR n0 0 now).

(** [Close]. *)
Definition ServiceClose (svc : Service F) (discovery_err : option go_error) :
    option go_error * list string := Manager.Close (svc_Manager svc) discovery_err.

(** ** The command line *)

(** The flags are written into the loaded configuration. *)
Definition apply_flags (f : CmdFlags) (cfg : AppConfig F) : AppConfig F :=
  let c := ac_Config cfg in
  let g := cfg_RTEGenerator c in
  let g := MkGenConfig (gc_Enabled g || cf_rteGen f) (gc_Mode g) (gc_HTTPEndpoint g)
    (if bool_decide (cf_rteGenScenario f = "") then gc_Scenario g else cf_rteGenScenario f)
    (gc_MinIntervalSeconds g) (gc_MaxIntervalSeconds g) (gc_MinDurationSeconds g)
    (gc_MaxDurationSeconds g) (gc_MinPowerKW g) (gc_MaxPowerKW g) (gc_SignalTypes g) (gc_JitterPct g)
    (gc_Seed g) (gc_TimeZone g) in
  MkAppConfig (ac_MQTT cfg) (ac_Dispatch cfg) (ac_Metrics cfg)
    (MkConfig (cfg_Logging c) (cfg_RTE c) g (cfg_Telemetry c)).

(** [run] in [cmd/root.go]; [loaded] is the result of [config.Load]. *)
Definition cmd_run (w : World F) (f : CmdFlags) (loaded : string + AppConfig F) :
    string + command_outcome F :=
  match loaded with
  | inl err => inl ("load config: " +:+ err)
  | inr cfg =>
    let cfg := apply_flags f cfg in
    match NewService w cfg with
    | inl err => inl err
    | inr svc =>
      inr (if cf_demoSeed f && mc_InfluxEnabled (ac_Metrics cfg) then SeedDemo else Serve svc)
    end
  end.

(** ** Signals *)

(** The mux of the mock server: the ping, the endpoint, else 404; the answer,
    what is counted, and the manager afterwards. *)
Definition serve_path (fuel : nat) (m : DispatchManager F) (env : Env F) (path meth : string)
    (body : string + Signal F) : option (http_answer * list rte_effect * DispatchManager F) :=
  if bool_decide (path = "/rte/ping") then Some (HStatus 200, [], m)
  else if bool_decide (path = "/rte/signal") then
    match handleSignal meth body with
    | (answer, eff, None) => Some (answer, eff, m)
    | (answer, eff, Some fs) =>
      '(_, m, _) ← Dispatch simplex fuel m env fs [];
      Some (answer, eff, m)
    end
  else Some (HError 404 "404 page not found", [], m).

(** What reaches the manager of a running service: the signal of [Run], a
    request to the mock server, a signal of the generator. *)
Inductive input :=
| InSignal (s : FlexibilitySignal F)
| InRequest (path meth : string) (body : string + Signal F)
| InGenerated (w : draws F) (now : Time).

(** The manager after an input; [None] is a panic or a call that does not
    return. *)
Definition handle_input (fuel : nat) (svc : Service F) (m : DispatchManager F) (env : Env F)
    (i : input) : option (DispatchManager F) :=
  match i with
  | InSignal s => '(_, m, _) ← Dispatch simplex fuel m env s []; Some m
  | InRequest path meth body =>
    match svc_Connector svc with
    | CMock _ => '(_, _, m) ← serve_path fuel m env path meth body; Some m
    | CClient _ _ => Some m
    end
  | InGenerated w now =>
    match svc_generator svc with
    | None => Some m
    | Some (cfg, rec) =>
      let sig := Generate cfg w now in
      '(m, _, _, _) ← emit simplex fuel (Some m) true
                        ((fun r : method (RTESignalEvent F) => r (MkRTESignal sig now)) <$> rec) env sig;
      m
    end
  end.

(** A run of the service: for every input the results it added to the history
    of the manager. *)
Fixpoint service_run (fuel : nat) (svc : Service F) (m : DispatchManager F)
    (inputs : list (Env F * input)) : option (list (list (DispatchResult F)) * DispatchManager F) :=
  match inputs with
  | [] => Some ([], m)
  | (env, i) :: inputs =>
    m' ← handle_input fuel svc m env i;
    '(rs, m'') ← service_run fuel svc m' inputs;
    Some (drop (length (m_history m)) (m_history m') :: rs, m'')
  end.

(** The environment of a dispatch: the fleet is what the discovery collected
    from the responses that arrived. *)
Definition discovered_env (env : Env F) (payloads : list (go_error + Vehicle F)) : Env F :=
  MkEnv (discover_result (Discover None None payloads)) (env_client env) (env_latency env)
    (env_order env) (env_now env).
End service.
Arguments input : clear implicits.

(** ** The service as it is wired *)

Section safety.
Context `{!MathExp Q} `{!MapRange} (simplex : LPSolver Q).
#[local] Open Scope Q_scope.

(** A result for the fleet of an environment: for a request to inject, every
    assigned vehicle was discovered, passed the filter and is asked for at most
    its [MaxPower]. *)
Definition result_ok (env : Env Q) (res : DispatchResult Q) : Prop :=
  ∀ id p, dr_Assignments res !! id = Some p →
    assignment_ok DEqual (Candidates.Filter (discovered true env) (dr_Signal res)) (dr_Signal res) id p.

(** The state of the manager between inputs. *)
Definition service_inv (m : DispatchManager Q) : Prop := ready DEqual m ∧ m_discovery m = true.

Lemma service_dispatch fuel m env signal :
  service_inv m → env_fair env → NoDup (ID <$> discovered true env) →
  ∃ res m' eff, Dispatch simplex fuel m env signal [] = Some (res, m', eff) ∧
    service_inv m' ∧ m_history m' = m_history m ++ [res] ∧ result_ok env res.
Proof.
  intros [Hr Hd] Hfair Hnd.
  assert ((discover_vehicles m env []).1 = discovered true env) as Hdisc.
  { unfold discover_vehicles, discovered. rewrite Hd. cbn. by destruct (env_discover env). }
  pose proof (equal_contract simplex fuel) as HC.
  destruct (contract_dispatch simplex fuel (ready DEqual) (assignment_ok DEqual) m env signal [])
    as (res & m' & eff & Hrun & Hr' & Hd' & Hok); [by rewrite Hdisc|done|done|].
  exists res, m', eff. split; [done|]. split; [split; [done|congruence]|].
  pose proof (Dispatch_records simplex _ _ _ _ _ _ _ _ Hfair Hrun) as (Hh & _).
  pose proof (di_signal _ _ _ _ _ _ _ _ _ (Dispatch_inv simplex _ _ _ _ _ _ _ _ Hfair Hrun)) as Hs.
  split; [done|]. intros id p Hid. rewrite Hs, <- Hdisc. by apply Hok.
Qed.

(** The generator asks for no negative power. *)
Definition generator_ok (svc : Service Q) : Prop :=
  match svc_generator svc with
  | None => True
  | Some (cfg, _) => 0 <= gc_MinPowerKW cfg <= gc_MaxPowerKW cfg
  end.

Lemma generate_nonneg (cfg : RTEGeneratorConfig Q) w now :
  0 <= gc_MinPowerKW cfg <= gc_MaxPowerKW cfg → nltb (PowerKW (Generate cfg w now)) n0 = false.
Proof.
  intros [Hmin Hmax]. cbn [Generate PowerKW].
  destruct (randomFloat_bounds cfg (gc_MinPowerKW cfg) (gc_MaxPowerKW cfg) (dw_p1 w) (dw_p2 w))
    as [Hb _]; num_Q; [q_case; [lra|done]|].
  destruct (Qltb_spec (randomFloat cfg (gc_MinPowerKW cfg) (gc_MaxPowerKW cfg) (dw_p1 w) (dw_p2 w))
    (gc_MinPowerKW cfg)); [done|]. q_case; [lra|done].
Qed.

Lemma service_input fuel svc m env i :
  generator_ok svc → service_inv m → env_fair env → NoDup (ID <$> discovered true env) →
  ∃ m' results, handle_input simplex fuel svc m env i = Some m' ∧ service_inv m' ∧
    m_history m' = m_history m ++ results ∧ Forall (result_ok env) results.
Proof.
  intros Hgen Hinv Hfair Hnd.
  assert (∃ m' results, Some m = Some m' ∧ service_inv m' ∧ m_history m' = m_history m ++ results ∧
    Forall (result_ok env) results) as Hsame.
  { exists m, []. by rewrite app_nil_r. }
  destruct i as [s|path meth body|w now]; cbn [handle_input].
  - destruct (service_dispatch fuel m env s) as (res & m' & eff & -> & Hi & Hh & Hok); [done..|].
    exists m', [res]. split_and!; [done|done|done|by constructor].
  - destruct (svc_Connector svc); [|done]. unfold serve_path.
    destruct (bool_decide (path = "/rte/ping")); [done|].
    destruct (bool_decide (path = "/rte/signal")); [|done].
    destruct (handleSignal meth body) as [[answer eff] [fs|]]; [|done].
    destruct (service_dispatch fuel m env fs) as (res & m' & eff' & -> & Hi & Hh & Hok); [done..|].
    exists m', [res]. split_and!; [done|done|done|by constructor].
  - unfold generator_ok in Hgen. destruct (svc_generator svc) as [[cfg rec]|]; [|done].
    destruct (service_dispatch fuel m env (Generate cfg w now))
      as (res & m' & eff' & Hrun & Hi & Hh & Hok); [done..|].
    unfold emit. rewrite Hrun. cbn [mbind option_bind]. rewrite (generate_nonneg cfg w now Hgen).
    exists m', [res]. split; [|split_and!; [done|done|by constructor]].
    destruct rec as [r|]; [cbn; by destruct (r _)|done].
Qed.

Lemma NewService_inv w (cfg : AppConfig Q) svc :
  NewService w cfg = inr svc → service_inv (svc_Manager svc) ∧
  (∀ g r, svc_generator svc = Some (g, r) → g = cfg_RTEGenerator (ac_Config cfg)).
Proof.
  unfold NewService. intros Hnew.
  destruct (NewPahoClient _ _ _); [done|]. destruct (service_sink _ _) as [|sink]; [done|].
  destruct (NewPahoFleetDiscovery _ _ _ _ _ _); [done|].
  destruct (NewDispatchManager _ _ _ _ _ _ _ _ _ _) as [|m0] eqn:Hm; [done|].
  match type of Hnew with match ?x with inl _ => _ | inr _ => _ end = _ =>
    destruct x as [|tel]; [done|] end.
  injection Hnew as <-. cbn [svc_Manager svc_generator]. split.
  - by apply ready_new with (lpFirst := dc_LPFirst (ac_Dispatch cfg)) in Hm.
  - intros g r Hg. by destruct (gc_Enabled _); [injection Hg as <- _|].
Qed.

Lemma discovered_env_NoDup (env : Env Q) payloads :
  NoDup (ID <$> discovered true (discovered_env env payloads)).
Proof.
  unfold discovered, discovered_env, Discover. cbn [env_discover].
  destruct (discovery_fold payloads (MkDiscovery [] [] ∅)) as (_ & Hn & _); [done|constructor|].
  cbn [discover_result]. destruct (errors_Join _); [constructor|done].
Qed.


Lemma NewService_stateless w (cfg : AppConfig Q) svc :
  NewService w cfg = inr svc → stateless (svc_Manager svc).
Proof.
  unfold NewService. intros Hnew.
  destruct (NewPahoClient _ _ _); [done|]. destruct (service_sink _ _) as [|sink]; [done|].
  destruct (NewPahoFleetDiscovery _ _ _ _ _ _); [done|]. cbn [NewDispatchManager] in Hnew.
  match type of Hnew with match ?x with inl _ => _ | inr _ => _ end = _ =>
    destruct x as [|tel]; [done|] end.
  injection Hnew as <-. cbn [svc_Manager]. by destruct (dc_LPFirst (ac_Dispatch cfg)).
Qed.

(** The calls of [Dispatch] from the goroutines of the service, in every
    interleaving: none gets stuck, and every assignment a call made for a request
    to inject goes to a vehicle that answered the discovery of that call, within
    its [MaxPower]. *)
Theorem service_concurrent fuel w (cfg : AppConfig Q) svc
    (calls : list (Env Q * list (go_error + Vehicle Q) * FlexibilitySignal Q)) m ts
    (Hnew : NewService w cfg = inr svc)
    (Hfair : Forall (fun '(env, _, _) => env_fair env) calls)
    (Hreach : rtc (pool_step simplex fuel)
       (svc_Manager svc, (fun '(env, payloads, sg) => TStart (discovered_env env payloads) sg []) <$> calls)
       (m, ts)) :
  Forall2 (fun '(env, payloads, sg) t =>
      match t with
      | TDone res _ => dr_Signal res = sg ∧ result_ok (discovered_env env payloads) res
      | _ => ∃ m' t', thread_step simplex fuel m t = Some (m', t')
      end) calls ts.
Proof.
  set (inputs := (fun '(env, payloads, sg) => (discovered_env env payloads, sg, @nil (Vehicle Q))) <$> calls).
  pose proof (NewService_stateless _ _ _ Hnew) as Hst. apply NewService_inv in Hnew as [Hsi _].
  assert (pool_inv simplex fuel (svc_Manager svc) inputs (m, ts)) as Hinv.
  { apply pool_inv_reachable; [done|]. unfold inputs. rewrite <- list_fmap_compose.
    erewrite (list_fmap_ext (start ∘ _)); [exact Hreach|]. by intros i [[env payloads] sg] _. }
  pose proof (pv_threads _ _ _ _ _ Hinv) as Hts. cbn [snd] in Hts.
  unfold inputs in Hts. apply Forall2_fmap_l in Hts.
  apply Forall2_same_length_lookup. split; [by eapply Forall2_length|].
  intros i [[env payloads] sg] t Hi Ht.
  assert (done t = false → ∃ m' t', thread_step simplex fuel m t = Some (m', t')) as Hgo.
  { intros Hd. destruct (stateless_step simplex fuel m t) as (m' & t' & Hstep & _); [|done|eauto].
    exact (stateless_settings _ _ Hst (pv_settings _ _ _ _ _ Hinv)). }
  destruct t as [| | | | | |res eff]; try (by apply Hgo).
  destruct (pool_inv_done simplex fuel (svc_Manager svc) inputs (m, ts) i (discovered_env env payloads)
    sg [] res eff Hinv) as [m' Hrun]; [by unfold inputs; rewrite list_lookup_fmap, Hi|done|].
  rewrite Forall_lookup in Hfair. specialize (Hfair i _ Hi). cbn in Hfair.
  destruct (service_dispatch fuel (svc_Manager svc) (discovered_env env payloads) sg)
    as (res' & m1 & eff' & Hrun' & _ & _ & Hok); [done|done|apply discovered_env_NoDup|].
  rewrite Hrun in Hrun'. injection Hrun' as <- <- <-. split; [|done].
  assert (env_fair (discovered_env env payloads)) as Hf by exact Hfair.
  exact (di_signal _ _ _ _ _ _ _ _ _ (Dispatch_inv simplex _ _ _ _ _ _ _ _ Hf Hrun)).
Qed.
End safety.

(** ** What the configuration does not reach *)

Section dead_settings.
Context {F : Type} `{Num F} `{!MathExp F} `{!NumRound F} `{!NumTrunc F} `{!MapRange}.

(** A configuration read from a file that turns TLS on never starts the
    service, whatever files it names: the discovery wants a [TLSConfig], which
    has no name in the file. *)
Theorem NewService_tls_fails (w : World F) (cfg : AppConfig F)
    (Htls : mq_UseTLS (ac_MQTT cfg) = true) (Hfile : mq_TLSConfig (ac_MQTT cfg) = None) :
  ∃ err, NewService w cfg = inl err.
Proof.
  unfold NewService. destruct (NewPahoClient _ _ _); [by eexists|].
  destruct (service_sink _ _); [by eexists|].
  rewrite discovery_needs_TLSConfig by done. by eexists.
Qed.

(** The segments, the SoC constraints and the logging section do not influence
    the service: two configurations that differ only there build the same. *)
Theorem NewService_ignores (w : World F) (c c' : AppConfig F)
    (Hmqtt : ac_MQTT c = ac_MQTT c') (Hmetrics : ac_Metrics c = ac_Metrics c')
    (Hack : dc_AckTimeoutSeconds (ac_Dispatch c) = dc_AckTimeoutSeconds (ac_Dispatch c'))
    (Hlp : dc_LPFirst (ac_Dispatch c) = dc_LPFirst (ac_Dispatch c'))
    (Hrte : cfg_RTE (ac_Config c) = cfg_RTE (ac_Config c'))
    (Hgen : cfg_RTEGenerator (ac_Config c) = cfg_RTEGenerator (ac_Config c'))
    (Htel : cfg_Telemetry (ac_Config c) = cfg_Telemetry (ac_Config c')) :
  NewService w c = NewService w c'.
Proof. unfold NewService. by rewrite Hmqtt, Hmetrics, Hack, Hlp, Hrte, Hgen, Htel. Qed.

(** The first signal of a running service asks for nothing, and closing the
    service closes the discovery and the bus but no log store. *)
Lemma NewService_close (w : World F) (cfg : AppConfig F) svc now :
  NewService w cfg = inr svc →
  PowerKW (ServiceRun svc now).2 = n0 ∧ ServiceClose svc None = (None, ["discovery"; "bus"]).
Proof.
  intros Hnew. split; [done|]. unfold NewService in Hnew.
  destruct (NewPahoClient _ _ _); [done|]. destruct (service_sink _ _) as [|sink]; [done|].
  destruct (NewPahoFleetDiscovery _ _ _ _ _ _); [done|]. cbn [NewDispatchManager] in Hnew.
  match type of Hnew with match ?x with inl _ => _ | inr _ => _ end = _ =>
    destruct x as [|tel]; [done|] end.
  injection Hnew as <-. unfold ServiceClose. cbn [svc_Manager].
  by destruct (dc_LPFirst (ac_Dispatch cfg)).
Qed.
End dead_settings.
