(* ===== verification/Commands.v ===== *)
(** * The other commands

    Models [cmd/dispatch.go], [cmd/fleet.go] and [seedDemo] in [cmd/root.go]: a
    test signal for a test vehicle, the listing of the fleet, and the sample
    points written to InfluxDB. *)

From S2P Require Import Prelude Num GoTime GoText Model PowerMap Candidates MathExp EqualDispatcher.
From S2P Require Import SmartDispatcher LPDispatcher Fallback Tuner MqttClient MqttSetup Manager.
From S2P Require Import ManagerFacts Discovery Config Rte Telemetry Sinks Prom Influx Service.
From stdpp Require Import base gmap strings list pretty.
From Stdlib Require Import ZArith Lia Floats.SpecFloat.

#[local] Open Scope Z_scope.

Section commands.
Context {F : Type} `{Num F} `{!MathExp F} `{!NumRound F} `{!NumTrunc F} `{!MapRange}.
Context (simplex : LPSolver F).
#[local] Open Scope num_scope.

(** ** [v2g dispatch] *)

Definition test_vehicle : Vehicle F :=
  MkVehicle "test" (8 // 10) true (10 // 1) (40 // 1) true false false time_zero n0
    (MkUserProfile time_zero []) ∅ "" n0 n0.

Definition test_signal (now : Time) : FlexibilitySignal F :=
  MkSignal SignalFCR (5 // 1) Minute now.

(** The manager of the command: as the service's, without a sink. *)
Definition dispatch_manager (w : World F) (cfg : AppConfig F) : string + DispatchManager F :=
  match NewPahoClient (w_files w) (w_connect w) (ac_MQTT cfg) with
  | inl err => inl ("mqtt client: " +:+ err)
  | inr _ =>
    match NewPahoFleetDiscovery (w_connect w) (ac_MQTT cfg) (w_uuid w) "v2g/fleet/discovery"
            "v2g/fleet/response/+" "hello" with
    | inl err => inl ("fleet discovery: " +:+ err)
    | inr _ =>
      match NewDispatchManager true true (Some DEqual) (Some FNoop)
              (wrap64 (dc_AckTimeoutSeconds (ac_Dispatch cfg) * Second)) None true true None None with
      | inl err => inl ("dispatch manager: " +:+ err)
      | inr m => inr (SetLPFirst m (dc_LPFirst (ac_Dispatch cfg)))
      end
    end
  end.

(** The error of the command, if any, and the effects of the dispatch; [None] is a
    dispatch that does not return. *)
Definition dispatchSignal (fuel : nat) (w : World F) (loaded : string + AppConfig F) (env : Env F)
    (now : Time) : option (option string * list (effect F)) :=
  match loaded with
  | inl err => Some (Some ("load config: " +:+ err), [])
  | inr cfg =>
    match dispatch_manager w cfg with
    | inl err => Some (Some err, [])
    | inr m =>
      '(res, _, eff) ← Dispatch simplex fuel m env (test_signal now) [test_vehicle];
      Some (if Nat.ltb 0 (size (dr_Errors res)) then Some "dispatch encountered errors" else None, eff)
    end
  end.

(** ** [v2g fleet ls] *)

Definition fleet_ls_id (c : MqttConfig) (suffix : Z) : string :=
  if bool_decide (mq_ClientID c = "") then "fleet-ls-" +:+ pretty suffix
  else mq_ClientID c +:+ "-" +:+ pretty suffix.

Definition set_mq_ClientID (id : string) (c : MqttConfig) : MqttConfig :=
  MkMqttConfig (mq_Broker c) id (mq_Username c) (mq_Password c) (mq_AckTopic c) (mq_UseTLS c)
    (mq_ClientCert c) (mq_ClientKey c) (mq_CABundle c) (mq_AuthMethod c) (mq_QoS c) (mq_LWTTopic c)
    (mq_LWTPayload c) (mq_LWTQoS c) (mq_LWTRetain c) (mq_MaxRetries c) (mq_BackoffMS c)
    (mq_TLSConfig c).

(** The lines printed, or the error; [now] is the time in nanoseconds. *)
Definition runFleetLs (w : World F) (loaded : string + AppConfig F) (now : Time)
    (subscribeErr publishErr : option go_error) (payloads : list (go_error + Vehicle F)) :
    string + list string :=
  match loaded with
  | inl err => inl ("load config: " +:+ err)
  | inr cfg =>
    let c := set_mq_ClientID (fleet_ls_id (ac_MQTT cfg) (UnixNano now)) (ac_MQTT cfg) in
    match NewPahoFleetDiscovery (w_connect w) c (w_uuid w) "v2g/fleet/discovery"
            "v2g/fleet/response/+" "hello" with
    | inl err => inl ("fleet discovery: " +:+ err)
    | inr _ =>
      match Discover subscribeErr publishErr payloads with
      | (_, Some err) => inl (Error err)
      | (vs, None) => inr (ID <$> vs)
      end
    end
  end.

(** ** [v2g --demo-seed] *)

(** The points of the demonstration, each method's up to its first error. *)
Definition seedDemo (write : Point F → option go_error) (now : Time) : list (Point F) :=
  let v := MkVehicle "demo-veh" (5 // 10) false (7 // 1) n0 true false false time_zero n0
             (MkUserProfile time_zero []) ∅ "" n0 n0 in
  (write_points write (state_points (MkStateEvent v "" "" "" now))).1 ++
  (write_points write [order_point (MkOrderEvent "demo1" "demo-veh" SignalFCR (33 // 10) (9 // 10) n0
                                      true now)]).1 ++
  (write_points write [ack_point (MkDispatchAck "demo1" "demo-veh" SignalFCR true (50 * Millisecond)
                                    "" (GoTime.Add now (50 * Millisecond)))]).1 ++
  (write_points write [signal_point (MkRTESignal (MkSignal SignalFCR (5 // 1) Minute time_zero) now)]).1.
End commands.

(** ** What the commands do *)

(** The demonstration writes one vehicle, an order, its acknowledgment and a
    signal. *)
Example seedDemo_points {F} `{Num F} `{!NumRound F} `{!NumTrunc F} (now : Time) :
  pt_measurement <$> seedDemo (F := F) (fun _ => None) now =
  ["vehicle_state"; "vehicle_soc_percent"; "dispatch_order"; "acknowledgment"; "signal"].
Proof. reflexivity. Qed.

(** An equal dispatcher without a fallback always finishes. *)
Lemma Dispatch_equal_total {F} `{Num F} `{!MathExp F} `{!MapRange} (simplex : LPSolver F) fuel
    (m : DispatchManager F) env signal vehicles :
  m_dispatcher m = DEqual → m_lpDispatcher m = LPNone → m_fallback m = FNoop →
  is_Some (Dispatch simplex fuel m env signal vehicles).
Proof.
  intros Hd Hlp Hfb. unfold Dispatch. destruct (discover_vehicles m env vehicles) as [vs eff1].
  destruct (apply_prediction m env signal _) as [filtered eff2]. rewrite Hfb.
  unfold dispatchStrategy, lp_object. cbn [set_fallback m_lpDispatcher m_dispatcher].
  rewrite Hlp, Hd. cbn [dispatcher_Dispatch]. destruct (EqualDispatch_total filtered signal) as [a ->].
  cbn [mbind option_bind].
  match goal with |- context [dispatchAssignments ?a ?b ?c ?d ?e] =>
    destruct (dispatchAssignments a b c d e) as [[res1 lat] eff5] end.
  cbn [set_dispatchers set_fallback m_fallback fallback_SetVehicles fallback_Reallocate].
  destruct (negb _); by eexists.
Qed.

Section test_dispatch.
Context `{!MapRange} (simplex : LPSolver spec_float).

Lemma dispatch_manager_ready (w : World spec_float) cfg m :
  dispatch_manager w cfg = inr m →
  m_dispatcher m = DEqual ∧ m_lpDispatcher m = LPNone ∧ m_fallback m = FNoop ∧ m_prediction m = None.
Proof.
  unfold dispatch_manager. destruct (NewPahoClient _ _ _); [done|].
  destruct (NewPahoFleetDiscovery _ _ _ _ _ _); [done|]. cbn [NewDispatchManager].
  intros [= <-]. by destruct (dc_LPFirst (ac_Dispatch cfg)).
Qed.

(** [v2g dispatch], on binary64: once the connections are there the command
    returns from the dispatch, having sent one order, of 5 kW, to the vehicle
    [test], and reports an error exactly when that order has one.  The fleet is
    never asked. *)
Theorem dispatchSignal_sends fuel (w : World spec_float) cfg env now m
    (Hm : dispatch_manager w cfg = inr m) (Hfair : env_fair env) :
  ∃ err eff, dispatchSignal simplex fuel w (inr cfg) env now = Some (err, eff) ∧
    sent eff = [("test", nlit 5 1)] ∧
    (err = None ↔ outcome_err m env "test" (nlit 5 1) = None).
Proof.
  unfold dispatchSignal. rewrite Hm. apply dispatch_manager_ready in Hm as (Hd & Hlp & Hfb & Hpr).
  destruct (Dispatch_equal_total simplex fuel m env (test_signal now) [test_vehicle])
    as [[[res m'] eff] Hrun]; [done..|].
  rewrite Hrun. cbn [mbind option_bind]. eexists _, _. split; [done|].
  apply Dispatch_inv in Hrun; [|done]. destruct Hrun as [(used & d & lp & eff4 & Hst & _) _ Herr _ _ Hsent _].
  assert (dr_Assignments res = {["test" := nlit 5 1]}) as Hasn.
  { unfold dispatchStrategy, lp_object, considered, discover_vehicles, apply_prediction in Hst.
    cbn [length Nat.eqb andb armed set_fallback m_lpDispatcher m_dispatcher] in Hst.
    rewrite Hlp, Hd, Hpr in Hst. cbn [fst dispatcher_Dispatch] in Hst.
    assert (EqualDispatch (Candidates.Filter [test_vehicle] (test_signal now)) (test_signal now) =
      Some {["test" := nlit 5 1 : spec_float]}) as He by (vm_compute; reflexivity).
    rewrite He in Hst. by injection Hst as <-. }
  rewrite Hasn in Hsent, Herr. rewrite map_to_list_singleton in Hsent.
  apply Permutation_singleton_r in Hsent. split; [done|]. rewrite Herr, <- insert_empty, map_imap_insert, map_imap_empty.
  destruct (outcome_err m env "test" (nlit 5 1)) as [err|].
  - rewrite insert_empty, map_size_singleton. cbn [Nat.ltb Nat.leb]. split; discriminate.
  - rewrite delete_empty, map_size_empty. cbn [Nat.ltb Nat.leb]. split; reflexivity.
Qed.
End test_dispatch.

Section fleet_ls.
Context {F : Type}.

Lemma length_string_app (a b : string) :
  String.length (a +:+ b) = (String.length a + String.length b)%nat.
Proof. induction a as [|x a IH]; [done|]. rewrite string_cons_app. cbn. by rewrite IH. Qed.

(** The listing connects under an identifier that none of the service's
    connections uses, so it does not take one over. *)
Lemma fleet_ls_id_fresh c suffix uuid uuid1 uuid2 :
  discovery_id (set_mq_ClientID (fleet_ls_id c suffix) c) uuid ∉
    [mq_ClientID c; discovery_id c uuid1; telemetry_id c uuid2].
Proof.
  assert (fleet_ls_id c suffix ≠ "") as Hne.
  { unfold fleet_ls_id. case_bool_decide as Hid; [done|]. by destruct (mq_ClientID c). }
  unfold discovery_id at 1. cbn [set_mq_ClientID mq_ClientID]. rewrite bool_decide_eq_false_2 by done.
  unfold fleet_ls_id, discovery_id, telemetry_id. case_bool_decide as Hid.
  - rewrite Hid, !not_elem_of_cons, elem_of_nil. split_and!; [intros [=]..|by intros []].
  - rewrite !not_elem_of_cons, elem_of_nil. split_and!; try (by intros []);
      intros Heq%(f_equal String.length); rewrite !length_string_app in Heq; cbn in Heq; lia.
Qed.

(** [v2g fleet ls]: the lines are the identifiers that answered, each once; a
    payload that does not decode fails the command. *)
Theorem runFleetLs_spec (w : World F) cfg now subscribeErr publishErr payloads lines
    (Hrun : runFleetLs w (inr cfg) now subscribeErr publishErr payloads = inr lines) :
  NoDup lines ∧ (∀ id, id ∈ lines ↔ ∃ v, inr v ∈ payloads ∧ ID v = id) ∧ ∀ e, inl e ∉ payloads.
Proof.
  unfold runFleetLs in Hrun. destruct (NewPahoFleetDiscovery _ _ _ _ _ _); [done|].
  destruct (Discover _ _ _) as [vs [err|]] eqn:Hd; [done|]. injection Hrun as <-.
  apply Discover_success in Hd as (Hnd & Hin & Hall & Herr). split_and!; [done| |done].
  intros id. split; [|intros (v & Hv & <-); by apply Hall].
  intros (v & -> & Hv)%list_elem_of_fmap. eauto.
Qed.
End fleet_ls.
