(* ===== verification/RteServer.v ===== *)
(** * The mock server and the generator, running

    Models the state and the loops of [rte/server_mock.go] (construction, the
    counters, [Start] and [Addr]), of [rte/client.go] and of the generator's
    [Start]: what a sequence of requests or timer ticks does to the counters and
    to the manager.  Listening, the registry and the timers are arguments. *)

From S2P Require Import Prelude Num GoTime GoText Model PowerMap Candidates MathExp EqualDispatcher.
From S2P Require Import SmartDispatcher LPDispatcher Fallback Tuner MqttClient Manager ManagerFacts.
From S2P Require Import ManagerRun Discovery Config Rte Sinks Prom Influx Service.
From stdpp Require Import base gmap strings list.
From Stdlib Require Import ZArith QArith Lqa Lia.

#[local] Open Scope Z_scope.

(** ** The server *)

(** The counters by signal type and of failures; the manager is kept beside. *)
Record RTEServerMock := MkServerMock {
  rm_addr : string;
  rm_total : gmap string Z;
  rm_failed : Z
}.

(** The collector to use: the existing one if it has the right type ([Some]), else
    the new one, registered or not. *)
Definition mock_collector {C} (fresh : C) (r : registration (option C)) : C :=
  match r with
  | AlreadyRegistered (Some c) => c
  | _ => fresh
  end.

Definition NewRTEServerMockWithRegistry (addr : string) (total : registration (option (gmap string Z)))
    (failed : registration (option Z)) : RTEServerMock :=
  MkServerMock addr (mock_collector ∅ total) (mock_collector 0 failed).

Definition rte_count (s : RTEServerMock) (e : rte_effect) : RTEServerMock :=
  match e with
  | RFailed => MkServerMock (rm_addr s) (rm_total s) (rm_failed s + 1)
  | RTotal t => MkServerMock (rm_addr s) (<[t := default 0 (rm_total s !! t) + 1]> (rm_total s)) (rm_failed s)
  | RCapture _ => s
  end.

(** [Start]: [listen] is the error or the address of the listener, [served] how
    [Serve] ended; [ErrServerClosed] is no error. *)
Definition MockStart (s : RTEServerMock) (listen : string + string) (served : string) :
    RTEServerMock * option string :=
  match listen with
  | inl err => (s, Some err)
  | inr addr =>
    (MkServerMock addr (rm_total s) (rm_failed s),
     if bool_decide (served = "http: Server closed") then None else Some served)
  end.

Definition MockAddr (s : RTEServerMock) : string := rm_addr s.

(** [RTEClient.Start]: the polls, which only log and return no error, so nothing
    is reported and nothing dispatched. *)
Definition client_poll : option string := None.

Definition ClientStart (ticks : nat) : list string := omap (fun _ => client_poll) (seq 0 ticks).

Section server.
Context {F : Type} `{Num F} `{!MathExp F} `{!MapRange} (simplex : LPSolver F).

Record request := MkRequest { rq_path : string; rq_method : string; rq_body : string + Signal F }.

(** Requests served one after the other. *)
Fixpoint serve (fuel : nat) (s : RTEServerMock) (m : DispatchManager F)
    (reqs : list (Env F * request)) : option (list http_answer * RTEServerMock * DispatchManager F) :=
  match reqs with
  | [] => Some ([], s, m)
  | (env, r) :: reqs =>
    '(answer, eff, m) ← serve_path simplex fuel m env (rq_path r) (rq_method r) (rq_body r);
    '(answers, s, m) ← serve fuel (foldl rte_count s eff) m reqs;
    Some (answer :: answers, s, m)
  end.

(** ** The generator *)

(** One turn of the generator's loop: the draws of the interval, and, unless the
    context is cancelled first, those of the signal, with the time and the world of
    the dispatch. *)
Record gen_tick := MkTick {
  gt_u1 : F;
  gt_u2 : F;
  gt_fired : option (draws F * Time * Env F)
}.

(** The observed intervals, the number of errors, the manager. *)
Fixpoint GeneratorStart `{!NumTrunc F} (fuel : nat) (cfg : RTEGeneratorConfig F)
    (sink : option (method (RTESignalEvent F))) (m : DispatchManager F) (ticks : list gen_tick) :
    option (list Duration * Z * DispatchManager F) :=
  match ticks with
  | [] => Some ([], 0, m)
  | t :: ticks =>
    let interval := randomInterval cfg (gt_u1 t) (gt_u2 t) in
    match gt_fired t with
    | None => Some ([interval], 0, m)
    | Some (w, now, env) =>
      let sig := Generate cfg w now in
      '(m', _, _, err) ← emit simplex fuel (Some m) true
        ((fun r : method (RTESignalEvent F) => r (MkRTESignal sig now)) <$> sink) env sig;
      '(ivs, errors, m'') ← GeneratorStart fuel cfg sink (default m m') ticks;
      Some (interval :: ivs, errors + (match err with Some _ => 1 | None => 0 end), m'')
    end
  end.
End server.
Arguments request : clear implicits.
Arguments gen_tick : clear implicits.

(** ** Counting requests *)

Section counting.
Context {F : Type} `{Num F} `{!MathExp F} `{!MapRange} (simplex : LPSolver F).

Definition to_signal (r : request F) : bool :=
  bool_decide (rq_path r = "/rte/signal") && bool_decide (rq_method r = "POST").

(** The type of a request that is dispatched. *)
Definition accepted (r : request F) : option string :=
  if to_signal r then
    match rq_body r with
    | inl _ => None
    | inr s => match RteValidate s with None => Some (rs_SignalType s) | Some _ => None end
    end
  else None.

Definition rejected (r : request F) : bool := to_signal r && bool_decide (accepted r = None).

Lemma serve_path_spec fuel m env (r : request F) answer eff m' :
  env_fair env →
  serve_path simplex fuel m env (rq_path r) (rq_method r) (rq_body r) = Some (answer, eff, m') →
  match accepted r with
  | Some t => answer = HStatus 200 ∧ eff = [RTotal t] ∧ length (m_history m') = S (length (m_history m))
  | None => m' = m ∧ if rejected r then (∃ msg, answer = HError 400 msg) ∧ ∃ err, eff = [RFailed; RCapture err]
                     else eff = []
  end.
Proof.
  intros Hfair. unfold serve_path. destruct r as [path meth body]. cbn [rq_path rq_method rq_body].
  destruct (bool_decide_reflect (path = "/rte/ping")) as [->|_]; [by intros [= <- <- <-]|].
  unfold rejected, accepted, to_signal. cbn [rq_path rq_method rq_body].
  destruct (bool_decide (path = "/rte/signal")); [|by intros [= <- <- <-]].
  unfold handleSignal. destruct (bool_decide (meth = "POST")); [|by intros [= <- <- <-]].
  cbn [andb negb].
  destruct body as [err|sig]; [intros [= <- <- <-]; rewrite bool_decide_eq_true_2 by done; eauto 6|].
  destruct (RteValidate sig) as [err|] eqn:Hv;
    [intros [= <- <- <-]; rewrite bool_decide_eq_true_2 by done; eauto 6|].
  apply RteValidate_None in Hv as (st & Hst & _). unfold ToFlexibility. rewrite Hst.
  destruct (Dispatch _ _ _ _ _ _) as [[[res m1] eff1]|] eqn:Hd; [|done].
  intros [= <- <- <-]. split_and!; [done|done|].
  apply Dispatch_records in Hd as (-> & _); [|done]. rewrite length_app. cbn. lia.
Qed.

(** How many requests satisfy a test. *)
Definition tally (p : request F → bool) (reqs : list (Env F * request F)) : Z :=
  Z.of_nat (length (List.filter (fun '(_, r) => p r) reqs)).

Lemma tally_cons p env r reqs : tally p ((env, r) :: reqs) = (if p r then 1 else 0) + tally p reqs.
Proof. unfold tally. cbn. destruct (p r); cbn; lia. Qed.

(** C35. The counters of the server after any sequence of requests: every accepted
    request is dispatched once and counted once under its type, every other POST
    to the endpoint is counted as failed, and nothing else changes them. *)
Theorem serve_counts fuel s m (reqs : list (Env F * request F)) answers s' m'
    (Hfair : Forall (fun '(env, _) => env_fair env) reqs)
    (Hrun : serve simplex fuel s m reqs = Some (answers, s', m')) :
  length answers = length reqs ∧
  (∀ t, default 0 (rm_total s' !! t) =
        default 0 (rm_total s !! t) + tally (fun r => bool_decide (accepted r = Some t)) reqs) ∧
  rm_failed s' = rm_failed s + tally rejected reqs ∧
  Z.of_nat (length (m_history m')) =
    Z.of_nat (length (m_history m)) + tally (fun r => bool_decide (is_Some (accepted r))) reqs.
Proof.
  revert s m answers s' m' Hrun.
  induction Hfair as [|[env r] reqs He _ IH]; intros s m answers s' m' Hrun.
  { injection Hrun as <- <- <-. split; [done|]. unfold tally. cbn. split_and!; intros; lia. }
  cbn [serve] in Hrun. destruct (serve_path _ _ _ _ _ _ _) as [[[a eff] m1]|] eqn:Hp; [|done].
  cbn [mbind option_bind] in Hrun.
  destruct (serve _ _ _ _ reqs) as [[[as' s1] m2]|] eqn:Hs; [|done]. injection Hrun as <- <- <-.
  apply serve_path_spec in Hp; [|done]. apply IH in Hs as (Hlen & Ht & Hf & Hh).
  split; [cbn; by rewrite Hlen|]. setoid_rewrite tally_cons. setoid_rewrite Ht. rewrite Hf, Hh.
  destruct (accepted r) as [t0|] eqn:Ha; unfold rejected; rewrite ?Ha.
  - destruct Hp as (_ & -> & Hm). cbn [foldl rte_count rm_total rm_failed]. rewrite andb_false_r.
    split_and!; [|lia|rewrite bool_decide_eq_true_2 by done; lia].
    intros t. rewrite lookup_insert. case_decide as Heq.
    + subst t. rewrite bool_decide_eq_true_2 by done. cbn. lia.
    + rewrite bool_decide_eq_false_2 by congruence. cbn. lia.
  - destruct Hp as [-> Hp]. unfold rejected in Hp. rewrite Ha in Hp. rewrite andb_true_r in *.
    rewrite (bool_decide_eq_false_2 (is_Some None)) by (by intros []).
    destruct (to_signal r); [destruct Hp as [_ [err ->]]|rewrite Hp]; cbn [foldl rte_count rm_total rm_failed];
      (split_and!; [intros t; rewrite bool_decide_eq_false_2 by done; lia|lia|lia]).
Qed.
End counting.

(** ** The generator's loop *)

Section generating.
Context `{!MathExp Q} `{!MapRange} (simplex : LPSolver Q).
#[local] Open Scope Q_scope.

(** The ticks up to and including a cancellation. *)
Fixpoint fired (ticks : list (gen_tick Q)) : list (draws Q * Time * Env Q) :=
  match ticks with
  | [] => []
  | t :: ticks => match gt_fired t with None => [] | Some x => x :: fired ticks end
  end.

Lemma emit_total fuel (cfg : RTEGeneratorConfig Q) m sink env w now :
  0 <= gc_MinPowerKW cfg <= gc_MaxPowerKW cfg →
  service_inv m → env_fair env → NoDup (ID <$> discovered true env) →
  ∃ m' eff geff, emit simplex fuel (Some m) true sink env (Generate cfg w now) =
      Some (Some m', eff, geff, mjoin sink) ∧
    service_inv m' ∧ length (m_history m') = S (length (m_history m)).
Proof.
  intros Hp Hinv Hfair Hnd.
  destruct (service_dispatch simplex fuel m env (Generate cfg w now))
    as (res & m' & eff & Hrun & Hi & Hh & _); [done..|].
  unfold emit. rewrite Hrun. cbn [mbind option_bind]. rewrite (generate_nonneg cfg w now Hp).
  destruct sink as [[err|]|]; eexists m', _, _; (split; [done|]); (split; [done|]);
    rewrite Hh, length_app; cbn; lia.
Qed.

(** The generator of a service never panics: every tick dispatches one signal,
    every observed interval is within the configured range, and the errors are
    those of the recorder. *)
Theorem GeneratorStart_runs fuel (cfg : RTEGeneratorConfig Q) sink m ticks
    (Hpow : 0 <= gc_MinPowerKW cfg <= gc_MaxPowerKW cfg)
    (Hint : (0 < gc_MinIntervalSeconds cfg <= gc_MaxIntervalSeconds cfg)%Z)
    (Hmax : (gc_MaxIntervalSeconds cfg * Second <= max_int64)%Z)
    (Hinv : service_inv m)
    (Henv : Forall (fun '(_, _, env) => env_fair env ∧ NoDup (ID <$> discovered true env)) (fired ticks)) :
  ∃ intervals errors m', GeneratorStart simplex fuel cfg sink m ticks = Some (intervals, errors, m') ∧
    length (m_history m') = (length (m_history m) + length (fired ticks))%nat ∧
    Forall (fun d => ∃ s, d = (s * Second)%Z ∧
      (gc_MinIntervalSeconds cfg <= s <= gc_MaxIntervalSeconds cfg)%Z) intervals ∧
    (0 <= errors <= Z.of_nat (length (fired ticks)))%Z.
Proof.
  revert m Hinv. induction ticks as [|[u1 u2 [[[w now] env]|]] ticks IH]; intros m Hinv;
    cbn [GeneratorStart gt_fired gt_u1 gt_u2 fired] in *.
  - eexists _, _, _. split; [done|]. cbn. split_and!; [lia|constructor|lia..].
  - apply Forall_cons in Henv as [[Hfair Hnd] Henv].
    destruct (emit_total fuel cfg m
      ((fun r : method (RTESignalEvent Q) => r (MkRTESignal (Generate cfg w now) now)) <$> sink)
      env w now) as (m1 & eff & geff & -> & Hinv1 & Hh1); [done..|].
    cbn [mbind option_bind default from_option id].
    destruct (IH Henv m1 Hinv1) as (ivs & errors & m2 & -> & Hh2 & Hi & He).
    cbn [mbind option_bind]. eexists _, _, _. split; [done|]. cbn [length].
    split_and!; [lia| |destruct (mjoin _); lia..].
    constructor; [|done]. by apply randomDuration_bounds.
  - eexists _, _, _. split; [done|]. cbn. split_and!; [lia| |lia..].
    constructor; [|constructor]. by apply randomDuration_bounds.
Qed.
End generating.
