(* ===== verification/Process.v ===== *)
(** * The process: registries and start-up

    Every part of the program registers its Prometheus collectors in the registry
    of the process: the dispatch manager and the generator when their packages
    are initialised ([core/dispatch/metrics.go], [rte/generator/generator.go]),
    the Prometheus sink, the telemetry manager, the mock server and the KPI sink
    when they are built.  [Register] belongs to the Prometheus library: it is the
    operation of a class whose laws are the documented ones.  Code that registers
    runs in a small monad over the registry in which [MustRegister] panics.

    The theorems compose the start-up: one service starts in a process without a
    panic, and a second one is possible exactly without telemetry. *)

From S2P Require Import Prelude Num GoTime GoText Model PowerMap MathExp LPDispatcher Tuner.
From S2P Require Import MqttClient MqttSetup Manager Config Rte Telemetry Sinks Prom Influx Service.
From stdpp Require Import base gmap strings list.
From Stdlib Require Import ZArith Ascii Lia.

#[local] Open Scope Z_scope.

(** ** The registry *)

Inductive metric_kind := KCounter | KGauge | KHistogram.

#[export] Instance metric_kind_eq_dec : EqDecision metric_kind.
Proof. solve_decision. Defined.

(** A collector with the options it is made of; one with labels is a vector. *)
Record Collector := MkCollector {
  col_kind : metric_kind;
  col_Name : string;
  col_Help : string;
  col_labels : list string
}.

#[export] Instance Collector_eq_dec : EqDecision Collector.
Proof. solve_decision. Defined.

(** The descriptor the registry compares. *)
Definition col_desc (c : Collector) : string * string * list string :=
  (col_Name c, col_Help c, col_labels c).

Inductive reg_error :=
| AlreadyRegisteredError (existing : Collector)
| RegistrationError (err : string).

Definition reg_message (e : reg_error) : string :=
  match e with
  | AlreadyRegisteredError _ => "duplicate metrics collector registration attempted"
  | RegistrationError err => err
  end.

(** The characters of metric and label names. *)
Definition name_start (a : ascii) : bool :=
  let n := N_of_ascii a in
  ((65 <=? n) && (n <=? 90) || (97 <=? n) && (n <=? 122) || (n =? 95))%N.

Definition name_char (a : ascii) : bool :=
  let n := N_of_ascii a in name_start a || ((48 <=? n) && (n <=? 57))%N.

Definition valid_name (s : string) : bool :=
  match s with
  | EmptyString => false
  | String a s => name_start a && forallb name_char (String.list_ascii_of_string s)
  end.

Definition valid_collector (c : Collector) : bool :=
  valid_name (col_Name c) && forallb valid_name (col_labels c).

(** [prometheus.Registerer], with the collectors it holds by name. *)
Class Registerer (R : Type) := {
  reg_known : R → gmap string Collector;
  Register : R → Collector → R * option reg_error
}.

(** Its documentation: a collector whose name is new is registered; one that was
    registered before is refused with [AlreadyRegisteredError]; another
    collector of a name that is taken is refused with an error; a refused
    collector changes nothing. *)
Class RegistererLaws (R : Type) `{!Registerer R} : Prop := {
  Register_new r c : valid_collector c = true → reg_known r !! col_Name c = None →
    ∃ r', Register r c = (r', None) ∧ reg_known r' = <[col_Name c := c]> (reg_known r);
  Register_again r c c' : reg_known r !! col_Name c = Some c' → col_desc c = col_desc c' →
    Register r c = (r, Some (AlreadyRegisteredError c'));
  Register_taken r c c' : reg_known r !! col_Name c = Some c' → col_desc c ≠ col_desc c' →
    ∃ err, Register r c = (r, Some (RegistrationError err))
}.

(** ** Code that registers *)

Inductive outcome (A : Type) :=
| Returned (a : A)
| Panicked (msg : string).
Arguments Returned {A}.
Arguments Panicked {A}.

Section process.
Context {R : Type} `{!Registerer R}.

Definition proc (A : Type) : Type := R → R * outcome A.

Definition proc_ret {A} (a : A) : proc A := fun r => (r, Returned a).

Definition proc_bind {A B} (f : A → proc B) (x : proc A) : proc B := fun r =>
  match x r with
  | (r, Returned a) => f a r
  | (r, Panicked msg) => (r, Panicked msg)
  end.

Definition panic {A} (msg : string) : proc A := fun r => (r, Panicked msg).

Definition register (c : Collector) : proc (option reg_error) := fun r =>
  let '(r, e) := Register r c in (r, Returned e).

#[local] Notation "'let!' x := e 'in' k" := (proc_bind (fun x => k) e)
  (at level 200, x binder, e at level 100, k at level 200).

(** [MustRegister] panics upon the first collector that is refused. *)
Fixpoint MustRegister (cs : list Collector) : proc unit :=
  match cs with
  | [] => proc_ret tt
  | c :: cs =>
    let! e := register c in
    match e with
    | Some e => panic (reg_message e)
    | None => MustRegister cs
    end
  end.

(** [newCollectors] of [core/dispatch/metrics.go]. *)
Definition dispatch_collectors : list Collector := [
  MkCollector KHistogram "dispatch_execution_latency_seconds"
    "Latency of dispatch orders from publish to acknowledgment" ["signal_type"];
  MkCollector KCounter "vehicles_dispatched_total" "Number of vehicles dispatched" ["signal_type"];
  MkCollector KGauge "ack_rate" "Acknowledgment rate for dispatch orders" ["signal_type"];
  MkCollector KCounter "mqtt_publish_success_total" "Number of successful MQTT publish operations" [];
  MkCollector KCounter "mqtt_publish_failure_total" "Number of failed MQTT publish operations" []].

(** [MustRegisterMetrics(reg)]: nil stands for the default registry of the
    process; the registry it changed, and the outcome. *)
Definition MustRegisterMetrics (DefaultRegisterer : R) (reg : option R) : R * outcome unit :=
  MustRegister dispatch_collectors (default DefaultRegisterer reg).

(** [ResetMetrics(reg)] makes new collectors and registers them if [reg] is not
    nil. *)
Definition ResetMetrics (DefaultRegisterer : R) (reg : option R) : R * outcome unit :=
  match reg with
  | None => (DefaultRegisterer, Returned tt)
  | Some _ => MustRegisterMetrics DefaultRegisterer reg
  end.

(** The package [core/dispatch] is initialised. *)
Definition init_dispatch : proc unit := fun r => MustRegisterMetrics r None.

(** The variables of [rte/generator], and its initialisation. *)
Definition generator_collectors : list Collector := [
  MkCollector KCounter "rte_generator_signals_total" "Total RTE signals emitted" ["signal_type"];
  MkCollector KCounter "rte_generator_power_requested_kw_sum" "Sum of requested power" [];
  MkCollector KGauge "rte_generator_last_emit_timestamp_seconds" "Last emission time" [];
  MkCollector KCounter "rte_generator_emit_errors_total" "Errors while emitting signals" [];
  MkCollector KHistogram "rte_generator_interval_seconds" "Interval between signals" []].

Definition init_generator : proc unit := MustRegister generator_collectors.

(** The collectors of a telemetry manager, which [NewManager] registers. *)
Definition telemetry_collectors : list Collector := [
  MkCollector KCounter "telemetry_poll_requests_total" "Number of telemetry poll requests" [];
  MkCollector KCounter "telemetry_poll_responses_total" "Number of telemetry poll responses" [];
  MkCollector KCounter "telemetry_poll_timeout_total" "Number of telemetry poll timeouts" [];
  MkCollector KGauge "telemetry_last_collect_timestamp_seconds"
    "Unix timestamp of last telemetry collection" [];
  MkCollector KHistogram "telemetry_collect_latency_seconds" "Latency of telemetry collection" []].

(** [telemetry.NewManager]: connecting, then registering. *)
Definition NewTelemetryManager (files : TLSFiles) (connect : ClientOptions → option string)
    (c : MqttConfig) (cfg : TelemetryConfig) (sink : bool) (uuid : string) :
    proc (string + (TelemetryConfig * bool)) :=
  match telemetry_connect files connect c uuid with
  | inl err => proc_ret (inl err)
  | inr _ => let! _ := MustRegister telemetry_collectors in proc_ret (inr (cfg, sink))
  end.

(** The collectors of the Prometheus sink. *)
Definition sink_labels : list string := ["vehicle_id"; "signal_type"; "acknowledged"].

Definition prom_collectors : list Collector := [
  MkCollector KCounter "dispatch_events_total" "Total number of dispatch events" sink_labels;
  MkCollector KHistogram "dispatch_latency_seconds" "Time between command send and acknowledgment"
    sink_labels;
  MkCollector KGauge "fleet_discovery_vehicles_total"
    "Number of vehicles discovered during fleet discovery" []].

(** A collector that exists already is used instead; the type assertion panics if
    it is of another type. *)
Definition reuse (c : Collector) : proc (option string) :=
  let! e := register c in
  match e with
  | None => proc_ret None
  | Some (AlreadyRegisteredError old) =>
    if bool_decide (col_kind old = col_kind c) then proc_ret None else panic "interface conversion"
  | Some (RegistrationError err) => proc_ret (Some err)
  end.

Fixpoint reuse_all (cs : list Collector) : proc (option string) :=
  match cs with
  | [] => proc_ret None
  | c :: cs =>
    let! err := reuse c in
    match err with
    | Some err => proc_ret (Some err)
    | None => reuse_all cs
    end
  end.

(** [NewPromSink]: an error of the registry, if there is one. *)
Definition NewPromSink : proc (option string) := reuse_all prom_collectors.

(** The mock server goes on with its own collectors if they are refused. *)
Definition mock_collectors : list Collector := [
  MkCollector KCounter "rte_signals_total" "Total received RTE signals" ["signal_type"];
  MkCollector KCounter "rte_signals_failed" "Failed RTE signals" []].

Definition register_mock : proc unit :=
  foldr (fun c k => let! _ := register c in k) (proc_ret tt) mock_collectors.

(** [NewEcoSink] registers on the given registry, nil being the default one. *)
Definition eco_collectors : list Collector := [
  MkCollector KGauge "vehicle_injected_energy_kwh" "Daily injected energy per vehicle" ["vehicle_id"; "day"];
  MkCollector KGauge "vehicle_energy_ratio" "Daily ratio of injected to consumed energy" ["vehicle_id"; "day"];
  MkCollector KGauge "vehicle_co2_avoided_grams" "Daily CO2 avoided per vehicle" ["vehicle_id"; "day"]].

Definition NewEcoSink (DefaultRegisterer : R) (reg : option R) : R * outcome unit :=
  MustRegister eco_collectors (default DefaultRegisterer reg).

(** ** [app.New] in its process *)

Section app.
Context {F : Type} `{Num F} `{!MathExp F} `{!NumRound F} `{!NumTrunc F} `{!MapRange}.

(** The sink of the metrics section. *)
Definition app_sink (w : World F) (c : MetricsConfig) : proc (string + option (Sink F)) :=
  let! err := (if mc_PrometheusEnabled c then NewPromSink else proc_ret None) in
  let prom := match err with
              | Some err => inl ("prom sink: " +:+ err)
              | None => inr (if mc_PrometheusEnabled c then [prom_methods] else [])
              end in
  proc_ret
    (match prom with
     | inl err => inl err
     | inr sinks =>
       inr (match sinks ++ (if mc_InfluxEnabled c
                            then [NewInfluxSinkWithFallback (w_health w) (w_write w)] else []) with
            | [] => None
            | [s] => Some s
            | sinks => Some (NewMultiSink sinks)
            end)
     end).

(** The telemetry section. *)
Definition app_telemetry (w : World F) (cfg : AppConfig F) (sink : option (Sink F)) :
    proc (string + option (TelemetryConfig * bool)) :=
  let tel := cfg_Telemetry (ac_Config cfg) in
  if tc_Enabled tel then
    let! tm := NewTelemetryManager (w_files w) (w_connect w) (ac_MQTT cfg) tel
            (bool_decide (is_Some (s ← sink; sk_VehicleState s))) (w_uuid' w) in
    proc_ret (match tm with
              | inl err => inl ("telemetry manager: " +:+ err)
              | inr tm => inr (Some tm)
              end)
  else proc_ret (inr None).

(** The connector; only the mock server registers collectors. *)
Definition app_connector (cfg : RTEConfig) : proc RTEConnector :=
  let c := NewConnector cfg in
  match c with
  | CMock _ => let! _ := register_mock in proc_ret c
  | CClient _ _ => proc_ret c
  end.

Definition app_New (w : World F) (cfg : AppConfig F) : proc (string + Service F) :=
  match NewPahoClient (w_files w) (w_connect w) (ac_MQTT cfg) with
  | inl err => proc_ret (inl ("mqtt client: " +:+ err))
  | inr _ =>
    let! sink := app_sink w (ac_Metrics cfg) in
    match sink with
    | inl err => proc_ret (inl err)
    | inr sink =>
      match NewPahoFleetDiscovery (w_connect w) (ac_MQTT cfg) (w_uuid w) "v2g/fleet/discovery"
              "v2g/fleet/response/+" "hello" with
      | inl err => proc_ret (inl ("fleet discovery: " +:+ err))
      | inr _ =>
        let ackTimeout := wrap64 (dc_AckTimeoutSeconds (ac_Dispatch cfg) * Second) in
        match NewDispatchManager true true (Some DEqual) (Some FNoop) ackTimeout
                (caps_of <$> sink) true true None None with
        | inl err => proc_ret (inl ("dispatch manager: " +:+ err))
        | inr manager =>
          let manager := SetLPFirst manager (dc_LPFirst (ac_Dispatch cfg)) in
          let gen := cfg_RTEGenerator (ac_Config cfg) in
          let generator :=
            if gc_Enabled gen then Some (gen, s ← sink; sk_RTESignal s) else None in
          let! tel := app_telemetry w cfg sink in
          match tel with
          | inl err => proc_ret (inl err)
          | inr telemetry =>
            let! connector := app_connector (cfg_RTE (ac_Config cfg)) in
            proc_ret (inr (MkService manager connector
              (mc_PrometheusEnabled (ac_Metrics cfg)) (mc_PrometheusPort (ac_Metrics cfg))
              sink telemetry generator))
          end
        end
      end
    end
  end.

(** A process: its packages are initialised, then the service is built. *)
Definition start_process (w : World F) (cfg : AppConfig F) : proc (string + Service F) :=
  let! _ := init_dispatch in let! _ := init_generator in app_New w cfg.
End app.
End process.
Arguments proc : clear implicits.

(** ** Registering *)

(** Closed facts about names. *)
Ltac names_ok := apply (bool_decide_unpack _); by vm_compute.

(** All collectors of the program. *)
Definition all_collectors : list Collector :=
  dispatch_collectors ++ generator_collectors ++ prom_collectors ++ telemetry_collectors ++
  mock_collectors ++ eco_collectors.

Lemma all_collectors_ok :
  NoDup (col_Name <$> all_collectors) ∧ forallb valid_collector all_collectors = true.
Proof. split; [|by vm_compute]. names_ok. Qed.

Section facts.
Context {R : Type} `{!Registerer R} `{!RegistererLaws R}.
Implicit Types (r : R) (c : Collector) (cs : list Collector).

(** Each collector is new to the registry, or registered in it. *)
Definition new_in r cs : Prop := ∀ c, c ∈ cs → reg_known r !! col_Name c = None.
Definition known_in r cs : Prop := ∀ c, c ∈ cs → reg_known r !! col_Name c = Some c.

(** [r'] holds in addition the collectors [cs]. *)
Record extends r cs r' : Prop := {
  ex_known : known_in r' cs;
  ex_frame name : name ∉ col_Name <$> cs → reg_known r' !! name = reg_known r !! name
}.

Lemma extends_refl r : extends r [] r.
Proof. split; [|done]. intros c Hc. by apply not_elem_of_nil in Hc. Qed.

Lemma extends_app r cs r' ds r'' :
  NoDup (col_Name <$> cs ++ ds) → extends r cs r' → extends r' ds r'' → extends r (cs ++ ds) r''.
Proof.
  rewrite fmap_app. intros (_ & Hd & _)%NoDup_app [Hk Hf] [Hk' Hf']. split.
  - intros c [Hc|Hc]%elem_of_app; [|by apply Hk'].
    rewrite Hf'; [by apply Hk|]. apply Hd. by apply list_elem_of_fmap_2.
  - intros name Hn. rewrite fmap_app, not_elem_of_app in Hn. destruct Hn. by rewrite Hf', Hf.
Qed.

Lemma extends_new r cs r' ds :
  NoDup (col_Name <$> cs ++ ds) → extends r cs r' → new_in r ds → new_in r' ds.
Proof.
  rewrite fmap_app. intros (_ & Hd & _)%NoDup_app [_ Hf] Hn c Hc. rewrite Hf; [by apply Hn|].
  intros Hin. eapply Hd; [exact Hin|]. by apply list_elem_of_fmap_2.
Qed.

(** One registration. *)
Lemma register_new r c :
  valid_collector c = true → reg_known r !! col_Name c = None →
  ∃ r', register c r = (r', Returned None) ∧ extends r [c] r'.
Proof.
  intros Hv Hn. destruct (Register_new r c Hv Hn) as (r' & Hr & Hk). exists r'.
  unfold register. rewrite Hr. split; [done|]. split.
  - intros c' ->%list_elem_of_singleton. by rewrite Hk, lookup_insert_eq.
  - intros name Hname. rewrite Hk, lookup_insert_ne; [done|]. intros Heq. apply Hname. rewrite <- Heq. by left.
Qed.

Lemma register_known r c :
  reg_known r !! col_Name c = Some c → register c r = (r, Returned (Some (AlreadyRegisteredError c))).
Proof. intros Hk. unfold register. by rewrite (Register_again r c c). Qed.

(** A loop over collectors that goes on when one was registered. *)
Lemma loop_new (loop : list Collector → proc R (option string)) cs r :
  loop [] = proc_ret None →
  (∀ c cs r r', register c r = (r', Returned None) → loop (c :: cs) r = loop cs r') →
  NoDup (col_Name <$> cs) → forallb valid_collector cs = true → new_in r cs →
  ∃ r', loop cs r = (r', Returned None) ∧ extends r cs r'.
Proof.
  intros Hnil Hcons. revert r. induction cs as [|c cs IH]; intros r Hnd Hv Hn.
  { exists r. rewrite Hnil. split; [done|]. apply extends_refl. }
  cbn in Hv. bool_simpl. pose proof Hnd as [_ Hnd']%NoDup_cons.
  destruct (register_new r c) as (r1 & Hr & He); [done|by apply Hn; left|].
  rewrite (Hcons _ _ _ _ Hr). destruct (IH r1) as (r2 & Hr2 & He2); [done..| |].
  { apply (extends_new r [c] r1 cs); [done..|]. intros c' Hc'. apply Hn. by right. }
  exists r2. split; [done|]. by apply (extends_app r [c] r1 cs r2).
Qed.

Lemma MustRegister_new r cs :
  NoDup (col_Name <$> cs) → forallb valid_collector cs = true → new_in r cs →
  ∃ r', MustRegister cs r = (r', Returned tt) ∧ extends r cs r'.
Proof.
  intros Hnd Hv Hn.
  destruct (loop_new (fun cs r => match MustRegister cs r with
     (r, Returned _) => (r, Returned None) | (r, Panicked msg) => (r, Panicked msg) end) cs r)
    as (r' & Hr & He); [done| |done..|].
  { intros c cs' r0 r' Hc. cbn [MustRegister]. unfold proc_bind. by rewrite Hc. }
  exists r'. destruct (MustRegister cs r) as [r1 [[]|]]; [|done]. by injection Hr as ->.
Qed.

Lemma MustRegister_known r c cs :
  reg_known r !! col_Name c = Some c → ∃ msg, MustRegister (c :: cs) r = (r, Panicked msg).
Proof. intros Hk. cbn [MustRegister]. unfold proc_bind. rewrite register_known by done. by eexists. Qed.

Lemma reuse_all_new r cs :
  NoDup (col_Name <$> cs) → forallb valid_collector cs = true → new_in r cs →
  ∃ r', reuse_all cs r = (r', Returned None) ∧ extends r cs r'.
Proof.
  apply (loop_new reuse_all cs r); [done|]. intros c cs' r0 r' Hc.
  cbn [reuse_all]. unfold reuse, proc_bind. by rewrite Hc.
Qed.

Lemma reuse_all_known r cs : known_in r cs → reuse_all cs r = (r, Returned None).
Proof.
  induction cs as [|c cs IH]; intros Hk; [done|]. cbn [reuse_all]. unfold reuse, proc_bind.
  rewrite register_known by (apply Hk; by left). rewrite bool_decide_eq_true_2 by done.
  apply IH. intros c' Hc'. apply Hk. by right.
Qed.

Lemma register_mock_new r : new_in r mock_collectors →
  ∃ r', register_mock r = (r', Returned tt) ∧ extends r mock_collectors r'.
Proof.
  intros Hn. destruct (MustRegister_new r mock_collectors) as (r' & Hr & He);
    [names_ok|done|done|].
  exists r'. split; [|done]. revert Hr. unfold register_mock, mock_collectors.
  cbn [foldr MustRegister]. unfold proc_bind.
  destruct (register _ r) as [r1 [[e|]|]]; [done| |done].
  destruct (register _ r1) as [r2 [[e|]|]]; done.
Qed.

Lemma register_mock_known r : known_in r mock_collectors → register_mock r = (r, Returned tt).
Proof.
  intros Hk. unfold register_mock, mock_collectors in *. cbn [foldr]. unfold proc_bind.
  by rewrite !register_known by (apply Hk; set_solver).
Qed.

(** ** Building the service *)

Section app.
Context {F : Type} `{Num F} `{!MathExp F} `{!NumRound F} `{!NumTrunc F} `{!MapRange}.
Implicit Types (w : World F) (cfg : AppConfig F).

(** The collectors a configuration makes [app.New] register. *)
Definition is_mock cfg : bool :=
  match NewConnector (cfg_RTE (ac_Config cfg)) with CMock _ => true | CClient _ _ => false end.

(** The world in which the registry accepts the sink. *)
Definition registering w : World F :=
  MkWorld (w_files w) (w_connect w) Registered Registered Registered (w_health w) (w_write w)
    (w_uuid w) (w_uuid' w).

Lemma app_sink_spec r w cfg r' :
  (if mc_PrometheusEnabled (ac_Metrics cfg) then NewPromSink r else (r, Returned None)) = (r', Returned None) →
  app_sink w (ac_Metrics cfg) r = (r', Returned (service_sink (registering w) (ac_Metrics cfg))).
Proof.
  unfold app_sink, service_sink, proc_bind. destruct (mc_PrometheusEnabled _), (mc_InfluxEnabled _);
    [intros ->; done..|by intros [= <-]|by intros [= <-]].
Qed.

(** [app.New] once its registrations are known to succeed. *)
Lemma app_New_spec r w cfg r1 r2 r3 :
  (if mc_PrometheusEnabled (ac_Metrics cfg) then NewPromSink r else (r, Returned None)) = (r1, Returned None) →
  (if tc_Enabled (cfg_Telemetry (ac_Config cfg)) then MustRegister telemetry_collectors r1 else (r1, Returned tt))
    = (r2, Returned tt) →
  (if is_mock cfg then register_mock r2 else (r2, Returned tt)) = (r3, Returned tt) →
  ∃ r', app_New w cfg r = (r', Returned (NewService (registering w) cfg)) ∧
    ∀ svc, NewService (registering w) cfg = inr svc → r' = r3.
Proof.
  intros Hp Ht Hm. unfold app_New, NewService. cbn [registering w_files w_connect w_uuid w_uuid'].
  destruct (NewPahoClient _ _ _) as [err|opts]; [by eexists|]. unfold proc_bind at 1.
  rewrite (app_sink_spec r w cfg r1 Hp).
  destruct (service_sink _ _) as [err|sink]; [by eexists|].
  destruct (NewPahoFleetDiscovery _ _ _ _ _ _) as [err|d]; [by eexists|].
  cbn [NewDispatchManager]. unfold proc_bind at 1, app_telemetry, NewTelemetryManager.
  assert (∀ m tel gen, ∃ r', proc_bind (fun connector => proc_ret (inr (MkService m connector
      (mc_PrometheusEnabled (ac_Metrics cfg)) (mc_PrometheusPort (ac_Metrics cfg)) sink tel gen)))
      (app_connector (cfg_RTE (ac_Config cfg))) r2 =
    (r', Returned (inr (A := string) (MkService m (NewConnector (cfg_RTE (ac_Config cfg)))
      (mc_PrometheusEnabled (ac_Metrics cfg)) (mc_PrometheusPort (ac_Metrics cfg)) sink tel gen))) ∧ r' = r3) as Hc.
  { intros m tel gen. unfold app_connector, proc_bind, is_mock in *.
    destruct (NewConnector (cfg_RTE (ac_Config cfg))); [rewrite Hm|injection Hm as ->]; by eexists. }
  destruct (tc_Enabled _).
  - destruct (telemetry_connect _ _ _ _); [by eexists|]. unfold proc_bind at 1 2. rewrite Ht. cbn [proc_ret].
    match goal with |- context [MkService ?m _ _ _ _ ?t ?g] => destruct (Hc m t g) as (r' & Hr & ->) end.
    exists r3. by rewrite Hr.
  - injection Ht as <-. cbn [proc_ret].
    match goal with |- context [MkService ?m _ _ _ _ ?t ?g] => destruct (Hc m t g) as (r' & Hr & ->) end.
    exists r3. by rewrite Hr.
Qed.

Lemma app_New_panics r w cfg svc msg :
  (if mc_PrometheusEnabled (ac_Metrics cfg) then NewPromSink r else (r, Returned None)) = (r, Returned None) →
  tc_Enabled (cfg_Telemetry (ac_Config cfg)) = true →
  MustRegister telemetry_collectors r = (r, Panicked msg) →
  NewService (registering w) cfg = inr svc → app_New w cfg r = (r, Panicked msg).
Proof.
  intros Hp Ht Hm. unfold app_New, NewService. cbn [registering w_files w_connect w_uuid w_uuid'].
  destruct (NewPahoClient _ _ _) as [err|opts]; [done|]. unfold proc_bind at 1.
  rewrite (app_sink_spec r w cfg r Hp).
  destruct (service_sink _ _) as [err|sink]; [done|].
  destruct (NewPahoFleetDiscovery _ _ _ _ _ _) as [err|d]; [done|].
  cbn [NewDispatchManager]. unfold proc_bind at 1, app_telemetry, NewTelemetryManager.
  rewrite Ht. destruct (telemetry_connect _ _ _ _); [done|]. intros _. unfold proc_bind at 1 2. by rewrite Hm.
Qed.

(** The registrations of [app.New] in a registry without its collectors. *)
Lemma app_registers r cfg :
  new_in r prom_collectors → new_in r telemetry_collectors → new_in r mock_collectors →
  ∃ r1 r2 r3,
    (if mc_PrometheusEnabled (ac_Metrics cfg) then NewPromSink r else (r, Returned None)) = (r1, Returned None) ∧
    (if tc_Enabled (cfg_Telemetry (ac_Config cfg)) then MustRegister telemetry_collectors r1
     else (r1, Returned tt)) = (r2, Returned tt) ∧
    (if is_mock cfg then register_mock r2 else (r2, Returned tt)) = (r3, Returned tt) ∧
    extends r ((if mc_PrometheusEnabled (ac_Metrics cfg) then prom_collectors else []) ++
       (if tc_Enabled (cfg_Telemetry (ac_Config cfg)) then telemetry_collectors else []) ++
       (if is_mock cfg then mock_collectors else [])) r3.
Proof.
  intros Np Nt Nm.
  set (P := if mc_PrometheusEnabled _ then prom_collectors else []).
  set (T := if tc_Enabled _ then telemetry_collectors else []).
  set (M := if is_mock cfg then mock_collectors else []).
  assert (NoDup (col_Name <$> P ++ T ++ M)) as Hnd.
  { unfold P, T, M. destruct (mc_PrometheusEnabled _), (tc_Enabled _), (is_mock cfg);
      names_ok. }
  assert (∃ r1, (if mc_PrometheusEnabled (ac_Metrics cfg) then NewPromSink r else (r, Returned None))
    = (r1, Returned None) ∧ extends r P r1) as (r1 & H1 & E1).
  { unfold P. destruct (mc_PrometheusEnabled _); [|eauto using extends_refl].
    apply reuse_all_new; [names_ok|done|done]. }
  assert (NoDup (col_Name <$> P ++ T)) as HPT
    by (rewrite app_assoc, fmap_app in Hnd; by apply NoDup_app in Hnd as (? & _)).
  assert (∃ r2, (if tc_Enabled (cfg_Telemetry (ac_Config cfg)) then MustRegister telemetry_collectors r1
     else (r1, Returned tt)) = (r2, Returned tt) ∧ extends r1 T r2) as (r2 & H2 & E2).
  { unfold T in *. destruct (tc_Enabled _); [|eauto using extends_refl].
    apply MustRegister_new; [names_ok|done|]. by eapply extends_new. }
  pose proof (extends_app _ _ _ _ _ HPT E1 E2) as E12. rewrite app_assoc in Hnd |- *.
  assert (∃ r3, (if is_mock cfg then register_mock r2 else (r2, Returned tt)) = (r3, Returned tt) ∧
    extends r2 M r3) as (r3 & H3 & E3).
  { unfold M in *. destruct (is_mock cfg); [|eauto using extends_refl].
    apply register_mock_new. by eapply extends_new. }
  exists r1, r2, r3. split_and!; [done..|]. by eapply extends_app.
Qed.

Lemma known_in_sub r cs ds : known_in r cs → (∀ c, c ∈ ds → c ∈ cs) → known_in r ds.
Proof. intros Hk Hs c Hc. by apply Hk, Hs. Qed.

Lemma new_in_sub r cs ds : new_in r cs → bool_decide (Forall (fun c => c ∈ cs) ds) = true → new_in r ds.
Proof. intros Hn Hb%bool_decide_eq_true c Hc. apply Hn. by apply (proj1 (Forall_forall _ _) Hb). Qed.

(** The initialisation of the two packages. *)
Lemma inits_register r : new_in r all_collectors →
  ∃ rd rg, init_dispatch r = (rd, Returned tt) ∧ init_generator rd = (rg, Returned tt) ∧
    new_in rg prom_collectors ∧ new_in rg telemetry_collectors ∧ new_in rg mock_collectors.
Proof.
  intros Hnew. assert (∀ cs, bool_decide (Forall (fun c => c ∈ all_collectors) cs) = true → new_in r cs) as Hn.
  { intros cs. by apply new_in_sub. }
  destruct (MustRegister_new r dispatch_collectors) as (rd & Hd & Ed);
    [names_ok|done|apply Hn; by vm_compute|].
  destruct (MustRegister_new rd generator_collectors) as (rg & Hg & Eg);
    [names_ok|done|eapply extends_new; [|exact Ed|apply Hn; by vm_compute]; names_ok|].
  assert (extends r (dispatch_collectors ++ generator_collectors) rg) as E.
  { eapply extends_app; [|done..]. names_ok. }
  exists rd, rg. split_and!; [done|done|..];
    (eapply extends_new; [|exact E|apply Hn; by vm_compute]; names_ok).
Qed.

(** C3. In a process whose registry holds none of the program's collectors, the
    initialisation of the packages and [app.New] never panic, and build the
    service of [NewService].  Building it again in the same process works, and
    reuses the registered collectors, exactly if telemetry is off: a second
    telemetry manager panics in [MustRegister]. *)
Theorem process_start r w cfg (Hnew : new_in r all_collectors) :
  ∃ r1, start_process w cfg r = (r1, Returned (NewService (registering w) cfg)) ∧
  ∀ svc, NewService (registering w) cfg = inr svc →
    (tc_Enabled (cfg_Telemetry (ac_Config cfg)) = false → app_New w cfg r1 = (r1, Returned (inr svc))) ∧
    (tc_Enabled (cfg_Telemetry (ac_Config cfg)) = true → ∃ msg, app_New w cfg r1 = (r1, Panicked msg)).
Proof.
  destruct (inits_register r Hnew) as (rd & rg & Hd & Hg & Np & Nt & Nm).
  destruct (app_registers rg cfg Np Nt Nm) as (r1 & r2 & r3 & H1 & H2 & H3 & E3).
  destruct (app_New_spec rg w cfg r1 r2 r3 H1 H2 H3) as (r' & Hr & Hsame). exists r'. split.
  { unfold start_process, proc_bind. by rewrite Hd, Hg, Hr. }
  intros svc Hsvc. rewrite (Hsame svc Hsvc). clear Hr Hsame r'. pose proof (ex_known _ _ _ E3) as Hk.
  assert ((if mc_PrometheusEnabled (ac_Metrics cfg) then NewPromSink r3 else (r3, Returned None))
    = (r3, Returned None)) as P3.
  { destruct (mc_PrometheusEnabled _); [|done]. apply reuse_all_known. eapply known_in_sub; [exact Hk|]. set_solver. }
  split; intros Ht.
  - assert ((if is_mock cfg then register_mock r3 else (r3, Returned tt)) = (r3, Returned tt)) as M3.
    { destruct (is_mock cfg); [|done]. apply register_mock_known. eapply known_in_sub; [exact Hk|]. set_solver. }
    destruct (app_New_spec r3 w cfg r3 r3 r3 P3) as (r' & Hr & Hs); [by rewrite Ht|done|].
    rewrite Hr, Hsvc. by rewrite (Hs svc Hsvc).
  - destruct (MustRegister_known r3 (MkCollector KCounter "telemetry_poll_requests_total"
      "Number of telemetry poll requests" []) (tail telemetry_collectors)) as [msg Hmsg].
    { apply Hk. rewrite Ht. set_solver. }
    exists msg. by apply (app_New_panics r3 w cfg svc msg).
Qed.
End app.

(** ** Tests *)

(** [ResetMetrics] makes room for new collectors only in another registry: on the
    registry of the process it panics, as the old collectors are still there. *)
Theorem ResetMetrics_default r fresh
    (Hnew : new_in r dispatch_collectors) (Hfresh : new_in fresh dispatch_collectors) :
  ∃ r', init_dispatch r = (r', Returned tt) ∧
    ResetMetrics r' None = (r', Returned tt) ∧
    (∃ msg, ResetMetrics r' (Some r') = (r', Panicked msg)) ∧
    (∃ fresh', ResetMetrics r' (Some fresh) = (fresh', Returned tt)).
Proof.
  destruct (MustRegister_new r dispatch_collectors) as (r' & Hr & E);
    [names_ok|done|done|].
  destruct (MustRegister_new fresh dispatch_collectors) as (f' & Hf & _);
    [names_ok|done|done|].
  exists r'. split_and!; [done|done| |by exists f'].
  cbn [ResetMetrics MustRegisterMetrics default from_option id]. apply MustRegister_known.
  apply (ex_known _ _ _ E). by left.
Qed.
End facts.

(** ** A registry *)

(** The collectors by name are a registry that keeps the laws. *)
#[export] Instance map_registerer : Registerer (gmap string Collector) := {|
  reg_known := id;
  Register := fun r c =>
    match r !! col_Name c with
    | Some c' => (r, Some (if bool_decide (col_desc c = col_desc c') then AlreadyRegisteredError c'
                           else RegistrationError "a previously registered descriptor with the same name"))
    | None => (<[col_Name c := c]> r, None)
    end
|}.

#[export] Instance map_registerer_laws : RegistererLaws (gmap string Collector).
Proof.
  split; intros r c; cbn.
  - intros _ ->. by eexists.
  - intros c' -> Hd. by rewrite bool_decide_eq_true_2.
  - intros c' -> Hd. rewrite bool_decide_eq_false_2 by done. by eexists.
Qed.
