(* ===== verification/Api.v ===== *)
(** * The REST handlers

    Models [api/dispatch/logs.go] (the dispatch history), [api/vehicles/handler.go]
    (vehicle status with forecasts) and [api/vehicles/kpi.go] (ecological KPIs).
    A response is its status with the value that is encoded as its body; the
    JSON encoder is an argument that may report an error (it rejects NaN and
    infinities), as are [time.Parse] for RFC 3339 and the clock. *)

From S2P Require Import Prelude Num GoTime GoText Model PowerMap.
From S2P Require Import VehicleStatus DispatchLog Manager Eco Kpi.
From stdpp Require Import base gmap strings list pretty sorting.
From Stdlib Require Import ZArith QArith Ascii Lqa Lia.

#[local] Open Scope Z_scope.

(** What the handlers read of an [http.Request]; the values of the query string
    by name. *)
Record Request := MkRequest {
  req_Method : string;
  req_Path : string;
  req_Query : gmap string (list string);
  req_Authorization : string
}.

(** [url.Values.Get]. *)
Definition query_get (r : Request) (name : string) : string :=
  default "" (head (default [] (req_Query r !! name))).

(** [RJson None]: status 200 with an empty body. *)
Inductive response (A : Type) :=
| RError (code : Z) (msg : string)
| RJson (body : option A).
Arguments RError {A}.
Arguments RJson {A}.

(** A JSON encoder: the error it reports for a value, if any. *)
Abbreviation Encoder A := (A → option string).
(** [w.Write] of a value, with the encoder's error as an answer 500. *)
Definition encode_or_fail {A} (enc : Encoder A) (a : A) : response A :=
  match enc a with
  | Some err => RError 500 err
  | None => RJson (Some a)
  end.

(** ** Dispatch history *)

Definition signalTypeFromString (s : string) : SignalType * bool :=
  if bool_decide (s = "FCR") then (SignalFCR, true)
  else if bool_decide (s = "aFRR") then (SignalAFRR, true)
  else if bool_decide (s = "MA") then (SignalMA, true)
  else if bool_decide (s = "NEBEF") then (SignalNEBEF, true)
  else if bool_decide (s = "EcoWatt") then (SignalEcoWatt, true)
  else (0, false).

Section log_handler.
Context {F : Type}.

(** A bound of the window: left at the zero time when it is absent or does not
    parse. *)
Definition time_bound (parse : TimeParser) (r : Request) (name : string) : Time :=
  let s := query_get r name in
  if bool_decide (s = "") then time_zero else default time_zero (parse s).

Definition log_query (parse : TimeParser) (r : Request) : LogQuery :=
  let st := query_get r "signal_type" in
  MkQuery (time_bound parse r "start") (time_bound parse r "end") (query_get r "vehicle_id")
    (if bool_decide (st = "") then 0
     else let '(v, ok) := signalTypeFromString st in if ok then v else 0).

Definition NewLogHandler (store : LogQuery → string + list (LogRecord F)) (token : string)
    (parse : TimeParser) (enc : Encoder (list (LogRecord F))) (r : Request) :
    response (list (LogRecord F)) :=
  if negb (bool_decide (token = "")) &&
     negb (bool_decide (req_Authorization r = "Bearer " +:+ token)) then
    RError 401 "unauthorized" else
  match store (log_query parse r) with
  | inl err => RError 500 err
  | inr records => encode_or_fail enc records
  end.
End log_handler.

(** ** Vehicle status *)

Section status_handler.
Context {F : Type} `{Num F} `{!MapRange}.

(** [fmt.Sprintf("t+%dm", int(step.Minutes())*j)] with a step of 15 minutes. *)
Definition forecast_key (j : nat) : string := "t+" +:+ pretty (15 * j)%nat +:+ "m".

(** The loop over the forecast, which starts from an empty map. *)
Definition forecast_map (fc : list F) : gmap string F :=
  foldl (fun m '(j, v) => <[forecast_key j := v]> m) ∅ (zip (seq 0 (length fc)) fc).

(** The body of the loop over the entries; [now] is the clock. *)
Definition add_forecast (pred : option (PredictionEngine F)) (now : Time) (e : Status F) : Status F :=
  match pred with
  | None => e
  | Some pred =>
    match ForecastSoC pred (st_VehicleID e) Hour with
    | [] => e
    | fc =>
      MkStatus (st_VehicleID e) (st_FleetID e) (st_Site e) (st_Cluster e) (st_CurrentStatus e)
        (MkWindow now (GoTime.Add now Hour)) (forecast_map fc)
        (MkWindow (GoTime.Add now Hour) (GoTime.Add now (2 * Hour))) (st_LastDispatchDecision e)
    end
  end.

(** [clock i] is the time read for the entry [i]. *)
Definition NewStatusHandler (store : MemoryStore F) (pred : option (PredictionEngine F))
    (clock : nat → Time) (enc : Encoder (list (Status F))) (r : Request) :
    response (list (Status F)) :=
  if negb (bool_decide (req_Method r = "GET")) then RError 405 "method not allowed" else
  let f := MkStatusFilter (query_get r "fleet_id") (query_get r "site") (query_get r "cluster") in
  encode_or_fail enc (imap (fun i e => add_forecast pred (clock i) e) (StatusList store f)).
End status_handler.

(** ** Ecological KPIs *)

Record kpi_out (F : Type) := MkOut {
  out_Date : string;
  out_InjectedKWh : F;
  out_CO2Avoided : F;
  out_EnergyRatio : F
}.
Arguments MkOut {F}.
Arguments out_Date {F}.
Arguments out_InjectedKWh {F}.
Arguments out_CO2Avoided {F}.
Arguments out_EnergyRatio {F}.

Section kpi_handler.
Context {F : Type} `{Num F}.

Definition kpi_entry (factor : F) (r : EcoRecord F) : kpi_out F :=
  MkOut (FormatDate (er_Date r)) (er_InjectedKWh r) (CO2Avoided r factor) (EnergyRatio r).

(** The error of the encoder is ignored. *)
Definition NewKPIHandler (store : string → Time → Time → string + list (EcoRecord F)) (factor : F)
    (parse : TimeParser) (now : Time) (enc : Encoder (list (kpi_out F))) (r : Request) :
    response (list (kpi_out F)) :=
  if negb (bool_decide (req_Method r = "GET")) then RError 405 "method not allowed" else
  let path := TrimPrefix (req_Path r) "/api/vehicles/" in
  match SplitSlash path with
  | id :: part :: _ =>
    if negb (bool_decide (part = "kpis")) then RError 404 "404 page not found" else
    let start := default time_zero (parse (query_get r "start")) in
    let fin := default time_zero (parse (query_get r "end")) in
    let fin := if IsZero fin then now else fin in
    match store id start fin with
    | inl err => RError 500 err
    | inr recs =>
      let out := kpi_entry factor <$> recs in
      RJson (if enc out then None else Some out)
    end
  | _ => RError 404 "404 page not found"
  end.
End kpi_handler.

(** ** What the handlers answer *)

Section answers.
Context {F : Type}.

(** The records a request for the history asks for: inside the bounds that
    parse, of the vehicle, and of the type if it is a known one other than FCR. *)
Definition log_wanted (parse : TimeParser) (r : Request) (x : LogRecord F) : Prop :=
  (∀ t, parse (query_get r "start") = Some t → query_get r "start" ≠ "" → IsZero t = false →
     t_ns t <= t_ns (log_Timestamp x)) ∧
  (∀ t, parse (query_get r "end") = Some t → query_get r "end" ≠ "" → IsZero t = false →
     t_ns (log_Timestamp x) <= t_ns t) ∧
  (∀ ty, ty ∈ [SignalAFRR; SignalMA; SignalNEBEF; SignalEcoWatt] →
     query_get r "signal_type" = SignalType_String ty → sig_Type (log_Signal x) = ty) ∧
  recordMatchesVehicle x (query_get r "vehicle_id") = true.

Lemma time_bound_spec parse r name (P : Time → Prop) :
  (IsZero (time_bound parse r name) = true ∨ P (time_bound parse r name)) ↔
  (∀ t, parse (query_get r name) = Some t → query_get r name ≠ "" → IsZero t = false → P t).
Proof.
  unfold time_bound. case_bool_decide as He.
  { split; [naive_solver|by left]. }
  destruct (parse _) as [t|]; cbn [default from_option id]; [|split; [done|by left]].
  split.
  - intros [Hz|HP] t' [= <-]; congruence.
  - intros HP. destruct (IsZero t) eqn:Hz; [by left|right; by apply HP].
Qed.

Lemma signal_type_spec parse r (t : SignalType) :
  (q_SignalType (log_query parse r) = 0 ∨ t = q_SignalType (log_query parse r)) ↔
  (∀ ty, ty ∈ [SignalAFRR; SignalMA; SignalNEBEF; SignalEcoWatt] →
     query_get r "signal_type" = SignalType_String ty → t = ty).
Proof.
  rewrite <- Forall_forall, !Forall_cons, Forall_nil. cbn [log_query q_SignalType].
  generalize (query_get r "signal_type") as st. intros st. unfold signalTypeFromString.
  unfold SignalFCR, SignalAFRR, SignalMA, SignalNEBEF, SignalEcoWatt, SignalType_String. cbn.
  repeat case_bool_decide; subst; cbn; intuition (try done; try lia; try congruence).
Qed.

Lemma log_query_matches parse r (x : LogRecord F) :
  line_matches (log_query parse r) x = true ↔ log_wanted parse r x.
Proof.
  rewrite line_matches_spec, signal_type_spec. unfold log_wanted, log_query.
  cbn [q_Start q_End q_VehicleID]. rewrite <- !time_bound_spec. done.
Qed.

(** The JSON-lines store behind the interface. *)
Definition jsonl_store (file : list (log_line F)) (q : LogQuery) : string + list (LogRecord F) :=
  match JSONLQuery file q with
  | None => inl "bufio.Scanner: token too long"
  | Some res => inr res
  end.

Definition authorized (token : string) (r : Request) : Prop :=
  token = "" ∨ req_Authorization r = "Bearer " +:+ token.

Lemma NewLogHandler_authorized store token parse (enc : Encoder (list (LogRecord F))) r :
  authorized token r →
  NewLogHandler store token parse enc r =
  match store (log_query parse r) with
  | inl err => RError 500 err
  | inr records => encode_or_fail enc records
  end.
Proof.
  unfold NewLogHandler, authorized. intros Ha. do 2 case_bool_decide; cbn; try done. tauto.
Qed.

(** C31. The history of a store is served as asked: with the right token (or none
    configured) the answer is the list of the appended records inside the
    bounds that parse, of the vehicle and of the signal type, in the order of
    the appends, except that asking for FCR, whose code is zero, filters
    nothing; without the token it is 401. *)
Theorem NewLogHandler_serves (recs : list (Z * LogRecord F)) file token parse
    (enc : Encoder (list (LogRecord F))) r
    (Hfile : file_of recs = Some file) (Hshort : Forall (fun x => x.1 < max_token) recs)
    (Henc : ∀ l, enc l = None) :
  (authorized token r →
     ∃ res, NewLogHandler (jsonl_store file) token parse enc r = RJson (Some res) ∧
       res `sublist_of` recs.*2 ∧ ∀ x, x ∈ res ↔ x ∈ recs.*2 ∧ log_wanted parse r x) ∧
  (¬ authorized token r →
     NewLogHandler (jsonl_store file) token parse enc r = RError 401 "unauthorized").
Proof.
  split.
  - intros Ha. rewrite NewLogHandler_authorized by done. unfold jsonl_store.
    rewrite (JSONLQuery_short recs) by done. unfold encode_or_fail. rewrite Henc.
    eexists. split_and!; [done|apply List_filter_sublist|].
    intros x. by rewrite elem_of_List_filter, log_query_matches.
  - unfold authorized, NewLogHandler. intros Hn. do 2 case_bool_decide; cbn; tauto.
Qed.

(** Whatever the store, asking for the signals of type FCR is answered like not
    asking for a type. *)
Theorem NewLogHandler_FCR store token parse (enc : Encoder (list (LogRecord F))) m p q a :
  NewLogHandler store token parse enc (MkRequest m p (<["signal_type" := ["FCR"]]> q) a) =
  NewLogHandler store token parse enc (MkRequest m p (delete "signal_type" q) a).
Proof.
  unfold NewLogHandler, log_query, time_bound, query_get. cbn [req_Query req_Authorization].
  rewrite lookup_insert_eq, lookup_delete_eq, !lookup_insert_ne, !lookup_delete_ne by done. done.
Qed.
End answers.

Section status_answers.
Context {F : Type} `{Num F}.

Lemma snoc_string_inj (c : ascii) (a b : string) : a +:+ String c "" = b +:+ String c "" → a = b.
Proof.
  revert b. induction a as [|x a IH]; intros [|y b]; cbn; intros Heq; try done.
  - injection Heq as -> Heq. by destruct b.
  - injection Heq as -> Heq. by destruct a.
  - injection Heq as -> Heq. f_equal. by apply IH.
Qed.

Lemma forecast_key_inj i j : forecast_key i = forecast_key j → i = j.
Proof.
  unfold forecast_key. intros Heq. injection Heq as Heq. apply snoc_string_inj in Heq.
  apply (inj pretty) in Heq. lia.
Qed.

Lemma forecast_map_snoc (fc : list F) v :
  forecast_map (fc ++ [v]) = <[forecast_key (length fc) := v]> (forecast_map fc).
Proof.
  unfold forecast_map. rewrite length_app, Nat.add_comm, seq_S.
  rewrite zip_with_app by (by rewrite length_seq). by rewrite foldl_app.
Qed.

(** The forecast is served under the minutes of its steps and under nothing
    else. *)
Lemma forecast_map_lookup (fc : list F) k v :
  forecast_map fc !! k = Some v ↔ ∃ j, k = forecast_key j ∧ fc !! j = Some v.
Proof.
  induction fc as [|x fc IH] using rev_ind.
  { split; [done|]. by intros (j & _ & Hj). }
  rewrite forecast_map_snoc, lookup_insert_Some, IH. split.
  - intros [[<- ->]|(Hne & j & -> & Hj)].
    + exists (length fc). by rewrite list_lookup_middle.
    + exists j. split; [done|]. by apply lookup_app_l_Some.
  - intros (j & -> & [Hj|[Hle Hj]]%lookup_app_Some); [right|left].
    + split; [|eauto]. intros <-%forecast_key_inj. apply lookup_lt_Some in Hj. lia.
    + apply list_lookup_singleton_Some in Hj as [Hj ->]. split; [f_equal; lia|done].
Qed.

Lemma add_forecast_id pred now (e : Status F) : st_VehicleID (add_forecast pred now e) = st_VehicleID e.
Proof. unfold add_forecast. by repeat case_match. Qed.

(** The forecast for the next hour, empty without an engine. *)
Definition forecast_of (pred : option (PredictionEngine F)) (id : string) : list F :=
  match pred with None => [] | Some p => ForecastSoC p id Hour end.

(** What an entry of the answer adds to a stored status. *)
Record served (fc : list F) (now : Time) (e b : Status F) : Prop := {
  sv_site : (st_FleetID b, st_Site b, st_Cluster b) = (st_FleetID e, st_Site e, st_Cluster e);
  sv_status : st_CurrentStatus b = st_CurrentStatus e;
  sv_decision : st_LastDispatchDecision b = st_LastDispatchDecision e;
  sv_none : fc = [] → b = e;
  sv_soc k v : fc ≠ [] →
    st_ForecastedSoC b !! k = Some v ↔ ∃ j, k = forecast_key j ∧ fc !! j = Some v;
  sv_windows : fc ≠ [] →
    st_ForecastedPluginWindow b = MkWindow now (GoTime.Add now Hour) ∧
    st_NextDispatchWindow b = MkWindow (GoTime.Add now Hour) (GoTime.Add now (2 * Hour))
}.

Lemma add_forecast_served pred now (e : Status F) :
  served (forecast_of pred (st_VehicleID e)) now e (add_forecast pred now e).
Proof.
  unfold add_forecast, forecast_of. destruct pred as [p|]; [|by split].
  destruct (ForecastSoC p (st_VehicleID e) Hour) as [|x fc]; split; try done.
  intros k v _. apply (forecast_map_lookup (x :: fc)).
Qed.

Lemma imap_ids `{!MapRange} pred clock (l : list (Status F)) :
  st_VehicleID <$> imap (fun i e => add_forecast pred (clock i) e) l = st_VehicleID <$> l.
Proof.
  apply list_eq. intros i. rewrite !list_lookup_fmap, list_lookup_imap.
  destruct (l !! i); cbn; [by rewrite add_forecast_id|done].
Qed.

End status_answers.

Section kpi_answers.
#[local] Open Scope Q_scope.

(** The path of the KPIs of a vehicle leads to that vehicle. *)
Lemma KPI_route id :
  no_slash id →
  SplitSlash (TrimPrefix ("/api/vehicles/" +:+ id +:+ "/kpis") "/api/vehicles/") = [id; "kpis"].
Proof. apply (SplitSlash_segment id "kpis"). Qed.

(** The window of a request; without an end it reaches to now. *)
Definition kpi_window (parse : TimeParser) (now : Time) (r : Request) : Time * Time :=
  let fin := default time_zero (parse (query_get r "end")) in
  (default time_zero (parse (query_get r "start")), if IsZero fin then now else fin).

(** A request for the KPIs of a vehicle is answered, from any store that keeps
    the contract, with one entry per active day of the window, in the order of
    the days: its date, the energy injected that day and the CO2 that energy
    avoided. *)
Theorem NewKPIHandler_serves query `{!EcoContract query} (recs : list (EcoRecord Q)) factor parse now
    enc r id
    (Hget : req_Method r = "GET") (Hpath : req_Path r = "/api/vehicles/" +:+ id +:+ "/kpis")
    (Hid : no_slash id) (Henc : ∀ l, enc l = None) :
  let '(start, fin) := kpi_window parse now r in
  ∃ days, NewKPIHandler (fun id s f => inr (query recs id s f)) factor parse now enc r =
      RJson (Some (kpi_entry factor <$> days)) ∧
    StronglySorted Z.le (date_key <$> days) ∧ NoDup (date_key <$> days) ∧
    (∀ d, (∃ x, x ∈ days ∧ er_Date x = Day d) ↔
       existsb (counts_for id (Day d)) recs = true ∧
       (t_ns (Day start) <= t_ns (Day d) <= t_ns (Day fin))%Z) ∧
    (∀ x, x ∈ days → let o := kpi_entry factor x in
       out_Date o = FormatDate (er_Date x) ∧
       out_InjectedKWh o == day_total er_InjectedKWh recs id (er_Date x) ∧
       out_CO2Avoided o == day_total er_InjectedKWh recs id (er_Date x) * factor).
Proof.
  unfold kpi_window. set (start := default _ _). set (fin := if IsZero _ then _ else _).
  exists (query recs id start fin). unfold NewKPIHandler.
  rewrite Hget, Hpath, KPI_route by done. cbn [negb]. rewrite !bool_decide_eq_true_2 by done.
  cbn [negb]. fold start. fold fin. rewrite Henc. split_and!.
  - done.
  - by apply ec_sorted.
  - by apply ec_once.
  - intros d. split.
    + intros (x & (d' & Hd' & _ & Hex & _ & _ & Hw)%(ec_records (query := query)) & Hx).
      unfold date_key in Hw. by rewrite <- Hx, Hd' in *.
    + intros [Hex Hw]. by apply ec_complete.
  - intros x (d & Hd & _ & _ & Hi & _)%(ec_records (query := query)). cbn. rewrite Hd.
    split_and!; [done|done|]. unfold CO2Avoided. num_Q. by rewrite Hi.
Qed.
End kpi_answers.
