(* ===== verification/LogFiles.v ===== *)
(** * The log stores on disk

    Models the operations of [core/dispatch/logging] around the files and the
    database: the constructors, [Append], [Query] and [Close] of the three
    implementations of [LogStore], on top of the scanning and selecting of
    [DispatchLog].  The file system is a map from paths to lines; what may fail
    in it (a failed write leaves the file as it was), the length of an encoded
    record, and the SQL driver are arguments.  The rotation belongs to the
    lumberjack library: it is a relation that keeps the documented laws of the
    class [Rotation].

    The interface [LogStore] is a class with a contract; the plain JSON-lines
    store and the SQLite store keep it, and the history endpoint is proved
    against it.  The rotating store loses the records of rotated files. *)

From S2P Require Import Prelude Num GoTime GoText Model PowerMap DispatchLog Api.
From stdpp Require Import base gmap strings list sorting.
From Stdlib Require Import ZArith Ascii Lia.

#[local] Open Scope Z_scope.

(** ** Files *)

Abbreviation FileSystem F := (gmap string (list (log_line F))).

Section files.
Context {F : Type}.
Implicit Types (r : LogRecord F) (q : LogQuery).

(** What the operating system may answer instead of doing its work. *)
Record faults := MkFaults {
  f_open : string → option string;
  f_close : option string;
  f_write : option string
}.

Definition no_faults : faults := MkFaults (fun _ => None) None None.

(** [json.Encoder.Encode]: the length of the line, or an error. *)
Definition encoder : Type := LogRecord F → string + Z.

Definition not_found (path : string) : string := "open " +:+ path +:+ ": no such file or directory".

(** ** [JSONLStore] *)

(** [os.OpenFile(path, O_CREATE|O_RDWR)] and [Close]. *)
Definition NewJSONLStore (os : faults) (fs : FileSystem F) (path : string) :
    FileSystem F * (string + string) :=
  match f_open os path with
  | Some err => (fs, inl err)
  | None =>
    let fs := match fs !! path with Some _ => fs | None => <[path := []]> fs end in
    match f_close os with
    | Some err => (fs, inl err)
    | None => (fs, inr path)
    end
  end.

(** [os.OpenFile(path, O_APPEND|O_WRONLY)], then the encoder writes one line. *)
Definition JSONLStore_Append (os : faults) (enc : encoder) (fs : FileSystem F) (path : string) r :
    FileSystem F * option string :=
  match f_open os path, fs !! path with
  | Some err, _ => (fs, Some err)
  | None, None => (fs, Some (not_found path))
  | None, Some lines =>
    match enc r with
    | inl err => (fs, Some err)
    | inr n =>
      match f_write os with
      | Some err => (fs, Some err)
      | None => (<[path := lines ++ [MkLine n (Some r)]]> fs, None)
      end
    end
  end.

Definition JSONLStore_Query (os : faults) (fs : FileSystem F) (path : string) q : string + list (LogRecord F) :=
  match f_open os path, fs !! path with
  | Some err, _ => inl err
  | None, None => inl (not_found path)
  | None, Some lines =>
    match JSONLQuery lines q with
    | None => inl "bufio.Scanner: token too long"
    | Some res => inr res
    end
  end.

Definition JSONLStore_Close : option string := None.

(** ** [RotatingJSONLStore] *)

Definition has_slash (s : string) : bool :=
  existsb (fun a => bool_decide (a = "/"%char)) (String.list_ascii_of_string s).

(** The elements of a cleaned relative path, last first. *)
Definition clean_elem (stack : list string) (part : string) : list string :=
  if bool_decide (part ∈ [""; "."]) then stack
  else if bool_decide (part = "..") then
    match stack with
    | top :: stack' => if bool_decide (top = "..") then part :: stack else stack'
    | [] => [part]
    end
  else part :: stack.

(** [filepath.Dir(path) != "."]: the path is absolute, or something is left of
    its directory when it is cleaned. *)
Definition has_dir (path : string) : bool :=
  String.prefix "/" path ||
  negb (Nat.eqb (length (foldl clean_elem [] (removelast (SplitSlash path)))) 0).

(** [mkdir] is the error of [os.MkdirAll]; the logger of the library is made of
    the path and the limits. *)
Definition NewRotatingJSONLStore (mkdir : option string) (path : string)
    (maxSizeMB maxBackups maxAgeDays : Z) : string + (string * Z * Z * Z) :=
  match (if has_dir path then mkdir else None) with
  | Some err => inl err
  | None => inr (path, maxSizeMB, maxBackups, maxAgeDays)
  end.

(** Whether [name] is [path] followed by something without a slash: what the
    pattern [path*] matches, for a path without the special characters of
    patterns. *)
Definition glob_match (path name : string) : bool :=
  String.prefix path name &&
  negb (has_slash (String.substring (String.length path) (String.length name - String.length path) name)).

(** [filepath.Glob(path + "*")]: the names in the order of the directory listing,
    which is sorted. *)
Definition glob_star (fs : FileSystem F) (path : string) : list string :=
  sort_by id (List.filter (glob_match path) (map_to_list fs).*1).

(** The loop over the files; one that does not open is skipped. *)
Definition RotatingStore_Query (os : faults) (fs : FileSystem F) (path : string) q : list (LogRecord F) :=
  RotatingQuery
    (omap (fun name => match f_open os name with Some _ => None | None => fs !! name end)
       (glob_star fs path)) q.

(** [Close] of the logger. *)
Definition RotatingStore_Close (logger_err : option string) : option string := logger_err.
End files.
Arguments encoder : clear implicits.

(** The documentation of lumberjack: a write of a line appends it to the file, or
    first renames the file to a backup, in the form name-timestamp.ext, and
    starts a new one; nothing but backups of the file is touched besides. *)
Class Rotation (F : Type) (backup : string → string → string)
    (write : FileSystem F → string → log_line F → FileSystem F → Prop) : Prop := {
  rot_backup path ts : ∃ name, path = name +:+ Ext path ∧
    backup path ts = name +:+ "-" +:+ ts +:+ Ext path;
  rot_write fs path l fs' : write fs path l fs' →
    fs' !! path = Some (default [] (fs !! path) ++ [l]) ∨
    fs' !! path = Some [l] ∧ ∃ lines, fs !! path = Some lines;
  rot_frame fs path l fs' name : write fs path l fs' → name ≠ path →
    (∀ ts, name ≠ backup path ts) → fs' !! name = fs !! name
}.

(** [Append] of the rotating store: the error of the encoder, or a write of the
    logger. *)
Definition RotatingStore_Append {F} (write : FileSystem F → string → log_line F → FileSystem F → Prop)
    (enc : encoder F) (fs : FileSystem F) (path : string) (r : LogRecord F) (fs' : FileSystem F)
    (err : option string) : Prop :=
  match enc r with
  | inl e => fs' = fs ∧ err = Some e
  | inr n => write fs path (MkLine n (Some r)) fs' ∧ err = None
  end.

(** ** [SQLiteStore] *)

Section sqlite.
Context {F : Type}.

(** [NewSQLiteStore]: the errors of opening, of creating the table, and of closing
    after that failed.  The table, if it exists, is kept. *)
Definition NewSQLiteStore (open exec close : option string) (table : option (list (row F))) :
    string + list (row F) :=
  match open with
  | Some err => inl err
  | None =>
    match exec with
    | Some err =>
      match close with
      | Some cerr => inl ("close db: " +:+ cerr +:+ " (schema err: " +:+ err +:+ ")")
      | None => inl err
      end
    | None => inr (default [] table)
    end
  end.

(** [marshal] is the error of [json.Marshal], [exec] that of the insertion. *)
Definition SQLiteStore_Append (marshal : LogRecord F → option string) (exec : option string)
    (table : list (row F)) (r : LogRecord F) : list (row F) * option string :=
  match marshal r with
  | Some err => (table, Some err)
  | None =>
    match exec with
    | Some err => (table, Some err)
    | None => (SQLiteAppend table r, None)
    end
  end.

(** [query] is an error of the query or of its rows, [unmarshal] that of decoding
    a record. *)
Definition SQLiteStore_Query (query : option string) (unmarshal : LogRecord F → option string)
    (table : list (row F)) (q : LogQuery) : string + list (LogRecord F) :=
  match query with
  | Some err => inl err
  | None =>
    match omap (fun x => unmarshal (DispatchLog.row_record x))
            (merge_sort row_le (List.filter (row_selected q) table)) with
    | err :: _ => inl ("unmarshal record: " +:+ err)
    | [] => inr (SQLiteQuery table q)
    end
  end.

Definition SQLiteStore_Close (close : option string) : option string := close.
End sqlite.

(** The directories of some paths. *)
Example has_dir_examples :
  has_dir <$> ["dispatch.log"; "./dispatch.log"; "logs/dispatch.log"; "a/../x.log"; "../x.log"; "/x.log"] =
  [false; false; true; false; true; true].
Proof. vm_compute. reflexivity. Qed.

(** ** The contract of [LogStore] *)

(** A store as its client sees it; [Append] may fail. *)
Class LogStore (F S : Type) := {
  ls_Append : S → LogRecord F → S * option string;
  ls_Query : S → LogQuery → string + list (LogRecord F)
}.

(** Within less than a second of the window, and of the vehicle and the type. *)
Definition log_near {F} (q : LogQuery) (r : LogRecord F) : Prop :=
  recordMatchesVehicle r (q_VehicleID q) = true ∧
  (q_SignalType q = 0 ∨ sig_Type (log_Signal r) = q_SignalType q) ∧
  (IsZero (q_Start q) = false → t_ns (q_Start q) < t_ns (log_Timestamp r) + Second) ∧
  (IsZero (q_End q) = false → t_ns (log_Timestamp r) < t_ns (q_End q) + Second).

(** A signal type the program knows. *)
Definition known_type (t : SignalType) : Prop := 0 <= t <= 4.

(** [holds s recs]: the store holds the records [recs].  A successful append adds
    its record, a failed one nothing; a query that succeeds returns every record
    that matches, and nothing that is not near. *)
Class LogStoreContract {F S} `{!LogStore F S} (holds : S → list (LogRecord F) → Prop) : Prop := {
  ls_appended s recs r : holds s recs → known_type (sig_Type (log_Signal r)) →
    match ls_Append s r with
    | (s', None) => holds s' (recs ++ [r])
    | (s', Some _) => holds s' recs
    end;
  ls_complete s recs q res : holds s recs → ls_Query s q = inr res →
    ∀ r, r ∈ recs → line_matches q r = true → r ∈ res;
  ls_sound s recs q res : holds s recs → known_type (q_SignalType q) → ls_Query s q = inr res →
    ∀ r, r ∈ res → r ∈ recs ∧ log_near q r
}.

Lemma line_matches_near {F} q (r : LogRecord F) : line_matches q r = true → log_near q r.
Proof.
  intros (Hs & He & Ht & Hv)%line_matches_spec. unfold log_near, Second, Millisecond, Nanosecond.
  split_and!; [done|done|..]; intros Hz; [destruct Hs as [?|?]|destruct He as [?|?]]; congruence || lia.
Qed.

(** ** The stores keep it *)

Section instances.
Context {F : Type} (os : faults) (enc : encoder F).

(** The plain store at a path. *)
Definition jsonl_ops (path : string) : LogStore F (FileSystem F) := {|
  ls_Append := fun fs r => JSONLStore_Append os enc fs path r;
  ls_Query := fun fs q => JSONLStore_Query os fs path q
|}.

Definition jsonl_holds (path : string) (fs : FileSystem F) (recs : list (LogRecord F)) : Prop :=
  ∃ lines, fs !! path = Some lines ∧ omap ln_record lines = recs.

Lemma JSONLQuery_records (lines : list (log_line F)) q res :
  JSONLQuery lines q = Some res → res = List.filter (line_matches q) (omap ln_record lines).
Proof.
  unfold JSONLQuery. destruct (scan_lines q lines) as [res' long] eqn:Hs. destruct long; [done|].
  intros [= <-]. assert (Forall (fun l => ln_bytes l < max_token) lines) as Hshort.
  { apply Forall_forall. intros l Hl. destruct (Z.lt_ge_cases (ln_bytes l) max_token); [done|].
    assert ((scan_lines q lines).2 = true) as Hlong by (apply scan_lines_long, Exists_exists; eauto).
    by rewrite Hs in Hlong. }
  rewrite scan_lines_short in Hs by done. by injection Hs as <-.
Qed.

#[export] Instance jsonl_contract path : LogStoreContract (LogStore0 := jsonl_ops path) (jsonl_holds path).
Proof.
  split.
  - intros fs recs r (lines & Hl & Hr) _. cbn. unfold JSONLStore_Append. rewrite Hl.
    destruct (f_open os path); [by exists lines|]. destruct (enc r) as [e|n]; [by exists lines|].
    destruct (f_write os); [by exists lines|]. eexists. rewrite lookup_insert_eq. split; [done|].
    rewrite omap_app, Hr. done.
  - intros fs recs q res (lines & Hl & Hr). cbn. unfold JSONLStore_Query. rewrite Hl.
    destruct (f_open os path); [done|]. destruct (JSONLQuery lines q) as [res'|] eqn:Hq; [|done].
    intros [= <-] r Hin Hm. rewrite (JSONLQuery_records _ _ _ Hq), elem_of_List_filter, Hr. done.
  - intros fs recs q res (lines & Hl & Hr) _. cbn. unfold JSONLStore_Query. rewrite Hl.
    destruct (f_open os path); [done|]. destruct (JSONLQuery lines q) as [res'|] eqn:Hq; [|done].
    intros [= <-] r. rewrite (JSONLQuery_records _ _ _ Hq), elem_of_List_filter, Hr.
    intros [Hin Hm]. split; [done|]. by apply line_matches_near.
Qed.

(** The database. *)
Context (marshal unmarshal : LogRecord F → option string) (exec query : option string).

Definition sqlite_ops : LogStore F (list (row F)) := {|
  ls_Append := SQLiteStore_Append marshal exec;
  ls_Query := SQLiteStore_Query query unmarshal
|}.

Definition sqlite_holds (table : list (row F)) (recs : list (LogRecord F)) : Prop :=
  table = row_of <$> recs ∧ Forall (fun r => known_type (sig_Type (log_Signal r))) recs.

Lemma SQLiteStore_Query_inv table q res :
  SQLiteStore_Query query unmarshal table q = inr res → res = SQLiteQuery table q.
Proof.
  unfold SQLiteStore_Query. destruct query; [done|].
  destruct (omap _ _) as [|]; [by intros [= <-]|done].
Qed.

#[export] Instance sqlite_contract : LogStoreContract (LogStore0 := sqlite_ops) sqlite_holds.
Proof.
  split.
  - intros table recs r [-> Hall] Hr. cbn. unfold SQLiteStore_Append.
    destruct (marshal r); [done|]. destruct exec; [done|]. split.
    + unfold SQLiteAppend. by rewrite fmap_app.
    + apply Forall_app. split; [done|]. by apply Forall_singleton.
  - intros table recs q res [-> Hall] ->%SQLiteStore_Query_inv r Hin Hm.
    rewrite <- table_of. by apply SQLiteQuery_complete.
  - intros table recs q res [-> Hall] Hq ->%SQLiteStore_Query_inv r Hin.
    rewrite <- table_of in Hin. by apply SQLiteQuery_sound in Hin.
Qed.
End instances.

(** ** Clients of the contract *)

Section client.
Context {F S : Type} `{!LogStore F S} (holds : S → list (LogRecord F) → Prop) `{!LogStoreContract holds}.

(** Appends one after the other: the store, and the records that were accepted. *)
Fixpoint append_all (s : S) (rs : list (LogRecord F)) : S * list (LogRecord F) :=
  match rs with
  | [] => (s, [])
  | r :: rs =>
    let '(s, err) := ls_Append s r in
    let '(s, kept) := append_all s rs in
    (s, match err with None => r :: kept | Some _ => kept end)
  end.

Lemma append_all_holds s recs rs :
  holds s recs → Forall (fun r => known_type (sig_Type (log_Signal r))) rs →
  holds (append_all s rs).1 (recs ++ (append_all s rs).2).
Proof.
  intros Hs Hall. revert s recs Hs. induction Hall as [|r rs Hr _ IH]; intros s recs Hs; cbn.
  { by rewrite app_nil_r. }
  pose proof (ls_appended s recs r Hs Hr) as Ha. destruct (ls_Append s r) as [s1 [err|]].
  - specialize (IH s1 recs Ha). by destruct (append_all s1 rs).
  - specialize (IH s1 _ Ha). destruct (append_all s1 rs). by rewrite <- app_assoc in IH.
Qed.

Lemma log_query_type parse (r : Request) : known_type (q_SignalType (log_query parse r)).
Proof.
  unfold log_query, known_type. cbn [q_SignalType]. case_bool_decide; [lia|].
  unfold signalTypeFromString. repeat case_bool_decide; split; by vm_compute.
Qed.

(** Every store that keeps the contract makes the history endpoint right: after
    any appends, of which some may fail, an authorised request is answered with
    500 when the query fails, and otherwise with every accepted record the
    request asks for, and nothing that was not accepted or lies a second or more
    outside of what it asks for. *)
Theorem history_served s rs token parse (enc : Encoder (list (LogRecord F))) (req : Request)
    (Hs : holds s []) (Hknown : Forall (fun r => known_type (sig_Type (log_Signal r))) rs)
    (Henc : ∀ l, enc l = None) (Hauth : authorized token req) :
  let s' := (append_all s rs).1 in
  let kept := (append_all s rs).2 in
  match ls_Query s' (log_query parse req) with
  | inl err => NewLogHandler (ls_Query s') token parse enc req = RError 500 err
  | inr res => NewLogHandler (ls_Query s') token parse enc req = RJson (Some res) ∧
      (∀ x, x ∈ kept → log_wanted parse req x → x ∈ res) ∧
      (∀ x, x ∈ res → x ∈ kept ∧ log_near (log_query parse req) x)
  end.
Proof.
  cbn zeta. rewrite NewLogHandler_authorized by done.
  pose proof (append_all_holds s [] rs Hs Hknown) as Hh. cbn [app] in Hh.
  destruct (ls_Query _ _) as [err|res] eqn:Hq; [done|]. unfold encode_or_fail. rewrite Henc.
  split_and!; [done| |].
  - intros x Hx Hw%log_query_matches. by eapply ls_complete.
  - intros x Hx. eapply ls_sound; [done|apply log_query_type|done|done].
Qed.
End client.

(** ** The plain store over restarts *)

Section durable.
Context {F : Type} (enc : encoder F).

Lemma append_all_jsonl (fs : FileSystem F) path lines rs :
  fs !! path = Some lines → Forall (fun r => ∃ n, enc r = inr n ∧ n < max_token) rs →
  ∃ ns, Forall2 (fun r n => enc r = inr n ∧ n < max_token) rs ns ∧
    append_all (LogStore0 := jsonl_ops no_faults enc path) fs rs =
      (<[path := lines ++ zip_with (fun r n => MkLine n (Some r)) rs ns]> fs, rs).
Proof.
  intros Hl Hall. revert fs lines Hl. induction Hall as [|r rs (n & Hr & Hn) _ IH]; intros fs lines Hl.
  { exists []. split; [done|]. cbn. by rewrite app_nil_r, insert_id. }
  cbn [append_all ls_Append jsonl_ops]. unfold JSONLStore_Append. cbn [f_open f_write no_faults].
  rewrite Hl, Hr. destruct (IH (<[path := lines ++ [MkLine n (Some r)]]> fs) (lines ++ [MkLine n (Some r)]))
    as (ns & Hns & Heq); [by rewrite lookup_insert_eq|].
  exists (n :: ns). split; [by constructor|]. rewrite Heq, insert_insert_eq, <- app_assoc. done.
Qed.

End durable.

(** ** Rotation *)

Lemma prefix_app (p a b : string) : String.prefix (p +:+ a) (p +:+ b) = String.prefix a b.
Proof.
  induction p as [|c p IH]; [done|]. rewrite !string_cons_app. cbn [String.prefix].
  by destruct (ascii_dec c c).
Qed.

Lemma Ext_dot path : Ext path = "" ∨ ∃ e, Ext path = String "." e.
Proof.
  unfold Ext. enough (∀ c, c = "" ∨ (∃ e, c = String "." e) →
    Ext_go c path = "" ∨ ∃ e, Ext_go c path = String "." e) as Hgo by (apply Hgo; by left).
  induction path as [|a path IH]; intros c Hc; [done|]. cbn [Ext_go].
  repeat case_bool_decide; apply IH; [by left| |done]. subst a. right. eauto.
Qed.

(** The extension is the end of the path. *)
Lemma Ext_go_suffix path c : Ext_go c path = c ∨ ∃ name, path = name +:+ Ext_go c path.
Proof.
  revert c. induction path as [|a path IH]; intros c; [by left|]. cbn [Ext_go]. repeat case_bool_decide; subst.
  - right. destruct (IH "") as [->|[name Hn]]; [exists (String "/" path); by rewrite string_app_nil|].
    exists (String "/" name). by rewrite string_cons_app, <- Hn.
  - right. destruct (IH (String "." path)) as [->|[name Hn]]; [by exists ""|].
    exists (String "." name). by rewrite string_cons_app, <- Hn.
  - destruct (IH c) as [->|[name Hn]]; [by left|]. right. exists (String a name).
    by rewrite string_cons_app, <- Hn.
Qed.

Lemma Ext_is_suffix path : ∃ name, path = name +:+ Ext path.
Proof. destruct (Ext_go_suffix path "") as [H|H]; [|exact H]. exists path. unfold Ext. by rewrite H, string_app_nil. Qed.

Lemma substring_all s : String.substring 0 (String.length s) s = s.
Proof. induction s as [|a s IH]; [done|]. cbn. by rewrite IH. Qed.

Lemma substring_app p x : String.substring (String.length p) (String.length (p +:+ x) - String.length p) (p +:+ x) = x.
Proof.
  induction p as [|a p IH]; [|exact IH].
  change ("" +:+ x) with x. cbn [String.length]. rewrite Nat.sub_0_r. apply substring_all.
Qed.

Lemma prefix_refl_app p x : String.prefix p (p +:+ x) = true.
Proof. rewrite <- (string_app_nil p) at 1. rewrite prefix_app. by destruct x. Qed.

Section rotation.
Context {F : Type} (backup : string → string → string) (write : FileSystem F → string → log_line F → FileSystem F → Prop).
Context `{!Rotation F backup write}.

(** A backup of a file with an extension does not match the pattern. *)
Lemma backup_not_matched path ts : Ext path ≠ "" → glob_match path (backup path ts) = false.
Proof.
  intros Hext. destruct (rot_backup path ts) as (name & Hp & Hb).
  destruct (Ext_dot path) as [He|[e He]]; [done|]. rewrite He in Hp, Hb.
  unfold glob_match. rewrite Hb, Hp, prefix_app. done.
Qed.

(** One of a file without an extension does. *)
Lemma backup_matched path ts : Ext path = "" → has_slash ts = false → glob_match path (backup path ts) = true.
Proof.
  intros Hext Hts. destruct (rot_backup path ts) as (name & Hp & Hb). rewrite Hext in *.
  rewrite string_app_nil in Hp, Hb. subst name. unfold glob_match. rewrite Hb, prefix_refl_app, substring_app.
  change ("-" +:+ ts) with (String "-" ts). unfold has_slash in *. cbn. by rewrite Hts.
Qed.

(** What a query sees of a directory. *)
Lemma RotatingStore_Query_ext (fs fs' : FileSystem F) path q :
  (∀ name, glob_match path name = true → fs' !! name = fs !! name) →
  RotatingStore_Query no_faults fs' path q = RotatingStore_Query no_faults fs path q.
Proof.
  intros Hsame. unfold RotatingStore_Query. f_equal. cbn [f_open no_faults].
  assert (glob_star fs' path = glob_star fs path) as Hglob.
  { unfold glob_star. apply sort_key_unique; [apply _..| |].
    - rewrite list_fmap_id. eapply sublist_NoDup; [|apply List_filter_sublist].
      apply NoDup_fst_map_to_list.
    - apply NoDup_Permutation.
      1-2: eapply sublist_NoDup; [|apply List_filter_sublist]; apply NoDup_fst_map_to_list.
      intros name. rewrite !elem_of_List_filter. split; intros [Hin Hm]; (split; [|done]);
        apply list_elem_of_fmap in Hin as ([n lines] & -> & Hl%elem_of_map_to_list); cbn [fst] in *;
        apply list_elem_of_fmap; exists (n, lines); (split; [done|]); apply elem_of_map_to_list;
        rewrite ?(Hsame n) in * by done; done. }
  rewrite Hglob. apply list_omap_ext. apply Forall2_same_length_lookup_2; [done|].
  intros i x y Hx Hy. assert (x = y) as -> by congruence. apply Hsame.
  apply list_elem_of_lookup_2 in Hx. unfold glob_star in Hx. rewrite sort_key_perm in Hx.
  by apply elem_of_List_filter in Hx as [_ ?].
Qed.

(** An append that rotates the file hides everything logged before it, if the
    path has an extension: a query sees the directory as if the file had been
    emptied, so a store with a single file returns the new record at most.  The
    backups are still on disk, but the pattern does not match their names. *)
Theorem rotation_hides enc (fs fs' : FileSystem F) path r n q
    (Hext : Ext path ≠ "") (Henc : enc r = inr n)
    (Happ : RotatingStore_Append write enc fs path r fs' None)
    (Hrot : fs' !! path = Some [MkLine n (Some r)]) :
  RotatingStore_Query no_faults fs' path q =
    RotatingStore_Query no_faults (<[path := [MkLine n (Some r)]]> fs) path q ∧
  ((∀ name, name ≠ path → fs !! name = None) →
   ∀ x, x ∈ RotatingStore_Query no_faults fs' path q → x = r).
Proof.
  unfold RotatingStore_Append in Happ. rewrite Henc in Happ. destruct Happ as [Hwrite _].
  assert (RotatingStore_Query no_faults fs' path q =
    RotatingStore_Query no_faults (<[path := [MkLine n (Some r)]]> fs) path q) as Heq.
  { apply RotatingStore_Query_ext. intros name Hm.
    destruct (decide (name = path)) as [->|Hne]; [by rewrite lookup_insert_eq|].
    rewrite lookup_insert_ne by done. eapply rot_frame; [exact Hwrite|done|].
    intros ts ->. by rewrite backup_not_matched in Hm. }
  split; [done|]. intros Hone x. rewrite Heq. unfold RotatingStore_Query, RotatingQuery.
  intros (file & Hx & Hf)%list_elem_of_bind. apply list_elem_of_omap in Hf as (name & _ & Hf). cbn in Hf.
  destruct (decide (name = path)) as [->|Hne]; [|by rewrite lookup_insert_ne, Hone in Hf by done].
  rewrite lookup_insert_eq in Hf. injection Hf as <-. cbn [scan_lines] in Hx.
  destruct (max_token <=? _); [by apply not_elem_of_nil in Hx|]. cbn in Hx.
  destruct (line_matches q r); [|by apply not_elem_of_nil in Hx]. by apply list_elem_of_singleton in Hx.
Qed.
End rotation.

(** ** A rotating logger *)

(** The path without its extension. *)
Definition strip_ext (path : string) : string :=
  String.substring 0 (String.length path - String.length (Ext path)) path.

Definition backup_name (path ts : string) : string := strip_ext path +:+ "-" +:+ ts +:+ Ext path.

(** A write that may rotate first, at any time stamp. *)
Definition rotating_write {F} (fs : FileSystem F) (path : string) (l : log_line F) (fs' : FileSystem F) : Prop :=
  fs' = <[path := default [] (fs !! path) ++ [l]]> fs ∨
  ∃ ts lines, fs !! path = Some lines ∧ backup_name path ts ≠ path ∧
    fs' = <[path := [l]]> (<[backup_name path ts := lines]> fs).

Lemma length_app_string p x : String.length (p +:+ x) = (String.length p + String.length x)%nat.
Proof. induction p as [|a p IH]; [done|]. rewrite string_cons_app. cbn. by rewrite IH. Qed.

Lemma substring_front p x : String.substring 0 (String.length p) (p +:+ x) = p.
Proof. induction p as [|a p IH]; [by destruct x|]. rewrite string_cons_app. cbn. by rewrite IH. Qed.

Lemma strip_ext_app path : path = strip_ext path +:+ Ext path.
Proof.
  destruct (Ext_is_suffix path) as [name Hn]. unfold strip_ext.
  assert (String.length path - String.length (Ext path) = String.length name)%nat as ->.
  { rewrite Hn at 1. rewrite length_app_string. lia. }
  rewrite Hn at 2. by rewrite substring_front.
Qed.

#[export] Instance rotating_write_laws {F} : Rotation F backup_name rotating_write.
Proof.
  split.
  - intros path ts. exists (strip_ext path). split; [apply strip_ext_app|done].
  - intros fs path l fs' [->|(ts & lines & Hl & _ & ->)]; rewrite lookup_insert_eq; [by left|right; eauto].
  - intros fs path l fs' name [->|(ts & lines & Hl & _ & ->)] Hp Hb; rewrite lookup_insert_ne by done; [done|].
    rewrite lookup_insert_ne; [done|]. intros Heq. by apply (Hb ts).
Qed.
