(* ===== verification/Witnesses.v ===== *)
(** * Witnesses

    A small fleet, a rational stand-in for [math.Exp] and a linear-programming
    solver, and for every theorem with hypotheses an application to concrete
    inputs at which the hypotheses hold. *)

From S2P Require Import Prelude Num GoTime GoText Model PowerMap Candidates MathExp EqualDispatcher.
From S2P Require Import SmartDispatcher SmartDelivery LPDispatcher SegmentedDispatcher.
From S2P Require Import Fallback FallbackDelivery FallbackFloat VehicleStatus DispatchLog Tuner.
From S2P Require Import EventBus MqttClient Manager ManagerFacts Discovery Scheduler Simulator.
From S2P Require Import ManagerRun Eco Kpi Config Rte Telemetry Sinks Api.
From stdpp Require Import base gmap strings list relations.
From Stdlib Require Import ZArith QArith Qabs Qminmax Lqa Lia Floats.SpecFloat.

#[local] Open Scope string_scope.
#[local] Open Scope Q_scope.

(** ** Sample data *)

(** The second Taylor polynomial in place of the exponential. *)
#[local] Instance exp_taylor : MathExp Q := fun x => 1 + x + x * x / 2.

(** A solver for the programs of [solveLP]: it fills the variables in order up
    to the bounds [h] until the total [b] is reached. *)
Fixpoint fill (n : nat) (h : list Q) (rest : Q) : list Q :=
  match n with
  | O => []
  | S n =>
    let x := Qmin (hd 0 h) rest in
    x :: fill n (tl h) (rest - x)
  end.

Definition fill_solver : LPSolver Q :=
  fun c g h A b tol => inr (fill (length c) h (hd 0 b)).

Lemma length_fill n h rest : length (fill n h rest) = n.
Proof. revert h rest. induction n as [|n IH]; intros h rest; cbn; auto. Qed.

Lemma fill_solver_complete : solver_complete fill_solver.
Proof. intros c g h A b tol sol [= <-]. by rewrite length_fill. Qed.

Definition epoch : Time := MkTime 0 0.

(** A V2G vehicle of 50 kWh at a state of charge of 80 %. *)
Definition ev (id : string) (maxPower : Q) : Vehicle Q :=
  MkVehicle id (4 # 5) true maxPower 50 true true false epoch 0
    (MkUserProfile epoch []) ∅ "commuter" 0 0.

Definition evs : list (Vehicle Q) := [ev "a" 4; ev "b" 10; ev "c" 20].

Definition ask (p : Q) : FlexibilitySignal Q := MkSignal 0%Z p Hour epoch.

Lemma evs_ids : NoDup (ID <$> evs).
Proof. by apply (bool_decide_unpack _). Defined.

Lemma evs_power : Forall (fun v : Vehicle Q => 0 <= MaxPower v) evs.
Proof. repeat constructor; cbn; lra. Defined.

Definition smart : SmartDispatcher Q := NewSmartDispatcher.

(** ** Dispatchers *)


Lemma EqualDispatch_negative_witness :
  ∃ m, EqualDispatch evs (ask (-60)) = Some m ∧ m !! "a" = Some (-60 / 3).
Proof.
  destruct (EqualDispatch_negative evs (ask (-60)) evs_power) as (m & Hm & Hv); [by cbn; lra|].
  exists m. split; [exact Hm|]. apply (Hv (ev "a" 4)). by left.
Defined.

Lemma SmartDispatch_returns_witness :
  ∃ m d', SmartDispatch (Z.to_nat (sd_MaxRounds smart)) smart evs (ask 12) = Some (m, d').
Proof. apply (SmartDispatch_returns smart evs (ask 12)). by cbn. Defined.


Lemma SmartDispatch_safe_witness :
  ∃ m d', SmartDispatch (Z.to_nat (sd_MaxRounds smart)) smart evs (ask 12) = Some (m, d') ∧
    (∀ id p, m !! id = Some p → power_ok smart evs (ask 12) id p) ∧
    0 <= signal_sign (ask 12) * power_total m <= Qabs 12.
Proof. apply (SmartDispatch_safe smart evs (ask 12) evs_ids). by cbn. Defined.

Lemma SmartDispatch_delivers_witness :
  let cands := smart_candidates smart evs (ask 12) in
  ∃ m d', SmartDispatch (Z.to_nat (sd_MaxRounds smart)) smart evs (ask 12) = Some (m, d') ∧
    let delivered := signal_sign (ask 12) * power_total m in
    ((Qabs 12 - delivered) * pow2 (Z.to_nat (sd_MaxRounds smart))
       <= Qabs 12 * pow2 (length cands) ∨
     (∀ c, c ∈ cands → 0 < c_score c →
        signal_sign (ask 12) * mget m (c_id c) == c_capacity c)).
Proof. apply (SmartDispatch_delivers smart evs (ask 12) evs_ids). by cbn. Defined.

(** The outcome of the LP for the sample fleet: the first two vehicles are
    enough for 12 kW. *)
Definition lp_run := DispatchStrict fill_solver smart evs (ask 12).

Definition lp_powers : gmap string Q :=
  match lp_run with Some (Some m, _, _) => m | _ => ∅ end.

Definition lp_after : SmartDispatcher Q :=
  match lp_run with Some (_, _, d) => d | _ => smart end.

Lemma DispatchStrict_clamped_witness :
  DispatchStrict fill_solver smart evs (ask 12) = Some (Some lp_powers, None, lp_after) ∧
  ∃ v q, v ∈ evs ∧ ID v = "b" ∧ mget lp_powers "b" = (signal_sign (ask 12) * q)%num ∧
    nltb q n0 = false ∧
    nltb (snd (availableEnergyAndCapacity v (ask 12) true (1 # 10))) q = false.
Proof.
  assert (DispatchStrict fill_solver smart evs (ask 12) = Some (Some lp_powers, None, lp_after))
    as Hrun by (vm_compute; reflexivity).
  split; [exact Hrun|].
  apply (DispatchStrict_clamped fill_solver smart evs (ask 12) lp_powers None lp_after "b"
    (mget lp_powers "b") Hrun).
  vm_compute. reflexivity.
Defined.


Lemma LPDispatch_safe_witness :
  ∃ m d', LPDispatch fill_solver 10 smart evs (ask 12) = Some (m, d') ∧
    ∀ id p, m !! id = Some p → power_ok smart evs (ask 12) id p.
Proof.
  apply (LPDispatch_safe fill_solver 10 smart evs (ask 12) evs_ids fill_solver_complete);
    cbn; [discriminate|apply Z.le_refl].
Defined.

(** Two orders of iteration over a map: the default one and its reverse. *)
Definition range_reversed : MapRange.
Proof.
  refine {| range_map := fun K _ _ A m => reverse (map_to_list m) |}.
  intros. apply reverse_Permutation.
Defined.

Definition segs : segments Q := NewSegmentedSmartDispatcher None.

Lemma SegmentedDispatch_deterministic_witness :
  SegmentedDispatch (H0 := range_default) fill_solver 10 segs evs (ask 12) =
  SegmentedDispatch (H0 := range_reversed) fill_solver 10 segs evs (ask 12).
Proof. exact (SegmentedDispatch_deterministic _ _ fill_solver 10 segs evs (ask 12) evs_ids). Defined.

Lemma SegmentedDispatch_safe_witness :
  ∃ m, SegmentedDispatch fill_solver 10 segs evs (ask 12) = Some m ∧
    ∀ id p, m !! id = Some p →
      power_ok NewSmartDispatcher evs (segment_part evs (ask 12)) id p.
Proof.
  apply (SegmentedDispatch_safe fill_solver fill_solver_complete 10 segs evs (ask 12)
    (le_n 10) evs_ids).
Defined.

(** ** Fallbacks *)

(** Two vehicles serve 12 kW; the first one fails. *)
Definition pair_powers : gmap string Q := {["a" := 4; "c" := 8]}.

Definition pair_after : gmap string Q :=
  default ∅ (BalancedReallocate (SetVehicles evs) 1 [ev "a" 4] pair_powers (ask 12)).

Lemma pair_run :
  BalancedReallocate (SetVehicles evs) 1 [ev "a" 4] pair_powers (ask 12) = Some pair_after.
Proof. vm_compute. reflexivity. Qed.

Lemma BalancedReallocate_failed_witness :
  BalancedReallocate (SetVehicles evs) 1 [ev "a" 4] pair_powers (ask 12) = Some pair_after ∧
  pair_after !! "a" = Some 0.
Proof.
  split; [exact pair_run|].
  apply (proj1 (BalancedReallocate_failed (SetVehicles evs) 1 [ev "a" 4] pair_powers (ask 12)
    pair_after pair_run) (ev "a" 4)).
  apply list_elem_of_here.
Defined.


(** The two strategies agree in binary64, where [cars] is the fleet of
    [FallbackFloat]. *)
Lemma Probabilistic_Balanced_equiv_witness :
  ProbabilisticReallocate (SetVehicles cars) 5 [car "v4"] shares request =
  BalancedReallocate (SetVehicles cars) 5 [car "v4"] shares request.
Proof.
  exact (Probabilistic_Balanced_equiv (SetVehicles cars) 5 [car "v4"] shares request).
Defined.

Definition spare : list (alloc Q) := [MkAlloc "a" 3; MkAlloc "b" 9].

Lemma spare_pos : caps_pos spare.
Proof. repeat constructor; cbn; lra. Qed.

Lemma spare_ids : NoDup (al_id <$> spare).
Proof. by apply (bool_decide_unpack _). Qed.

Definition spare_round : alloc_st := alloc_step 1 (spare, ∅, 8).

Lemma spare_iter : nsteps (alloc_iter 1) 1 (spare, ∅, 8) spare_round.
Proof. apply nsteps_once. split; [vm_compute; reflexivity|reflexivity]. Qed.

Lemma allocatePower_rounds_witness :
  nsteps (alloc_iter 1) 1 (spare, ∅, 8) spare_round ∧
  1 * power_total spare_round.1.2 + spare_round.2 == 1 * power_total (∅ : gmap string Q) + 8 ∧
  spare_round.2 * pow2 1 <= 8 * pow2 2.
Proof.
  split; [exact spare_iter|].
  assert (spare_round = (spare_round.1.1, spare_round.1.2, spare_round.2)) as Heq by reflexivity.
  pose proof spare_iter as Hit. rewrite Heq in Hit.
  destruct (allocatePower_rounds 1 spare ∅ 8 1 spare_round.1.1 spare_round.1.2 spare_round.2)
    as (Htotal & _ & Hrate & _).
  - reflexivity.
  - exact spare_ids.
  - exact spare_pos.
  - lra.
  - exact Hit.
  - split; [exact Htotal|exact Hrate].
Defined.


(** ** Stores *)

Definition decision : LastDispatch Q := MkLastDispatch "FCR" 12 ["a"] epoch.

Definition status_store : MemoryStore Q :=
  RecordDispatch (RecordDispatch NewMemoryStore "b" decision) "a" decision.

Lemma StatusList_spec_witness :
  NoDup (st_VehicleID <$> StatusList (H0 := range_reversed) status_store (MkStatusFilter "" "" "")) ∧
  StatusList (H0 := range_reversed) status_store (MkStatusFilter "" "" "") =
  StatusList (H0 := range_default) status_store (MkStatusFilter "" "" "").
Proof.
  destruct (StatusList_spec range_reversed range_default status_store (MkStatusFilter "" "" ""))
    as (Hnd & _ & _ & Heq).
  - apply rtc_l with (y := RecordDispatch NewMemoryStore "b" decision); [constructor|].
    apply rtc_once. constructor.
  - split; [exact Hnd|exact Heq].
Defined.

Definition logged (ns : Z) : LogRecord Q :=
  MkLogRecord (MkTime ns 0) (ask 12) 12 ["a"] (MkLogResult {["a" := 12]} None ∅ ∅ (ask 12) 0 ∅).

(** The window starts half a second after the record: SQLite still returns it. *)
Definition half_late : LogQuery := MkQuery (MkTime 1500000000 0) time_zero "" 0%Z.

Lemma SQLite_agrees_witness :
  (∀ r, r ∈ SQLiteQuery (foldl SQLiteAppend [] [logged 1000000000; logged 2000000000]) half_late →
     r ∈ [logged 1000000000; logged 2000000000]) ∧
  logged 1000000000 ∈
    SQLiteQuery (foldl SQLiteAppend [] [logged 1000000000; logged 2000000000]) half_late.
Proof.
  split.
  - intros r Hr.
    refine (proj1 (proj2 (SQLite_agrees [logged 1000000000; logged 2000000000] half_late _ _) r Hr)).
    + cbn. lia.
    + repeat constructor; cbn; lia.
  - vm_compute. constructor.
Defined.

(** ** Tuner *)

Definition tuner : AckBasedTuner Q := MkTuner (1 # 20) (1 # 20) 1 0 (9 # 10).

Definition history : list (DispatchResult Q) :=
  [MkResult {["a" := 4; "b" := 8]} None {["b" := ErrAckTimeout]} {["a" := true; "b" := false]}
     (ask 12) 0 ∅].

Lemma Tune_bounds_witness :
  weight_in_range tuner (sd_AvailabilityWeight (foldl (Tune tuner) smart [history; history; history])).
Proof.
  apply (Tune_bounds (Some smart) (1 # 20) (1 # 20) 1 0 (9 # 10) tuner smart
    [history; history; history]).
  - reflexivity.
  - split; reflexivity.
Defined.

Lemma Tune_direction_witness :
  sd_AvailabilityWeight (Tune tuner smart history) == Qmax 0 (Qmin 1 ((1 # 10) - (1 # 20))).
Proof.
  apply (Tune_direction (Some smart) (1 # 20) (1 # 20) 1 0 (9 # 10) tuner smart history).
  - reflexivity.
  - vm_compute. lia.
  - vm_compute. reflexivity.
  - vm_compute. lia.
Defined.

(** ** Event bus *)

(** A bus with one subscriber. *)
Definition one_sub : TypedBus nat := MkBus [0%nat] false {[0%nat := MkChan [] false]} 1 [].

Lemma one_sub_reachable : rtc bus_next (NewTyped : TypedBus nat) one_sub.
Proof. apply rtc_once. by apply (step_subscribe NewTyped). Qed.

Lemma bus_never_panics_witness :
  bus_step one_sub (EventBus.Close one_sub) ∧ ∃ b', EventBus.Close one_sub = Some b'.
Proof.
  assert (bus_step one_sub (EventBus.Close one_sub)) as Hstep by (apply step_close; reflexivity).
  split; [exact Hstep|].
  exact (proj1 (bus_never_panics one_sub (EventBus.Close one_sub) one_sub_reachable Hstep)).
Defined.

Lemma Publish_delivers_witness :
  ∃ b', EventBus.Publish one_sub 7%nat = Some b' ∧ rtc bus_next one_sub b' ∧ b_subs b' = [0%nat].
Proof.
  destruct (Publish_delivers one_sub 7%nat one_sub_reachable eq_refl) as (b' & Hp & Hr & Hs & _).
  exists b'. split; [exact Hp|]. split; [exact Hr|exact Hs].
Defined.

Lemma Close_final_witness :
  ∃ b', EventBus.Close one_sub = Some b' ∧ EventBus.Close b' = Some b' ∧
    ∀ e, EventBus.Publish b' e = Some b'.
Proof.
  destruct (Close_final one_sub one_sub_reachable eq_refl) as (b' & Hc & _ & Hp & Hcc & _).
  exists b'. split; [exact Hc|]. split; [exact Hcc|exact Hp].
Defined.

(** ** MQTT client *)

Definition paho : PahoClient := MkPaho ∅ 0 0.

(** The broker refuses twice, then accepts. *)
Definition third_time (attempt : nat) : option go_error :=
  if (attempt <? 2)%nat then Some (ErrorString "not connected") else None.

Lemma SendOrder_outcome_witness :
  ∃ p', SendOrder paho "cmd" None third_time = (p', inr "cmd") ∧
    pc_ackChans p' = <["cmd" := false]> ∅.
Proof.
  eexists. split; [vm_compute; reflexivity|].
  refine (proj2 (proj1 (proj2 (SendOrder_outcome paho "cmd" None third_time _ (inr "cmd") _)) "cmd" eq_refl)).
  vm_compute. reflexivity.
Defined.

Definition mqtt_start : mqtt_world := MkWorld paho ∅ ∅ ∅.

Definition mqtt_waiting : mqtt_world :=
  MkWorld (onAck (register_ack (send_defaults paho) "cmd") (Some "cmd"))
    (<["cmd" := Registered]> (<["cmd" := Published]> ∅)) ({["cmd"]} ∪ ∅) ({["cmd"]} ∪ ∅).

Lemma mqtt_waiting_reachable : rtc mqtt_step mqtt_start mqtt_waiting.
Proof.
  eapply rtc_l; [apply (m_publish _ _ _ _ "cmd"); [reflexivity|apply not_elem_of_empty]|].
  eapply rtc_l; [apply (m_register _ _ _ _ "cmd"); reflexivity|].
  apply rtc_once.
  pose proof (m_ack (register_ack (send_defaults paho) "cmd")
    (<["cmd" := Registered]> (<["cmd" := Published]> ∅)) ∅ ∅ "cmd") as Hack.
  rewrite decide_True in Hack by (eexists; reflexivity).
  apply Hack. eexists. reflexivity.
Qed.

Lemma WaitForAck_correct_witness :
  ∃ p', WaitForAck (w_client mqtt_waiting) "cmd" case_ack = Some (p', true, None).
Proof.
  refine (proj1 (proj1 (proj2 (WaitForAck_correct paho mqtt_waiting "cmd" eq_refl
    mqtt_waiting_reachable)) eq_refl) _).
  apply elem_of_union_l, elem_of_singleton. reflexivity.
Defined.


(** ** Manager *)

(** Vehicle [a] never acknowledges; the others do. *)
Definition site : Env Q :=
  MkEnv (inr evs)
    (MkClient (fun id _ => inr id)
       (fun cmd _ => if bool_decide (cmd = "a") then (false, Some ErrAckTimeout) else (true, None)))
    (fun _ => Millisecond) (fun l => l) epoch.

Lemma site_fair : env_fair site.
Proof. intros l. reflexivity. Qed.

Lemma site_reversed_fair : env_fair (with_order site reverse).
Proof. intros l. apply reverse_Permutation. Qed.

Definition caps : SinkCaps := MkCaps true true true true.

Definition mgr : DispatchManager Q :=
  MkManager DEqual LPNone ∅ FNoop true Second (Some caps) false None None None None [].

Definition mgr_out : DispatchResult Q * DispatchManager Q * list (effect Q) :=
  default (MkResult ∅ None ∅ ∅ (ask 0) 0 ∅, mgr, []) (Dispatch fill_solver 10 mgr site (ask 12) []).

Definition out_res : DispatchResult Q := mgr_out.1.1.

Lemma mgr_run :
  Dispatch fill_solver 10 mgr site (ask 12) [] = Some (out_res, mgr_out.1.2, mgr_out.2).
Proof. vm_compute. reflexivity. Qed.

Lemma Dispatch_orders_witness :
  sent mgr_out.2 ≡ₚ map_to_list (dr_Assignments out_res) ∧
  dom (dr_Acknowledged out_res) = dom (dr_Assignments out_res).
Proof.
  destruct (Dispatch_orders fill_solver 10 mgr site (ask 12) [] out_res mgr_out.1.2 mgr_out.2
    site_fair mgr_run) as (Hsent & Hdom & _).
  split; [exact Hsent|exact Hdom].
Defined.

Lemma Dispatch_order_independent_witness :
  match Dispatch fill_solver 10 mgr site (ask 12) [],
        Dispatch fill_solver 10 mgr (with_order site reverse) (ask 12) [] with
  | Some (res, m1, eff), Some (res', m1', eff') => res = res' ∧ m1 = m1' ∧ sent eff ≡ₚ sent eff'
  | None, None => True
  | _, _ => False
  end.
Proof.
  exact (Dispatch_order_independent fill_solver 10 mgr site reverse (ask 12) [] site_fair
    site_reversed_fair).
Defined.

Lemma Dispatch_fallback_witness :
  ∃ fa, dr_FallbackAssignments out_res = Some fa ∧
    fallback_Reallocate 10 (fallback_SetVehicles FNoop (considered mgr site (ask 12) []))
      (List.filter (fun v => negb (bget (dr_Acknowledged out_res) (ID v)))
         (considered mgr site (ask 12) []))
      (dr_Assignments out_res) (ask 12) = Some fa.
Proof.
  eexists. split; [vm_compute; reflexivity|].
  apply (Dispatch_fallback fill_solver 10 mgr site (ask 12) [] out_res mgr_out.1.2 mgr_out.2
    site_fair mgr_run).
  vm_compute. reflexivity.
Defined.

Definition first_order : DispatchOrderEvent Q :=
  match List.filter (fun e => match e with EOrder _ => true | _ => false end) mgr_out.2 with
  | EOrder ev :: _ => ev
  | _ => MkOrderEvent "" "" 0%Z 0 0 0 false epoch
  end.

Lemma Dispatch_order_price_witness :
  EOrder first_order ∈ mgr_out.2 ∧ oe_MarketPrice first_order = 0.
Proof.
  assert (EOrder first_order ∈ mgr_out.2) as Hin.
  { vm_compute. repeat (first [apply list_elem_of_here|apply list_elem_of_further]). }
  split; [exact Hin|].
  exact (Dispatch_order_price fill_solver 10 mgr site (ask 12) [] out_res mgr_out.1.2 mgr_out.2
    first_order site_fair mgr_run Hin).
Defined.

Lemma Dispatch_records_witness : m_history mgr_out.1.2 = [out_res].
Proof.
  exact (proj1 (Dispatch_records fill_solver 10 mgr site (ask 12) [] out_res mgr_out.1.2 mgr_out.2
    site_fair mgr_run)).
Defined.

Definition mgr_smart : DispatchManager Q :=
  MkManager (DSmart smart) (LPOwn smart) ∅ FNoop true Second (Some caps) false None None None None [].

Lemma mgr_smart_new :
  NewDispatchManager true true (Some (DSmart smart)) (Some FNoop) Second (Some caps) false true None
    None = inr mgr_smart.
Proof. reflexivity. Qed.


(** ** Mock publisher, scheduler, simulator *)

Lemma MockPublisher_acks_witness :
  let mp := MkMock ∅ {["b" := true]} ∅ in
  let mp' := mock_send_all mp [("a", 4); ("b", 8)] in
  match (MockSendOrder mp' "a" 4).2 with
  | inr cmd => bget (mp_FailIDs mp) "a" = false ∧ MockWaitForAck mp' cmd = (true, None)
  | inl _ => bget (mp_FailIDs mp) "a" = true
  end.
Proof.
  apply (MockPublisher_acks (MkMock ∅ {["b" := true]} ∅) [("a", 4); ("b", 8)] "a" 4).
  apply list_elem_of_here.
Defined.

(** Hourly slots for 40 kWh; vehicle [b] is plugged in for four hours. *)
Definition plan : Scheduler Q :=
  MkScheduler (MkSchedConfig 60 40) [ev "b" 10; ev "c" 20]
    {["b" := [MkAvWindow epoch (MkTime (4 * Hour) 0)]]}.

Lemma GeneratePlan_correct_witness :
  ∃ r, GeneratePlan (fun l => l) 2 plan epoch = Some r ∧
    match r with
    | inl err => err = "insufficient capacity for target energy"
    | inr es => entries_total es * Hours (slot_duration plan) <= 40
    end.
Proof.
  destruct (GeneratePlan_correct (fun l => l) plan epoch) as (r & Hr & Hok).
  - intros l. reflexivity.
  - cbn. lia.
  - cbn. lra.
  - discriminate.
  - repeat constructor; cbn; lra.
  - exists r. split; [exact Hr|]. destruct r as [err|es]; [exact Hok|].
    exact (proj2 (proj1 Hok)).
Defined.

Definition battery : Battery Q := MkBattery 50 (1 # 2) 7 7.

Lemma battery_ok : battery_wf battery.
Proof. unfold battery_wf. cbn. lra. Qed.

Lemma ApplyPower_energy_witness :
  let '(b', actual) := ApplyPower battery 10 Hour in
  bt_Soc b' * bt_CapacityKWh b' == (1 # 2) * 50 - actual * Hours Hour ∧ 0 <= actual <= 10.
Proof.
  assert (0 < Hour)%Z as Hdt by reflexivity.
  pose proof (ApplyPower_energy battery 10 Hour battery_ok Hdt) as H.
  destruct (ApplyPower battery 10 Hour) as [b' actual].
  destruct H as (_ & He & Hp & _). split; [exact He|].
  assert (0 <= 10) as H10 by lra. exact (proj1 (Hp H10)).
Defined.

Definition simulated : SimulatedVehicle Q :=
  MkSimVehicle "a" true 7 battery true 0 [] 0 true (Some []) (AutoAck 0) (MkSimCaps true true true).

Lemma simulated_ok : sim_ok simulated.
Proof.
  split; [exact battery_ok|]. split; [cbn; lra|]. split; vm_compute; discriminate.
Qed.

Definition simulated_after : SimulatedVehicle Q :=
  match onCommand simulated "cmd" 5 epoch with Some (v, _) => v | None => simulated end.

Lemma sim_limits_witness :
  rtc sim_step simulated simulated_after ∧ sv_currentPower simulated_after <= Qmin 7 7.
Proof.
  assert (rtc sim_step simulated simulated_after) as Hr.
  { apply rtc_once. eapply (sim_order _ "cmd" 5 epoch). vm_compute. reflexivity. }
  split; [exact Hr|].
  exact (proj2 (proj2 (proj2 (sim_limits simulated simulated_after simulated_ok Hr)))).
Defined.

Lemma telemetry_without_client_witness :
  (departureTick simulated epoch).2 = [] ∧
  batteryTick (departureTick simulated epoch).1 Second epoch = None.
Proof. exact (telemetry_without_client simulated Second epoch epoch eq_refl). Defined.

Lemma charging_flag_inverted_witness :
  ∃ p, publishAvailability simulated_after true epoch = Some p ∧ sp_Charging p = true ∧
    bt_Soc (ApplyPower (sv_Battery simulated_after) (sv_currentPower simulated_after) Second).1
      <= bt_Soc (sv_Battery simulated_after).
Proof.
  eexists. split; [vm_compute; reflexivity|]. split; [reflexivity|].
  eapply (charging_flag_inverted simulated_after true epoch _ Second).
  - unfold battery_wf. vm_compute. repeat split; discriminate.
  - reflexivity.
  - vm_compute. reflexivity.
  - reflexivity.
Defined.

Lemma refused_order_acknowledged_witness :
  ∃ v1 out1 v2 out2,
    onCommand simulated "cmd" 20 epoch = Some (v1, out1) ∧ sv_currentPower v1 = 0 ∧
    worker v1 0 true true epoch = Some (v2, out2) ∧ SAck "cmd" ∈ out2 ∧
    SResult 0 epoch true epoch ∈ out2.
Proof.
  apply (refused_order_acknowledged simulated "cmd" 20 0 true epoch epoch); reflexivity.
Defined.

(** ** KPIs, configuration, grid signals, telemetry, collector *)


(** A file that only sets what has no default. *)
Definition decoded : Config Q :=
  MkConfig (MkLoggingConfig "" "" 0 0 0)
    (MkRTEConfig "mock" (MkRTEClientConfig "" "" "" "" 0) "127.0.0.1:8080")
    (MkGenConfig true "" "" "" 0 0 0 0 0 0 [] 0 0 "")
    (MkTelemetryConfig false "" 0 "" "" "" 0).

Definition loaded : Config Q :=
  match Load ".YAML" "UTC" (inr decoded) with inr c => c | inl _ => decoded end.

Lemma Load_valid_witness : Load ".YAML" "UTC" (inr decoded) = inr loaded ∧ config_ok loaded.
Proof.
  assert (Load ".YAML" "UTC" (inr decoded) = inr loaded) as Hl by (vm_compute; reflexivity).
  split; [exact Hl|]. exact (Load_valid ".YAML" "UTC" (inr decoded) loaded Hl).
Defined.

Lemma Load_skips_RTE_defaults_witness :
  ∃ err, Load ".json" "UTC" (inr (MkConfig (cfg_Logging decoded)
      (MkRTEConfig "client" (MkRTEClientConfig "u" "i" "s" "t" 0) "")
      (cfg_RTEGenerator decoded) (cfg_Telemetry decoded))) = inl err.
Proof. apply Load_skips_RTE_defaults; cbn; discriminate || reflexivity. Defined.

Lemma loaded_ok : config_ok loaded.
Proof.
  split; [left; reflexivity|discriminate|left; split; [reflexivity|discriminate]|..];
    vm_compute; try (split; [reflexivity|discriminate]); try discriminate; try reflexivity.
  left. reflexivity.
Qed.

Lemma Generate_bounds_witness :
  let sig := Generate (cfg_RTEGenerator loaded) (MkDraws 0 (1 # 2) (3 # 4) (1 # 4) (9 # 10)) epoch in
  5 <= PowerKW sig <= 25 ∧ ∃ s, sig_Duration sig = (s * Second)%Z ∧ (120 <= s <= 600)%Z.
Proof.
  destruct (Generate_bounds loaded (MkDraws 0 (1 # 2) (3 # 4) (1 # 4) (9 # 10)) epoch 0 0 loaded_ok)
    as (Hp & Hd & _).
  - vm_compute. discriminate.
  - vm_compute. discriminate.
  - split; [exact Hp|exact Hd].
Defined.

Definition grid_signal : Signal Q :=
  MkRteSignal "aFRR_UP" (MkTime 1000000000 0) (MkTime 901000000000 0) 120 ∅.

Lemma handleSignal_spec_witness :
  ∃ fs, handleSignal "POST" (inr grid_signal) = (HStatus 200, [RTotal "aFRR_UP"], Some fs) ∧
    (0 < sig_Duration fs)%Z.
Proof.
  assert (handleSignal "POST" (inr grid_signal) = (HStatus 200, [RTotal "aFRR_UP"],
    Some (MkSignal SignalAFRR 120 900000000000%Z (MkTime 1000000000 0)))) as Hrun
    by (vm_compute; reflexivity).
  eexists. split; [exact Hrun|].
  destruct (handleSignal_spec "POST" (inr grid_signal) _ _ _ Hrun)
    as (s & _ & _ & _ & _ & _ & _ & _ & _ & Hd & _).
  exact Hd.
Defined.

Lemma emit_announces_twice_witness :
  let m := MkManager DEqual LPNone ∅ FNoop true Second None true None None None None [] in
  ∃ mgr' eff geff err, emit fill_solver 10 (Some m) true None site (ask 12) = Some (mgr', eff, geff, err) ∧
    signals eff = [ask 12; ask 12].
Proof.
  eexists _, _, _, _. split; [vm_compute; reflexivity|].
  eapply (emit_announces_twice fill_solver 10
    (MkManager DEqual LPNone ∅ FNoop true Second None true None None None None []) None site (ask 12)).
  - reflexivity.
  - vm_compute. reflexivity.
Defined.

Lemma randomType_agrees_witness :
  let cfg := MkGenConfig true "" "" "" 0 0 0 0 0 0 ["FCR"; "MA"] 0 0 "" in
  randomType cfg 1 = SignalFCR.
Proof.
  apply (proj2 (randomType_agrees (MkGenConfig true "" "" "" 0 0 0 0 0 0 ["FCR"; "MA"] 0 0 "") 1
    (MkRteSignal "MA" epoch epoch 1 ∅) SignalMA eq_refl eq_refl)).
  apply list_elem_of_here.
Defined.

Lemma process_spec_witness :
  ∃ ev, process true 0 (inr (MkMsg "" (3 # 2) (Some true) None 7 None)) "v2g/state/a" "push" epoch
        = (None, [ev]) ∧ ID (se_Vehicle ev) = "a".
Proof.
  destruct (process_spec 0 (inr (MkMsg "" (3 # 2) (Some true) None 7 None)) "v2g/state/a" "push" epoch
    "v2g/state" "a" eq_refl (bool_decide_unpack (no_slash "a") ltac:(vm_compute; exact I))) as (ev & Hev & _ & _ & _ & Hid).
  exists ev. split; [exact Hev|exact Hid].
Defined.

Lemma poll_drops_topic_id_witness :
  ∃ r ev, doPoll true 0 epoch (Some (inr evs))
          [PResponse (onResponse "v2g/response/a" (inr (MkMsg "" (1 # 2) None None 7 None)) epoch) epoch; PDone]
        = Some r ∧ pr_states r = [ev] ∧ ID (se_Vehicle ev) = "".
Proof.
  exact (proj1 (poll_drops_topic_id 0 epoch evs "v2g/response/a" (MkMsg "" (1 # 2) None None 7 None) epoch
    eq_refl)).
Defined.

Definition mgr_bus : DispatchManager Q :=
  MkManager DEqual LPNone ∅ FNoop true Second None true None None None None [].

Definition bus_out : DispatchResult Q * DispatchManager Q * list (effect Q) :=
  default (MkResult ∅ None ∅ ∅ (ask 0) 0 ∅, mgr_bus, []) (Dispatch fill_solver 10 mgr_bus site (ask 12) []).

Lemma bus_run :
  Dispatch fill_solver 10 mgr_bus site (ask 12) [] = Some (bus_out.1.1, bus_out.1.2, bus_out.2).
Proof. vm_compute. reflexivity. Qed.

Lemma collector_acks_witness :
  omap (fun c => match c with CAck a => Some (da_VehicleID a, da_Acknowledged a) | CSignal _ => None end)
    (omap (collect true true epoch) bus_out.2) ≡ₚ map_to_list (dr_Acknowledged bus_out.1.1).
Proof.
  exact (collector_acks fill_solver 10 mgr_bus site (ask 12) [] bus_out.1.1 bus_out.1.2 bus_out.2
    true epoch site_fair eq_refl bus_run).
Defined.

(** ** REST handlers *)

Definition get_request (path : string) (query : gmap string (list string)) : Request :=
  MkRequest "GET" path query "Bearer secret".

(** Asking for the frequency reserve returns records of every type. *)
Definition history_request : Request :=
  get_request "/api/dispatch/logs" {["signal_type" := ["FCR"]]}.

Definition logged_ma : LogRecord Q :=
  let s := MkSignal SignalMA 12 (30 * Minute)%Z epoch in
  MkLogRecord epoch s 12 ["a"] (MkLogResult {["a" := 12]} None ∅ ∅ s 0 ∅).

Lemma NewLogHandler_serves_witness :
  ∃ res, NewLogHandler (jsonl_store [MkLine 300 (Some logged_ma)]) "secret" (fun _ => None)
      (fun _ => None) history_request = RJson (Some res) ∧ logged_ma ∈ res.
Proof.
  destruct (NewLogHandler_serves [(300%Z, logged_ma)] [MkLine 300 (Some logged_ma)] "secret"
    (fun _ => None) (fun _ => None) history_request) as [Hok _].
  - reflexivity.
  - repeat constructor.
  - reflexivity.
  - destruct Hok as (res & Hres & _ & Hin); [right; reflexivity|].
    exists res. split; [exact Hres|]. apply Hin. split; [constructor|].
    split_and!; [intros t [=]|intros t [=]|intros ty Hty|reflexivity].
    repeat (apply elem_of_cons in Hty as [->|Hty]; [discriminate|]). inversion Hty.
Defined.

Definition forecaster : PredictionEngine Q :=
  MkPrediction (fun _ _ => 1) (fun id _ => if bool_decide (id = "a") then [0.8; 0.7] else []).


Definition energies : list (EcoRecord Q) :=
  [MkEco "a" epoch 3 0; MkEco "a" epoch 2 1].

Lemma NewKPIHandler_serves_witness :
  ∃ days, NewKPIHandler (fun id s f => inr (sql_query range_reversed energies id s f)) 40
      (fun _ => None) epoch (fun _ => None) (get_request "/api/vehicles/a/kpis" ∅) =
    RJson (Some (kpi_entry 40 <$> days)) ∧ NoDup (date_key <$> days).
Proof.
  destruct (NewKPIHandler_serves (sql_query range_reversed) energies 40 (fun _ => None) epoch
    (fun _ => None) (get_request "/api/vehicles/a/kpis" ∅) "a") as (days & Hdays & _ & Hnd & _).
  - reflexivity.
  - reflexivity.
  - apply (bool_decide_unpack (no_slash "a")). vm_compute. exact I.
  - reflexivity.
  - exists days. split; [exact Hdays|exact Hnd].
Defined.
