(* ===== verification/SystemWitnesses.v ===== *)
(** * Witnesses for the set-up, the wiring and the exports

    The sample data of [Witnesses], connected to a broker that accepts
    everything: the service, the simulated fleet and the sinks of a running
    system at concrete configurations. *)

From S2P Require Import Prelude Num GoTime GoText Model PowerMap Candidates MathExp EqualDispatcher.
From S2P Require Import SmartDispatcher LPDispatcher Fallback Tuner EventBus BusDelivery MqttClient.
From S2P Require Import MqttSetup Manager ManagerFacts ManagerRun Concurrent Discovery Simulator.
From S2P Require Import Fleet Config.
From S2P Require Import Scheduler Export Prediction Rte Telemetry Sinks Prom Scenarios Influx.
From S2P Require Import Service Commands RteServer Witnesses.
From stdpp Require Import base gmap strings list relations.
From Stdlib Require Import ZArith QArith Qabs Qminmax Lqa Lia Floats.SpecFloat.

#[local] Open Scope string_scope.
#[local] Open Scope Q_scope.

#[local] Existing Instance exp_taylor.

(** ** Event bus *)

(** A subscriber, a publisher of [7] that locks, sends and unlocks, and the
    receive; nothing happens afterwards. *)
Definition locked : TypedBus nat := set_readers one_sub [(7%nat, [0%nat])].
Definition filled : TypedBus nat :=
  MkBus [0%nat] false {[0%nat := MkChan [7%nat] false]} 1 [(7%nat, [])].
Definition unlocked : TypedBus nat :=
  MkBus [0%nat] false {[0%nat := MkChan [7%nat] false]} 1 [].

Definition delivery (n : nat) : TypedBus nat :=
  match n with
  | 0 => NewTyped
  | 1 => one_sub
  | 2 => locked
  | 3 => filled
  | 4 => unlocked
  | _ => one_sub
  end%nat.

Lemma delivery_execution : bus_execution delivery.
Proof.
  split; [reflexivity|]. intros [|[|[|[|[|n]]]]]; cbn [delivery].
  - right. by apply (step_subscribe NewTyped).
  - right. by apply (step_lock one_sub 7%nat).
  - right. by apply (step_send locked [] [] 7%nat 0%nat []).
  - right. by apply (step_unlock filled [] [] 7%nat).
  - right. by apply (step_recv unlocked 0%nat 7%nat {[0%nat := MkChan [] false]}).
  - by left.
Qed.

Lemma delivery_receive : receives delivery 0 4 7%nat.
Proof. exists {[0%nat := MkChan [] false]}. split; reflexivity. Qed.

Lemma delivery_fair : keeps_receiving delivery 0.
Proof.
  intros n Hn. exists 4%nat, 7%nat. split; [|exact delivery_receive].
  destruct n as [|[|[|[|[|n]]]]]; [lia..|]. by destruct Hn.
Qed.


(** ** Simulated fleet *)

Definition no_files : SimFiles (F := Q) :=
  MkSimFiles (fun _ => inl "no such file") (fun _ => inl "no such file") (fun _ => inl "no such file").

(** [simulator --fleet-size 2 --battery-profile small]. *)
Definition sim_flags : SimConfig Q :=
  MkSimConfig "tcp://localhost:1883" 1 2 0 0 0 40 7 10 10 (30 * Second)
    false (10 * Second) "v2g/telemetry/request" "v2g/telemetry/response/" "v2g/vehicle/state/" 0
    "" "" "" "small" "v2g" "".

Definition sim_fleet : list (FleetVehicle Q) :=
  match sim_main no_files (fun _ => None) (fun _ => 0) sim_flags with inr vs => vs | inl _ => [] end.

Lemma sim_fleet_main : sim_main no_files (fun _ => None) (fun _ => 0) sim_flags = inr sim_fleet.
Proof. vm_compute. reflexivity. Qed.

Lemma simulated_fleet_witness :
  sv_ID ∘ fv_sim <$> sim_fleet = ["veh001"; "veh002"] ∧
  ∀ v, v ∈ sim_fleet → ∀ s, rtc sim_step (set_client true (fv_sim v)) s → power_in_limits s.
Proof.
  split; [vm_compute; reflexivity|].
  destruct (simulated_fleet no_files (fun _ => None) (fun _ => 0) sim_flags sim_fleet sim_fleet_main)
    as (_ & _ & _ & Hall).
  intros v Hv s Hs. exact (proj2 (proj2 (proj2 (Hall v Hv) s Hs))).
Defined.

Definition generated : GeneratedVehicle Q :=
  MkGenerated "veh001" true "commuter" 0 (replicate 24 1) time_zero.

Lemma interval_ignored_witness :
  fv_Interval (equip (applyBatteryProfile sim_flags) generated) = (10 * Second)%Z.
Proof. exact (interval_ignored sim_flags sim_flags generated eq_refl eq_refl). Defined.

Lemma reconnect_loses_requests_witness :
  ∃ topics topics', VehicleRun None (fun _ => None) (equip sim_flags generated) =
      inr (set_client true (fv_sim (equip sim_flags generated)), topics) ∧
    reconnect None (fun _ => None) (equip sim_flags generated) = (true, topics') ∧
    "v2g/telemetry/request" ∈ topics ∧ "v2g/telemetry/request" ∉ topics'.
Proof.
  eexists _, _. split; [vm_compute; reflexivity|]. split; [vm_compute; reflexivity|].
  apply (reconnect_loses_requests (equip sim_flags generated) None None (fun _ => None) (fun _ => None)
    (set_client true (fv_sim (equip sim_flags generated)))); [|vm_compute; reflexivity..].
  apply (bool_decide_unpack _). vm_compute. exact I.
Defined.

Lemma departed_vehicle_returns_witness :
  let v := (departureTick (set_client true (fv_sim (equip sim_flags generated))) epoch).1 in
  sv_client v = false ∧ sv_client (handleAvailabilityTick v 0 (1 # 2) 8 true epoch).1 = true.
Proof. apply (departed_vehicle_returns sim_flags generated 0 (1 # 2) 8 epoch epoch); vm_compute; try reflexivity; lia. Defined.

(** ** Connections *)

Definition mqtt (auth password : string) (tls : bool) : MqttConfig :=
  MkMqttConfig "tcp://localhost:1883" "v2g" "user" password "vehicle/+/ack" tls "cert.pem" "key.pem"
    "ca.pem" auth ∅ "v2g/status" "offline" 1 true 3 200 None.

Definition all_files : TLSFiles := MkTLSFiles (fun _ _ => None) (fun _ => None).

Lemma NewClientOptions_spec_witness :
  ∃ opts, NewClientOptions all_files (mqtt "both" "secret" true) = inr opts ∧
    op_Password opts = "secret" ∧ is_Some (op_TLS opts).
Proof.
  eexists. split; [reflexivity|].
  destruct (NewClientOptions_spec all_files (mqtt "both" "secret" true) _ eq_refl)
    as (_ & _ & _ & _ & Hpw & Htls & _).
  split; [exact (proj2 (Hpw eq_refl))|exact (proj2 Htls eq_refl)].
Defined.

Lemma discovery_leaks_password_witness :
  ∃ opts dopts, NewClientOptions all_files (mqtt "tls" "secret" false) = inr opts ∧
    discovery_options (mqtt "tls" "secret" false) "uuid" = inr dopts ∧
    op_Password opts = "" ∧ op_Password dopts = "secret".
Proof.
  eexists _, _. split; [reflexivity|]. split; [reflexivity|].
  apply (discovery_leaks_password all_files (mqtt "tls" "secret" false) "uuid"); try reflexivity.
  discriminate.
Defined.

(** ** Service *)

Definition world : World Q :=
  MkWorld all_files (fun _ => None) Registered Registered Registered (inr "pass") (fun _ => None)
    "uuid-1" "uuid-2".

(** The defaults, with every part turned on and a generator of 10 to 50 kW. *)
Definition app_config (tls : bool) : AppConfig Q :=
  MkAppConfig (mqtt "" "" tls) (MkDispatchConfig 5 None ∅ false 0 0) (MkMetricsConfig true ":2112" true)
    (MkConfig (MkLoggingConfig "jsonl" "dispatch.log" 10 3 30)
       (MkRTEConfig "mock" (MkRTEClientConfig "" "" "" "" 0) "127.0.0.1:8080")
       (MkGenConfig true "" "" "" 60 60 60 60 10 50 ["FCR"] 0 0 "")
       (MkTelemetryConfig true "mixed" 30 "v2g/telemetry" "v2g/request" "v2g/response" 5)).

Definition no_service : Service Q :=
  MkService mgr (CMock "") false "" None None None.

Definition running : Service Q :=
  match NewService world (app_config false) with inr svc => svc | inl _ => no_service end.

Lemma running_new : NewService world (app_config false) = inr running.
Proof.
  assert (match NewService world (app_config false) with inl _ => false | inr _ => true end = true) as Hok
    by (vm_compute; reflexivity).
  unfold running. destruct (NewService world (app_config false)); [discriminate|reflexivity].
Qed.

(** The signal of [Run], which finds nobody, a request over HTTP that the whole
    fleet answers, a signal of the generator, and one that a vehicle answers
    twice. *)
Definition service_inputs : list (Env Q * list (go_error + Vehicle Q) * input Q) :=
  [(site, [], InSignal (ServiceRun running epoch).2);
   (site, inr <$> evs, InRequest "/rte/signal" "POST" (inr (MkRteSignal "FCR" epoch epoch 12 ∅)));
   (site, inr <$> evs, InGenerated (MkDraws 0 (1 # 2) 0 0 0) epoch);
   (with_order site reverse, [inr (ev "b" 10); inr (ev "b" 10)], InSignal (ask 7))].


(** The segments and SoC settings of the dispatch section, changed. *)
Definition app_config' : AppConfig Q :=
  MkAppConfig (mqtt "" "" false) (MkDispatchConfig 5 None ∅ true (9 # 10) (9 # 10))
    (MkMetricsConfig true ":2112" true) (ac_Config (app_config false)).

Lemma NewService_ignores_witness : NewService world (app_config false) = NewService world app_config'.
Proof. apply (NewService_ignores world (app_config false) app_config'); reflexivity. Defined.

Lemma NewService_tls_fails_witness : ∃ err, NewService world (app_config true) = inl err.
Proof. exact (NewService_tls_fails world (app_config true) eq_refl eq_refl). Defined.

(** ** Sinks behind the manager *)

(** The manager of [Witnesses] with a bus. *)
Definition mgr_prom : DispatchManager Q :=
  MkManager DEqual LPNone ∅ FNoop true Second (Some prom_caps) true None None None None [].

Definition prom_out : DispatchResult Q * DispatchManager Q * list (effect Q) :=
  default (MkResult ∅ None ∅ ∅ (ask 0) 0 ∅, mgr, []) (Dispatch fill_solver 10 mgr_prom site (ask 12) []).

Lemma prom_run :
  Dispatch fill_solver 10 mgr_prom site (ask 12) [] = Some (prom_out.1.1, prom_out.1.2, prom_out.2).
Proof. vm_compute. reflexivity. Qed.

(** One order went to [b], and its counter stands at two. *)
Lemma dispatch_counted_twice_witness :
  count (foldl (prom_consume epoch) (MkProm ∅ ∅ 0) prom_out.2) ("b", "FCR", "true") = 2%Z.
Proof.
  rewrite (dispatch_counted_twice fill_solver 10 mgr_prom site (ask 12) [] prom_out.1.1 prom_out.1.2
    prom_out.2 epoch (MkProm ∅ ∅ 0) prom_caps ("b", "FCR", "true") site_fair eq_refl eq_refl prom_run).
  vm_compute. reflexivity.
Defined.

Definition prom_results : list (MetricResult Q) :=
  match List.filter (fun e => match e with EResults _ => true | _ => false end) prom_out.2 with
  | EResults recs :: _ => recs
  | _ => []
  end.

Lemma dispatch_points_witness :
  (fun p => snd <$> head (pt_tags p)) <$> (result_point <$> prom_results) =
    Some <$> (range_map (dr_Assignments prom_out.1.1)).*1 ∧ NoDup (series <$> (result_point <$> prom_results)).
Proof.
  assert (EResults prom_results ∈ prom_out.2) as Hin.
  { vm_compute. repeat (first [apply list_elem_of_here|apply list_elem_of_further]). }
  destruct (dispatch_points fill_solver 10 mgr_prom site (ask 12) [] prom_out.1.1 prom_out.1.2
    prom_out.2 prom_caps prom_results eq_refl prom_run Hin) as [Hnd Htags].
  split; [exact Htags|exact Hnd].
Defined.

(** ** Concurrent calls *)

Definition two_calls : list (Env Q * FlexibilitySignal Q * list (Vehicle Q)) :=
  [(site, ask 12, []); (site, ask 5, [])].

(** The second call overtakes the first. *)
Definition overtaking : list nat := [0; 1; 0; 1; 0; 1; 1; 1; 1; 0; 0; 0]%nat.

Lemma two_calls_run :
  is_Some (run_schedule fill_solver 10 (mgr, start <$> two_calls) overtaking).
Proof.
  assert (match run_schedule fill_solver 10 (mgr, start <$> two_calls) overtaking with
          | Some _ => true | None => false end = true) as Hrun by (vm_compute; reflexivity).
  destruct (run_schedule _ _ _ _) as [p|]; [by exists p|discriminate Hrun].
Qed.


Lemma service_concurrent_witness :
  Forall2 (fun '(env, payloads, sg) t =>
      match t with
      | TDone res _ => dr_Signal res = sg ∧ result_ok (discovered_env env payloads) res
      | _ => ∃ m' t', thread_step fill_solver 10 (svc_Manager running) t = Some (m', t')
      end) [(site, inr <$> evs, ask 12)] [TStart (discovered_env site (inr <$> evs)) (ask 12) []].
Proof.
  apply (service_concurrent fill_solver 10 world (app_config false) running [(site, inr <$> evs, ask 12)]
    (svc_Manager running)).
  - exact running_new.
  - apply Forall_cons. split; [exact site_fair|apply Forall_nil_2].
  - apply rtc_refl.
Defined.

(** ** Commands *)

Definition world64 : World spec_float :=
  MkWorld all_files (fun _ => None) Registered Registered Registered (inr "pass") (fun _ => None)
    "uuid-1" "uuid-2".

Definition app_config64 : AppConfig spec_float :=
  MkAppConfig (mqtt "" "" false) (MkDispatchConfig 5 None ∅ false (nlit 0 1) (nlit 0 1))
    (MkMetricsConfig false "" false)
    (MkConfig (MkLoggingConfig "" "" 0 0 0)
       (MkRTEConfig "mock" (MkRTEClientConfig "" "" "" "" 0) "127.0.0.1:8080")
       (MkGenConfig false "" "" "" 0 0 0 0 (nlit 0 1) (nlit 0 1) [] (nlit 0 1) 0 "")
       (MkTelemetryConfig false "" 0 "" "" "" 0)).

Definition command_manager : DispatchManager spec_float :=
  MkManager DEqual LPNone ∅ FNoop true (5 * Second) None true None None None None [].

(** The test vehicle does not answer. *)
Definition silent : Env spec_float :=
  MkEnv (inr []) (MkClient (fun id _ => inr id) (fun _ _ => (false, Some ErrAckTimeout)))
    (fun _ => Second) (fun l => l) epoch.

Lemma dispatchSignal_sends_witness :
  ∃ err eff, dispatchSignal (fun _ _ _ _ _ _ => inr []) 0 world64 (inr app_config64) silent epoch =
      Some (err, eff) ∧
    sent eff = [("test", nlit 5 1)] ∧
    (err = None ↔ outcome_err command_manager silent "test" (nlit 5 1) = None).
Proof.
  apply (dispatchSignal_sends (fun _ _ _ _ _ _ => inr []) 0 world64 app_config64 silent epoch
    command_manager).
  - reflexivity.
  - intros l. reflexivity.
Defined.

Lemma runFleetLs_spec_witness :
  runFleetLs world (inr (app_config false)) epoch None None [inr (ev "b" 10); inr (ev "a" 4); inr (ev "b" 7)]
    = inr ["b"; "a"] ∧ NoDup ["b"; "a"].
Proof.
  assert (runFleetLs world (inr (app_config false)) epoch None None
    [inr (ev "b" 10); inr (ev "a" 4); inr (ev "b" 7)] = inr ["b"; "a"]) as Hrun
    by (vm_compute; reflexivity).
  split; [exact Hrun|].
  exact (proj1 (runFleetLs_spec world (app_config false) epoch None None _ _ Hrun)).
Defined.

(** ** Server and generator *)

Definition mock_server : RTEServerMock := NewRTEServerMockWithRegistry "127.0.0.1:8080" Registered Registered.

Definition requests : list (Env Q * request Q) :=
  [(site, MkRequest "/rte/ping" "GET" (inl "EOF"));
   (site, MkRequest "/rte/signal" "POST" (inr (MkRteSignal "FCR" (MkTime 1 0) (MkTime 2 0) 12 ∅)));
   (site, MkRequest "/rte/signal" "POST" (inl "EOF"))].

Definition served : list http_answer * RTEServerMock * DispatchManager Q :=
  default ([], mock_server, mgr) (serve fill_solver 10 mock_server mgr requests).

Lemma served_run : serve fill_solver 10 mock_server mgr requests = Some (served.1.1, served.1.2, served.2).
Proof. vm_compute. reflexivity. Qed.

Lemma serve_counts_witness :
  rm_failed served.1.2 = 1%Z ∧ default 0%Z (rm_total served.1.2 !! "FCR") = 1%Z.
Proof.
  assert (Forall (fun '(env, _) => env_fair env) requests) as Hfair.
  { do 3 (apply Forall_cons; split; [exact site_fair|]). apply Forall_nil_2. }
  destruct (serve_counts fill_solver 10 mock_server mgr requests _ _ _ Hfair served_run)
    as (_ & Ht & Hf & _).
  split; [exact Hf|exact (Ht "FCR")].
Defined.

Lemma running_inv : service_inv (svc_Manager running).
Proof. apply (proj1 (NewService_inv _ _ _ running_new)). Qed.

Lemma GeneratorStart_runs_witness :
  ∃ intervals errors m',
    GeneratorStart fill_solver 10 (cfg_RTEGenerator (ac_Config (app_config false))) None
      (svc_Manager running) [MkTick 0 0 (Some (MkDraws 0 0 0 0 0, epoch, site)); MkTick 0 0 None] =
      Some (intervals, errors, m') ∧
    length (m_history m') = (length (m_history (svc_Manager running)) + 1)%nat.
Proof.
  destruct (GeneratorStart_runs fill_solver 10 (cfg_RTEGenerator (ac_Config (app_config false))) None
    (svc_Manager running) [MkTick 0 0 (Some (MkDraws 0 0 0 0 0, epoch, site)); MkTick 0 0 None])
    as (ivs & errors & m' & Hrun & Hh & _).
  - cbn. lra.
  - cbn. lia.
  - vm_compute. discriminate.
  - exact running_inv.
  - apply Forall_cons. split; [split; [exact site_fair|exact evs_ids]|apply Forall_nil_2].
  - exists ivs, errors, m'. split; [exact Hrun|exact Hh].
Defined.

(** ** Scenarios, predictions, files *)


Definition forecasts : MockPredictionEngine Q :=
  MkMockPrediction (Some {["a" := 1 # 2]}) (Some {["b" := [1 # 2; 9 # 10]]}).

Definition mgr_predicting : DispatchManager Q :=
  MkManager DEqual LPNone ∅ FNoop true Second None false None (Some (mock_engine forecasts)) None None [].

Lemma prediction_frame_witness :
  AvailabilityProb <$> considered mgr_predicting site (ask 12) [] = [1 # 2; 1; 1] ∧
  Forall2 (fun v v' => ID v' = ID v) (Candidates.Filter evs (ask 12))
    (considered mgr_predicting site (ask 12) []).
Proof.
  split; [vm_compute; reflexivity|].
  eapply Forall2_impl; [exact (prediction_frame mgr_predicting site (ask 12) [] forecasts eq_refl)|].
  intros v v' Hv. exact (proj1 Hv).
Defined.

Lemma LoadConfig_DecodeConfig_witness :
  LoadConfig (MkSchedConfig 0 0) (fun _ => (MkSchedConfig 30 100, None)) (fun _ => (MkSchedConfig 0 0, Some "EOF"))
      "conf.d/plan.YAML" (inr "target: 100") = (MkSchedConfig 30 100, None) ∧
  ToLower "YAML" ∈ ["yaml"; "yml"; "json"].
Proof.
  destruct (LoadConfig_DecodeConfig (MkSchedConfig 0 0) (fun _ => (MkSchedConfig 30 100, None))
    (fun _ => (MkSchedConfig 0 0, Some "EOF")) "conf.d/plan" "YAML" "target: 100")
    as [[Hin Heq]|[Hout _]].
  - repeat (apply Forall_cons; split; [split; discriminate|]). apply Forall_nil_2.
  - split; [exact Heq|exact Hin].
  - exfalso. apply Hout. apply list_elem_of_here.
Defined.
