(* ===== verification/TestUtil.v ===== *)
(** * Helpers of the integration tests

    Models [test/util/util.go]: the loops that poll the mock server, the metrics
    endpoint and a broker until they answer or the context ends, the wrapper that
    puts a manager behind the mock server, and the start of a broker in a
    container with what it leaves behind.  Docker, the file system and the
    network are outside: their answers are arguments. *)

From S2P Require Import Prelude Num GoTime GoText Model PowerMap MathExp LPDispatcher Tuner Manager Rte Service.
From stdpp Require Import base gmap strings list.
From Stdlib Require Import ZArith Lia.

#[local] Open Scope Z_scope.

Definition RTEServerTimeout : Duration := 5 * Second.
Definition MosquittoReadyTimeout : Duration := 5 * Second.
Definition MetricTimeout : Duration := 5 * Second.
Definition pollInterval : Duration := 50 * Millisecond.

(** ** Polling *)

(** What an attempt means for the loop: it returns, or it waits. *)
Inductive verdict := Return (err : option go_error) | Again.

(** The loops have one shape.  A round is an attempt with the case the [select]
    after it takes: [Some err] when the context is done, with [ctx.Err()], [None]
    when [pollInterval] elapses.  The result is [None] while the loop goes on. *)
Fixpoint poll_until {A} (judge : A → verdict) (wrap : go_error → go_error)
    (rounds : list (A * option go_error)) : option (option go_error) :=
  match rounds with
  | [] => None
  | (a, waited) :: rounds =>
    match judge a with
    | Return err => Some err
    | Again =>
      match waited with
      | Some err => Some (Some (wrap err))
      | None => poll_until judge wrap rounds
      end
    end
  end.

(** The attempt of [WaitForRTEServer]: the error of the request or the status. *)
Definition judge_ping (a : go_error + Z) : verdict :=
  match a with inr 200 => Return None | _ => Again end.

Definition WaitForRTEServer : list ((go_error + Z) * option go_error) → option (option go_error) :=
  poll_until judge_ping (fun err => Wrapped ("server not ready: " +:+ Error err) err).

(** [strings.Contains(s, sub)]. *)
Fixpoint Contains (s sub : string) : bool :=
  String.prefix sub s ||
  match s with
  | EmptyString => false
  | String _ s => Contains s sub
  end.

(** The attempt of [WaitForMetric]: the error of the request, or the error of
    reading the body, or the body. *)
Definition judge_metric (substr : string) (a : go_error + (go_error + string)) : verdict :=
  match a with
  | inl _ => Again
  | inr (inl rerr) => Return (Some (Wrapped ("read metrics body: " +:+ Error rerr) rerr))
  | inr (inr body) => if Contains body substr then Return None else Again
  end.

(** [Quote] is the verb [%q]. *)
Definition WaitForMetric (Quote : string → string) (substr : string) :
    list ((go_error + (go_error + string)) * option go_error) → option (option go_error) :=
  poll_until (judge_metric substr)
    (fun err => Wrapped ("metric " +:+ Quote substr +:+ " not found: " +:+ Error err) err).

(** The attempt of [waitForMQTTReady]: the error of the connection. *)
Definition waitForMQTTReady : list (option go_error * option go_error) → option (option go_error) :=
  poll_until (fun a => match a with None => Return None | Some _ => Again end) id.

(** ** The wrapper *)

Record ManagerWrapper (F : Type) := MkWrapper { mw_Mgr : DispatchManager F; mw_Vehicles : list (Vehicle F) }.
Arguments MkWrapper {F}.
Arguments mw_Mgr {F}.
Arguments mw_Vehicles {F}.

(** The vehicles of the caller are ignored. *)
Definition WrapperDispatch {F} `{Num F} `{!MathExp F} `{!MapRange} (simplex : LPSolver F)
    (fuel : nat) (w : ManagerWrapper F) (env : Env F) (sig : FlexibilitySignal F)
    (vehicles : list (Vehicle F)) : option (DispatchResult F * DispatchManager F * list (effect F)) :=
  Dispatch simplex fuel (mw_Mgr w) env sig (mw_Vehicles w).

(** ** The broker *)

(** What a test leaves on the host. *)
Record Host := MkHost { h_dirs : gset string; h_containers : gset string }.

#[export] Instance Host_eq_dec : EqDecision Host.
Proof. solve_decision. Defined.

(** The answers of the outside: the directory, the write of the configuration,
    the container, its host and mapped port, the connections of the probe, and
    whether removing a directory and terminating a container succeed. *)
Record Docker := MkDocker {
  dk_MkdirTemp : go_error + string;
  dk_WriteFile : option go_error;
  dk_Container : go_error + string;
  dk_Host : go_error + string;
  dk_Port : go_error + string;
  dk_probe : list (option go_error * option go_error);
  dk_removes : bool;
  dk_terminates : bool
}.

Definition RemoveAll (d : Docker) (dir : string) (h : Host) : Host :=
  if dk_removes d then MkHost (h_dirs h ∖ {[dir]}) (h_containers h) else h.

Definition Terminate (d : Docker) (cont : string) (h : Host) : Host :=
  if dk_terminates d then MkHost (h_dirs h) (h_containers h ∖ {[cont]}) else h.

(** The cleanup function that is returned: the container, then the directory. *)
Definition cleanup (d : Docker) (cont dir : string) (h : Host) : Host :=
  RemoveAll d dir (Terminate d cont h).

(** The host afterwards, and the error or the URL with what the cleanup function
    is about; [None] while the probe waits. *)
Definition StartMosquitto (d : Docker) (h : Host) :
    option (Host * (go_error + string * (string * string))) :=
  match dk_MkdirTemp d with
  | inl err => Some (h, inl err)
  | inr dir =>
    let h := MkHost ({[dir]} ∪ h_dirs h) (h_containers h) in
    match dk_WriteFile d with
    | Some err => Some (RemoveAll d dir h, inl err)
    | None =>
      match dk_Container d with
      | inl err => Some (RemoveAll d dir h, inl err)
      | inr cont =>
        let h := MkHost (h_dirs h) ({[cont]} ∪ h_containers h) in
        match dk_Host d, dk_Port d with
        | inl err, _ => Some (cleanup d cont dir h, inl err)
        | inr _, inl err => Some (cleanup d cont dir h, inl err)
        | inr host, inr port =>
          ready ← waitForMQTTReady (dk_probe d);
          match ready with
          | Some err => Some (cleanup d cont dir h, inl err)
          | None => Some (h, inr ("tcp://" +:+ host +:+ ":" +:+ port, (cont, dir)))
          end
        end
      end
    end
  end.

(** ** Polling, characterised *)

Section poll.
Context {A : Type} (judge : A → verdict) (wrap : go_error → go_error).

(** The rounds before the loop ends: attempts without a verdict, each followed by
    the interval. *)
Definition idle (r : A * option go_error) : Prop := judge r.1 = Again ∧ r.2 = None.

Lemma poll_until_idle before rounds :
  Forall idle before → poll_until judge wrap (before ++ rounds) = poll_until judge wrap rounds.
Proof.
  induction 1 as [|[a w] before [Hj Hw] _ IH]; [done|]. cbn in *. by rewrite Hj, Hw.
Qed.

(** The loop ends at the first attempt with a verdict or at the first wait that
    the context cuts short, whichever is first, and with nothing else. *)
Lemma poll_until_Some rounds res :
  poll_until judge wrap rounds = Some res ↔
  ∃ before a w rest, rounds = before ++ (a, w) :: rest ∧ Forall idle before ∧
    (judge a = Return res ∨ ∃ err, judge a = Again ∧ w = Some err ∧ res = Some (wrap err)).
Proof.
  split.
  - induction rounds as [|[a w] rounds IH]; [done|]. cbn. destruct (judge a) as [err|] eqn:Hj.
    { intros [= <-]. exists [], a, w, rounds. split_and!; [done|constructor|by left]. }
    destruct w as [err|].
    { intros [= <-]. exists [], a, (Some err), rounds. split_and!; [done|constructor|]. right. by exists err. }
    intros (before & a' & w' & rest & -> & Hb & Hres)%IH.
    exists ((a, None) :: before), a', w', rest. split_and!; [done|by constructor|done].
  - intros (before & a & w & rest & -> & Hb & Hres). rewrite poll_until_idle by done. cbn.
    destruct Hres as [->|(err & -> & -> & ->)]; done.
Qed.
End poll.

(** A context that ends ends the loop: no sequence of attempts keeps it going. *)
Lemma poll_until_terminates {A} (judge : A → verdict) wrap rounds :
  (∃ r, r ∈ rounds ∧ is_Some r.2) → is_Some (poll_until judge wrap rounds).
Proof.
  intros ([a w] & Hin & err & Hw). cbn in Hw. subst w. induction rounds as [|[a' w'] rounds IH].
  { by apply not_elem_of_nil in Hin. }
  cbn. destruct (judge a'); [done|]. destruct w'; [done|].
  apply elem_of_cons in Hin as [[=]|Hin]. by apply IH.
Qed.

(** ** Readiness of the mock server *)

Section ready.
Context {F : Type} `{Num F} `{!MathExp F} `{!MapRange}.
Context (simplex : LPSolver F).

(** A ping, to a server that does not listen yet or to the mux of one that does. *)
Definition ping (fuel : nat) (m : DispatchManager F) (env : Env F) (refused : go_error) (up : bool) :
    go_error + Z :=
  if up then
    match serve_path simplex fuel m env "/rte/ping" "GET" (inl "EOF") with
    | Some (HStatus code, _, _) => inr code
    | Some (HError code _, _, _) => inr code
    | None => inl refused
    end
  else inl refused.

(** The wait ends without an error exactly if the server listens at a ping that
    comes before the context ends: the mock server answers its ping in every
    state of the manager. *)
Theorem WaitForRTEServer_ready fuel m env refused (rounds : list (bool * option go_error)) :
  WaitForRTEServer ((fun r => (ping fuel m env refused r.1, r.2)) <$> rounds) = Some None ↔
  ∃ before w rest, rounds = before ++ (true, w) :: rest ∧ Forall (fun r => r = (false, None)) before.
Proof.
  unfold WaitForRTEServer. induction rounds as [|[up w] rounds IH].
  { split; [done|]. by intros ([|] & ? & ? & [=] & _). }
  rewrite fmap_cons. destruct up; cbn [poll_until fst snd ping judge_ping].
  { split; [|done]. intros _. exists [], w, rounds. by split. }
  destruct w as [err|].
  { split; [done|]. intros ([|r before] & ? & ? & Heq & Hb); [done|].
    apply Forall_cons in Hb as [-> _]. done. }
  rewrite IH. split.
  - intros (before & w & rest & -> & Hb). exists ((false, None) :: before), w, rest.
    split; [done|by constructor].
  - intros ([|r before] & w & rest & Heq & Hb); [done|]. injection Heq as <- ->.
    apply Forall_cons in Hb as [_ Hb]. by exists before, w, rest.
Qed.
End ready.

(** ** Nothing is left behind *)

(** However far the start gets, on an error the host is as it was before, and on
    success the cleanup function puts it back, provided that removing and
    terminating work and that directory and container are new. *)
Theorem StartMosquitto_clean d h h' res
    (Hrm : dk_removes d = true) (Hterm : dk_terminates d = true)
    (Hdir : ∀ dir, dk_MkdirTemp d = inr dir → dir ∉ h_dirs h)
    (Hcont : ∀ c, dk_Container d = inr c → c ∉ h_containers h)
    (Hstart : StartMosquitto d h = Some (h', res)) :
  match res with
  | inl _ => h' = h
  | inr (_, (cont, dir)) => h' ≠ h ∧ cleanup d cont dir h' = h
  end.
Proof.
  unfold StartMosquitto, cleanup, RemoveAll, Terminate in *. rewrite Hrm, Hterm in *.
  destruct h as [dirs conts]. cbn [h_dirs h_containers] in *.
  destruct (dk_MkdirTemp d) as [err|dir]; [by injection Hstart as <- <-|]. specialize (Hdir dir eq_refl).
  assert (({[dir]} ∪ dirs) ∖ {[dir]} = dirs) as Hd by (clear -Hdir; set_solver).
  destruct (dk_WriteFile d); [injection Hstart as <- <-; by rewrite Hd|].
  destruct (dk_Container d) as [err|cont]; [injection Hstart as <- <-; by rewrite Hd|].
  specialize (Hcont cont eq_refl). assert (({[cont]} ∪ conts) ∖ {[cont]} = conts) as Hc by (clear -Hcont; set_solver).
  destruct (dk_Host d), (dk_Port d); try (injection Hstart as <- <-; by rewrite Hd, Hc).
  destruct (waitForMQTTReady _) as [[err|]|]; [| |done]; injection Hstart as <- <-; cbn;
    rewrite Hd, Hc; [done|]. split; [|done]. intros [= Heq _]. clear -Hdir Heq. set_solver.
Qed.
