(* ===== verification/RunWitnesses.v ===== *)
(** * Witnesses for the running parts

    The collectors, the process with its registry, the telemetry manager, the log
    files, the metrics server and the helpers of the tests at concrete inputs. *)

From S2P Require Import Prelude Num GoTime GoText Model PowerMap MathExp LPDispatcher Tuner DispatchLog.
From S2P Require Import Monitoring Manager ManagerFacts Collectors Discovery Config Rte Telemetry TelemetryRun.
From S2P Require Import Sinks Prom Influx PromServer Service Process Api LogFiles TestUtil Witnesses SystemWitnesses.
From stdpp Require Import base gmap strings list relations.
From Stdlib Require Import ZArith QArith Lqa Lia.

#[local] Open Scope string_scope.
#[local] Open Scope list_scope.
#[local] Open Scope Q_scope.

#[local] Existing Instance exp_taylor.

(** ** Collectors *)

(** A signal that three vehicles share, of which one does not answer, then one
    that asks for nothing. *)
Definition two_signals : list (Env Q * FlexibilitySignal Q) := [(site, ask 12); (site, ask 0)].

Definition no_run : list (DispatchResult Q) * DispatchManager Q * Collectors Q := ([], mgr, newCollectors).

Definition collected : list (DispatchResult Q) * DispatchManager Q * Collectors Q :=
  default no_run (RunCollected fill_solver 10 mgr newCollectors two_signals).

Lemma collected_run :
  RunCollected fill_solver 10 mgr newCollectors two_signals =
  Some (collected.1.1, collected.1.2, collected.2).
Proof.
  assert (match RunCollected fill_solver 10 mgr newCollectors two_signals with
          | Some _ => true | None => false end = true) as Hok by (vm_compute; reflexivity).
  unfold collected. destruct (RunCollected _ _ _ _ _) as [[[rs m] c]|]; [reflexivity|discriminate Hok].
Qed.

Lemma two_signals_fair : Forall (fun '(env, _) => env_fair env) two_signals.
Proof. do 2 (apply Forall_cons; split; [exact site_fair|]). apply Forall_nil_2. Qed.

Lemma Run_collectors_witness :
  (co_mqttSuccess collected.2 + co_mqttFailure collected.2)%Z = all_orders collected.1.1 ∧
  (co_mqttSuccess collected.2 =? 6)%Z = true.
Proof.
  split; [|vm_compute; reflexivity].
  exact (proj1 (proj2 (Run_collectors fill_solver 10 mgr two_signals _ _ _ two_signals_fair collected_run))).
Defined.

Lemma Dispatch_captures_witness :
  captures SentryMonitor mgr site out_res (ask 12) ≡ₚ
    [Captured (Error ErrAckTimeout)
       (<["vehicle_id" := "a"]> (<["signal_type" := "FCR"]> {["module" := "dispatch_manager"]}))].
Proof.
  rewrite (proj2 (Dispatch_captures fill_solver 10 mgr site (ask 12) [] out_res mgr_out.1.2 mgr_out.2
    site_fair mgr_run)).
  vm_compute. reflexivity.
Defined.

Lemma ack_rate_share_witness :
  (0 <= ack_rate_of out_res <= 1) ∧ Qeq_bool (ack_rate_of out_res) (2 # 3) = true.
Proof.
  split; [|vm_compute; reflexivity].
  apply (proj1 (ack_rate_share fill_solver 10 mgr site (ask 12) [] out_res mgr_out.1.2 mgr_out.2
    site_fair mgr_run ltac:(vm_compute; discriminate))).
Defined.

(** ** The process *)

Abbreviation registry := (gmap string Collector).

Lemma empty_new cs : new_in (∅ : registry) cs.
Proof. intros c _. change ((∅ : registry) !! col_Name c = None). apply lookup_empty. Qed.

Lemma process_start_witness :
  ∃ r1 msg, start_process world (app_config false) (∅ : registry) = (r1, Returned (inr running)) ∧
    app_New world (app_config false) r1 = (r1, Panicked msg).
Proof.
  destruct (process_start (∅ : registry) world (app_config false) (empty_new _)) as (r1 & Hrun & Hagain).
  destruct (proj2 (Hagain running running_new) eq_refl) as [msg Hmsg].
  exists r1, msg. split; [|exact Hmsg]. rewrite Hrun. exact (f_equal (fun x => (r1, Returned x)) running_new).
Defined.

Lemma ResetMetrics_default_witness :
  ∃ r' msg, init_dispatch (∅ : registry) = (r', Returned tt) ∧ ResetMetrics r' (Some r') = (r', Panicked msg).
Proof.
  destruct (ResetMetrics_default (∅ : registry) ∅ (empty_new _) (empty_new _)) as (r' & Hi & _ & [msg Hp] & _).
  exists r', msg. split; [exact Hi|exact Hp].
Defined.

(** ** Telemetry *)

Definition answer (soc : Q) : string + state_msg Q := inr (MkMsg "" soc None None 7 None).

Lemma poll_timers_positive_witness :
  (0 < poll_period (MkTelemetryConfig true "pull" 0 "" "" "" 0))%Z.
Proof.
  exact (proj1 (poll_timers_positive (MkTelemetryConfig true "pull" 0 "" "" "" 0)
    ltac:(vm_compute; discriminate) ltac:(vm_compute; discriminate))).
Defined.

(** Two vehicles answer the first poll, one of them late. *)
Definition polls : list (tel_event (F := Q)) :=
  [TTick (Some (inr evs)) epoch; TArrive "v2g/response/a" (answer 0) epoch; TReceive epoch; TTimeout;
   TArrive "v2g/response/b" (answer 0) epoch].

Definition polled : TelemetryManager (F := Q) := default tel_init (tel_run true 0 tel_init polls).

Lemma polled_run : tel_run true 0 tel_init polls = Some polled.
Proof. vm_compute. reflexivity. Qed.

Lemma telemetry_refines_polls_witness :
  ∃ ps (cur : list (telemetryMessage Q * Time)), arrivals polls = taken_by ps ++ cur.*1 ++ te_respCh polled ++ te_senders polled ∧
    te_total polled = polls_total true 0 ps.
Proof.
  destruct (telemetry_refines_polls true 0 polls polled polled_run) as (ps & cur & Hf & _ & _ & _ & _ & Hi).
  exists ps, cur. split; [exact Hf|]. exact (proj2 (Hi eq_refl)).
Defined.

Lemma late_response_counts_witness :
  ∃ m', tel_run true 0 polled [TTick (Some (inr evs)) epoch; TReceive epoch; TTimeout] = Some m' ∧
    pr_timeouts (te_total m') = 4%Z.
Proof.
  destruct (late_response_counts true 0 polled evs (onResponse "v2g/response/b" (answer 0) epoch) epoch epoch
    eq_refl eq_refl eq_refl eq_refl ltac:(apply (bool_decide_unpack _); vm_compute; exact I))
    as (m' & Hrun & _ & Ht & _).
  exists m'. split; [exact Hrun|]. rewrite Ht. vm_compute. reflexivity.
Defined.

(** The loop ends while a response is on its way. *)
Definition stopped : TelemetryManager (F := Q) := default tel_init (tel_run true 0 tel_init [TCancel; TReturn]).

Lemma stopped_blocks_witness :
  ∃ m', tel_run true 0 stopped (replicate 101 (TArrive "v2g/response/a" (answer 0) epoch)) = Some m' ∧
    te_senders m' ≠ [].
Proof.
  eexists. split; [vm_compute; reflexivity|].
  refine (proj2 (proj2 (stopped_blocks true 0 [TCancel; TReturn]
    (replicate 101 (TArrive "v2g/response/a" (answer 0) epoch)) stopped _ eq_refl eq_refl eq_refl
    ltac:(vm_compute; reflexivity))) _).
  vm_compute. lia.
Defined.

(** ** Log files *)

Definition logged (id : string) (n : Z) : LogRecord Q :=
  MkLogRecord (MkTime n 0) (ask 12) 12 [id] (MkLogResult ∅ None ∅ ∅ (ask 12) 0 ∅).

Definition short_enc : encoder Q := fun _ => inr 200%Z.

Definition log_path : string := "dispatch.log".


(** The history endpoint over the database. *)
Definition history_request : Request := MkRequest "GET" "/api/dispatch/logs" ∅ "".

Lemma history_served_witness :
  ∃ res, NewLogHandler (SQLiteStore_Query None (fun _ => None)
      (append_all (LogStore0 := sqlite_ops (fun _ => None) (fun _ => None) None None) []
         [logged "a" 0; logged "b" 1]).1) "" (fun _ => None) (fun _ => None) history_request = RJson (Some res) ∧
    logged "b" 1 ∈ res.
Proof.
  pose proof (history_served (LogStore0 := sqlite_ops (fun _ => None) (fun _ => None) None None)
    (sqlite_holds (F := Q)) [] [logged "a" 0; logged "b" 1] "" (fun _ => None) (fun _ => None) history_request
    (conj eq_refl (Forall_nil_2 _)) ltac:(repeat constructor; vm_compute; discriminate) (fun _ => eq_refl)
    (or_introl eq_refl)) as Hs.
  eexists. split; [exact (proj1 Hs)|]. apply (proj1 (proj2 Hs)).
  - apply list_elem_of_further, list_elem_of_here.
  - split; [intros t [=]|]. split; [intros t [=]|]. split; [|reflexivity]. intros ty _ Hty.
    exfalso. revert Hty. unfold SignalType_String. repeat case_match; vm_compute; discriminate.
Defined.

Definition before : FileSystem Q := {[log_path := [MkLine 200 (Some (logged "a" 0))]]}.
Definition after : FileSystem Q :=
  <[log_path := [MkLine 200 (Some (logged "b" 1))]]>
    (<[backup_name log_path "2024-01-02T00-00-00.000" := [MkLine 200 (Some (logged "a" 0))]]> before).

Lemma rotation_hides_witness :
  RotatingStore_Append rotating_write short_enc before log_path (logged "b" 1) after None ∧
  ∀ x, x ∈ RotatingStore_Query no_faults after log_path (MkQuery time_zero time_zero "" 0) → x = logged "b" 1.
Proof.
  assert (RotatingStore_Append rotating_write short_enc before log_path (logged "b" 1) after None) as Happ.
  { split; [|reflexivity]. right. eexists "2024-01-02T00-00-00.000", _.
    split; [vm_compute; reflexivity|]. split; [vm_compute; discriminate|reflexivity]. }
  split; [exact Happ|].
  apply (proj2 (rotation_hides backup_name rotating_write short_enc before after log_path (logged "b" 1) 200
    (MkQuery time_zero time_zero "" 0) ltac:(vm_compute; discriminate) eq_refl Happ
    ltac:(vm_compute; reflexivity))).
  intros name Hn. apply lookup_singleton_ne. exact (not_eq_sym Hn).
Defined.

(** ** The metrics server *)

Lemma StartPromServer_lifetime_witness :
  ∃ s, rtc prom_step prom_start s ∧ ps_watcher s = Finished ∧ is_Some (ps_returned s).
Proof.
  assert (rtc prom_step prom_start (MkPromServer true Waiting None [])) as Hc
    by (apply rtc_once; exact (prom_cancel prom_start)).
  destruct (proj1 (proj2 (StartPromServer_lifetime _ Hc)) eq_refl) as (s & Hs & Hw & Hr).
  exists s. split; [|split; [exact Hw|exact Hr]]. etransitivity; [exact Hc|exact Hs].
Defined.

(** ** The helpers of the tests *)

(** The broker answers the second connection of the probe. *)
Definition docker : Docker :=
  MkDocker (inr "/tmp/mosq1") None (inr "c1") (inr "localhost") (inr "32768")
    [(Some (ErrorString "connection refused"), None); (None, None)] true true.

Lemma StartMosquitto_clean_witness :
  ∃ h', StartMosquitto docker (MkHost ∅ ∅) = Some (h', inr ("tcp://localhost:32768", ("c1", "/tmp/mosq1"))) ∧
    cleanup docker "c1" "/tmp/mosq1" h' = MkHost ∅ ∅.
Proof.
  eexists. split; [vm_compute; reflexivity|].
  refine (proj2 (StartMosquitto_clean docker (MkHost ∅ ∅) _
    (inr ("tcp://localhost:32768", ("c1", "/tmp/mosq1"))) eq_refl eq_refl _ _ _)).
  - intros dir _. apply not_elem_of_empty.
  - intros c _. apply not_elem_of_empty.
  - vm_compute. reflexivity.
Defined.
