(* ===== verification/WireWitnesses.v ===== *)
(** * Witnesses for the messages

    The JSON documents and the messages on the broker at concrete inputs.  The
    text of a float is that of an integer, which satisfies the laws of
    [FloatTextLaws]; timestamps are read by a table. *)

From S2P Require Import Prelude Num GoTime GoText Model PowerMap Tuner MqttClient Discovery Simulator Scheduler.
From S2P Require Import DispatchLog Telemetry Rte Json JsonStruct JsonTime JsonExport Wire WireDiscovery WireRte.
From S2P Require Import LogCodec Witnesses.
From stdpp Require Import base gmap strings list pretty.
From Stdlib Require Import ZArith QArith Lqa Lia.

#[local] Open Scope string_scope.
#[local] Open Scope list_scope.
#[local] Open Scope Q_scope.

(** ** Messages *)

(** A text for the whole numbers of 64 bits, which satisfies the laws. *)
#[local] Instance int64_text : FloatText Q := {|
  finite x := bool_decide (Qden x = 1%positive) && ((- 2 ^ 63 <=? Qnum x) && (Qnum x <? 2 ^ 63))%Z;
  float_text x := int_text (Qnum x);
  parse_float t := inject_Z <$> parse_int64 t
|}.

#[local] Instance int64_text_laws : FloatTextLaws Q.
Proof.
  split; intros [n d]; cbn; rewrite !andb_true_iff, bool_decide_eq_true; intros [-> [H1 H2]].
  - apply int_text_number.
  - rewrite int_text_parse by lia. reflexivity.
Qed.

Definition sent_order : PahoClient * (go_error + string) * list (string * string) :=
  SendOrderWire paho "cmd" "a" (5 : Q) epoch (fun _ => None).

Lemma order_acknowledged_witness :
  sent_order.2 = [("vehicle/a/command", snd (nth 0 sent_order.2 ("", "")))] ∧
  ∃ ack, ack_payload "cmd" = Some ack ∧
    WaitForAck (onAckWire sent_order.1.1 ack) "cmd" case_ack = Some (set_ackChans sent_order.1.1 ∅, true, None).
Proof.
  split; [vm_compute; reflexivity|].
  destruct (order_acknowledged paho "cmd" simulated (5 : Q) 0 epoch epoch epoch (fun _ => None)
    sent_order.1.1 "cmd" sent_order.2 0%Z) as [_ (payload & ack & v1 & out1 & v2 & out2 & _ & _ & _ & _ & _ & Hack & Hw)].
  - apply (bool_decide_unpack _). vm_compute. exact I.
  - vm_compute. reflexivity.
  - reflexivity.
  - reflexivity.
  - reflexivity.
  - exists ack. split; [exact Hack|]. rewrite Hw. vm_compute. reflexivity.
Defined.

(** A full battery at rest, recorded. *)
Definition full_vehicle : SimulatedVehicle Q :=
  MkSimVehicle "a" true 7 (MkBattery 40 1 7 7) true 0 [] 0 true (Some []) (AutoAck 0) (MkSimCaps true true true).

Lemma state_recorded_witness :
  ∃ e, processWire true 0 (state_bytes (state_payload full_vehicle true epoch)) "v2g/state/a" "push" epoch =
      (None, [e]) ∧ ID (se_Vehicle e) = "a" ∧ SoC (se_Vehicle e) = (1 : Q).
Proof.
  destruct (state_recorded full_vehicle true 0 "v2g/state/a" "push" epoch epoch) as (e & He & Hid & _ & _ & _ & Hsoc & _).
  - apply (bool_decide_unpack _). vm_compute. exact I.
  - discriminate.
  - split; [vm_compute; discriminate|vm_compute; reflexivity].
  - exists e. split; [exact He|]. split; [exact Hid|]. rewrite Hsoc. vm_compute. reflexivity.
Defined.

(** A plan of one entry, whose identifier needs an escape. *)
Definition exported : list (EffacementEntry Q) := [MkEntry "a<b" time_zero 5].

Lemma WriteJSON_round_trip_witness :
  ∃ out, WriteJSON (Some exported) = Some out ∧
    read_plan 0 out = Some [("a<b", "0001-01-01T00:00:00Z", (5 : Q))].
Proof.
  destruct (WriteJSON_round_trip (0 : Q) (Some exported)) as (out & Hout & Hread).
  exists out. split; [exact Hout|]. rewrite Hread. vm_compute. reflexivity.
Defined.

(** ** Discovery *)

(** The timestamps of the examples. *)
Definition time_table : TimeParser := fun s =>
  if bool_decide (s = FormatRFC3339Nano time_zero) then Some time_zero
  else if bool_decide (s = FormatRFC3339Nano epoch) then Some epoch
  else if bool_decide (s = "2024-02-29T00:00:00Z") then Some (MkTime (738944 * ns_per_day) 0)
  else if bool_decide (s = "2024-02-29T01:00:00Z") then Some (MkTime (738944 * ns_per_day + 3600 * Second) 0)
  else None.

Definition other_vehicle : SimulatedVehicle Q :=
  MkSimVehicle "b" false 11 (MkBattery 60 0 11 11) true 0 [] 0 true (Some []) (AutoAck 0) (MkSimCaps true true true).

Lemma fleet_discovered_witness :
  ∃ answers, mapM (fun v => onDiscoveryWire "v2g/" v "hello") [full_vehicle; other_vehicle] = Some answers ∧
    (DiscoverWire time_table None None (snd <$> mjoin answers)).1 = [described full_vehicle; described other_vehicle].
Proof.
  assert (finite (n0 : Q) = true) as Hzero by (vm_compute; reflexivity).
  destruct (fleet_discovered time_table Hzero ltac:(vm_compute; reflexivity) "v2g/" [full_vehicle; other_vehicle])
    as (answers & Ha & Hd & _).
  - apply (bool_decide_unpack _). vm_compute. exact I.
  - repeat constructor; apply (bool_decide_unpack _); vm_compute; exact I.
  - exists answers. split; [exact Ha|]. rewrite Hd. reflexivity.
Defined.

(** ** A signal, followed by bytes that are ignored *)

Lemma signal_handled_witness :
  ∃ ms fs, signal_document "FCR" "2024-02-29T00:00:00Z" "2024-02-29T01:00:00Z" (5 : Q) = Some ms ∧
    handleSignalWire time_table "POST" (json_text (JObj ms) +:+ "garbage") = (HStatus 200, [RTotal "FCR"], Some fs).
Proof.
  pose proof (signal_handled time_table "POST" "FCR" "2024-02-29T00:00:00Z" "2024-02-29T01:00:00Z" (5 : Q)
    (MkTime (738944 * ns_per_day) 0) (MkTime (738944 * ns_per_day + 3600 * Second) 0) "garbage"
    ltac:(apply (bool_decide_unpack _); vm_compute; exact I)
    ltac:(split; [apply (bool_decide_unpack _); vm_compute; exact I|split; vm_compute; reflexivity])
    ltac:(split; [apply (bool_decide_unpack _); vm_compute; exact I|split; vm_compute; reflexivity])) as Hs.
  destruct (signal_document _ _ _ _) as [ms|] eqn:Hd; [|vm_compute in Hd; discriminate Hd].
  exists ms. eexists. split; [reflexivity|]. etransitivity; [exact Hs|]. vm_compute. reflexivity.
Defined.

(** ** The log *)

Definition appended_record (id : string) : LogRecord Q :=
  MkLogRecord epoch (MkSignal SignalFCR 12 (30 * Minute)%Z epoch) 12 [id]
    (MkLogResult {[id := 12]} (Some {["b" := 3]}) {["c" := "timeout"]} {[id := true]}
       (MkSignal SignalFCR 12 (30 * Minute)%Z epoch) 0 ∅).

Lemma singleton_ok {A} (ok : A → Prop) k x : valid_utf8 k → ok x → map_ok ok {[k := x]}.
Proof. intros Hk Hx k' x' [<- <-]%lookup_singleton_Some. by split. Qed.

Lemma empty_ok {A} (ok : A → Prop) : map_ok ok ∅.
Proof. intros k x Hk. by rewrite lookup_empty in Hk. Qed.

Lemma appended_record_ok id : valid_utf8 id → record_ok time_table (appended_record id).
Proof.
  intros Hid. assert (flex_ok time_table (log_Signal (appended_record id))) as Hf.
  { split; [|split]; [split; vm_compute; [discriminate|reflexivity]..|vm_compute; reflexivity]. }
  split; [vm_compute; reflexivity|exact Hf|by constructor|].
  split; cbn; [by apply singleton_ok| | |by apply singleton_ok|exact Hf|apply empty_ok].
  - intros m [= <-]. apply singleton_ok; [|done]. apply (bool_decide_unpack _). vm_compute. exact I.
  - apply singleton_ok; apply (bool_decide_unpack _); vm_compute; exact I.
Qed.

Definition log_file : string := default "" (append_records "" [appended_record "a"; appended_record "b"]).

Lemma log_bytes_refine_witness :
  JSONLQuery (scanned_lines time_table log_file) (MkQuery time_zero time_zero "a" 0%Z) = Some [appended_record "a"].
Proof.
  assert (Forall (record_ok time_table) [appended_record "a"; appended_record "b"]) as Hok.
  { repeat apply Forall_cons_2; [apply appended_record_ok; apply (bool_decide_unpack _); vm_compute; exact I..|].
    apply Forall_nil_2. }
  rewrite (proj2 (log_bytes_refine time_table [appended_record "a"; appended_record "b"]
    (MkQuery time_zero time_zero "a" 0%Z) Hok) log_file).
  - vm_compute. reflexivity.
  - vm_compute. reflexivity.
  - intros r t Hr Ht. apply elem_of_cons in Hr as [->|[->|Hr%elem_of_nil]%elem_of_cons]; [..|done];
      vm_compute in Ht; injection Ht as <-; vm_compute; reflexivity.
Defined.
